(* ===== verification/_CoqProject ===== *)
-Q . S2P
Prelude.v
GoText.v
Netip.v
Flowspec.v
VppTypes.v
Translate.v
TranslateFacts.v
VppFacts.v
Manager.v
ManagerFacts.v
Metrics.v
MetricsFacts.v
VppClient.v
VppClientFacts.v
VppCloseFacts.v
LocalRules.v
LocalRulesFacts.v
Packet.v
PacketFacts.v
Sflow.v
SflowFacts.v
Spread.v
SpreadFacts.v
Float64.v
Float64Facts.v
DetTypes.v
HeavyKeeper.v
HeavyKeeperFacts.v
Store.v
StoreFacts.v
GoParse.v
GoParseFacts.v
Duration.v
DurationFacts.v
Template.v
DetRule.v
DetEmit.v
DetEngine.v
DetEmitFacts.v
SampleFacts.v
DetRuleFacts.v
DetTriggerFacts.v
DetEngineFacts.v
DetCompile.v
DetCompileFacts.v
FindingFacts.v
Bgp.v
BgpServer.v
BgpFacts.v
OriginFacts.v
Agent.v
AgentFacts.v
System.v
SystemFacts.v
VppStats.v
VppStatsFacts.v
DetPersist.v
DetPersistFacts.v
Fingerprint.v
FingerprintFacts.v
Logging.v
LoggingFacts.v
Config.v
ConfigFacts.v
Startup.v
StartupFacts.v
StateFile.v
StateFileFacts.v
Status.v
StatusFacts.v
Lifecycle.v
LifecycleFacts.v
Sources.v
SourcesFacts.v
