(* ===== verification/Prelude.v ===== *)
(** * flowspec-vpp-agent: a verification library

    ** The program

    The agent turns BGP FlowSpec routes (RFC 8955/8956) and its own attack
    detections into VPP ACL entries that drop traffic.
    - BGP: an embedded GoBGP speaker hands routes to [internal/bgp], which decodes
      them ([internal/flowspec]) and sends updates to the manager; propagation
      policies and a receive gate decide whose routes count.
    - Manager ([internal/manager]): the only owner of the rule state.  It translates
      each rule ([internal/translate]), counts references over sessions and pushes
      the desired list of each address family to VPP ([internal/vpp]).
    - Detector ([internal/detector]): decodes sampled packets ([internal/sflow],
      [internal/psample], [internal/packet]), accounts them per identity, evaluates
      trigger expressions and emits findings.  Interface statistics
      ([internal/vppstats]) are a second input.
    - Leases ([internal/localrules]): findings become time-limited rules, sent to the
      same manager as one more session and advertised to send peers.
    - Configuration, logging and the command tie these together.

    ** Files and what they model (paths under src/internal unless noted)

    Shared ground
    - [Prelude]: machine integers, tactics, hint databases, [RangeOrder], list lemmas.
    - [GoText], [GoParse], [GoParseFacts]: strings, [strconv], [strings] and
      [netip] parsers; printing then parsing an address or prefix is the identity.
    - [Netip]: addresses and prefixes, and their text.
    - [Float64], [Float64Facts]: IEEE binary64 as [SpecFloat] computes it; integer
      values are exact up to 2^53.

    FlowSpec to data plane
    - [Flowspec]: flowspec/rule.go, normalize.go, and a packet semantics of rules
      after RFC 8955, the reference for what a rule means.
    - [VppTypes], [VppFacts]: vpp/types.go, backend.go, acl.go, convert.go; the
      first-match semantics of an ACL.
    - [Translate], [TranslateFacts]: translate/*.go.
    - [Manager], [ManagerFacts]: manager/*.go, bgp/event.go.  [Metrics],
      [MetricsFacts]: metrics/metrics.go.
    - [VppClient], [VppClientFacts], [VppCloseFacts]: vpp/client.go, attach.go,
      cleanup.go.
    - [Bgp], [BgpServer], [BgpFacts]: flowspec/parse.go; bgp/encode.go, policy.go,
      watch.go, server.go, advertise.go.  [OriginFacts]: advertising what the
      detector found.
    - [LocalRules], [LocalRulesFacts]: localrules/controller.go.
    - [Agent], [AgentFacts]: the goroutines of the command's main.go around the
      channel of updates, as one transition system over the components above.
      [System], [SystemFacts]: the same with the collectors, the detector's run loop
      and the channels of samples and events.

    Detector
    - [Packet], [PacketFacts]: packet/packet.go.
    - [Sflow], [SflowFacts]: sflow/decode.go, sflow/collector.go,
      psample/collector.go (decoding and the receive loops).  [SampleFacts]: every
      decoded sample is a well-formed packet.  [Sources], [SourcesFacts]: binding the
      two collectors, and the reconnecting loop of vppstats/poller.go.
    - [DetTypes]: detector/types.go and the compiled forms of compile.go.
    - [Spread], [SpreadFacts]: spread.go.  [HeavyKeeper], [HeavyKeeperFacts]:
      heavykeeper.go.  [Store], [StoreFacts]: store.go.  [Template]: template.go.
    - [DetRule], [DetEmit] with [DetRuleFacts], [DetEmitFacts], [DetTriggerFacts]:
      rule.go.
    - [DetEngine], [DetEngineFacts]: engine.go, runtime.go.
    - [DetCompile], [DetCompileFacts]: compile.go, config.go.  [FindingFacts]: what
      the events of compiled rules are about, as an invariant of the run loop.
    - [DetPersist], [DetPersistFacts]: persist.go, snapshot.go, memory.go.
      [Fingerprint], [FingerprintFacts]: fingerprint.go, and a restart from one
      configuration to the next.
    - [VppStats], [VppStatsFacts]: vppstats/store.go, poller.go, persist.go.

    Around it
    - [Logging], [LoggingFacts]: logging/*.go.
    - [Duration], [DurationFacts]: config/duration.go, detector/duration.go, with
      [strconv.ParseFloat] and [time.ParseDuration].
    - [Config], [ConfigFacts]: config/config.go and the option builders of the
      command's main.go.
    - [Startup], [StartupFacts]: the command's detector.go and the part of main.go
      that hands the state over.  [StateFile], [StateFileFacts]: persiststate.go and
      its use at start and shutdown.  [Status], [StatusFacts]: status.go.
    - [Lifecycle], [LifecycleFacts]: main, run, the HTTP endpoint and the health
      check of main.go: what is acquired, started, saved and released, in which
      order, on every way out.

    ** Modelling conventions

    A Go integer is a [Z], wrapped where its operations can wrap ([u8] to [u64]); a
    [float64] is a [SpecFloat] binary64 value; durations and times are nanosecond
    counts.  A map is a [gmap]; where the code ranges over one, the definition takes
    a [RangeOrder], an arbitrary permutation per loop, so theorems hold for every
    iteration order.  Errors are a sum type whose texts are kept as format and
    arguments.  Where the code indexes, slices, divides or shifts, the definition
    returns an option and [None] is the panic.  State is passed explicitly: one
    definition per method, and the goroutine loops are folds over the list of the
    events their [select] received.  Shared objects stay shared: the engine's
    indices hold positions of one rule list, the statistics store is a heap of ring
    sets with two maps of references.

    Fuel is used only in loops that consume their input, and is what is left of the
    input plus one (VLAN tags, sFlow records, duration quantities, message chunks,
    the drain of the log queue) or the bound the source has (eight IPv6 groups or
    extension headers); lemmas show it is never exhausted.  The goroutines of
    [Agent] and [System] are labels of a step function, [None] where the step is
    blocked.  [Lifecycle.run] is a computation over a trace of actions, a stack of
    deferred calls and a metrics registry, in which any call may fail or panic; a monitor ([LifecycleFacts.watch]) says which traces are allowed.  The
    state file is the list of elementary changes of its directory, so a killed
    process is a prefix; the system calls' outcomes are inputs.

    Code outside the repository is a parameter with named laws:
    - VPP's binary API ([VppApi], [VppLaws]; a simulator satisfies them);
    - GoBGP's values ([GoBGP], [GoBGPLaws]), its API calls (a log answered by an
      arbitrary oracle) and path construction;
    - the expr-lang compiler and virtual machine, [math.Pow], SHA-256 and the JSON
      text of a rule's configuration, flag parsing;
    - Prometheus' registry, which takes a metric whose name is not registered yet;
    - YAML and gob coding, slog's formatting handlers, HTTP answers and how long they
      take, the statistics
      segment, an out-of-range conversion of a float to an integer, the rendering of a match with the [%v] verb ([match_GoString]).

    ** Theorems

    - The whole program: [SystemFacts.agent_end_to_end], from bytes on the wire to
      packets dropped, over every interleaving of all its goroutines with channels
      that block or overflow; [AgentFacts.agent_settles_exactly] is the same for any
      stream of findings.  [LifecycleFacts.process_lifecycle]: start-up, failure and
      shutdown, whichever call fails or panics.
    - Data plane, for a backend whose replacements succeed and rules that do not name
      protocol 0: [ManagerFacts.agent_drops_exactly_live_rules] and its parts
      ([manager_refines_rib], [backend_holds_desired], [resync_recovers],
      [rejected_announce_reported]; the metrics agree, [MetricsFacts.metrics_exact]);
      [TranslateFacts.translate_exact],
      [reduce_range_exact], [translate_rejects_with_reason]; the injectivity of ACL
      keys; bootstrap, attachment and reconnection in [VppClientFacts]; a clean exit
      restores the interfaces ([VppCloseFacts.clean_exit_restores]).
    - BGP: [BgpFacts.only_receive_peers_drop] runs from the watch callbacks to the
      packets dropped; [OriginFacts.advertised_finding_is_applied] composes a
      detector's finding, its encoding and a peer's decoding;
      [propagation_gated_before_peers] holds whatever calls fail.
      [accepts] in that file is a reference reading of GoBGP's policy documentation.
    - Leases: the manager holds exactly the rules of the active leases; the timer
      meets every expiry.
    - Decoding: packets, sFlow and PSAMPLE never read out of range (every slice is
      checked), always return, and invert the header layouts; the receive loops account for every sample.
    - Detector: compiled rules satisfy the run-time invariant
      ([compiled_rules_are_well_formed]) and read exactly their window
      ([compiled_terms_read_their_window]); the index is an optimisation
      ([engine_index_exact]); the run loop never panics and is bounded; admission is
      fair; gates measure recent diversity; emissions are debounced yet refreshed; a
      finding drops exactly its identity; a restart restores exactly the history of the
      rules whose configuration is unchanged
      ([FingerprintFacts.restart_restores_unchanged_rules]), and the file in between is replaced atomically
      ([StateFileFacts.save_is_atomic]); the status page is complete
      ([StatusFacts.status_page_faithful]).
    - Statistics: windows are the reference mean or peak of the polls inside them, for
      every term accepted at start-up; a restart keeps every reading; the poller's
      loop over connections is the stream of polls these are about
      ([SourcesFacts.poller_loop_exact]).
    - Start-up and logging: a validated configuration reaches none of the fallbacks;
      duration texts mean exactly what they say ([DurationFacts.durations_exact]);
      the enabled rules are compiled once each; the Telegram sink hands on every line
      up to counted drops, its closing gives up after a bounded time, and a message
      is lost only when its requests fail ([LoggingFacts.telegram_lossless]).
    - Theorems of behaviour that contradicts the code's intent:
      [translate_proto0_widens], [duplicate_protocol_counts_twice],
      [renamed_interface_counted_twice], [log_format_case_ignored_at_validation_only],
      [rule_durations_unguarded], [config_range_check_rounds],
      [vendor_record_taken_for_raw_header], [huge_queue_panics].

    ** Not modelled

    - Sockets, netlink and the statistics segment themselves, signal delivery, the
      HTTP server and the JSON text of the status page, log output and Prometheus'
      exposition: I/O and presentation.  Their answers are inputs.
    - The lists of a rule's configuration do not distinguish a list left out from an
      empty one, which the JSON text under the fingerprint does: such an edit makes
      the program start a rule afresh where the model sees no change.
    - The state file is proved against kills of the process; the code does not sync
      the file, and nothing is claimed about a power loss.
    - [System] starts from an empty history; what a restored history is, is the
      subject of [FingerprintFacts] and [StateFileFacts].
    - Whether the runtime can allocate a channel is an input of [Lifecycle.run]; a
      panic inside a called component or a goroutine is one, too: that they do not
      occur is the subject of the components' theorems.
    - In the Telegram sink, a write that falls between the two flushes of one
      [accumulate] is taken to follow them; only which note reports a lost line
      depends on it.

    ** Plan

    Next: [System] over the VPP client of [VppClient] in place of an arbitrary
    backend, and started from an imported history. *)

From stdpp Require Export base gmap sets list strings sorting.
From Stdlib Require Export ZArith Lia.

#[global] Open Scope Z_scope.
#[global] Set Default Proof Using "Type".
#[global] Arguments String.append : simpl nomatch.

(** ** Machine integers

    A Go integer of width [w] is a [Z]; every conversion or operation that can
    wrap is written with one of these. *)
Declare Scope agent_scope.
Delimit Scope agent_scope with agent.

Definition u8 (z : Z) : Z := z mod 2 ^ 8.
Definition u16 (z : Z) : Z := z mod 2 ^ 16.
Definition u32 (z : Z) : Z := z mod 2 ^ 32.
Definition u64 (z : Z) : Z := z mod 2 ^ 64.

(** [w]-bit range predicate, decidable. *)
Definition in_width (w z : Z) : Prop := 0 <= z < 2 ^ w.

#[global] Instance in_width_dec w z : Decision (in_width w z).
Proof. unfold in_width. apply _. Defined.

Lemma u8_small z : in_width 8 z -> u8 z = z.
Proof. unfold in_width, u8. intros. apply Z.mod_small. lia. Qed.
Lemma u16_small z : in_width 16 z -> u16 z = z.
Proof. unfold in_width, u16. intros. apply Z.mod_small. lia. Qed.
Lemma u32_small z : in_width 32 z -> u32 z = z.
Proof. unfold in_width, u32. intros. apply Z.mod_small. lia. Qed.
Lemma u64_small z : in_width 64 z -> u64 z = z.
Proof. unfold in_width, u64. intros. apply Z.mod_small. lia. Qed.

Lemma u8_width z : in_width 8 (u8 z).
Proof. apply Z.mod_pos_bound. lia. Qed.
Lemma u16_width z : in_width 16 (u16 z).
Proof. apply Z.mod_pos_bound. lia. Qed.
Lemma u32_width z : in_width 32 (u32 z).
Proof. apply Z.mod_pos_bound. lia. Qed.
Lemma u64_width z : in_width 64 (u64 z).
Proof. apply Z.mod_pos_bound. lia. Qed.

(** The bits of a [w]-bit value above [w] are clear. *)
Lemma in_width_testbit w z i : 0 <= w -> in_width w z -> w <= i -> Z.testbit z i = false.
Proof.
  intros Hw [Hz Hlt] Hi. destruct (decide (z = 0)) as [->|]; [apply Z.testbit_0_l|].
  apply Z.bits_above_log2; [done|]. eapply Z.lt_le_trans; [|exact Hi].
  apply Z.log2_lt_pow2; lia.
Qed.

(** A number whose bits above [w] are clear is [w]-bit. *)
Lemma testbit_in_width w z :
  0 <= w -> 0 <= z -> (forall i, w <= i -> Z.testbit z i = false) -> in_width w z.
Proof.
  intros Hw Hz Hb. split; [done|].
  assert (z = z mod 2 ^ w) as ->; [|apply Z.mod_pos_bound; lia].
  apply Z.bits_inj'. intros i Hi. destruct (decide (i < w)).
  - by rewrite Z.mod_pow2_bits_low by lia.
  - rewrite Z.mod_pow2_bits_high by lia. apply Hb. lia.
Qed.

Lemma in_width_land w a b : 0 <= w -> in_width w a -> in_width w b -> in_width w (Z.land a b).
Proof.
  intros Hw Ha Hb. apply testbit_in_width; [done| |].
  - apply Z.land_nonneg. unfold in_width in *. lia.
  - intros i Hi. rewrite Z.land_spec, (in_width_testbit w a); auto.
Qed.

Lemma in_width_lor w a b : 0 <= w -> in_width w a -> in_width w b -> in_width w (Z.lor a b).
Proof.
  intros Hw Ha Hb. apply testbit_in_width; [done| |].
  - apply Z.lor_nonneg. unfold in_width in *. lia.
  - intros i Hi. rewrite Z.lor_spec, (in_width_testbit w a), (in_width_testbit w b); auto.
Qed.

(** ** Errors

    Go's [(T, error)] is [result E T].  Formatted messages are kept unrendered:
    the format string with its arguments, so no formatting verb has to be
    approximated where the text is only logged. *)
Inductive fmtarg :=
  | AStr (s : string)
  | AInt (z : Z).

Record gotext := Text { text_format : string; text_args : list fmtarg }.

Definition plain (s : string) : gotext := Text s [].

Inductive result (E A : Type) :=
  | Ok (a : A)
  | Err (e : E).
Arguments Ok {E A} a.
Arguments Err {E A} e.

#[global] Instance result_ret E : MRet (result E) := fun A a => Ok a.
#[global] Instance result_bind E : MBind (result E) :=
  fun A B f r => match r with Ok a => f a | Err e => Err e end.
#[global] Instance result_fmap E : FMap (result E) :=
  fun A B f r => match r with Ok a => Ok (f a) | Err e => Err e end.

Definition is_ok {E A} (r : result E A) : bool :=
  match r with Ok _ => true | Err _ => false end.

(** [for _, x := range xs { y, err := f(x); if err != nil { return err }; out = append(out, y) }] *)
Fixpoint result_map {E A B} (f : A -> result E B) (xs : list A) : result E (list B) :=
  match xs with
  | [] => Ok []
  | x :: xs' => y ← f x; ys ← result_map f xs'; Ok (y :: ys)
  end.

Lemma result_bind_Ok {E A B} (r : result E A) (f : A -> result E B) b :
  (r ≫= f) = Ok b -> exists a, r = Ok a /\ f a = Ok b.
Proof. destruct r; simpl; [eauto|discriminate]. Qed.

Lemma result_bind_Err {E A B} (r : result E A) (f : A -> result E B) e :
  (r ≫= f) = Err e -> r = Err e \/ exists a, r = Ok a /\ f a = Err e.
Proof. destruct r; simpl; [eauto|left; congruence]. Qed.

Lemma result_map_Ok {E A B} (f : A -> result E B) xs ys :
  result_map f xs = Ok ys <-> Forall2 (fun x y => f x = Ok y) xs ys.
Proof.
  revert ys. induction xs as [|x xs IH]; intros ys; simpl.
  - split; [intros [= <-]; constructor|by inversion 1].
  - split.
    + intros (y & Hy & (ys' & Hys & [= <-])%result_bind_Ok)%result_bind_Ok.
      constructor; [done|]. by apply IH.
    + inversion 1 as [|? y ? ys' Hy Hys]; subst. rewrite Hy; simpl.
      apply IH in Hys. by rewrite Hys.
Qed.

(** ** Map iteration

    Go's [range] over a map visits the entries in an unspecified order.  An
    operation that ranges over a map takes the order of that call as an
    argument: any function that permutes the entries. *)
Record RangeOrder := {
  range_list : forall {A : Type}, list A -> list A;
  range_perm : forall {A : Type} (l : list A), range_list l ≡ₚ l
}.

Definition range_id : RangeOrder := {| range_list := fun _ l => l; range_perm := fun _ l => Permutation_refl l |}.

Definition range_rev : RangeOrder :=
  {| range_list := fun _ l => reverse l; range_perm := fun _ l => reverse_Permutation l |}.

Lemma range_elem (o : RangeOrder) {A} (l : list A) x : x ∈ range_list o l <-> x ∈ l.
Proof. by rewrite (range_perm o). Qed.

(** ** Tactics *)

(** Split the monadic sequence in a hypothesis [... = Ok _]. *)
Ltac inv_ok H :=
  let a := fresh "a" in let Ha := fresh "H" in
  apply result_bind_Ok in H as (a & Ha & H).

Ltac inv_ok_all :=
  repeat match goal with
  | H : (_ ≫= _) = Ok _ |- _ => inv_ok H
  | H : Ok _ = Ok _ |- _ => injection H as H
  | H : Err _ = Ok _ |- _ => discriminate H
  end.

(** Case on the conditions of the goal, keeping the equations. *)
Ltac case_bool :=
  match goal with
  | |- context [if ?b then _ else _] =>
      lazymatch type of b with
      | bool => let E := fresh "E" in destruct b eqn:E
      end
  end.

(** Turn boolean comparisons in the context into propositions. *)
Ltac bool_hyps :=
  repeat match goal with
  | H : _ && _ = true |- _ => apply andb_true_iff in H as [? ?]
  | H : _ || _ = false |- _ => apply orb_false_iff in H as [? ?]
  | H : negb _ = true |- _ => apply negb_true_iff in H
  | H : negb _ = false |- _ => apply negb_false_iff in H
  | H : bool_decide _ = true |- _ => apply bool_decide_eq_true in H
  | H : bool_decide _ = false |- _ => apply bool_decide_eq_false in H
  end.
