(* ===== verification/GoText.v ===== *)
(** * Text formatting of the Go standard library

    The [strconv] and [fmt] renderings the agent builds identities with:
    decimal ([strconv.Itoa], the verb [%d]), two-digit hexadecimal ([%02x]) and
    the shortest hexadecimal of a 16-bit group, with the facts that make such
    identities injective: each rendering is injective, its characters are known,
    and a text split at a delimiter that does not occur in a field determines
    the field. *)
From S2P Require Import Prelude.
From stdpp Require Import pretty.
From Stdlib Require Import Ascii.
#[local] Open Scope Z_scope.

(** ** Characters of a string *)
Fixpoint str_forall (P : ascii -> bool) (s : string) : bool :=
  match s with
  | EmptyString => true
  | String c s' => P c && str_forall P s'
  end.

Definition str_without (c : ascii) (s : string) : Prop :=
  str_forall (fun x => negb (Ascii.eqb x c)) s = true.

Lemma str_forall_app P s1 s2 : str_forall P (s1 +:+ s2) = str_forall P s1 && str_forall P s2.
Proof. induction s1 as [|c s1 IH]; simpl; [done|]. by rewrite IH, andb_assoc. Qed.

Lemma str_forall_weaken (P Q : ascii -> bool) s :
  (forall c, P c = true -> Q c = true) -> str_forall P s = true -> str_forall Q s = true.
Proof.
  intros HPQ. induction s as [|c s IH]; simpl; [done|].
  rewrite !andb_true_iff. intros [? ?]. auto.
Qed.

Lemma str_app_assoc (s1 s2 s3 : string) : (s1 +:+ s2) +:+ s3 = s1 +:+ (s2 +:+ s3).
Proof. induction s1 as [|c s1 IH]; simpl; [done|]. by rewrite IH. Qed.

Lemma str_app_nil_r (s : string) : s +:+ "" = s.
Proof. induction s as [|c s IH]; simpl; [done|]. by rewrite IH. Qed.

Lemma str_app_cons_assoc (s1 s2 : string) c s3 :
  (s1 +:+ String c s2) +:+ s3 = s1 +:+ String c (s2 +:+ s3).
Proof. by rewrite str_app_assoc. Qed.

(** A field without the delimiter is determined by the delimited text. *)
Lemma delim_inj c s1 s2 r1 r2 :
  str_without c s1 -> str_without c s2 ->
  s1 +:+ String c r1 = s2 +:+ String c r2 -> s1 = s2 /\ r1 = r2.
Proof.
  unfold str_without. revert s2.
  induction s1 as [|a s1 IH]; intros [|b s2] H1 H2; simpl in *.
  - by intros [= ->].
  - intros [= -> _]. by rewrite Ascii.eqb_refl in H2.
  - intros [= -> _]. by rewrite Ascii.eqb_refl in H1.
  - apply andb_true_iff in H1 as [_ H1]. apply andb_true_iff in H2 as [_ H2].
    intros [= -> E]. destruct (IH s2 H1 H2 E) as [-> ->]. done.
Qed.

(** ** Decimal *)
Definition is_digit (c : ascii) : bool :=
  (48 <=? Z.of_N (N_of_ascii c)) && (Z.of_N (N_of_ascii c) <=? 57).

(** [strconv.Itoa] on the non-negative integers the agent formats. *)
Definition itoa (z : Z) : string := pretty (Z.to_N z).

Lemma pretty_N_char_digit x : is_digit (pretty_N_char x) = true.
Proof. unfold pretty_N_char. by repeat case_match. Qed.

Lemma pretty_N_go_digits x s :
  str_forall is_digit s = true -> str_forall is_digit (pretty_N_go x s) = true.
Proof.
  revert s. induction (N.lt_wf_0 x) as [x _ IH]; intros s Hs.
  destruct (decide (x = 0)%N) as [->|]; [done|].
  rewrite pretty_N_go_step by lia. apply IH; [apply N.div_lt; lia|].
  simpl. by rewrite pretty_N_char_digit, Hs.
Qed.

Lemma itoa_digits z : str_forall is_digit (itoa z) = true.
Proof.
  unfold itoa, pretty, pretty_N. case_decide; [done|]. by apply pretty_N_go_digits.
Qed.

Lemma itoa_inj a b : 0 <= a -> 0 <= b -> itoa a = itoa b -> a = b.
Proof. unfold itoa. intros ?? E%(inj pretty). lia. Qed.

(** A non-digit does not occur in a decimal. *)
Lemma itoa_without c z : is_digit c = false -> str_without c (itoa z).
Proof.
  intros Hc. eapply str_forall_weaken; [|apply itoa_digits]. intros x Hx.
  destruct (Ascii.eqb_spec x c) as [->|]; [congruence|done].
Qed.

(** ** Hexadecimal *)
Definition hexdigit (z : Z) : ascii :=
  ascii_of_N (Z.to_N (if z <? 10 then 48 + z else 87 + z)).

Definition hexval (c : ascii) : Z :=
  let n := Z.of_N (N_of_ascii c) in if n <? 58 then n - 48 else n - 87.

Definition is_hex (c : ascii) : bool :=
  let n := Z.of_N (N_of_ascii c) in
  ((48 <=? n) && (n <=? 57)) || ((97 <=? n) && (n <=? 102)).

Lemma hexdigit_spec z : 0 <= z < 16 -> hexval (hexdigit z) = z /\ is_hex (hexdigit z) = true.
Proof.
  intros Hz.
  assert (z = 0 \/ z = 1 \/ z = 2 \/ z = 3 \/ z = 4 \/ z = 5 \/ z = 6 \/ z = 7 \/ z = 8 \/
          z = 9 \/ z = 10 \/ z = 11 \/ z = 12 \/ z = 13 \/ z = 14 \/ z = 15) as Hc by lia.
  repeat (destruct Hc as [->|Hc]; [by vm_compute|]). subst z. by vm_compute.
Qed.

(** [fmt]'s [%02x] of a byte. *)
Definition hex02 (b : Z) : string :=
  String (hexdigit (b / 16)) (String (hexdigit (b mod 16)) "").

Lemma hex02_inj a b r1 r2 :
  in_width 8 a -> in_width 8 b -> hex02 a +:+ r1 = hex02 b +:+ r2 -> a = b /\ r1 = r2.
Proof.
  unfold in_width, hex02. intros Ha Hb [= E1 E2 ->]. split; [|done].
  apply (f_equal hexval) in E1, E2.
  rewrite !(fun z H => proj1 (hexdigit_spec z H)) in E1, E2
    by (Z.div_mod_to_equations; lia).
  rewrite (Z.div_mod a 16), (Z.div_mod b 16) by lia. congruence.
Qed.

Lemma hex02_without c b : in_width 8 b -> is_hex c = false -> str_without c (hex02 b).
Proof.
  unfold in_width. intros Hb Hc. unfold str_without, hex02; simpl.
  assert (forall d, 0 <= d < 16 -> Ascii.eqb (hexdigit d) c = false) as Hd.
  { intros d Hd. destruct (Ascii.eqb_spec (hexdigit d) c) as [<-|]; [|done].
    by rewrite (proj2 (hexdigit_spec d Hd)) in Hc. }
  rewrite !Hd; [done|..]; Z.div_mod_to_equations; lia.
Qed.

(** The shortest hexadecimal of a 16-bit group (netip's [appendHex]). *)
Definition appendHex (x : Z) : string :=
  let d i := hexdigit ((x / 16 ^ i) mod 16) in
  (if 4096 <=? x then String (d 3) "" else "") +:+
  (if 256 <=? x then String (d 2) "" else "") +:+
  (if 16 <=? x then String (d 1) "" else "") +:+
  String (d 0) "".

(** Reading a hexadecimal back. *)
Fixpoint hex_read (acc : Z) (s : string) : Z :=
  match s with
  | EmptyString => acc
  | String c s' => hex_read (acc * 16 + hexval c) s'
  end.

Lemma appendHex_shape x :
  in_width 16 x ->
  hex_read 0 (appendHex x) = x /\ str_forall is_hex (appendHex x) = true /\ appendHex x <> "".
Proof.
  unfold in_width, appendHex. intros Hx. cbn zeta.
  assert (forall i, 0 <= (x / 16 ^ i) mod 16 < 16) as Hd by (intros; apply Z.mod_pos_bound; lia).
  pose proof (fun i => hexdigit_spec _ (Hd i)) as Hs. clear Hd.
  change (16 ^ 0) with 1. change (16 ^ 1) with 16. change (16 ^ 2) with 256.
  pose proof (Hs 0) as [V0 K0]. pose proof (Hs 1) as [V1 K1].
  pose proof (Hs 2) as [V2 K2]. pose proof (Hs 3) as [V3 K3].
  change (16 ^ 0) with 1 in V0, K0. change (16 ^ 1) with 16 in V1, K1.
  change (16 ^ 2) with 256 in V2, K2. change (16 ^ 3) with 4096 in *.
  destruct (Z.leb_spec 4096 x); destruct (Z.leb_spec 256 x); destruct (Z.leb_spec 16 x);
    try lia; cbn [hex_read str_forall String.append]; rewrite ?V0, ?V1, ?V2, ?V3, ?K0, ?K1, ?K2, ?K3;
    (split; [Z.div_mod_to_equations; lia|done]).
Qed.
