(* ===== verification/Netip.v ===== *)
(** * Addresses and prefixes: what the agent uses of Go's [net/netip]

    An [Addr] is the zero value, an IPv4 or an IPv6 address (no modelled code
    handles zones: packet headers and prefixes carry none).  [String] follows
    RFC 5952 the way [net/netip] implements it; the main fact of this file is
    that the text of a well-formed address or prefix determines it, which the
    identity of ACL rules ([ACLRule.Key]) relies on. *)
From S2P Require Import Prelude GoText.
From Stdlib Require Import Ascii.
#[local] Open Scope Z_scope.

(** ** Data *)
Inductive Addr :=
  | AddrNone
  | Addr4 (v : Z)
  | Addr6 (v : Z).

#[global] Instance Addr_eq_dec : EqDecision Addr.
Proof. solve_decision. Defined.

(** [p_bits = -1] is the invalid prefix. *)
Record Prefix := MkPrefix { p_addr : Addr; p_bits : Z }.

#[global] Instance Prefix_eq_dec : EqDecision Prefix.
Proof. solve_decision. Defined.

Definition zeroPrefix : Prefix := MkPrefix AddrNone (-1).

Definition BitLen (a : Addr) : Z :=
  match a with AddrNone => 0 | Addr4 _ => 32 | Addr6 _ => 128 end.
Definition addr_val (a : Addr) : Z :=
  match a with AddrNone => 0 | Addr4 v | Addr6 v => v end.
Definition addr_IsValid (a : Addr) : bool :=
  match a with AddrNone => false | _ => true end.
Definition Is4 (a : Addr) : bool := match a with Addr4 _ => true | _ => false end.
Definition Is6 (a : Addr) : bool := match a with Addr6 _ => true | _ => false end.
Definition prefix_IsValid (p : Prefix) : bool := 0 <=? p_bits p.

Definition addr_wf (a : Addr) : Prop := in_width (BitLen a) (addr_val a).
Definition prefix_wf (p : Prefix) : Prop :=
  addr_wf (p_addr p) /\ -1 <= p_bits p <= BitLen (p_addr p) /\
  (p_addr p = AddrNone -> p_bits p = -1).

#[global] Instance addr_wf_dec a : Decision (addr_wf a).
Proof. unfold addr_wf. apply _. Defined.
#[global] Instance prefix_wf_dec p : Decision (prefix_wf p).
Proof. unfold prefix_wf. apply _. Defined.

(** ** Operations *)
Definition PrefixFrom (a : Addr) (bits : Z) : Prefix :=
  MkPrefix a (if addr_IsValid a && (0 <=? bits) && (bits <=? BitLen a) then bits else -1).

Definition IPv4Unspecified : Addr := Addr4 0.
Definition IPv6Unspecified : Addr := Addr6 0.

(** The top [b] bits of a [len]-bit word. *)
Definition mask (len b : Z) : Z := Z.shiftl (Z.ones b) (len - b).

Definition and_mask (a : Addr) (b : Z) : Addr :=
  match a with
  | AddrNone => AddrNone
  | Addr4 v => Addr4 (Z.land v (mask 32 b))
  | Addr6 v => Addr6 (Z.land v (mask 128 b))
  end.

(** [Addr.Prefix(b)]; [None] is the error. *)
Definition addr_Prefix (a : Addr) (b : Z) : option Prefix :=
  if b <? 0 then None else
  match a with
  | AddrNone => Some zeroPrefix
  | _ => if BitLen a <? b then None else Some (PrefixFrom (and_mask a b) b)
  end.

Definition Masked (p : Prefix) : Prefix := default zeroPrefix (addr_Prefix (p_addr p) (p_bits p)).

Definition Contains (p : Prefix) (a : Addr) : bool :=
  prefix_IsValid p &&
  match p_addr p, a with
  | Addr4 pv, Addr4 v => Z.shiftr (Z.lxor v pv) (32 - p_bits p) =? 0
  | Addr6 pv, Addr6 v => Z.land (Z.lxor v pv) (mask 128 (p_bits p)) =? 0
  | _, _ => false
  end.

(** ** Masking *)
Lemma mask_testbit len b i :
  0 <= b <= len -> 0 <= i -> Z.testbit (mask len b) i = (len - b <=? i) && (i <? len).
Proof.
  intros Hb Hi. unfold mask. rewrite Z.shiftl_spec by done.
  destruct (Z.leb_spec (len - b) i); simpl.
  - rewrite Z.testbit_ones_nonneg by lia.
    destruct (Z.ltb_spec (i - (len - b)) b); destruct (Z.ltb_spec i len); lia.
  - apply Z.testbit_neg_r. lia.
Qed.

(** Two words agree above a bit iff masking makes the difference vanish. *)
Lemma masked_diff_zero len b v w :
  0 <= b <= len -> in_width len v -> in_width len w ->
  Z.land (Z.lxor v w) (mask len b) = 0 <-> Z.shiftr (Z.lxor v w) (len - b) = 0.
Proof.
  intros Hb Hv Hw. rewrite <-!Z.bits_inj_iff'. setoid_rewrite Z.bits_0. split; intros H i Hi.
  - rewrite Z.shiftr_spec by done. specialize (H (i + (len - b)) ltac:(lia)).
    rewrite Z.land_spec, mask_testbit in H by lia.
    destruct (Z.ltb_spec (i + (len - b)) len).
    + assert ((len - b <=? i + (len - b)) = true) as E by (apply Z.leb_le; lia).
      rewrite E, andb_true_r in H. done.
    + by rewrite Z.lxor_spec, !(in_width_testbit len) by (done || lia).
  - rewrite Z.land_spec, mask_testbit by lia.
    destruct (Z.leb_spec (len - b) i); [|by rewrite andb_false_r].
    specialize (H (i - (len - b)) ltac:(lia)). rewrite Z.shiftr_spec in H by lia.
    rewrite Z.sub_add in H. by rewrite H.
Qed.

(** Membership in a prefix is agreement of the top bits. *)
Lemma Contains_spec p a :
  prefix_wf p -> addr_wf a ->
  Contains p a = true <->
  0 <= p_bits p /\ BitLen (p_addr p) = BitLen a /\ a <> AddrNone /\
  Z.shiftr (addr_val a) (BitLen a - p_bits p) =
  Z.shiftr (addr_val (p_addr p)) (BitLen a - p_bits p).
Proof.
  intros (Hp & Hb & Hn) Ha. unfold Contains, prefix_IsValid, addr_wf in *.
  rewrite andb_true_iff, Z.leb_le.
  assert (forall x y n, Z.shiftr (Z.lxor x y) n = 0 <-> Z.shiftr x n = Z.shiftr y n) as Hx.
  { intros. by rewrite Z.shiftr_lxor, Z.lxor_eq_0_iff. }
  destruct (p_addr p) as [|pv|pv], a as [|v|v]; simpl in *;
    try (split; [intros [? ?]; done|intros (? & ? & ? & ?); done || lia]).
  - rewrite Z.eqb_eq, Hx. intuition congruence.
  - destruct (decide (0 <= p_bits p)); [|split; intros; lia].
    rewrite Z.eqb_eq, masked_diff_zero, Hx by (done || lia). intuition congruence.
Qed.

(** ** Text *)

(** The [n] 16-bit groups of an address, most significant first. *)
Fixpoint groups (n : nat) (v : Z) : list Z :=
  match n with
  | O => []
  | S n' => groups n' (v / 65536) ++ [v mod 65536]
  end.

Fixpoint join (sep : string) (l : list string) : string :=
  match l with
  | [] => ""
  | [x] => x
  | x :: l' => x +:+ sep +:+ join sep l'
  end.

(** Length of the run of zero groups at the front. *)
Fixpoint zeros (gs : list Z) : nat :=
  match gs with
  | g :: gs' => if g =? 0 then S (zeros gs') else O
  | [] => O
  end.

(** The first longest run of at least two zero groups, as [(start, length)];
    the scan of netip's [appendTo6]. *)
Fixpoint zero_run (i : nat) (gs : list Z) (best : nat * nat) : nat * nat :=
  match gs with
  | [] => best
  | _ :: gs' =>
      let l := zeros gs in
      let best' := if (2 <=? l)%nat && (best.2 <? l)%nat then (i, l) else best in
      zero_run (S i) gs' best'
  end.

Definition string6 (v : Z) : string :=
  let gs := groups 8 v in
  let '(zs, zl) := zero_run 0 gs (0%nat, 0%nat) in
  if (zl =? 0)%nat then join ":" (appendHex <$> gs)
  else join ":" (appendHex <$> take zs gs) +:+ "::" +:+ join ":" (appendHex <$> drop (zs + zl) gs).

Definition string4 (v : Z) : string :=
  itoa (v / 2 ^ 24 mod 256) +:+ "." +:+ itoa (v / 2 ^ 16 mod 256) +:+ "." +:+
  itoa (v / 2 ^ 8 mod 256) +:+ "." +:+ itoa (v mod 256).

Definition Is4In6 (v : Z) : bool := v / 2 ^ 32 =? 65535.

Definition addr_String (a : Addr) : string :=
  match a with
  | AddrNone => "invalid IP"
  | Addr4 v => string4 v
  | Addr6 v => if Is4In6 v then "::ffff:" +:+ string4 (v mod 2 ^ 32) else string6 v
  end.

Definition prefix_String (p : Prefix) : string :=
  if prefix_IsValid p then addr_String (p_addr p) +:+ "/" +:+ itoa (p_bits p)
  else "invalid Prefix".

Example string6_ex1 : addr_String (Addr6 (0x20010db8 * 2 ^ 96 + 1)) = "2001:db8::1".
Proof. by vm_compute. Qed.
Example string6_ex2 : addr_String (Addr6 0) = "::".
Proof. by vm_compute. Qed.
Example string6_ex3 : addr_String (Addr6 (0xfe80 * 2 ^ 112 + 0xa * 2 ^ 48)) = "fe80::a:0:0:0".
Proof. by vm_compute. Qed.
Example string4_ex : prefix_String (PrefixFrom (Addr4 (192 * 2 ^ 24 + 2 * 2 ^ 8)) 24) = "192.0.2.0/24".
Proof. by vm_compute. Qed.

(** ** The text determines the address *)

Fixpoint split_on (c : ascii) (s : string) : list string :=
  match s with
  | EmptyString => [""]
  | String a s' =>
      if Ascii.eqb a c then "" :: split_on c s'
      else match split_on c s' with
           | x :: xs => String a x :: xs
           | [] => []
           end
  end.

Lemma split_on_field c s r :
  str_without c s -> split_on c (s +:+ String c r) = s :: split_on c r.
Proof.
  unfold str_without. induction s as [|a s IH]; simpl; intros H.
  - by rewrite Ascii.eqb_refl.
  - apply andb_true_iff in H as [H1%negb_true_iff H2]. by rewrite H1, IH.
Qed.

Lemma split_on_none c s : str_without c s -> split_on c s = [s].
Proof.
  unfold str_without. induction s as [|a s IH]; simpl; intros H; [done|].
  apply andb_true_iff in H as [H1%negb_true_iff H2]. by rewrite H1, IH.
Qed.

Lemma split_on_join c x l r :
  Forall (str_without c) (x :: l) ->
  split_on c (join (String c "") (x :: l) +:+ String c r) = x :: l ++ split_on c r.
Proof.
  revert x. induction l as [|y l IH]; intros x; inversion 1 as [|?? Hx Hl]; subst.
  - simpl. by apply split_on_field.
  - change (join (String c "") (x :: y :: l)) with (x +:+ String c "" +:+ join (String c "") (y :: l)).
    rewrite !str_app_assoc. change (String c "" +:+ ?s) with (String c s).
    rewrite split_on_field by done. by rewrite IH.
Qed.

Lemma split_on_join_end c l :
  l <> [] -> Forall (str_without c) l -> split_on c (join (String c "") l) = l.
Proof.
  destruct l as [|x l]; [done|]. intros _. revert x.
  induction l as [|y l IH]; intros x; inversion 1 as [|?? Hx Hl]; subst.
  - by apply split_on_none.
  - change (join (String c "") (x :: y :: l)) with (x +:+ String c (join (String c "") (y :: l))).
    rewrite split_on_field by done. by rewrite IH.
Qed.

(** The tokens before the first empty one. *)
Fixpoint front (l : list string) : list string :=
  match l with
  | x :: l' => if bool_decide (x = "") then [] else x :: front l'
  | [] => []
  end.

Lemma front_app (A X : list string) : Forall (fun x => x <> "") A -> front (A ++ "" :: X) = A.
Proof.
  induction 1 as [|x A Hx HA IH]; simpl; [done|]. rewrite bool_decide_false by done. by rewrite IH.
Qed.

(** The tokens of a compressed text: the groups before and after the gap. *)
Lemma split_compressed (A B : list string) :
  Forall (str_without ":") A -> Forall (str_without ":") B ->
  exists X Y, split_on ":" (join ":" A +:+ "::" +:+ join ":" B) = A ++ "" :: X /\
              split_on ":" (join ":" A +:+ "::" +:+ join ":" B) = Y ++ "" :: B.
Proof.
  intros HA HB. change ("::" +:+ ?s) with (String ":" (String ":" s)).
  assert (exists Z', split_on ":" (String ":" (join ":" B)) = Z' ++ "" :: B /\
                     exists X', split_on ":" (String ":" (join ":" B)) = "" :: X')
    as (Z' & HZ & X' & HX).
  { change (String ":" (join ":" B)) with ("" +:+ String ":" (join ":" B)).
    rewrite split_on_field by done.
    destruct B as [|b B]; [by exists [""]; eauto|].
    rewrite split_on_join_end by done. by exists []; eauto. }
  destruct A as [|a A].
  - change (join ":" []) with "". rewrite split_on_field by done. rewrite HZ.
    exists (Z' ++ "" :: B), ("" :: Z'). done.
  - rewrite split_on_join by done. exists X', ((a :: A) ++ Z'). split.
    + by rewrite HX.
    + rewrite HZ. by rewrite <-app_assoc.
Qed.

Lemma compressed_inj (A B A' B' : list string) :
  Forall (fun x => str_without ":" x /\ x <> "") A -> Forall (fun x => str_without ":" x /\ x <> "") B ->
  Forall (fun x => str_without ":" x /\ x <> "") A' -> Forall (fun x => str_without ":" x /\ x <> "") B' ->
  join ":" A +:+ "::" +:+ join ":" B = join ":" A' +:+ "::" +:+ join ":" B' -> A = A' /\ B = B'.
Proof.
  rewrite !Forall_and. intros [HA NA] [HB NB] [HA' NA'] [HB' NB'] E.
  destruct (split_compressed A B HA HB) as (X & Y & E1 & E2).
  destruct (split_compressed A' B' HA' HB') as (X' & Y' & E1' & E2').
  rewrite E in E1, E2. rewrite E1 in E1'. rewrite E2 in E2'. split.
  - apply (f_equal front) in E1'. by rewrite !front_app in E1'.
  - apply (f_equal reverse), (f_equal front) in E2'.
    rewrite !reverse_app, !reverse_cons, <-!app_assoc in E2'. simpl in E2'.
    rewrite !front_app in E2' by (by apply Forall_reverse). by apply (inj reverse) in E2'.
Qed.

Lemma compressed_not_plain (A B L : list string) :
  Forall (str_without ":") A -> Forall (str_without ":") B ->
  Forall (fun x => str_without ":" x /\ x <> "") L -> L <> [] ->
  join ":" A +:+ "::" +:+ join ":" B <> join ":" L.
Proof.
  rewrite Forall_and. intros HA HB [HL NL] Hne E.
  destruct (split_compressed A B HA HB) as (X & _ & E1 & _).
  rewrite E, split_on_join_end in E1 by done. subst L.
  apply Forall_app in NL as [_ NL]. by inversion NL.
Qed.

(** ** Groups *)
Lemma groups_length n v : length (groups n v) = n.
Proof. revert v. induction n as [|n IH]; intros v; simpl; [done|]. rewrite length_app, IH. simpl. lia. Qed.

Lemma groups_width n v : Forall (in_width 16) (groups n v).
Proof.
  revert v. induction n as [|n IH]; intros v; simpl; [constructor|].
  apply Forall_app. split; [done|]. constructor; [|done]. apply Z.mod_pos_bound. lia.
Qed.

Lemma groups_inj n v w :
  0 <= v < 65536 ^ Z.of_nat n -> 0 <= w < 65536 ^ Z.of_nat n -> groups n v = groups n w -> v = w.
Proof.
  revert v w. induction n as [|n IH]; intros v w Hv Hw.
  - change (65536 ^ Z.of_nat 0) with 1 in *. lia.
  - rewrite Nat2Z.inj_succ, Z.pow_succ_r in * by lia. simpl.
    intros [E1 [= E2]]%app_inj_2; [|done].
    apply IH in E1; [rewrite (Z.div_mod v 65536), (Z.div_mod w 65536) by lia; congruence|..];
      (split; [apply Z.div_pos; lia|apply Z.div_lt_upper_bound; lia]).
Qed.

Lemma group_texts gs :
  Forall (in_width 16) gs -> Forall (fun x => str_without ":" x /\ x <> "") (appendHex <$> gs).
Proof.
  intros H. apply Forall_fmap. eapply Forall_impl; [exact H|]. intros g Hg. simpl.
  destruct (appendHex_shape g Hg) as (_ & Hh & Hne). split; [|done].
  eapply str_forall_weaken; [|exact Hh]. intros c Hc.
  destruct (Ascii.eqb_spec c ":") as [->|]; [by vm_compute in Hc|done].
Qed.

Lemma appendHex_list_inj gs gs' :
  Forall (in_width 16) gs -> Forall (in_width 16) gs' -> appendHex <$> gs = appendHex <$> gs' -> gs = gs'.
Proof.
  intros H. revert gs'. induction H as [|g gs Hg Hgs IH]; intros [|g' gs']; simpl; try done.
  inversion 1; subst. intros [= E1 E2]. f_equal; [|by apply IH].
  apply (f_equal (hex_read 0)) in E1. rewrite !(fun x H => proj1 (appendHex_shape x H)) in E1; done.
Qed.

Lemma zeros_spec gs : take (zeros gs) gs = replicate (zeros gs) 0.
Proof.
  induction gs as [|g gs IH]; simpl; [done|]. destruct (Z.eqb_spec g 0) as [->|]; [|done].
  simpl. by rewrite IH.
Qed.

(** The chosen run is a run of zero groups. *)
Lemma zero_run_spec pre gs best :
  take best.2 (drop best.1 (pre ++ gs)) = replicate best.2 0 ->
  let r := zero_run (length pre) gs best in
  take r.2 (drop r.1 (pre ++ gs)) = replicate r.2 0.
Proof.
  revert pre best. induction gs as [|g gs IH]; intros pre best H; [done|].
  cbn [zero_run]. rewrite (cons_middle g pre gs), app_assoc.
  replace (S (length pre)) with (length (pre ++ [g])) by (rewrite length_app; simpl; lia).
  apply IH. rewrite <-app_assoc. change ([g] ++ gs) with (g :: gs).
  destruct (_ && _); [|done]. cbn [fst snd]. rewrite drop_app_length. apply zeros_spec.
Qed.

(** The groups around the chosen run determine the address. *)
Lemma run_decompose gs zs zl :
  take zl (drop zs gs) = replicate zl 0 ->
  gs = take zs gs ++ replicate zl 0 ++ drop (zs + zl) gs.
Proof. intros <-. by rewrite <-drop_drop, take_drop, take_drop. Qed.

Ltac solve_texts :=
  first [ solve [auto using group_texts, Forall_take, Forall_drop]
        | eapply Forall_impl; [by apply group_texts; auto using Forall_take, Forall_drop|by intros ? []] ].

Lemma string6_inj v w : in_width 128 v -> in_width 128 w -> string6 v = string6 w -> v = w.
Proof.
  intros Hv Hw E. apply (groups_inj 8); [by unfold in_width in *..|].
  unfold string6 in E.
  assert (take 0 (drop 0 ([] ++ groups 8 v)) = replicate 0 0) as R1 by done.
  assert (take 0 (drop 0 ([] ++ groups 8 w)) = replicate 0 0) as R2 by done.
  apply (zero_run_spec [] _ (0%nat, 0%nat)) in R1, R2. cbn zeta in R1, R2.
  simpl length in R1, R2. rewrite !app_nil_l in R1, R2.
  destruct (zero_run 0 (groups 8 v) _) as [zs zl]; destruct (zero_run 0 (groups 8 w) _) as [zs' zl'].
  cbn [fst snd] in R1, R2. apply run_decompose in R1, R2.
  pose proof (groups_width 8 v) as Wv. pose proof (groups_width 8 w) as Ww.
  pose proof (groups_length 8 v) as Lv. pose proof (groups_length 8 w) as Lw.
  assert (forall gs, length gs = 8%nat -> appendHex <$> gs <> []) as Hne by (by intros [|??]).
  destruct (zl =? 0)%nat, (zl' =? 0)%nat.
  - apply (f_equal (split_on ":")) in E.
    rewrite !split_on_join_end in E by solve_texts.
    by apply appendHex_list_inj.
  - symmetry in E. apply compressed_not_plain in E; [done|solve_texts..].
  - apply compressed_not_plain in E; [done|solve_texts..].
  - apply compressed_inj in E as [E1 E2]; [|solve_texts..].
    apply appendHex_list_inj in E1; auto using Forall_take, Forall_drop.
    apply appendHex_list_inj in E2; auto using Forall_take, Forall_drop.
    rewrite R1, R2, E1, E2. do 2 f_equal.
    apply (f_equal length) in R1, R2. apply (f_equal length) in E1, E2.
    rewrite !length_app, length_replicate in R1, R2. f_equal. lia.
Qed.

(** ** Address and prefix text *)
Definition str_has (c : ascii) (s : string) : bool := negb (str_forall (fun x => negb (Ascii.eqb x c)) s).

Lemma str_has_app c s1 s2 : str_has c (s1 +:+ s2) = str_has c s1 || str_has c s2.
Proof. unfold str_has. by rewrite str_forall_app, negb_andb. Qed.

Lemma string4_inj v w : in_width 32 v -> in_width 32 w -> string4 v = string4 w -> v = w.
Proof.
  unfold string4, in_width. intros Hv Hw.
  change ("." +:+ ?s) with (String "." s).
  intros [E1 [E2 [E3 E4]%delim_inj]%delim_inj]%delim_inj; try by apply itoa_without.
  apply itoa_inj in E1, E2, E3, E4; try (apply Z.mod_pos_bound; lia).
  Z.div_mod_to_equations. lia.
Qed.

(** The characters of a dotted quad. *)
Lemma string4_chars P v :
  (forall c, is_digit c = true -> P c = true) -> P "."%char = true -> str_forall P (string4 v) = true.
Proof.
  intros HP Hdot. unfold string4.
  assert (forall z, str_forall P (itoa z) = true) as Hi
    by (intros; eapply str_forall_weaken; [exact HP|apply itoa_digits]).
  rewrite !str_forall_app, !Hi. simpl. by rewrite Hdot.
Qed.

Lemma join_chars P c l :
  P c = true -> Forall (fun s => str_forall P s = true) l -> str_forall P (join (String c "") l) = true.
Proof.
  intros Hc. induction 1 as [|x [|y l] Hx Hl IH]; [done|done|].
  change (join (String c "") (x :: y :: l)) with (x +:+ String c (join (String c "") (y :: l))).
  rewrite str_forall_app, Hx. simpl str_forall at 1. rewrite Hc. exact IH.
Qed.

Lemma string6_chars P v :
  (forall c, is_hex c = true -> P c = true) -> P ":"%char = true -> str_forall P (string6 v) = true.
Proof.
  intros HP Hcol. unfold string6.
  assert (forall gs, Forall (in_width 16) gs -> str_forall P (join ":" (appendHex <$> gs)) = true) as Hj.
  { intros gs Hgs. apply join_chars; [done|]. apply Forall_fmap. eapply Forall_impl; [exact Hgs|].
    intros g Hg. simpl. eapply str_forall_weaken; [exact HP|]. apply (appendHex_shape g Hg). }
  pose proof (groups_width 8 v) as Wv.
  destruct (zero_run _ _ _) as [zs zl]. destruct (zl =? 0)%nat; [auto|].
  rewrite !str_forall_app, !Hj by auto using Forall_take, Forall_drop. simpl. by rewrite Hcol.
Qed.

Lemma string6_has_colon v : str_has ":" (string6 v) = true.
Proof.
  unfold string6. destruct (zero_run _ _ _) as [zs zl]. destruct (zl =? 0)%nat.
  - pose proof (groups_length 8 v) as L. destruct (groups 8 v) as [|g1 [|g2 gs]]; try done.
    change (join ":" (appendHex <$> g1 :: g2 :: gs))
      with (appendHex g1 +:+ ":" +:+ join ":" (appendHex <$> g2 :: gs)).
    rewrite !str_has_app. change (str_has ":" ":") with true. by rewrite orb_true_r.
  - rewrite !str_has_app. change (str_has ":" "::") with true. by rewrite orb_true_r.
Qed.

(** Valid addresses are rendered with these characters only. *)
Definition addr_char (c : ascii) : bool := is_hex c || Ascii.eqb c ":" || Ascii.eqb c ".".

Lemma digit_addr_char c : is_digit c = true -> addr_char c = true.
Proof. unfold is_digit, addr_char, is_hex. cbv zeta. intros ->. done. Qed.

Lemma addr_String_chars a : a <> AddrNone -> str_forall addr_char (addr_String a) = true.
Proof.
  assert (forall v, str_forall addr_char (string4 v) = true) as H4
    by (intros; apply string4_chars; [apply digit_addr_char|done]).
  destruct a as [|v|v]; intros Ha; [done|apply H4|]. cbn [addr_String]. destruct (Is4In6 v).
  - rewrite str_forall_app. by rewrite H4.
  - apply string6_chars; [|done]. unfold addr_char. by intros c ->.
Qed.

Lemma str_has_forall c P s : P c = false -> str_forall P s = true -> str_has c s = false.
Proof.
  intros Hc Hs. unfold str_has. apply negb_false_iff. eapply str_forall_weaken; [|exact Hs].
  intros x Hx. destruct (Ascii.eqb_spec x c) as [->|]; [congruence|done].
Qed.

Lemma addr_String_inj a b : addr_wf a -> addr_wf b -> addr_String a = addr_String b -> a = b.
Proof.
  assert (forall v, str_has ":" (string4 v) = false) as H4
    by (intros; apply str_has_forall with (fun c => is_digit c || Ascii.eqb c "."); [done|];
        apply string4_chars; [by intros c ->|done]).
  assert (forall v, str_has "." (string6 v) = false) as H6
    by (intros; apply str_has_forall with (fun c => is_hex c || Ascii.eqb c ":"); [done|];
        apply string6_chars; [by intros c ->|done]).
  assert (forall v, str_has "." (string4 v) = true) as H4'.
  { intros. unfold string4. rewrite !str_has_app. change (str_has "." ".") with true.
    by rewrite orb_true_l, orb_true_r. }
  assert (forall x y, x <> AddrNone -> y = AddrNone -> addr_String x = addr_String y -> False) as HN.
  { intros x y Hx -> E. apply (f_equal (str_forall addr_char)) in E.
    by rewrite addr_String_chars in E. }
  unfold addr_wf. intros Ha Hb E.
  destruct a as [|v|v], b as [|w|w]; [done|..];
    try (exfalso; first [by eapply HN; [|reflexivity|exact E] | by eapply HN; [|reflexivity|symmetry; exact E]]);
    cbn [addr_String BitLen addr_val] in *.
  - f_equal. by apply string4_inj.
  - exfalso. apply (f_equal (str_has ":")) in E. rewrite H4 in E. destruct (Is4In6 w);
      [by rewrite str_has_app in E|by rewrite string6_has_colon in E].
  - exfalso. apply (f_equal (str_has ":")) in E. rewrite H4 in E. destruct (Is4In6 v);
      [by rewrite str_has_app in E|by rewrite string6_has_colon in E].
  - unfold Is4In6, in_width in *. f_equal.
    destruct (Z.eqb_spec (v / 2 ^ 32) 65535); destruct (Z.eqb_spec (w / 2 ^ 32) 65535).
    + apply (inj (String.append _)), string4_inj in E; [|apply Z.mod_pos_bound; lia..].
      rewrite (Z.div_mod v (2 ^ 32)), (Z.div_mod w (2 ^ 32)) by lia. congruence.
    + exfalso. apply (f_equal (str_has ".")) in E. by rewrite H6, str_has_app, H4' in E.
    + exfalso. apply (f_equal (str_has ".")) in E. by rewrite H6, str_has_app, H4' in E.
    + by apply string6_inj.
Qed.

Lemma addr_String_without c a : addr_char c = false -> a <> AddrNone -> str_without c (addr_String a).
Proof.
  intros Hc Ha. eapply str_forall_weaken; [|by apply addr_String_chars]. intros x Hx.
  destruct (Ascii.eqb_spec x c) as [->|]; [congruence|done].
Qed.

(** The text of a prefix determines it, up to the address of an invalid one. *)
Lemma prefix_String_inj p q :
  prefix_wf p -> prefix_wf q -> prefix_IsValid p = true -> prefix_IsValid q = true ->
  prefix_String p = prefix_String q -> p = q.
Proof.
  unfold prefix_String, prefix_IsValid. intros (Hp & Bp & Np) (Hq & Bq & Nq) Vp Vq.
  rewrite Vp, Vq. rewrite Z.leb_le in Vp, Vq. change ("/" +:+ ?s) with (String "/" s).
  intros [E1 E2]%delim_inj; [|apply addr_String_without; [done|]; intros ?; intuition lia..].
  destruct p, q; simpl in *. f_equal; [by apply addr_String_inj|by apply itoa_inj].
Qed.

Lemma prefix_String_without c p :
  addr_char c = false -> is_digit c = false -> Ascii.eqb "/" c = false ->
  prefix_wf p -> prefix_IsValid p = true -> str_without c (prefix_String p).
Proof.
  unfold prefix_String, prefix_IsValid. intros Hc Hd Hs (Hp & Bp & Np) Vp. rewrite Vp.
  apply Z.leb_le in Vp. unfold str_without. rewrite !str_forall_app.
  rewrite (itoa_without c) by done. rewrite addr_String_without; [|done|intros ?; intuition lia].
  cbn [str_forall]. by rewrite Hs.
Qed.
