(* ===== verification/Flowspec.v ===== *)
(** * The internal FlowSpec rule (internal/flowspec: rule.go, normalize.go)

    The data the whole agent works on, with the defaults for absent prefixes,
    and the reference semantics of a rule: the packets a FlowSpec rule matches
    according to RFC 8955, which the translation is measured against. *)
From S2P Require Import Prelude Netip.
From Stdlib Require Import Ascii.
#[local] Open Scope Z_scope.

(** ** rule.go *)
Inductive Family := FamilyIPv4 | FamilyIPv6.

#[global] Instance Family_eq_dec : EqDecision Family.
Proof. solve_decision. Defined.

(** [Family.String]; the type has no third value here, so the "unknown" branch
    has no counterpart. *)
Definition Family_String (f : Family) : string :=
  match f with FamilyIPv4 => "ipv4" | FamilyIPv6 => "ipv6" end.

Record NumericOp := {
  n_And : bool;
  n_LT : bool;
  n_GT : bool;
  n_EQ : bool;
  n_Value : Z  (* uint64 *)
}.

Record BitmaskOp := {
  b_And : bool;
  b_Not : bool;
  b_Match : bool;
  b_Value : Z  (* uint64 *)
}.

#[global] Instance NumericOp_eq_dec : EqDecision NumericOp.
Proof. solve_decision. Defined.
#[global] Instance BitmaskOp_eq_dec : EqDecision BitmaskOp.
Proof. solve_decision. Defined.

Record Match := {
  HasDst : bool;
  Dst : Prefix;
  DstOffset : Z;  (* uint8 *)
  HasSrc : bool;
  Src : Prefix;
  SrcOffset : Z;  (* uint8 *)
  Proto : list NumericOp;
  DstPort : list NumericOp;
  SrcPort : list NumericOp;
  ICMPType : list NumericOp;
  ICMPCode : list NumericOp;
  TCPFlags : list BitmaskOp;
  Fragment : list BitmaskOp;
  HasGenericPort : bool;
  HasPacketLen : bool;
  HasDSCP : bool;
  HasFlowLabel : bool;
  HasLabel : bool;
  HasUnknownComponent : bool
}.

#[global] Instance Match_eq_dec : EqDecision Match.
Proof. solve_decision. Defined.

(** Go's zero value [Match{}]. *)
Definition emptyMatch : Match := {|
  HasDst := false; Dst := zeroPrefix; DstOffset := 0;
  HasSrc := false; Src := zeroPrefix; SrcOffset := 0;
  Proto := []; DstPort := []; SrcPort := []; ICMPType := []; ICMPCode := [];
  TCPFlags := []; Fragment := [];
  HasGenericPort := false; HasPacketLen := false; HasDSCP := false;
  HasFlowLabel := false; HasLabel := false; HasUnknownComponent := false
|}.

Inductive ActionKind := ActionUnknown | ActionDrop | ActionUnsupported.

#[global] Instance ActionKind_eq_dec : EqDecision ActionKind.
Proof. solve_decision. Defined.

Record Action := { Kind : ActionKind; Desc : string }.

#[global] Instance Action_eq_dec : EqDecision Action.
Proof. solve_decision. Defined.

Record Rule := {
  r_Family : Family;
  r_Match : Match;
  r_Action : Action;
  r_Raw : string
}.

#[global] Instance Rule_eq_dec : EqDecision Rule.
Proof. solve_decision. Defined.

(** ** normalize.go *)
Definition defaultV4 : Prefix := PrefixFrom IPv4Unspecified 0.
Definition defaultV6 : Prefix := PrefixFrom IPv6Unspecified 0.

Definition DefaultPrefix (f : Family) : Prefix :=
  match f with FamilyIPv6 => defaultV6 | FamilyIPv4 => defaultV4 end.

Definition DstOrDefault (m : Match) (f : Family) : Prefix :=
  if HasDst m then Dst m else DefaultPrefix f.

Definition SrcOrDefault (m : Match) (f : Family) : Prefix :=
  if HasSrc m then Src m else DefaultPrefix f.

(** ** Well-formed data: every field has the width of its Go type *)
Definition NumericOp_wf (o : NumericOp) : Prop := in_width 64 (n_Value o).
Definition BitmaskOp_wf (o : BitmaskOp) : Prop := in_width 64 (b_Value o).

Record Match_wf (m : Match) : Prop := {
  wf_dst : prefix_wf (Dst m);
  wf_src : prefix_wf (Src m);
  wf_proto : Forall NumericOp_wf (Proto m);
  wf_dport : Forall NumericOp_wf (DstPort m);
  wf_sport : Forall NumericOp_wf (SrcPort m);
  wf_itype : Forall NumericOp_wf (ICMPType m);
  wf_icode : Forall NumericOp_wf (ICMPCode m);
  wf_flags : Forall BitmaskOp_wf (TCPFlags m)
}.

(** A present prefix is a valid one ([ParsePrefix] and the detector only produce
    valid prefixes). *)
Definition Match_prefixes_valid (m : Match) : Prop :=
  (HasDst m = true -> prefix_IsValid (Dst m) = true) /\
  (HasSrc m = true -> prefix_IsValid (Src m) = true).

(** ** Reference semantics (RFC 8955 section 4, RFC 8956)

    The header fields of a packet that the components look at. *)
Record packet := {
  pk_family : Family;
  pk_src : Addr;
  pk_dst : Addr;
  pk_proto : Z;     (* upper-layer protocol, 8 bits *)
  pk_sport : Z;     (* 16 bits *)
  pk_dport : Z;     (* 16 bits *)
  pk_flags : Z;     (* TCP flags byte *)
  pk_itype : Z;     (* 8 bits *)
  pk_icode : Z      (* 8 bits *)
}.

Record packet_wf (p : packet) : Prop := {
  pwf_src : addr_wf (pk_src p);
  pwf_dst : addr_wf (pk_dst p);
  pwf_fam : match pk_family p with
            | FamilyIPv4 => Is4 (pk_src p) && Is4 (pk_dst p)
            | FamilyIPv6 => Is6 (pk_src p) && Is6 (pk_dst p)
            end = true;
  pwf_proto : in_width 8 (pk_proto p);
  pwf_sport : in_width 16 (pk_sport p);
  pwf_dport : in_width 16 (pk_dport p);
  pwf_flags : in_width 8 (pk_flags p);
  pwf_itype : in_width 8 (pk_itype p);
  pwf_icode : in_width 8 (pk_icode p)
}.

(** One numeric operator: the disjunction of its comparison bits, where no bit
    is "true" and all three are "false" (RFC 8955, table 1). *)
Definition num_holds (o : NumericOp) (v : Z) : bool :=
  match n_LT o, n_GT o, n_EQ o with
  | false, false, false => true
  | true, true, true => false
  | lt, gt, eq => (lt && (v <? n_Value o)) || (gt && (n_Value o <? v)) || (eq && (v =? n_Value o))
  end.

(** One bitmask operator. *)
Definition bit_holds (o : BitmaskOp) (v : Z) : bool :=
  let hit := if b_Match o then Z.land v (b_Value o) =? b_Value o
             else negb (Z.land v (b_Value o) =? 0) in
  if b_Not o then negb hit else hit.

Section OrOfAnds.
Context {Op : Type} (and_bit : Op -> bool) (holds : Op -> Z -> bool).

(** Operator lists are disjunctions of conjunctions: an item without its AND
    bit starts a new disjunct; the first item's bit is ignored. *)
Fixpoint ops_go (cur : bool) (ops : list Op) (v : Z) : bool :=
  match ops with
  | [] => cur
  | o :: ops' => if and_bit o then ops_go (cur && holds o v) ops' v
                 else cur || ops_go (holds o v) ops' v
  end.

Definition ops_hold (ops : list Op) (v : Z) : bool :=
  match ops with
  | [] => true  (* absent component *)
  | o :: ops' => ops_go (holds o v) ops' v
  end.
End OrOfAnds.

Definition nums_hold := ops_hold n_And num_holds.
Definition bits_hold := ops_hold b_And bit_holds.

Definition protoICMP : Z := 1.
Definition protoTCP : Z := 6.
Definition protoUDP : Z := 17.
Definition protoICMPv6 : Z := 58.

(** A component of the upper-layer header only matches packets that carry the
    header: ports need TCP or UDP, flags TCP, type and code the ICMP of the
    family. *)
Definition has_ports (p : packet) : bool := (pk_proto p =? protoTCP) || (pk_proto p =? protoUDP).
Definition icmp_of (f : Family) : Z := match f with FamilyIPv6 => protoICMPv6 | FamilyIPv4 => protoICMP end.
Definition has_icmp (p : packet) : bool := pk_proto p =? icmp_of (pk_family p).

Definition present {A} (l : list A) : bool := match l with [] => false | _ => true end.

(** The packets a rule matches, for the components the agent can map
    (a rule with any other component is never mapped, see [Translate]). *)
Definition rule_matches (r : Rule) (p : packet) : bool :=
  let m := r_Match r in
  bool_decide (pk_family p = r_Family r) &&
  (if HasDst m then Contains (Dst m) (pk_dst p) else true) &&
  (if HasSrc m then Contains (Src m) (pk_src p) else true) &&
  nums_hold (Proto m) (pk_proto p) &&
  (if present (DstPort m) then has_ports p && nums_hold (DstPort m) (pk_dport p) else true) &&
  (if present (SrcPort m) then has_ports p && nums_hold (SrcPort m) (pk_sport p) else true) &&
  (if present (ICMPType m) then has_icmp p && nums_hold (ICMPType m) (pk_itype p) else true) &&
  (if present (ICMPCode m) then has_icmp p && nums_hold (ICMPCode m) (pk_icode p) else true) &&
  (if present (TCPFlags m) then (pk_proto p =? protoTCP) && bits_hold (TCPFlags m) (pk_flags p) else true).

Lemma DefaultPrefix_wf f : prefix_wf (DefaultPrefix f).
Proof. destruct f; vm_compute; repeat split; done. Qed.

Lemma DefaultPrefix_valid f : prefix_IsValid (DefaultPrefix f) = true.
Proof. by destruct f. Qed.

(** The default prefix contains every address of its family. *)
Lemma DefaultPrefix_Contains f a :
  match f with FamilyIPv4 => Is4 a | FamilyIPv6 => Is6 a end = true -> addr_wf a ->
  Contains (DefaultPrefix f) a = true.
Proof.
  intros Hf Ha. apply Contains_spec; [apply DefaultPrefix_wf|done|].
  destruct f, a; try done; unfold addr_wf in Ha; simpl in *;
    (split; [done|]; split; [done|]; split; [done|]);
    rewrite !Z.shiftr_div_pow2 by lia; unfold in_width in Ha;
    rewrite (Z.div_small v) by lia; done.
Qed.
