(* ===== verification/VppTypes.v ===== *)
(** * The VPP-facing rule (internal/vpp: types.go, backend.go, acl.go, convert.go)

    The ACL entry, its canonical key, and the binary-API rule list of a Managed
    ACL.  [ACLRule.Key] identifies an entry for de-duplication, so the central
    fact is that it is injective; the trailing permit-any turns VPP's
    default-deny list into a blocklist. *)
From S2P Require Import Prelude GoText Netip Flowspec.
From Stdlib Require Import Ascii.
#[local] Open Scope Z_scope.

(** ** types.go *)
Record ACLRule := {
  IsIPv6 : bool;
  Permit : bool;
  a_Src : Prefix;
  a_Dst : Prefix;
  a_Proto : Z;                   (* uint8; 0 is any *)
  SrcPortOrICMPTypeFirst : Z;    (* uint16 *)
  SrcPortOrICMPTypeLast : Z;
  DstPortOrICMPCodeFirst : Z;
  DstPortOrICMPCodeLast : Z;
  TCPFlagsMask : Z;              (* uint8 *)
  TCPFlagsValue : Z
}.

#[global] Instance ACLRule_eq_dec : EqDecision ACLRule.
Proof. solve_decision. Defined.

Definition Key (r : ACLRule) : string :=
  let fam := if IsIPv6 r then "ip6" else "ip4" in
  let act := if Permit r then "permit" else "deny" in
  fam +:+ "|" +:+ act +:+
  "|src=" +:+ prefix_String (a_Src r) +:+
  "|dst=" +:+ prefix_String (a_Dst r) +:+
  "|proto=" +:+ itoa (a_Proto r) +:+
  "|sp=" +:+ itoa (SrcPortOrICMPTypeFirst r) +:+ "-" +:+ itoa (SrcPortOrICMPTypeLast r) +:+
  "|dp=" +:+ itoa (DstPortOrICMPCodeFirst r) +:+ "-" +:+ itoa (DstPortOrICMPCodeLast r) +:+
  "|tcp=" +:+ hex02 (TCPFlagsValue r) +:+ "/" +:+ hex02 (TCPFlagsMask r).

(** [ACLRule.Family], the metrics label. *)
Definition ACLRule_Family (r : ACLRule) : string := if IsIPv6 r then "ipv6" else "ipv4".

(** ** backend.go *)
Inductive VFamily := IPv4 | IPv6.

#[global] Instance VFamily_eq_dec : EqDecision VFamily.
Proof. solve_decision. Defined.
#[global] Instance VFamily_countable : Countable VFamily.
Proof.
  apply (inj_countable' (fun f => match f with IPv4 => true | IPv6 => false end)
                        (fun b : bool => if b then IPv4 else IPv6)).
  by intros [].
Defined.

Definition VFamily_String (f : VFamily) : string :=
  match f with IPv6 => "ipv6" | IPv4 => "ipv4" end.

Inductive Direction := Ingress | Egress.

#[global] Instance Direction_eq_dec : EqDecision Direction.
Proof. solve_decision. Defined.

(** ** Widths of the fields *)
Record ACLRule_wf (r : ACLRule) : Prop := {
  awf_src : prefix_wf (a_Src r) /\ prefix_IsValid (a_Src r) = true;
  awf_dst : prefix_wf (a_Dst r) /\ prefix_IsValid (a_Dst r) = true;
  awf_proto : in_width 8 (a_Proto r);
  awf_sf : in_width 16 (SrcPortOrICMPTypeFirst r);
  awf_sl : in_width 16 (SrcPortOrICMPTypeLast r);
  awf_df : in_width 16 (DstPortOrICMPCodeFirst r);
  awf_dl : in_width 16 (DstPortOrICMPCodeLast r);
  awf_mask : in_width 8 (TCPFlagsMask r);
  awf_value : in_width 8 (TCPFlagsValue r)
}.

(** ** acl.go *)
Definition permitAny (family : VFamily) : ACLRule :=
  let any := match family with
             | IPv6 => PrefixFrom IPv6Unspecified 0
             | IPv4 => PrefixFrom IPv4Unspecified 0
             end in
  {| IsIPv6 := match family with IPv6 => true | IPv4 => false end;
     Permit := true;
     a_Src := any; a_Dst := any;
     a_Proto := 0;
     SrcPortOrICMPTypeFirst := 0; SrcPortOrICMPTypeLast := 65535;
     DstPortOrICMPCodeFirst := 0; DstPortOrICMPCodeLast := 65535;
     TCPFlagsMask := 0; TCPFlagsValue := 0 |}.

(** ** convert.go

    The binary-API types and the parser of their prefixes are GoVPP's; the
    agent hands it the text of a [netip.Prefix]. *)
Inductive ACLAction := ACL_ACTION_API_DENY | ACL_ACTION_API_PERMIT.

Record BinRule (BP : Type) := {
  IsPermit : ACLAction;
  SrcPrefix : BP;
  DstPrefix : BP;
  bin_Proto : Z;
  SrcportOrIcmptypeFirst : Z;
  SrcportOrIcmptypeLast : Z;
  DstportOrIcmpcodeFirst : Z;
  DstportOrIcmpcodeLast : Z;
  bin_TCPFlagsMask : Z;
  bin_TCPFlagsValue : Z
}.
Arguments IsPermit {BP} _.
Arguments SrcPrefix {BP} _.
Arguments DstPrefix {BP} _.
Arguments bin_Proto {BP} _.
Arguments SrcportOrIcmptypeFirst {BP} _.
Arguments SrcportOrIcmptypeLast {BP} _.
Arguments DstportOrIcmpcodeFirst {BP} _.
Arguments DstportOrIcmpcodeLast {BP} _.
Arguments bin_TCPFlagsMask {BP} _.
Arguments bin_TCPFlagsValue {BP} _.

Section Binapi.
Context {BP : Type} (ip_types_ParsePrefix : string -> result gotext BP).

Definition toBinapiPrefix (p : Prefix) : result gotext BP := ip_types_ParsePrefix (prefix_String p).

Definition toBinapiRule (r : ACLRule) : result gotext (BinRule BP) :=
  pfx ← toBinapiPrefix (a_Dst r);
  src ← toBinapiPrefix (a_Src r);
  let action := if Permit r then ACL_ACTION_API_PERMIT else ACL_ACTION_API_DENY in
  Ok {| IsPermit := action;
        SrcPrefix := src;
        DstPrefix := pfx;
        bin_Proto := a_Proto r;
        SrcportOrIcmptypeFirst := SrcPortOrICMPTypeFirst r;
        SrcportOrIcmptypeLast := SrcPortOrICMPTypeLast r;
        DstportOrIcmpcodeFirst := DstPortOrICMPCodeFirst r;
        DstportOrIcmpcodeLast := DstPortOrICMPCodeLast r;
        bin_TCPFlagsMask := TCPFlagsMask r;
        bin_TCPFlagsValue := TCPFlagsValue r |}.

(** [fmt.Errorf] with the verb [%w] keeps the cause; only the outer text is
    kept here. *)
Definition wrap_err {A} (msg : string) (r : result gotext A) : result gotext A :=
  match r with Ok a => Ok a | Err e => Err (Text msg [AStr (text_format e)]) end.

Definition buildACLRules (family : VFamily) (rules : list ACLRule) : result gotext (list (BinRule BP)) :=
  out ← result_map (fun r => wrap_err "convert rule: %w" (toBinapiRule r)) rules;
  permit ← wrap_err "build permit-any: %w" (toBinapiRule (permitAny family));
  Ok (out ++ [permit]).
End Binapi.

(** ** What an ACL means

    The match semantics types.go and acl.go document for the VPP ACL plugin: a
    protocol number with 0 for any, inclusive ranges over ports (or ICMP type
    and code), [(flags & mask) == value]; a list is evaluated in order, the
    first match decides, and a packet that matches nothing is dropped. *)
Definition l4_first (p : packet) : Z :=
  if has_ports p then pk_sport p else if has_icmp p then pk_itype p else 0.
Definition l4_second (p : packet) : Z :=
  if has_ports p then pk_dport p else if has_icmp p then pk_icode p else 0.

Definition in_range (lo hi v : Z) : bool := (lo <=? v) && (v <=? hi).

Definition acl_matches (a : ACLRule) (p : packet) : bool :=
  Bool.eqb (IsIPv6 a) (match pk_family p with FamilyIPv6 => true | FamilyIPv4 => false end) &&
  Contains (a_Src a) (pk_src p) &&
  Contains (a_Dst a) (pk_dst p) &&
  ((a_Proto a =? 0) || (pk_proto p =? a_Proto a)) &&
  in_range (SrcPortOrICMPTypeFirst a) (SrcPortOrICMPTypeLast a) (l4_first p) &&
  in_range (DstPortOrICMPCodeFirst a) (DstPortOrICMPCodeLast a) (l4_second p) &&
  (Z.land (pk_flags p) (TCPFlagsMask a) =? TCPFlagsValue a).

Fixpoint acl_permits (rules : list ACLRule) (p : packet) : bool :=
  match rules with
  | [] => false
  | a :: rules' => if acl_matches a p then Permit a else acl_permits rules' p
  end.

(** ** Injectivity of the key *)
Lemma str_cons_inj c (s t : string) : String c s = String c t -> s = t.
Proof. by intros [= ->]. Qed.

(** Drop the common literal characters in front. *)
Ltac strip E := repeat apply str_cons_inj in E.

Lemma Key_inj a b : ACLRule_wf a -> ACLRule_wf b -> Key a = Key b -> a = b.
Proof.
  intros [[S1 S2] [D1 D2] P SF SL DF DL M V] [[S1' S2'] [D1' D2'] P' SF' SL' DF' DL' M' V'].
  unfold Key. cbn zeta. intros E.
  repeat match type of E with
  | context [String.append (String ?c ?s) ?t] =>
      change (String.append (String c s) t) with (String c (String.append s t)) in E
  | context [String.append EmptyString ?t] => change (String.append EmptyString t) with t in E
  end.
  apply delim_inj in E as [E0 E]; [|by destruct (IsIPv6 a)|by destruct (IsIPv6 b)].
  apply delim_inj in E as [E1 E]; [|by destruct (Permit a)|by destruct (Permit b)].
  strip E. apply delim_inj in E as [E2 E]; [|by apply prefix_String_without..].
  strip E. apply delim_inj in E as [E3 E]; [|by apply prefix_String_without..].
  strip E. apply delim_inj in E as [E4 E]; [|by apply itoa_without..].
  strip E. apply delim_inj in E as [E5 E]; [|by apply itoa_without..].
  apply delim_inj in E as [E6 E]; [|by apply itoa_without..].
  strip E. apply delim_inj in E as [E7 E]; [|by apply itoa_without..].
  apply delim_inj in E as [E8 E]; [|by apply itoa_without..].
  strip E. apply hex02_inj in E as [E9 E]; [|done..].
  strip E. rewrite <-(str_app_nil_r (hex02 (TCPFlagsMask a))), <-(str_app_nil_r (hex02 (TCPFlagsMask b))) in E.
  apply hex02_inj in E as [E10 _]; [|done..].
  apply prefix_String_inj in E2, E3; [|done..].
  unfold in_width in *. apply itoa_inj in E4, E5, E6, E7, E8; [|lia..].
  assert (IsIPv6 a = IsIPv6 b) by (by destruct (IsIPv6 a), (IsIPv6 b)).
  assert (Permit a = Permit b) by (by destruct (Permit a), (Permit b)).
  destruct a, b; simpl in *. congruence.
Qed.
