(* ===== verification/Translate.v ===== *)
(** * FlowSpec to ACL translation (internal/translate)

    The pure mapping [Translate] of a FlowSpec rule to one VPP ACL entry, with
    its reductions (operator lists to a contiguous range, to an exact value, to
    a flag value and mask) and typed rejections. *)
From S2P Require Import Prelude GoText Netip Flowspec VppTypes.
From Stdlib Require Import Ascii.
#[local] Open Scope Z_scope.

(** ** unsupported.go *)
Inductive Reason :=
  | ReasonUnsupportedComponent
  | ReasonUnsupportedExpression
  | ReasonUnsupportedAction
  | ReasonUnmappablePrefix.

#[global] Instance Reason_eq_dec : EqDecision Reason.
Proof. solve_decision. Defined.

Definition Reason_string (r : Reason) : string :=
  match r with
  | ReasonUnsupportedComponent => "unsupported_component"
  | ReasonUnsupportedExpression => "unsupported_expression"
  | ReasonUnsupportedAction => "unsupported_action"
  | ReasonUnmappablePrefix => "unmappable_prefix"
  end.

Record Unsupported := { u_Reason : Reason; u_Detail : gotext }.

(** The errors of the package: an [*Unsupported], possibly wrapped with
    [fmt.Errorf("%s: %w", what, err)]. *)
Inductive terror :=
  | EUnsupported (u : Unsupported)
  | EWrapped (what : string) (e : terror).

Definition unsupported {A} (r : Reason) (detail : gotext) : result terror A :=
  Err (EUnsupported {| u_Reason := r; u_Detail := detail |}).

(** [errors.As] follows the chain of wrapped errors. *)
Fixpoint AsUnsupported (e : terror) : option Unsupported :=
  match e with
  | EUnsupported u => Some u
  | EWrapped _ e' => AsUnsupported e'
  end.

(** ** port.go *)
Record interval := Iv { lo : Z; hi : Z }.

#[global] Instance interval_eq_dec : EqDecision interval.
Proof. solve_decision. Defined.

(** The order of [sort.Slice] in [normalize]. *)
Definition iv_le (x y : interval) : Prop := lo x < lo y \/ (lo x = lo y /\ hi x <= hi y).

#[global] Instance iv_le_dec : RelDecision iv_le.
Proof. intros x y. unfold iv_le. apply _. Defined.

(** The merge loop: [out] is [acc ++ [last]]. *)
Fixpoint merge_loop (acc : list interval) (last : interval) (s : list interval) : list interval :=
  match s with
  | [] => acc ++ [last]
  | iv :: s' =>
      if (lo iv <=? hi last) || (lo iv =? u64 (hi last + 1)) then
        merge_loop acc (if hi last <? hi iv then Iv (lo last) (hi iv) else last) s'
      else merge_loop (acc ++ [last]) iv s'
  end.

Definition normalize (s : list interval) : list interval :=
  match merge_sort iv_le s with
  | [] => []
  | c :: cp => merge_loop [] c cp
  end.

Definition intersect1 (x y : interval) : list interval :=
  let l := if lo x <? lo y then lo y else lo x in
  let h := if hi y <? hi x then hi y else hi x in
  if l <=? h then [Iv l h] else [].

Definition intersectSets (a b : list interval) : list interval :=
  normalize (x ← a; y ← b; intersect1 x y).

Definition unionSets (a b : list interval) : list interval := normalize (a ++ b).

Definition opToSet (op : NumericOp) (max : Z) : result terror (list interval) :=
  let v := n_Value op in
  let LT := n_LT op in let GT := n_GT op in let EQ := n_EQ op in
  if negb LT && negb GT && negb EQ then Ok [Iv 0 max]
  else if LT && GT && EQ then Ok []
  else if max <? v then
    unsupported ReasonUnsupportedExpression (Text "numeric operand %d out of range 0-%d" [AInt v; AInt max])
  else if EQ && negb LT && negb GT then Ok [Iv v v]
  else if GT && negb EQ && negb LT then
    Ok (if max <=? v then [] else [Iv (v + 1) max])
  else if LT && negb EQ && negb GT then
    Ok (if v =? 0 then [] else [Iv 0 (v - 1)])
  else if GT && EQ && negb LT then Ok [Iv v max]
  else if LT && EQ && negb GT then Ok [Iv 0 v]
  else if LT && GT && negb EQ then
    Ok ((if 0 <? v then [Iv 0 (v - 1)] else []) ++ (if v <? max then [Iv (v + 1) max] else []))
  else unsupported ReasonUnsupportedExpression (plain "unknown numeric op").

(** The variables of [reduceRange]'s loop. *)
Record rrState := { rr_result : list interval; rr_cur : list interval; rr_started : bool }.

Definition closeTerm (st : rrState) : rrState :=
  {| rr_result := if rr_started st then unionSets (rr_result st) (rr_cur st) else rr_result st;
     rr_cur := []; rr_started := false |}.

Definition wrap_what {A} (what : string) (r : result terror A) : result terror A :=
  match r with Ok a => Ok a | Err e => Err (EWrapped what e) end.

Fixpoint reduceRange_loop (max : Z) (what : string) (i : nat) (ops : list NumericOp) (st : rrState)
  : result terror rrState :=
  match ops with
  | [] => Ok st
  | op :: ops' =>
      set ← wrap_what what (opToSet op max);
      let st := if (0 <? i)%nat && negb (n_And op) then closeTerm st else st in
      let st := if negb (rr_started st)
                then {| rr_result := rr_result st; rr_cur := set; rr_started := true |}
                else {| rr_result := rr_result st; rr_cur := intersectSets (rr_cur st) set; rr_started := true |} in
      reduceRange_loop max what (S i) ops' st
  end.

Definition reduceRange (ops : list NumericOp) (max : Z) (what : string) : result terror (Z * Z) :=
  match ops with
  | [] => Ok (0, max)
  | _ =>
      st ← reduceRange_loop max what 0 ops {| rr_result := []; rr_cur := []; rr_started := false |};
      match normalize (rr_result (closeTerm st)) with
      | [] => unsupported ReasonUnsupportedExpression
                (Text "%s: expression matches no value" [AStr what])
      | [iv] => Ok (lo iv, hi iv)
      | _ => unsupported ReasonUnsupportedExpression
               (Text "%s: expression is not a single contiguous range" [AStr what])
      end
  end.

(** ** proto.go, icmp.go *)
Definition reduceProto (ops : list NumericOp) : result terror (Z * bool) :=
  match ops with
  | [] => Ok (0, false)
  | [op] =>
      if negb (n_EQ op) || n_LT op || n_GT op then
        unsupported ReasonUnsupportedExpression (plain "protocol: only equality (proto = N) is supported")
      else if 255 <? n_Value op then
        unsupported ReasonUnsupportedExpression (Text "protocol: value %d out of range" [AInt (n_Value op)])
      else Ok (u8 (n_Value op), true)
  | _ => unsupported ReasonUnsupportedExpression (plain "protocol: only a single exact match is supported")
  end.

Definition reduceExact (ops : list NumericOp) (what : string) : result terror (Z * bool) :=
  match ops with
  | [] => Ok (0, false)
  | [op] =>
      if negb (n_EQ op) || n_LT op || n_GT op then
        unsupported ReasonUnsupportedExpression (plain (what +:+ ": only equality is supported"))
      else if 255 <? n_Value op then
        unsupported ReasonUnsupportedExpression (Text "%s: value %d out of range" [AStr what; AInt (n_Value op)])
      else Ok (u8 (n_Value op), true)
  | _ => unsupported ReasonUnsupportedExpression (plain (what +:+ ": only a single exact match is supported"))
  end.

(** ** tcpflags.go *)
Fixpoint tcpflags_loop (i : nat) (ops : list BitmaskOp) (setBits clearBits : Z) : result terror (Z * Z) :=
  match ops with
  | [] => Ok (setBits, clearBits)
  | op :: ops' =>
      if (0 <? i)%nat && negb (b_And op) then
        unsupported ReasonUnsupportedExpression (plain "tcp-flags: OR alternation is not supported")
      else if 255 <? b_Value op then
        unsupported ReasonUnsupportedExpression (plain "tcp-flags: flag bits outside the TCP header flags byte")
      else
        let bits := u8 (b_Value op) in
        if bits =? 0 then
          unsupported ReasonUnsupportedExpression (plain "tcp-flags: empty flag set")
        else
          let oneBit := Z.land bits (u8 (bits - 1)) =? 0 in
          '(setBits', clearBits') ←
            match b_Match op, b_Not op with
            | true, false => Ok (Z.lor setBits bits, clearBits)
            | true, true =>
                if negb oneBit then
                  unsupported ReasonUnsupportedExpression (plain "tcp-flags: multi-bit not-all-set is not supported")
                else Ok (setBits, Z.lor clearBits bits)
            | false, false =>
                if negb oneBit then
                  unsupported ReasonUnsupportedExpression (plain "tcp-flags: multi-bit match-any is not supported")
                else Ok (Z.lor setBits bits, clearBits)
            | false, true => Ok (setBits, Z.lor clearBits bits)
            end;
          if negb (Z.land setBits' clearBits' =? 0) then
            unsupported ReasonUnsupportedExpression (plain "tcp-flags: expression matches no value")
          else tcpflags_loop (S i) ops' setBits' clearBits'
  end.

(** [(value, mask, present)]. *)
Definition reduceTCPFlags (ops : list BitmaskOp) : result terror (Z * Z * bool) :=
  match ops with
  | [] => Ok (0, 0, false)
  | _ =>
      '(setBits, clearBits) ← tcpflags_loop 0 ops 0 0;
      Ok (setBits, Z.lor setBits clearBits, true)
  end.

(** ** translate.go *)
Definition portMax : Z := 65535.

Definition icmpRange (v : Z) (pres : bool) : Z * Z := if pres then (v, v) else (0, 255).

Definition checkFamily (f : Family) (pres : bool) (p : Prefix) : result terror unit :=
  if negb pres then Ok tt
  else if bool_decide (f = FamilyIPv6) && negb (Is6 (p_addr p)) then
    unsupported ReasonUnmappablePrefix (plain "ipv4 prefix in ipv6 rule")
  else if bool_decide (f = FamilyIPv4) && negb (Is4 (p_addr p)) then
    unsupported ReasonUnmappablePrefix (plain "ipv6 prefix in ipv4 rule")
  else Ok tt.

(** Step 2 of [Translate]: components rejected by mere presence. *)
Definition check_components (m : Match) : result terror unit :=
  if HasGenericPort m then unsupported ReasonUnsupportedComponent (plain "generic port")
  else if HasPacketLen m then unsupported ReasonUnsupportedComponent (plain "packet length")
  else if HasDSCP m then unsupported ReasonUnsupportedComponent (plain "dscp")
  else if HasFlowLabel m then unsupported ReasonUnsupportedComponent (plain "flow label")
  else if HasLabel m then unsupported ReasonUnsupportedComponent (plain "label")
  else if HasUnknownComponent m then unsupported ReasonUnsupportedComponent (plain "unknown match component")
  else if present (Fragment m) then unsupported ReasonUnsupportedComponent (plain "fragment")
  else Ok tt.

(** Step 3: only offset 0 is mappable, and a present prefix is of the family. *)
Definition check_prefixes (f : Family) (m : Match) : result terror (Prefix * Prefix) :=
  if HasDst m && negb (DstOffset m =? 0) then
    unsupported ReasonUnmappablePrefix (Text "dst prefix offset %d != 0" [AInt (DstOffset m)])
  else if HasSrc m && negb (SrcOffset m =? 0) then
    unsupported ReasonUnmappablePrefix (Text "src prefix offset %d != 0" [AInt (SrcOffset m)])
  else
    let dst := DstOrDefault m f in
    let src := SrcOrDefault m f in
    _ ← checkFamily f (HasDst m) dst;
    _ ← checkFamily f (HasSrc m) src;
    Ok (src, dst).

(** Steps 4 to 6: the protocol, inferred from TCP flags and ICMP components
    when it is absent. *)
Definition infer_tcp (protoP : Z * bool) (tcpPresent : bool) : result terror (Z * bool) :=
  let '(proto, protoPresent) := protoP in
  if tcpPresent then
    if negb protoPresent then Ok (protoTCP, true)
    else if negb (proto =? protoTCP) then
      unsupported ReasonUnsupportedExpression
        (Text "tcp-flags present but protocol is %d, not tcp" [AInt proto])
    else Ok (proto, protoPresent)
  else Ok (proto, protoPresent).

Definition infer_icmp (f : Family) (protoP : Z * bool) (icmpPresent : bool) : result terror (Z * bool) :=
  let '(proto, protoPresent) := protoP in
  if icmpPresent then
    let want := icmp_of f in
    if negb protoPresent then Ok (want, true)
    else if negb (proto =? want) then
      unsupported ReasonUnsupportedExpression
        (Text "icmp type/code present but protocol is %d, not %d" [AInt proto; AInt want])
    else Ok (proto, protoPresent)
  else Ok (proto, protoPresent).

Definition check_ports (m : Match) (protoP : Z * bool) : result terror unit :=
  let '(proto, protoPresent) := protoP in
  if present (SrcPort m) || present (DstPort m) then
    if negb protoPresent then
      unsupported ReasonUnsupportedExpression
        (plain "source/destination port present without tcp/udp protocol")
    else if negb (proto =? protoTCP) && negb (proto =? protoUDP) then
      unsupported ReasonUnsupportedExpression
        (Text "source/destination port present but protocol is %d, not tcp/udp" [AInt proto])
    else Ok tt
  else Ok tt.

Definition Translate (r : Rule) : result terror ACLRule :=
  let m := r_Match r in
  if negb (bool_decide (Kind (r_Action r) = ActionDrop)) then
    unsupported ReasonUnsupportedAction (Text "action %q is not a pure drop" [AStr (Desc (r_Action r))])
  else
    _ ← check_components m;
    '(src, dst) ← check_prefixes (r_Family r) m;
    '(proto, protoPresent) ← reduceProto (Proto m);
    '(tcpVal, tcpMask, tcpPresent) ← reduceTCPFlags (TCPFlags m);
    '(proto, protoPresent) ← infer_tcp (proto, protoPresent) tcpPresent;
    '(icmpType, icmpTypePresent) ← reduceExact (ICMPType m) "icmp type";
    '(icmpCode, icmpCodePresent) ← reduceExact (ICMPCode m) "icmp code";
    let icmpPresent := icmpTypePresent || icmpCodePresent in
    '(proto, protoPresent) ← infer_icmp (r_Family r) (proto, protoPresent) icmpPresent;
    _ ← check_ports m (proto, protoPresent);
    '((sf, sl), (df, dl)) ←
      (if icmpPresent then Ok (icmpRange icmpType icmpTypePresent, icmpRange icmpCode icmpCodePresent)
       else
         '(sLo, sHi) ← reduceRange (SrcPort m) portMax "source port";
         '(dLo, dHi) ← reduceRange (DstPort m) portMax "destination port";
         Ok ((u16 sLo, u16 sHi), (u16 dLo, u16 dHi)));
    Ok {| IsIPv6 := bool_decide (r_Family r = FamilyIPv6);
          Permit := false;
          a_Src := src; a_Dst := dst;
          a_Proto := if (protoPresent : bool) then proto else 0;
          SrcPortOrICMPTypeFirst := sf; SrcPortOrICMPTypeLast := sl;
          DstPortOrICMPCodeFirst := df; DstPortOrICMPCodeLast := dl;
          TCPFlagsMask := if (tcpPresent : bool) then tcpMask else 0;
          TCPFlagsValue := if (tcpPresent : bool) then tcpVal else 0 |}.

(** ** Checks on concrete rules *)
Definition num_eq (v : Z) : NumericOp :=
  {| n_And := false; n_LT := false; n_GT := false; n_EQ := true; n_Value := v |}.

Definition drop_rule (f : Family) (m : Match) : Rule :=
  {| r_Family := f; r_Match := m; r_Action := {| Kind := ActionDrop; Desc := "traffic-rate=0" |}; r_Raw := "" |}.

Example reduce_ex1 :
  reduceRange [num_eq 80; num_eq 81; num_eq 79] portMax "port" = Ok (79, 81).
Proof. by vm_compute. Qed.
Example reduce_ex2 : is_ok (reduceRange [num_eq 80; num_eq 443] portMax "port") = false.
Proof. by vm_compute. Qed.
