(* ===== verification/TranslateFacts.v ===== *)
(** * Correctness of the translation (internal/translate)

    Operator lists reduce exactly: the interval algebra of port.go computes the
    set an operator list denotes, in a canonical form whose being a single
    interval characterises contiguity; flag lists reduce to an equivalent value
    and mask; and a rule that [Translate] accepts matches the packets its ACL
    entry matches. *)
From S2P Require Import Prelude GoText Netip Flowspec VppTypes Translate.
From Stdlib Require Import Ascii Btauto.
#[local] Open Scope Z_scope.

(** ** Sets of intervals *)
Definition iv_mem (v : Z) (iv : interval) : bool := (lo iv <=? v) && (v <=? hi iv).
Definition set_mem (v : Z) (s : list interval) : bool := existsb (iv_mem v) s.

Lemma set_mem_app v s t : set_mem v (s ++ t) = set_mem v s || set_mem v t.
Proof. apply existsb_app. Qed.

Lemma set_mem_cons v iv s : set_mem v (iv :: s) = iv_mem v iv || set_mem v s.
Proof. done. Qed.

Lemma set_mem_elem v s : set_mem v s = true <-> exists iv, iv ∈ s /\ lo iv <= v <= hi iv.
Proof.
  unfold set_mem, iv_mem. rewrite existsb_exists. setoid_rewrite <-list_elem_of_In.
  split; intros (iv & ? & ?); exists iv; split; auto; bool_hyps; lia.
Qed.

#[global] Instance set_mem_proper v : Proper (Permutation ==> eq) (set_mem v).
Proof.
  intros s t Hst. apply eq_true_iff_eq. rewrite !set_mem_elem. by setoid_rewrite Hst.
Qed.

(** The intervals of a set lie in the domain and are not empty. *)
Definition set_wf (max : Z) (s : list interval) : Prop :=
  Forall (fun iv => 0 <= lo iv <= hi iv /\ hi iv <= max) s.

(** Canonical form: consecutive intervals are separated by a missing value. *)
Definition canonical (s : list interval) : Prop :=
  StronglySorted (fun x y => hi x + 1 < lo y) s.

Create HintDb intervals.

Section Normalize.
Context (max : Z) (Hmax : 0 <= max < 2 ^ 64 - 1).

#[local] Instance iv_le_total : Total iv_le.
Proof. intros x y. unfold iv_le. lia. Qed.
#[local] Instance iv_le_trans : Transitive iv_le.
Proof. intros x y z. unfold iv_le. lia. Qed.

(** Merging keeps the members, the domain, and separation. *)
Lemma merge_loop_mem acc last s v :
  set_wf max (last :: s) -> StronglySorted iv_le (last :: s) ->
  set_mem v (merge_loop acc last s) = set_mem v (acc ++ last :: s).
Proof using Hmax.
  revert acc last. induction s as [|iv s IH]; intros acc last Hwf Hs; simpl; [done|].
  inversion Hwf as [|?? Hl Hwf']; inversion Hwf' as [|?? Hi Hwf'']; subst.
  inversion Hs as [|?? Hs' Hf]; inversion Hs' as [|?? Hs'' Hf'']; inversion Hf as [|?? Hli Hf']; subst.
  rewrite u64_small by (unfold in_width; lia).
  destruct ((lo iv <=? hi last) || (lo iv =? hi last + 1)) eqn:E.
  - rewrite IH.
    + rewrite !set_mem_app, !set_mem_cons, !orb_assoc. f_equal.
      rewrite <-!orb_assoc. f_equal. apply eq_true_iff_eq.
      unfold iv_le in Hli. unfold iv_mem.
      destruct (hi last <? hi iv) eqn:E2; simpl; rewrite ?orb_true_iff, !andb_true_iff, !Z.leb_le; lia.
    + constructor; [destruct (hi last <? hi iv) eqn:E2; simpl; lia|done].
    + constructor; [done|]. destruct (hi last <? hi iv) eqn:E2; [|by inversion Hf].
      eapply Forall_impl; [exact Hf''|]. unfold iv_le in *. simpl. intros x. lia.
  - rewrite IH by done. by rewrite <-app_assoc.
Qed.

Lemma merge_loop_wf acc last s :
  set_wf max acc -> set_wf max (last :: s) -> set_wf max (merge_loop acc last s).
Proof using Type.
  revert acc last. induction s as [|iv s IH]; intros acc last Ha Hwf; simpl.
  - by apply Forall_app.
  - inversion Hwf as [|?? Hl Hwf']; inversion Hwf' as [|?? Hi Hwf'']; subst.
    destruct (_ || _); apply IH; try done.
    + constructor; [|done]. destruct (hi last <? hi iv) eqn:E2; simpl; lia.
    + apply Forall_app. split; [done|by constructor].
Qed.

Lemma merge_loop_canonical acc last s :
  set_wf max (last :: s) -> StronglySorted iv_le (last :: s) ->
  canonical (acc ++ [last]) -> canonical (merge_loop acc last s).
Proof using Hmax.
  revert acc last. induction s as [|iv s IH]; intros acc last Hwf Hs Hc; simpl; [done|].
  inversion Hwf as [|?? Hl Hwf']; inversion Hwf' as [|?? Hi Hwf'']; subst.
  inversion Hs as [|?? Hs' Hf]; inversion Hs' as [|?? Hs'' Hf'']; inversion Hf as [|?? Hli Hf']; subst.
  rewrite u64_small by (unfold in_width; lia).
  destruct ((lo iv <=? hi last) || (lo iv =? hi last + 1)) eqn:E.
  - apply IH.
    + constructor; [destruct (hi last <? hi iv) eqn:E2; simpl; lia|done].
    + constructor; [done|]. destruct (hi last <? hi iv) eqn:E2; [|by inversion Hf].
      eapply Forall_impl; [exact Hf''|]. unfold iv_le in *. simpl. intros x. lia.
    + destruct (hi last <? hi iv); [|done]. unfold canonical in *.
      apply StronglySorted_app in Hc as (Hx & Ha & _). apply StronglySorted_app.
      split; [|split; [done|repeat constructor]].
      intros x y Hx' ->%list_elem_of_singleton. simpl. by eapply Hx; [|apply list_elem_of_singleton].
  - apply IH; [done..|]. apply StronglySorted_app. split; [|split; [done|repeat constructor]].
    intros x y Hx ->%list_elem_of_singleton. unfold canonical in Hc.
    apply StronglySorted_app in Hc as (Hx' & _ & _). apply elem_of_app in Hx as [Hx|Hx].
    + specialize (Hx' x last Hx (list_elem_of_here _ _)). bool_hyps. lia.
    + apply list_elem_of_singleton in Hx as ->. bool_hyps. lia.
Qed.

Lemma set_wf_sorted s : set_wf max s -> set_wf max (merge_sort iv_le s).
Proof using Type. unfold set_wf. by rewrite merge_sort_Permutation. Qed.

Lemma normalize_mem s v : set_wf max s -> set_mem v (normalize s) = set_mem v s.
Proof using Hmax.
  intros Hwf%set_wf_sorted. rewrite <-(merge_sort_Permutation iv_le s) at 2. unfold normalize.
  pose proof (StronglySorted_merge_sort iv_le s) as Hs.
  destruct (merge_sort iv_le s) as [|c cp]; [done|]. by rewrite merge_loop_mem.
Qed.

Lemma normalize_wf s : set_wf max s -> set_wf max (normalize s).
Proof using Type.
  intros Hwf%set_wf_sorted. unfold normalize.
  destruct (merge_sort iv_le s) as [|c cp]; [done|]. by apply merge_loop_wf; [constructor|].
Qed.

Lemma normalize_canonical s : set_wf max s -> canonical (normalize s).
Proof using Hmax.
  intros Hwf%set_wf_sorted. unfold normalize.
  pose proof (StronglySorted_merge_sort iv_le s) as Hs.
  destruct (merge_sort iv_le s) as [|c cp]; [constructor|].
  apply merge_loop_canonical; [done..|]. repeat constructor.
Qed.

Lemma intersect1_spec x y v :
  set_mem v (intersect1 x y) = iv_mem v x && iv_mem v y.
Proof using Type.
  unfold intersect1. cbn zeta.
  destruct (lo x <? lo y) eqn:E1; destruct (hi y <? hi x) eqn:E2; case_bool;
    unfold set_mem, existsb, iv_mem; cbn [lo hi]; lia.
Qed.

Lemma intersect_pairs_wf a b :
  set_wf max a -> set_wf max b -> set_wf max (x ← a; y ← b; intersect1 x y).
Proof using Type.
  unfold set_wf. rewrite !Forall_forall. intros Ha Hb iv (x & Hiv & Hx)%list_elem_of_bind.
  apply list_elem_of_bind in Hiv as (y & Hiv & Hy). specialize (Ha x Hx). specialize (Hb y Hy).
  unfold intersect1 in Hiv.
  destruct (lo x <? lo y) eqn:E1; destruct (hi y <? hi x) eqn:E2; case_match;
    try (by apply not_elem_of_nil in Hiv); apply list_elem_of_singleton in Hiv as ->; simpl; lia.
Qed.

Lemma intersectSets_wf a b : set_wf max a -> set_wf max b -> set_wf max (intersectSets a b).
Proof using Type. intros. by apply normalize_wf, intersect_pairs_wf. Qed.

Lemma intersectSets_mem a b v :
  set_wf max a -> set_wf max b -> set_mem v (intersectSets a b) = set_mem v a && set_mem v b.
Proof using Hmax.
  intros Ha Hb. unfold intersectSets. rewrite normalize_mem.
  - clear Ha Hb. induction a as [|x a IH]; [done|].
    rewrite bind_cons, set_mem_app, IH, set_mem_cons, andb_orb_distrib_l. f_equal. clear IH.
    induction b as [|y b IHb]; [by rewrite andb_false_r|].
    by rewrite bind_cons, set_mem_app, intersect1_spec, IHb, set_mem_cons, andb_orb_distrib_r.
  - by apply intersect_pairs_wf.
Qed.

Lemma unionSets_wf a b : set_wf max a -> set_wf max b -> set_wf max (unionSets a b).
Proof using Type. intros. apply normalize_wf. by apply Forall_app. Qed.

Lemma unionSets_mem a b v :
  set_wf max a -> set_wf max b -> set_mem v (unionSets a b) = set_mem v a || set_mem v b.
Proof using Hmax.
  intros. unfold unionSets. rewrite normalize_mem by (by apply Forall_app). apply set_mem_app.
Qed.
End Normalize.

(** ** Operators denote their sets *)

(** The operand test of [opToSet]: "true" and "false" ignore their operand. *)
Definition operand_ok (max : Z) (o : NumericOp) : bool :=
  (negb (n_LT o) && negb (n_GT o) && negb (n_EQ o)) || (n_LT o && n_GT o && n_EQ o) || (n_Value o <=? max).

Lemma opToSet_spec max o :
  0 <= max -> NumericOp_wf o ->
  match opToSet o max with
  | Ok s => operand_ok max o = true /\ set_wf max s /\
            (forall v, 0 <= v <= max -> set_mem v s = num_holds o v)
  | Err e => operand_ok max o = false
  end.
Proof.
  intros Hmax Hwf. unfold opToSet, unsupported, operand_ok, num_holds, NumericOp_wf, in_width in *.
  destruct (n_LT o), (n_GT o), (n_EQ o); cbn [negb andb orb];
    repeat case_bool; try lia;
    (split; [lia|]; split;
     [unfold set_wf; rewrite ?Forall_app, ?Forall_cons, ?Forall_nil; cbn [lo hi]; lia|]);
    intros v Hv; unfold set_mem, iv_mem; simpl; lia.
Qed.

Section ReduceRange.
Context (max : Z) (Hmax : 0 <= max < 2 ^ 64 - 1) (what : string).

Definition rr_wf (st : rrState) : Prop :=
  rr_started st = true /\ set_wf max (rr_result st) /\ set_wf max (rr_cur st).

(** The loop keeps "result or the rest of the list from the current term". *)
Lemma reduceRange_loop_spec ops i st :
  Forall NumericOp_wf ops -> rr_wf st -> (0 < i)%nat ->
  match reduceRange_loop max what i ops st with
  | Ok st' =>
      forallb (operand_ok max) ops = true /\ rr_wf st' /\
      (forall v, 0 <= v <= max ->
         set_mem v (rr_result st') || set_mem v (rr_cur st') =
         set_mem v (rr_result st) || ops_go n_And num_holds (set_mem v (rr_cur st)) ops v)
  | Err e => forallb (operand_ok max) ops = false
  end.
Proof using Hmax.
  revert i st. induction ops as [|o ops IH]; intros i st Hops Hst Hi; [done|].
  inversion Hops as [|?? Ho Hops']; subst. destruct Hst as (Hs & Hr & Hc).
  pose proof (opToSet_spec max o ltac:(lia) Ho) as Hset.
  cbn [reduceRange_loop forallb]. destruct (opToSet o max) as [set|e]; [|by rewrite Hset].
  destruct Hset as (Hok & Hswf & Hsm). rewrite Hok. cbn [wrap_what mbind result_bind andb].
  replace (0 <? i)%nat with true by (symmetry; apply Nat.ltb_lt; lia). cbn [andb].
  set (st1 := if negb (rr_started _) then _ else _).
  assert (rr_wf st1 /\ forall v, 0 <= v <= max ->
    set_mem v (rr_result st1) || ops_go n_And num_holds (set_mem v (rr_cur st1)) ops v =
    set_mem v (rr_result st) || ops_go n_And num_holds (set_mem v (rr_cur st)) (o :: ops) v)
    as [Hwf1 Heq1].
  { subst st1. destruct (n_And o) eqn:HA; cbn [negb].
    - rewrite Hs. cbn [negb]. split; [split; [done|split; [done|by apply intersectSets_wf]]|].
      intros v Hv. cbn [rr_result rr_cur ops_go]. rewrite HA.
      rewrite (intersectSets_mem max Hmax) by done. by rewrite Hsm.
    - unfold closeTerm. rewrite Hs. cbn [rr_started negb].
      split; [split; [done|split; [by apply unionSets_wf|done]]|].
      intros v Hv. cbn [rr_result rr_cur ops_go]. rewrite HA.
      rewrite (unionSets_mem max Hmax) by done. by rewrite Hsm, orb_assoc. }
  specialize (IH (S i) st1 Hops' Hwf1 ltac:(lia)).
  destruct (reduceRange_loop _ _ _ _ _) as [st'|e]; [|done].
  destruct IH as (? & ? & IH). split; [done|split; [done|]]. intros v Hv. by rewrite IH, Heq1.
Qed.

(** The set computed for a non-empty list. *)
Definition reduced_set (ops : list NumericOp) : result terror (list interval) :=
  st ← reduceRange_loop max what 0 ops {| rr_result := []; rr_cur := []; rr_started := false |};
  Ok (normalize (rr_result (closeTerm st))).

Lemma reduced_set_spec o ops :
  Forall NumericOp_wf (o :: ops) ->
  match reduced_set (o :: ops) with
  | Ok s => forallb (operand_ok max) (o :: ops) = true /\ set_wf max s /\ canonical s /\
            (forall v, 0 <= v <= max -> set_mem v s = nums_hold (o :: ops) v)
  | Err e => forallb (operand_ok max) (o :: ops) = false
  end.
Proof using Hmax.
  intros Hops. inversion Hops as [|?? Ho Hops']; subst.
  pose proof (opToSet_spec max o ltac:(lia) Ho) as Hset.
  unfold reduced_set. cbn [reduceRange_loop forallb].
  destruct (opToSet o max) as [set|e]; [|by rewrite Hset].
  destruct Hset as (Hok & Hswf & Hsm). rewrite Hok. cbn.
  match goal with |- context [reduceRange_loop _ _ _ _ ?st] =>
    pose proof (reduceRange_loop_spec ops 1 st Hops') as Hloop end.
  specialize (Hloop (conj eq_refl (conj (Forall_nil_2 _) Hswf)) ltac:(lia)).
  destruct (reduceRange_loop _ _ _ _ _) as [st'|e]; cbn; [|done].
  destruct Hloop as (Hall & (Hs' & Hr' & Hc') & Hm). split; [done|].
  assert (set_wf max (rr_result (closeTerm st'))) as Hwf'.
  { unfold closeTerm. cbn [rr_result]. rewrite Hs'. by apply unionSets_wf. }
  split; [by apply normalize_wf|]. split; [by eapply normalize_canonical|].
  intros v Hv. rewrite (normalize_mem max Hmax) by done. unfold closeTerm. cbn [rr_result].
  rewrite Hs', (unionSets_mem max Hmax), Hm by done. cbn [rr_result rr_cur].
  by rewrite Hsm.
Qed.

(** Two members of a canonical set in different intervals have a non-member
    between them. *)
Lemma canonical_gap x y s :
  canonical (x :: y :: s) -> set_wf max (x :: y :: s) ->
  set_mem (hi x) (x :: y :: s) = true /\ set_mem (lo y) (x :: y :: s) = true /\
  set_mem (hi x + 1) (x :: y :: s) = false /\ 0 <= hi x /\ hi x + 1 < lo y <= max.
Proof using Type.
  intros Hc Hwf. inversion Hc as [|?? Hc' Hf]; inversion Hwf as [|?? Hx Hwf']; subst.
  inversion Hwf' as [|?? Hy Hwf'']; inversion Hf as [|?? Hxy Hf']; subst.
  rewrite !set_mem_cons. unfold iv_mem. split; [lia|]. split; [lia|]. split; [|lia].
  destruct (set_mem (hi x + 1) s) eqn:E; [|lia]. exfalso.
  apply set_mem_elem in E as (iv & Hin & ?). rewrite Forall_forall in Hf'.
  specialize (Hf' iv Hin). lia.
Qed.

(** [reduceRange] succeeds exactly on the lists that denote one contiguous,
    non-empty range of the domain, and returns that range. *)
Lemma reduceRange_iff o ops l h :
  Forall NumericOp_wf (o :: ops) ->
  reduceRange (o :: ops) max what = Ok (l, h) <->
  forallb (operand_ok max) (o :: ops) = true /\ 0 <= l <= h /\ h <= max /\
  (forall v, 0 <= v <= max -> nums_hold (o :: ops) v = in_range l h v).
Proof using Hmax.
  intros Hops. pose proof (reduced_set_spec o ops Hops) as Hs. unfold reduced_set in Hs.
  unfold reduceRange.
  destruct (reduceRange_loop _ _ _ _ _) as [st|e]; cbn in Hs |- *;
    [|split; [discriminate|by intros (? & _); congruence]].
  destruct Hs as (Hall & Hwf & Hc & Hm).
  destruct (normalize _) as [|x [|y s]].
  - split; [discriminate|]. intros (_ & ? & ? & Hv). exfalso.
    specialize (Hv l ltac:(lia)). rewrite <-Hm in Hv by lia. unfold set_mem, in_range in Hv. simpl in Hv. lia.
  - inversion Hwf as [|?? Hx _]; subst. split.
    + intros [= <- <-]. split; [done|]. split; [lia|]. split; [lia|]. intros v Hv.
      rewrite <-Hm by done. rewrite set_mem_cons. unfold in_range, iv_mem, set_mem. simpl. lia.
    + intros (_ & ? & ? & Hv). apply (f_equal Ok).
      assert (forall v, 0 <= v <= max -> iv_mem v x = in_range l h v) as Hv'.
      { intros v Hd. rewrite <-Hv, <-Hm by done. rewrite set_mem_cons. unfold set_mem. simpl. by rewrite orb_false_r. }
      pose proof (Hv' l ltac:(lia)). pose proof (Hv' h ltac:(lia)).
      pose proof (Hv' (lo x) ltac:(lia)). pose proof (Hv' (hi x) ltac:(lia)).
      unfold iv_mem, in_range in *. f_equal; lia.
  - split; [discriminate|]. intros (_ & ? & ? & Hv). exfalso.
    pose proof (canonical_gap x y s Hc Hwf) as (G1 & G2 & G3 & G4 & G5).
    rewrite Hm, Hv in G1, G2, G3 by lia. unfold in_range in *. lia.
Qed.
End ReduceRange.

(** ** Flag lists *)

(** Close a goal about one bit by cases on the bits involved. *)
Ltac bit_cases i :=
  rewrite ?Z.land_spec, ?Z.lor_spec, ?Z.bits_0 in *;
  repeat match goal with |- context [Z.testbit ?a i] => destruct (Z.testbit a i) end; done.

Lemma land_mask_iff f s c :
  Z.land s c = 0 -> Z.land f (Z.lor s c) = s <-> Z.land f s = s /\ Z.land f c = 0.
Proof.
  rewrite <-!Z.bits_inj_iff'. intros H. split.
  - intros E. split; intros i Hi; specialize (E i Hi); specialize (H i Hi); revert E H; bit_cases i.
  - intros [E1 E2] i Hi; specialize (E1 i Hi); specialize (E2 i Hi); specialize (H i Hi).
    revert E1 E2 H. bit_cases i.
Qed.

Lemma land_lor_full f s b :
  Z.land f (Z.lor s b) = Z.lor s b <-> Z.land f s = s /\ Z.land f b = b.
Proof.
  rewrite <-!Z.bits_inj_iff'. split.
  - intros E. split; intros i Hi; specialize (E i Hi); revert E; bit_cases i.
  - intros [E1 E2] i Hi; specialize (E1 i Hi); specialize (E2 i Hi). revert E1 E2. bit_cases i.
Qed.

Lemma land_lor_empty f c b : Z.land f (Z.lor c b) = 0 <-> Z.land f c = 0 /\ Z.land f b = 0.
Proof. by rewrite Z.land_lor_distr_r, Z.lor_eq_0_iff. Qed.

(** A byte that passes the [bits&(bits-1) == 0] test is a single bit. *)
Lemma oneBit_pow2 b :
  0 < b < 256 -> Z.land b (u8 (b - 1)) = 0 -> exists k, 0 <= k /\ b = 2 ^ k.
Proof.
  intros Hb H.
  assert (forallb (fun n => let b := Z.of_nat n in
    negb (Z.land b (u8 (b - 1)) =? 0) || existsb (fun k => b =? 2 ^ Z.of_nat k) (seq 0 8))
    (seq 1 255) = true) as Hall by (by vm_compute).
  rewrite forallb_forall in Hall. specialize (Hall (Z.to_nat b)).
  rewrite in_seq in Hall. specialize (Hall ltac:(lia)). cbn zeta in Hall.
  rewrite Z2Nat.id in Hall by lia. rewrite H, Z.eqb_refl in Hall. cbn [negb orb] in Hall.
  apply existsb_exists in Hall as (k & _ & Hk). apply Z.eqb_eq in Hk. exists (Z.of_nat k). lia.
Qed.

Lemma land_one_bit f b :
  0 < b < 256 -> Z.land b (u8 (b - 1)) = 0 -> Z.land f b = b <-> Z.land f b <> 0.
Proof.
  intros Hb (k & Hk & ->)%oneBit_pow2; [|done].
  assert (Z.land f (2 ^ k) = if Z.testbit f k then 2 ^ k else 0) as ->.
  { apply Z.bits_inj'. intros i Hi. rewrite Z.land_spec, Z.pow2_bits_eqb by done.
    destruct (Z.eqb_spec k i) as [->|]; [|destruct (Z.testbit f k);
      rewrite ?Z.pow2_bits_eqb, ?Z.bits_0 by done; rewrite andb_false_r;
      try (by symmetry; apply Z.eqb_neq); done].
    destruct (Z.testbit f i) eqn:E; rewrite ?Z.pow2_bits_eqb, ?Z.bits_0, ?Z.eqb_refl by done; done. }
  destruct (Z.testbit f k); split; intros; try done; lia.
Qed.

(** A packet's flags satisfy the accumulated requirement. *)
Definition flags_sat (f s c : Z) : bool := (Z.land f s =? s) && (Z.land f c =? 0).

Lemma tcpflags_loop_spec i ops s c s' c' :
  Forall BitmaskOp_wf ops -> in_width 8 s -> in_width 8 c -> Z.land s c = 0 ->
  tcpflags_loop i ops s c = Ok (s', c') ->
  in_width 8 s' /\ in_width 8 c' /\ Z.land s' c' = 0 /\
  (i <> O -> forallb b_And ops = true) /\ forallb b_And (tail ops) = true /\
  (forall f, flags_sat f s' c' = flags_sat f s c && forallb (fun o => bit_holds o f) ops).
Proof.
  intros Hops. revert i s c. induction Hops as [|o ops Ho Hops IH]; intros i s c Hs Hc Hd.
  { intros [= <- <-]. repeat split; try done; unfold in_width in *; try lia. intros. by rewrite andb_true_r. }
  cbn [tcpflags_loop]. unfold unsupported.
  destruct ((0 <? i)%nat && negb (b_And o)) eqn:EA; [done|].
  destruct (255 <? b_Value o) eqn:EV; [done|].
  unfold BitmaskOp_wf, in_width in Ho. rewrite u8_small by (unfold in_width; lia).
  destruct (Z.eqb_spec (b_Value o) 0) as [|Hnz]; [done|].
  set (bits := b_Value o) in *. assert (0 < bits < 256) as Hb by lia.
  assert (in_width 8 bits) as Hb8 by (unfold in_width; lia).
  match goal with |- (?x ≫= _) = _ -> _ => destruct x as [[s1 c1]|] eqn:Estep; [|done] end.
  cbn [mbind result_bind]. destruct (Z.eqb_spec (Z.land s1 c1) 0) as [Hd1|]; [|done]. cbn [negb].
  assert (in_width 8 s1 /\ in_width 8 c1 /\
          forall f, flags_sat f s1 c1 = flags_sat f s c && bit_holds o f) as (Hs1 & Hc1 & Hstep).
  { unfold bit_holds, flags_sat. fold bits.
    destruct (b_Match o), (b_Not o); try (destruct (Z.eqb_spec (Z.land bits (u8 (bits - 1))) 0) as [H1|];
      cbn [negb] in Estep; [|done]); injection Estep as <- <-;
      (split; [auto using in_width_lor with lia|]; split; [auto using in_width_lor with lia|]);
      intros f; apply eq_true_iff_eq;
      rewrite ?andb_true_iff, ?negb_true_iff, ?negb_involutive, ?Z.eqb_eq, ?Z.eqb_neq,
        ?land_lor_full, ?land_lor_empty; try tauto.
    - pose proof (land_one_bit f bits Hb H1). destruct (decide (Z.land f bits = 0)); tauto.
    - rewrite negb_false_iff, Z.eqb_eq. tauto.
    - pose proof (land_one_bit f bits Hb H1). tauto. }
  intros Hrec. apply IH in Hrec as (? & ? & ? & Hand & _ & Hsat); [|done..].
  specialize (Hand ltac:(done)).
  split; [done|]. split; [done|]. split; [done|]. split; [|split].
  - intros Hi. cbn [forallb]. rewrite Hand, andb_true_r.
    destruct i; [done|]. cbn in EA. by apply negb_false_iff in EA.
  - done.
  - intros f. rewrite Hsat, Hstep. cbn [forallb]. by rewrite andb_assoc.
Qed.

Lemma ops_go_all_and {Op} (ab : Op -> bool) holds cur ops v :
  forallb ab ops = true -> ops_go ab holds cur ops v = cur && forallb (fun o => holds o v) ops.
Proof.
  revert cur. induction ops as [|o ops IH]; intros cur; simpl; [by rewrite andb_true_r|].
  intros [Ha Hr]%andb_true_iff. by rewrite Ha, IH, andb_assoc.
Qed.

(** The value and mask returned test exactly the flag list. *)
Lemma reduceTCPFlags_spec ops value mask pres :
  Forall BitmaskOp_wf ops -> reduceTCPFlags ops = Ok (value, mask, pres) ->
  pres = present ops /\ in_width 8 value /\ in_width 8 mask /\
  (forall f, (Z.land f mask =? value) = bits_hold ops f).
Proof.
  intros Hops. unfold reduceTCPFlags. destruct ops as [|o ops].
  { intros [= <- <- <-]. repeat split; try (unfold in_width; lia). intros. by rewrite Z.land_0_r. }
  match goal with |- (?x ≫= _) = _ -> _ => destruct x as [[s c]|] eqn:E; [|done] end.
  cbn. intros [= <- <- <-].
  apply tcpflags_loop_spec in E as (Hs & Hc & Hd & _ & Hand & Hsat); [|done|by unfold in_width..|done].
  split; [done|]. split; [done|]. split; [auto using in_width_lor with lia|]. intros f.
  unfold bits_hold, ops_hold. rewrite ops_go_all_and by done.
  specialize (Hsat f). cbn [forallb] in Hsat.
  assert (flags_sat f 0 0 = true) as H0 by (unfold flags_sat; by rewrite Z.land_0_r).
  rewrite H0 in Hsat. cbn [andb] in Hsat. rewrite <-Hsat.
  apply eq_true_iff_eq. unfold flags_sat. rewrite andb_true_iff, !Z.eqb_eq. by apply land_mask_iff.
Qed.

(** ** The exact-value reductions *)
Lemma reduceProto_spec ops v pres :
  Forall NumericOp_wf ops -> reduceProto ops = Ok (v, pres) ->
  pres = present ops /\ in_width 8 v /\
  (forall x, nums_hold ops x = if pres then x =? v else true) /\
  (pres = true -> exists op, ops = [op] /\ v = n_Value op).
Proof.
  intros Hops. unfold reduceProto, unsupported. destruct ops as [|o [|]]; [|  |done].
  - intros [= <- <-]. split; [done|]. split; [by unfold in_width|]. done.
  - inversion Hops as [|?? Ho _]; subst. unfold NumericOp_wf, in_width in Ho.
    destruct (n_EQ o) eqn:EE, (n_LT o) eqn:EL, (n_GT o) eqn:EG; try done.
    cbn. destruct (255 <? n_Value o) eqn:EV; [done|]. intros [= <- <-].
    rewrite u8_small by (unfold in_width; lia). split; [done|]. split; [unfold in_width; lia|].
    split; [|eauto]. intros x. cbn. unfold num_holds. by rewrite EE, EL, EG.
Qed.

Lemma reduceExact_spec ops what v pres :
  Forall NumericOp_wf ops -> reduceExact ops what = Ok (v, pres) ->
  pres = present ops /\ in_width 8 v /\ (forall x, nums_hold ops x = if pres then x =? v else true).
Proof.
  intros Hops. unfold reduceExact, unsupported. destruct ops as [|o [|]]; [|  |done].
  - intros [= <- <-]. split; [done|]. split; [by unfold in_width|]. done.
  - inversion Hops as [|?? Ho _]; subst. unfold NumericOp_wf, in_width in Ho.
    destruct (n_EQ o) eqn:EE, (n_LT o) eqn:EL, (n_GT o) eqn:EG; try done.
    cbn. destruct (255 <? n_Value o) eqn:EV; [done|]. intros [= <- <-].
    rewrite u8_small by (unfold in_width; lia). split; [done|]. split; [unfold in_width; lia|].
    intros x. cbn. unfold num_holds. by rewrite EE, EL, EG.
Qed.

(** A reduced port list is a 16-bit range that tests exactly the list. *)
Lemma port_range_spec ops what l h :
  Forall NumericOp_wf ops -> reduceRange ops portMax what = Ok (l, h) ->
  in_width 16 l /\ in_width 16 h /\ (forall v, in_width 16 v -> in_range l h v = nums_hold ops v).
Proof.
  intros Hops E. destruct ops as [|o ops].
  - injection E as <- <-. unfold in_width, portMax, in_range. split; [lia|]. split; [lia|].
    intros v Hv. change (nums_hold [] v) with true. lia.
  - apply reduceRange_iff in E as (_ & ? & ? & Hv); [|unfold portMax; lia|done].
    unfold portMax, in_width in *. split; [lia|]. split; [lia|]. intros v ?. rewrite Hv by lia. done.
Qed.

Lemma icmpRange_spec v pres x :
  in_width 8 x -> in_range (icmpRange v pres).1 (icmpRange v pres).2 x = if pres then x =? v else true.
Proof. unfold in_width, icmpRange, in_range. destruct pres; simpl; lia. Qed.

Lemma check_components_Ok m :
  check_components m = Ok tt <->
  HasGenericPort m || HasPacketLen m || HasDSCP m || HasFlowLabel m || HasLabel m ||
  HasUnknownComponent m || present (Fragment m) = false.
Proof. unfold check_components, unsupported. by repeat case_bool. Qed.

Lemma checkFamily_Ok f pres p u :
  checkFamily f pres p = Ok u ->
  pres = true -> match f with FamilyIPv4 => Is4 (p_addr p) | FamilyIPv6 => Is6 (p_addr p) end = true.
Proof.
  unfold checkFamily, unsupported. intros E ->. cbn [negb] in E. destruct f; cbn in E.
  - by destruct (Is4 (p_addr p)).
  - by destruct (Is6 (p_addr p)).
Qed.

(** What [check_prefixes] guarantees of the prefixes it returns. *)
Lemma check_prefixes_spec f m src dst :
  check_prefixes f m = Ok (src, dst) ->
  src = SrcOrDefault m f /\ dst = DstOrDefault m f /\
  (HasDst m = true -> DstOffset m = 0) /\ (HasSrc m = true -> SrcOffset m = 0) /\
  match f with FamilyIPv4 => Is4 (p_addr src) && Is4 (p_addr dst)
             | FamilyIPv6 => Is6 (p_addr src) && Is6 (p_addr dst) end = true.
Proof.
  unfold check_prefixes. unfold unsupported at 1 2.
  destruct (HasDst m && _) eqn:ED; [done|]. destruct (HasSrc m && _) eqn:ES; [done|]. cbn zeta.
  intros (? & HD & (? & HS & [= <- <-])%result_bind_Ok)%result_bind_Ok.
  split; [done|]. split; [done|].
  split; [intros H; rewrite H in ED; simpl in ED; lia|].
  split; [intros H; rewrite H in ES; simpl in ES; lia|].
  pose proof (checkFamily_Ok _ _ _ _ HD) as HD'. pose proof (checkFamily_Ok _ _ _ _ HS) as HS'.
  unfold DstOrDefault, SrcOrDefault in *.
  destruct f; destruct (HasDst m), (HasSrc m); rewrite ?HD', ?HS' by done; done.
Qed.

(** ** Inversion of [Translate] *)
Record translation (r : Rule) (a : ACLRule) : Prop := {
  t_action : Kind (r_Action r) = ActionDrop;
  t_comps : check_components (r_Match r) = Ok tt;
  t_prefixes : check_prefixes (r_Family r) (r_Match r) = Ok (a_Src a, a_Dst a);
  t_fields : exists proto0 pp0 proto1 pp1 proto pp tv tm tp it itp ic icp sr dr,
    reduceProto (Proto (r_Match r)) = Ok (proto0, pp0) /\
    reduceTCPFlags (TCPFlags (r_Match r)) = Ok (tv, tm, tp) /\
    infer_tcp (proto0, pp0) tp = Ok (proto1, pp1) /\
    reduceExact (ICMPType (r_Match r)) "icmp type" = Ok (it, itp) /\
    reduceExact (ICMPCode (r_Match r)) "icmp code" = Ok (ic, icp) /\
    infer_icmp (r_Family r) (proto1, pp1) (itp || icp) = Ok (proto, pp) /\
    check_ports (r_Match r) (proto, pp) = Ok tt /\
    (if itp || icp then Ok (icmpRange it itp, icmpRange ic icp)
     else
       '(sLo, sHi) ← reduceRange (SrcPort (r_Match r)) portMax "source port";
       '(dLo, dHi) ← reduceRange (DstPort (r_Match r)) portMax "destination port";
       Ok ((u16 sLo, u16 sHi), (u16 dLo, u16 dHi))) = Ok (sr, dr) /\
    a_Proto a = (if pp then proto else 0) /\
    (SrcPortOrICMPTypeFirst a, SrcPortOrICMPTypeLast a) = sr /\
    (DstPortOrICMPCodeFirst a, DstPortOrICMPCodeLast a) = dr /\
    TCPFlagsMask a = (if tp then tm else 0) /\ TCPFlagsValue a = (if tp then tv else 0);
  t_v6 : IsIPv6 a = bool_decide (r_Family r = FamilyIPv6);
  t_deny : Permit a = false
}.

Lemma Translate_inv r a : Translate r = Ok a -> translation r a.
Proof.
  unfold Translate. unfold unsupported at 1.
  destruct (bool_decide_reflect (Kind (r_Action r) = ActionDrop)) as [Hk|]; [|done]. cbn [negb].
  intros ([] & H1 & ([src dst] & H2 & ([proto0 pp0] & H3 & ([[tv tm] tp] & H4 &
    ([proto1 pp1] & H5 & ([it itp] & H6 & ([ic icp] & H7 & ([proto pp] & H8 & ([] & H9 &
    ([[sf sl] [df dl]] & H10 & H11)%result_bind_Ok)%result_bind_Ok)%result_bind_Ok)%result_bind_Ok)
    %result_bind_Ok)%result_bind_Ok)%result_bind_Ok)%result_bind_Ok)%result_bind_Ok)%result_bind_Ok.
  injection H11 as <-. split; try done. cbn.
  exists proto0, pp0, proto1, pp1, proto, pp, tv, tm, tp, it, itp, ic, icp, (sf, sl), (df, dl).
  by repeat split.
Qed.

(** ** The protocol of the entry *)

(** The protocol test of the entry holds exactly when the protocol component and
    every upper-layer component's protocol requirement hold. *)
Lemma protocol_spec r (p proto0 proto1 proto : Z) (pp0 pp1 pp tp ip : bool) :
  (forall x, nums_hold (Proto (r_Match r)) x = if pp0 then x =? proto0 else true) ->
  infer_tcp (proto0, pp0) tp = Ok (proto1, pp1) ->
  infer_icmp (r_Family r) (proto1, pp1) ip = Ok (proto, pp) ->
  check_ports (r_Match r) (proto, pp) = Ok tt ->
  (if pp then p =? proto else true) =
    nums_hold (Proto (r_Match r)) p && (if tp then p =? protoTCP else true) &&
    (if ip then p =? icmp_of (r_Family r) else true) /\
  (present (SrcPort (r_Match r)) || present (DstPort (r_Match r)) = true ->
   pp = true /\ ip = false /\ (proto = protoTCP \/ proto = protoUDP)) /\
  (tp && ip = false) /\ (tp || ip = true -> pp = true /\ proto <> 0) /\
  (pp = true -> tp = false -> ip = false -> pp0 = true /\ proto = proto0).
Proof.
  intros Hp. unfold infer_tcp, infer_icmp, check_ports, unsupported, protoTCP, protoUDP, icmp_of,
    protoICMP, protoICMPv6. rewrite Hp.
  destruct pp0, tp, ip; cbn [negb andb orb]; intros H1 H2 H3;
    repeat match goal with
    | H : context [if negb (?x =? ?y) then _ else _] |- _ => destruct (Z.eqb_spec x y); cbn [negb] in H; [|done]
    | H : Ok _ = Ok _ |- _ => injection H as ?; subst
    end; cbn [negb] in *;
    destruct (r_Family r); try done;
    repeat match goal with
    | H : Ok _ = Ok _ |- _ => injection H as ?; subst
    | H : context [if negb (?x =? ?y) then _ else _] |- _ => destruct (Z.eqb_spec x y); cbn [negb] in H; [|done]
    end; try lia;
    destruct (present (SrcPort _) || present (DstPort _)); try done;
    repeat match goal with
    | H : context [negb (?x =? ?y)] |- _ => destruct (Z.eqb_spec x y); cbn [negb andb] in H; try done
    end; subst; repeat split; try done; try lia; auto.
Qed.

(** An explicit protocol number 0 is not in the list; see [Translate_proto0]. *)
Definition no_proto0 (r : Rule) : Prop := Forall (fun o => n_Value o <> 0) (Proto (r_Match r)).

#[global] Instance no_proto0_dec r : Decision (no_proto0 r).
Proof. unfold no_proto0. apply _. Defined.

(** The upper-layer tests of the entry are the upper-layer components. *)
Lemma upper_layer_spec r a p :
  translation r a -> Match_wf (r_Match r) -> no_proto0 r -> packet_wf p -> pk_family p = r_Family r ->
  ((a_Proto a =? 0) || (pk_proto p =? a_Proto a)) &&
  in_range (SrcPortOrICMPTypeFirst a) (SrcPortOrICMPTypeLast a) (l4_first p) &&
  in_range (DstPortOrICMPCodeFirst a) (DstPortOrICMPCodeLast a) (l4_second p) &&
  (Z.land (pk_flags p) (TCPFlagsMask a) =? TCPFlagsValue a) =
  let m := r_Match r in
  nums_hold (Proto m) (pk_proto p) &&
  (if present (DstPort m) then has_ports p && nums_hold (DstPort m) (pk_dport p) else true) &&
  (if present (SrcPort m) then has_ports p && nums_hold (SrcPort m) (pk_sport p) else true) &&
  (if present (ICMPType m) then has_icmp p && nums_hold (ICMPType m) (pk_itype p) else true) &&
  (if present (ICMPCode m) then has_icmp p && nums_hold (ICMPCode m) (pk_icode p) else true) &&
  (if present (TCPFlags m) then (pk_proto p =? protoTCP) && bits_hold (TCPFlags m) (pk_flags p) else true).
Proof.
  intros [_ _ _ (proto0 & pp0 & proto1 & pp1 & proto & pp & tv & tm & tp & it & itp & ic & icp & sr & dr &
    E1 & E2 & E3 & E4 & E5 & E6 & E7 & E8 & -> & Hsr & Hdr & -> & ->) _ _] Hwf Hz Hp Hf.
  destruct Hwf as [_ _ Wp Wd Ws Wt Wc Wf]. destruct Hp as [_ _ _ Pp Ps Pd Pf Pt Pc].
  apply reduceProto_spec in E1 as (-> & _ & E1 & Hval); [|done].
  apply reduceTCPFlags_spec in E2 as (-> & _ & _ & E2); [|done].
  apply reduceExact_spec in E4 as (-> & _ & E4); [|done].
  apply reduceExact_spec in E5 as (-> & _ & E5); [|done].
  destruct (protocol_spec r (pk_proto p) _ _ _ _ _ _ _ _ E1 E3 E6 E7) as (Hproto & Hports & Hti & Hpp & Hp0).
  assert (((if pp then proto else 0) =? 0) || (pk_proto p =? (if pp then proto else 0)) =
          if pp then pk_proto p =? proto else true) as ->.
  { destruct pp; [|done]. assert (proto <> 0); [|lia].
    destruct (present (TCPFlags (r_Match r))) eqn:Etp; [by apply Hpp|].
    destruct (present (ICMPType (r_Match r)) || present (ICMPCode (r_Match r))) eqn:Eip; [by apply Hpp|].
    destruct (Hp0 eq_refl eq_refl eq_refl) as [Hpres ->]. destruct (Hval Hpres) as (op & Hop & ->).
    unfold no_proto0 in Hz. rewrite Hop in Hz. by inversion Hz. }
  rewrite Hproto. clear Hp0 Hval Hz. unfold l4_first, l4_second, has_ports, has_icmp. rewrite Hf.
  assert ((Z.land (pk_flags p) (if present (TCPFlags (r_Match r)) then tm else 0) =?
           (if present (TCPFlags (r_Match r)) then tv else 0)) =
          if present (TCPFlags (r_Match r)) then bits_hold (TCPFlags (r_Match r)) (pk_flags p) else true) as ->.
  { destruct (present (TCPFlags _)); [apply E2|by rewrite Z.land_0_r]. }
  destruct (present (ICMPType (r_Match r)) || present (ICMPCode (r_Match r))) eqn:Eip.
  - (* ICMP: no ports, no flags *)
    assert (present (SrcPort (r_Match r)) = false /\ present (DstPort (r_Match r)) = false) as [-> ->].
    { destruct (present (SrcPort _)), (present (DstPort _)); try done; by destruct Hports as (_ & ? & _). }
    rewrite andb_true_r in Hti. rewrite Hti. injection E8 as <- <-.
    destruct (Z.eqb_spec (pk_proto p) (icmp_of (r_Family r))) as [Hpi|].
    + assert ((pk_proto p =? protoTCP) || (pk_proto p =? protoUDP) = false) as ->
        by (rewrite Hpi; by destruct (r_Family r)).
      apply (f_equal fst) in Hsr as Hs1, Hdr as Hd1. apply (f_equal snd) in Hsr, Hdr. simpl in *.
      rewrite Hs1, Hd1, Hsr, Hdr, !icmpRange_spec by done.
      rewrite E4, E5. destruct (present (ICMPType _)), (present (ICMPCode _)); simpl; btauto.
    + rewrite !andb_false_r, !andb_false_l.
      destruct (present (ICMPType _)), (present (ICMPCode _)); try done; simpl; btauto.
  - (* TCP, UDP or other *)
    apply orb_false_iff in Eip as [-> ->].
    apply result_bind_Ok in E8 as ([sl sh] & Rs & E8). apply result_bind_Ok in E8 as ([dl dh] & Rd & E8).
    apply port_range_spec in Rs as (Wsl & Wsh & Rs); [|done].
    apply port_range_spec in Rd as (Wdl & Wdh & Rd); [|done].
    injection E8 as <- <-. injection Hsr as -> ->. injection Hdr as -> ->. rewrite !u16_small by done.
    set (ports := (pk_proto p =? protoTCP) || (pk_proto p =? protoUDP)).
    destruct ports eqn:Eports; subst ports.
    + rewrite Rs, Rd by done. rewrite !andb_true_r, !andb_true_l.
      destruct (SrcPort (r_Match r)) eqn:ES, (DstPort (r_Match r)) eqn:ED, (present (TCPFlags _)); simpl; btauto.
    + assert (present (SrcPort (r_Match r)) = true \/ present (DstPort (r_Match r)) = true ->
              nums_hold (Proto (r_Match r)) (pk_proto p) &&
              (if present (TCPFlags (r_Match r)) then pk_proto p =? protoTCP else true) = false) as Hno.
      { intros Hpres. apply orb_true_iff in Hpres. destruct (Hports Hpres) as (-> & _ & Hpr).
        rewrite andb_true_r in Hproto. rewrite <-Hproto. unfold protoTCP, protoUDP in *. lia. }
      destruct (SrcPort (r_Match r)) eqn:ES, (DstPort (r_Match r)) eqn:ED; simpl present in *; cbn iota in *;
        try (rewrite andb_true_r, Hno by auto; rewrite !andb_false_l;
             destruct (nums_hold (Proto _) _); cbn; try done;
             destruct (present (TCPFlags _)); cbn; rewrite ?andb_false_r; done).
      rewrite Rs, Rd; [cbn; destruct (present (TCPFlags _)); btauto|..];
        (unfold in_width in *; destruct (pk_proto p =? icmp_of (r_Family r)); lia).
Qed.

(** ** The entry of an accepted rule *)

Lemma translated_prefixes r a :
  translation r a -> Match_wf (r_Match r) -> Match_prefixes_valid (r_Match r) ->
  (prefix_wf (a_Src a) /\ prefix_IsValid (a_Src a) = true) /\
  (prefix_wf (a_Dst a) /\ prefix_IsValid (a_Dst a) = true).
Proof.
  intros [_ _ E _ _ _] Hwf [Vd Vs]. apply check_prefixes_spec in E as (-> & -> & _).
  unfold SrcOrDefault, DstOrDefault.
  split; [destruct (HasSrc _)|destruct (HasDst _)]; split;
    auto using wf_src, wf_dst, DefaultPrefix_wf, DefaultPrefix_valid.
Qed.

Lemma Translate_wf r a :
  Match_wf (r_Match r) -> Match_prefixes_valid (r_Match r) -> Translate r = Ok a -> ACLRule_wf a.
Proof.
  intros Hwf Hv T%Translate_inv. pose proof (translated_prefixes r a T Hwf Hv) as [Hsrc Hdst].
  destruct T as [_ _ _ (proto0 & pp0 & proto1 & pp1 & proto & pp & tv & tm & tp & it & itp & ic & icp & sr & dr &
    E1 & E2 & E3 & E4 & E5 & E6 & E7 & E8 & Hp & Hsr & Hdr & Hm & Hval) _ _].
  apply reduceProto_spec in E1 as (_ & W0 & _); [|apply Hwf].
  apply reduceTCPFlags_spec in E2 as (_ & Wv & Wm & _); [|apply Hwf].
  apply reduceExact_spec in E4 as (_ & Wt & _); [|apply Hwf].
  apply reduceExact_spec in E5 as (_ & Wc & _); [|apply Hwf].
  assert (in_width 8 proto) as Wp.
  { unfold infer_tcp, infer_icmp, unsupported, in_width, icmp_of, protoTCP, protoICMP, protoICMPv6 in *.
    destruct tp, pp0; cbn in E3; repeat case_match; simplify_eq/=; done || lia. }
  assert (in_width 16 sr.1 /\ in_width 16 sr.2 /\ in_width 16 dr.1 /\ in_width 16 dr.2) as (?&?&?&?).
  { destruct (itp || icp).
    - injection E8 as <- <-. unfold icmpRange, in_width in *. destruct itp, icp; simpl; lia.
    - inv_ok E8. destruct a0. inv_ok E8. destruct a0. injection E8 as <- <-.
      simpl. auto using u16_width. }
  subst sr dr. split; try done.
  - rewrite Hp. destruct pp; [done|by unfold in_width].
  - rewrite Hm. destruct tp; [done|by unfold in_width].
  - rewrite Hval. destruct tp; [done|by unfold in_width].
Qed.

Lemma Translate_matches r a p :
  Match_wf (r_Match r) -> no_proto0 r -> packet_wf p -> Translate r = Ok a ->
  acl_matches a p = rule_matches r p.
Proof.
  intros Hwf Hz Hp T%Translate_inv. unfold acl_matches, rule_matches.
  assert (Bool.eqb (IsIPv6 a) (match pk_family p with FamilyIPv6 => true | FamilyIPv4 => false end) =
          bool_decide (pk_family p = r_Family r)) as ->
    by (rewrite (t_v6 _ _ T); by destruct (pk_family p), (r_Family r)).
  case_bool_decide as Hf; [|done].
  pose proof (upper_layer_spec r a p T Hwf Hz Hp Hf) as Hup. cbn zeta in Hup.
  destruct (check_prefixes_spec _ _ _ _ (t_prefixes _ _ T)) as (Es & Ed & _ & _ & _).
  assert (Contains (a_Src a) (pk_src p) =
          if HasSrc (r_Match r) then Contains (Src (r_Match r)) (pk_src p) else true) as ->.
  { rewrite Es. unfold SrcOrDefault. destruct (HasSrc _); [done|]. rewrite <-Hf.
    destruct Hp as [W1 _ Hfam _ _ _ _ _ _]. apply DefaultPrefix_Contains; [|done].
    destruct (pk_family p); by apply andb_true_iff in Hfam as [? ?]. }
  assert (Contains (a_Dst a) (pk_dst p) =
          if HasDst (r_Match r) then Contains (Dst (r_Match r)) (pk_dst p) else true) as ->.
  { rewrite Ed. unfold DstOrDefault. destruct (HasDst _); [done|]. rewrite <-Hf.
    destruct Hp as [_ W2 Hfam _ _ _ _ _ _]. apply DefaultPrefix_Contains; [|done].
    destruct (pk_family p); by apply andb_true_iff in Hfam as [? ?]. }
  rewrite <-!andb_assoc in Hup. cbn [andb]. rewrite <-!andb_assoc, Hup.
  rewrite !andb_assoc. do 6 f_equal. apply andb_comm.
Qed.

Lemma Translate_deny r a : Translate r = Ok a -> Permit a = false /\ IsIPv6 a = bool_decide (r_Family r = FamilyIPv6).
Proof. intros T%Translate_inv. split; apply T. Qed.

(** ** Rejections *)

(** The error, if any, carries the given reason. *)
Definition err_reason {A} (rs : Reason) (x : result terror A) : Prop :=
  match x with
  | Ok _ => True
  | Err e => exists d, AsUnsupported e = Some {| u_Reason := rs; u_Detail := d |}
  end.

Lemma err_reason_bind {A B} rs (x : result terror A) (f : A -> result terror B) :
  err_reason rs x -> (forall a, x = Ok a -> err_reason rs (f a)) -> err_reason rs (x ≫= f).
Proof. destruct x; simpl; auto. Qed.

Lemma err_reason_unsupported {A} rs d : err_reason rs (@unsupported A rs d).
Proof. by exists d. Qed.

Create HintDb reasons.
#[export] Hint Resolve err_reason_unsupported : reasons.
#[export] Hint Extern 1 (err_reason _ (Ok _)) => exact I : reasons.

Ltac solve_reason := repeat case_match; simplify_eq; auto with reasons.

Lemma opToSet_reason o max : err_reason ReasonUnsupportedExpression (opToSet o max).
Proof. unfold opToSet. destruct (n_LT o), (n_GT o), (n_EQ o); cbn [negb andb]; solve_reason. Qed.

Lemma reduceRange_loop_reason max what i ops st :
  err_reason ReasonUnsupportedExpression (reduceRange_loop max what i ops st).
Proof.
  revert i st. induction ops as [|o ops IH]; intros i st; cbn [reduceRange_loop]; [done|].
  apply err_reason_bind; [|intros; apply IH].
  pose proof (opToSet_reason o max) as H. by destruct (opToSet o max).
Qed.

Lemma reduceRange_reason ops max what : err_reason ReasonUnsupportedExpression (reduceRange ops max what).
Proof.
  unfold reduceRange. destruct ops; [done|].
  apply err_reason_bind; [apply reduceRange_loop_reason|intros]. solve_reason.
Qed.

Lemma tcpflags_loop_reason i ops s c : err_reason ReasonUnsupportedExpression (tcpflags_loop i ops s c).
Proof.
  revert i s c. induction ops as [|o ops IH]; intros i s c; cbn [tcpflags_loop]; [done|].
  destruct (_ && _); [auto with reasons|]. destruct (255 <? _); [auto with reasons|]. cbn zeta.
  destruct (_ =? 0); [auto with reasons|].
  apply err_reason_bind; [solve_reason|]. intros [s' c'] _. destruct (negb _); [auto with reasons|apply IH].
Qed.

Lemma reduceTCPFlags_reason ops : err_reason ReasonUnsupportedExpression (reduceTCPFlags ops).
Proof.
  unfold reduceTCPFlags. destruct ops; [done|].
  apply err_reason_bind; [apply tcpflags_loop_reason|]. by intros [].
Qed.

Lemma reduceProto_reason ops : err_reason ReasonUnsupportedExpression (reduceProto ops).
Proof. unfold reduceProto. solve_reason. Qed.
Lemma reduceExact_reason ops what : err_reason ReasonUnsupportedExpression (reduceExact ops what).
Proof. unfold reduceExact. solve_reason. Qed.
Lemma infer_tcp_reason pp tp : err_reason ReasonUnsupportedExpression (infer_tcp pp tp).
Proof. unfold infer_tcp. solve_reason. Qed.
Lemma infer_icmp_reason f pp ip : err_reason ReasonUnsupportedExpression (infer_icmp f pp ip).
Proof. unfold infer_icmp. solve_reason. Qed.
Lemma check_ports_reason m pp : err_reason ReasonUnsupportedExpression (check_ports m pp).
Proof. unfold check_ports. solve_reason. Qed.
Lemma check_components_reason m : err_reason ReasonUnsupportedComponent (check_components m).
Proof. unfold check_components. solve_reason. Qed.
Lemma checkFamily_reason f pres p : err_reason ReasonUnmappablePrefix (checkFamily f pres p).
Proof. unfold checkFamily. solve_reason. Qed.
Lemma check_prefixes_reason f m : err_reason ReasonUnmappablePrefix (check_prefixes f m).
Proof.
  unfold check_prefixes. destruct (_ && _); [auto with reasons|]. destruct (_ && _); [auto with reasons|].
  cbn zeta. apply err_reason_bind; [apply checkFamily_reason|intros].
  apply err_reason_bind; [apply checkFamily_reason|done].
Qed.
#[export] Hint Resolve reduceRange_reason reduceTCPFlags_reason reduceProto_reason reduceExact_reason
  infer_tcp_reason infer_icmp_reason check_ports_reason check_components_reason check_prefixes_reason : reasons.

(** What makes a rule's components or prefixes unmappable. *)
Definition has_unsupported (m : Match) : bool :=
  HasGenericPort m || HasPacketLen m || HasDSCP m || HasFlowLabel m || HasLabel m ||
  HasUnknownComponent m || present (Fragment m).

(** The reason a rule is rejected with, by the order of the checks. *)
Definition expected_reason (r : Rule) : Reason :=
  if negb (bool_decide (Kind (r_Action r) = ActionDrop)) then ReasonUnsupportedAction
  else if has_unsupported (r_Match r) then ReasonUnsupportedComponent
  else if negb (is_ok (check_prefixes (r_Family r) (r_Match r))) then ReasonUnmappablePrefix
  else ReasonUnsupportedExpression.

Lemma Translate_reason r : err_reason (expected_reason r) (Translate r).
Proof.
  unfold Translate, expected_reason. destruct (negb _); [auto with reasons|].
  pose proof (check_components_Ok (r_Match r)) as Hc. fold (has_unsupported (r_Match r)) in Hc.
  pose proof (check_components_reason (r_Match r)) as Hr.
  destruct (check_components (r_Match r)) as [[]|e].
  - rewrite (proj1 Hc eq_refl). cbn [mbind result_bind].
    pose proof (check_prefixes_reason (r_Family r) (r_Match r)) as Hp.
    destruct (check_prefixes _ _) as [[src dst]|e]; [|done]. cbn [is_ok negb mbind result_bind].
    repeat (apply err_reason_bind; [auto with reasons|intros; repeat case_match; simplify_eq]); try done.
    all: repeat (apply err_reason_bind; [auto with reasons|intros; repeat case_match; simplify_eq]); done.
  - destruct (has_unsupported _); [done|]. by destruct Hc as [_ Hc]; specialize (Hc eq_refl).
Qed.

(** ** Properties *)


(** A DNS-reflection drop, and a packet it matches. *)
Definition ex_rule : Rule :=
  drop_rule FamilyIPv4 {|
    HasDst := true; Dst := PrefixFrom (Addr4 (192 * 2 ^ 24 + 2 * 2 ^ 8)) 24; DstOffset := 0;
    HasSrc := false; Src := zeroPrefix; SrcOffset := 0;
    Proto := [num_eq 17]; DstPort := []; SrcPort := [num_eq 53];
    ICMPType := []; ICMPCode := []; TCPFlags := []; Fragment := [];
    HasGenericPort := false; HasPacketLen := false; HasDSCP := false; HasFlowLabel := false;
    HasLabel := false; HasUnknownComponent := false |}.

Definition ex_packet : packet :=
  {| pk_family := FamilyIPv4; pk_src := Addr4 1; pk_dst := Addr4 (192 * 2 ^ 24 + 2 * 2 ^ 8 + 7);
     pk_proto := 17; pk_sport := 53; pk_dport := 4000; pk_flags := 0; pk_itype := 0; pk_icode := 0 |}.

Definition ex_acl : ACLRule :=
  {| IsIPv6 := false; Permit := false;
     a_Src := PrefixFrom (Addr4 0) 0; a_Dst := PrefixFrom (Addr4 (192 * 2 ^ 24 + 2 * 2 ^ 8)) 24;
     a_Proto := 17;
     SrcPortOrICMPTypeFirst := 53; SrcPortOrICMPTypeLast := 53;
     DstPortOrICMPCodeFirst := 0; DstPortOrICMPCodeLast := 65535;
     TCPFlagsMask := 0; TCPFlagsValue := 0 |}.

Lemma ex_match_wf : Match_wf (r_Match ex_rule).
Proof.
  split; simpl; repeat constructor; unfold addr_wf, in_width, NumericOp_wf; simpl; try lia; try done.
Defined.

Lemma ex_packet_wf : packet_wf ex_packet.
Proof. split; unfold addr_wf, in_width; simpl; try lia; done. Defined.


(** C10: The interval algebra of [reduceRange] is exact.  On a non-empty operator
    list over the domain [0, max] it returns [(l, h)] if and only if every operand
    is in the domain and the list denotes precisely the contiguous, non-empty
    range [l, h]; in particular nothing contiguous is rejected and nothing else
    is accepted. *)
Theorem reduce_range_exact (max : Z) (what : string) (o : NumericOp) (ops : list NumericOp) (l h : Z) :
  0 <= max < 2 ^ 64 - 1 -> Forall NumericOp_wf (o :: ops) ->
  reduceRange (o :: ops) max what = Ok (l, h) <->
  forallb (operand_ok max) (o :: ops) = true /\ 0 <= l <= h /\ h <= max /\
  (forall v, 0 <= v <= max -> nums_hold (o :: ops) v = in_range l h v).
Proof. intros Hmax. by apply reduceRange_iff. Qed.

(** [>= 80 AND != 81 AND <= 90, OR = 81]: contiguous after all. *)
Definition ex_ops : list NumericOp :=
  [ {| n_And := false; n_LT := false; n_GT := true; n_EQ := true; n_Value := 80 |};
    {| n_And := true; n_LT := true; n_GT := true; n_EQ := false; n_Value := 81 |};
    {| n_And := true; n_LT := true; n_GT := false; n_EQ := true; n_Value := 90 |};
    num_eq 81 ].

Lemma reduce_range_exact_witness :
  reduceRange ex_ops 65535 "port" = Ok (80, 90) /\
  forall v, 0 <= v <= 65535 -> nums_hold ex_ops v = in_range 80 90 v.
Proof.
  split; [by vm_compute|].
  apply (reduce_range_exact 65535 "port" (hd (num_eq 0) ex_ops) (tl ex_ops) 80 90);
    [lia|repeat constructor; unfold NumericOp_wf, in_width; simpl; lia|by vm_compute].
Defined.



(** Protocol number 0 is the exception to exactness.  A rule whose protocol
    component is "= 0" (hop-by-hop options) is accepted and mapped to an entry
    with protocol 0, which VPP reads as any protocol: the entry drops packets
    the rule does not match. *)
Theorem translate_proto0_widens :
  exists (r : Rule) (a : ACLRule) (p : packet),
    Match_wf (r_Match r) /\ packet_wf p /\ Translate r = Ok a /\
    rule_matches r p = false /\ acl_matches a p = true.
Proof.
  exists (drop_rule FamilyIPv4
    {| HasDst := false; Dst := zeroPrefix; DstOffset := 0; HasSrc := false; Src := zeroPrefix; SrcOffset := 0;
       Proto := [num_eq 0]; DstPort := []; SrcPort := []; ICMPType := []; ICMPCode := []; TCPFlags := [];
       Fragment := []; HasGenericPort := false; HasPacketLen := false; HasDSCP := false; HasFlowLabel := false;
       HasLabel := false; HasUnknownComponent := false |}).
  eexists _, ex_packet. split; [|split; [apply ex_packet_wf|split; [by vm_compute|by vm_compute]]].
  split; simpl; repeat constructor; unfold NumericOp_wf, in_width; simpl; try lia; done.
Qed.

(** The flag reduction is exact: when [reduceTCPFlags] accepts a list, testing
    [(flags & mask) == value] is the same as evaluating the bitmask operators. *)
Theorem reduce_tcp_flags_exact (ops : list BitmaskOp) (value mask : Z) (pres : bool) :
  Forall BitmaskOp_wf ops -> reduceTCPFlags ops = Ok (value, mask, pres) ->
  pres = present ops /\ forall flags, (Z.land flags mask =? value) = bits_hold ops flags.
Proof. intros Hwf E. apply reduceTCPFlags_spec in E as (? & _ & _ & ?); done. Qed.

(** [syn] set and neither [ack] nor [rst]. *)
Definition ex_flags : list BitmaskOp :=
  [ {| b_And := false; b_Not := false; b_Match := true; b_Value := 2 |};
    {| b_And := true; b_Not := true; b_Match := false; b_Value := 20 |} ].

Lemma reduce_tcp_flags_exact_witness :
  true = present ex_flags /\ forall flags, (Z.land flags 22 =? 2) = bits_hold ex_flags flags.
Proof.
  apply (reduce_tcp_flags_exact ex_flags 2 22 true);
    [repeat constructor; unfold BitmaskOp_wf, in_width; simpl; lia|by vm_compute].
Defined.
