(* ===== verification/VppFacts.v ===== *)
(** * The Managed ACL as a blocklist (internal/vpp/acl.go, types.go)

    What a Managed ACL (deny rules followed by the family's permit-any) does to
    a packet, and the properties of keys and of the rule conversion the manager
    relies on. *)
From S2P Require Import Prelude Netip Flowspec VppTypes Translate TranslateFacts.
#[local] Open Scope Z_scope.

Definition packet_family (p : packet) : VFamily :=
  match pk_family p with FamilyIPv6 => IPv6 | FamilyIPv4 => IPv4 end.

Lemma l4_range p : packet_wf p -> in_range 0 65535 (l4_first p) = true /\ in_range 0 65535 (l4_second p) = true.
Proof.
  intros [_ _ _ _ ? ? _ ? ?]. unfold in_range, l4_first, l4_second, in_width in *.
  destruct (has_ports p), (has_icmp p); lia.
Qed.

(** The trailing rule accepts every packet of its family. *)
Lemma permitAny_matches p : packet_wf p -> acl_matches (permitAny (packet_family p)) p = true.
Proof.
  intros Hp. destruct (l4_range p Hp) as [R1 R2]. unfold acl_matches, packet_family.
  assert (forall a, a = pk_src p \/ a = pk_dst p -> Contains (DefaultPrefix (pk_family p)) a = true) as Hc.
  { intros a Ha. destruct Hp as [Ws Wd Hf _ _ _ _ _ _].
    destruct (pk_family p); apply andb_true_iff in Hf as [? ?];
      destruct Ha as [-> | ->]; apply DefaultPrefix_Contains; done. }
  pose proof (Hc _ (or_introl eq_refl)) as C1. pose proof (Hc _ (or_intror eq_refl)) as C2.
  destruct (pk_family p); cbn [permitAny IsIPv6 a_Src a_Dst a_Proto SrcPortOrICMPTypeFirst SrcPortOrICMPTypeLast
    DstPortOrICMPCodeFirst DstPortOrICMPCodeLast TCPFlagsMask TCPFlagsValue];
    unfold DefaultPrefix, defaultV4, defaultV6 in C1, C2; rewrite C1, C2, R1, R2, Z.land_0_r; done.
Qed.

(** First match over deny rules then permit-any: dropped iff some rule matches. *)
Lemma blocklist rules p :
  Forall (fun a => Permit a = false) rules -> packet_wf p ->
  acl_permits (rules ++ [permitAny (packet_family p)]) p = negb (existsb (fun a => acl_matches a p) rules).
Proof.
  intros Hd Hp. induction Hd as [|a rules Ha Hd IH]; simpl.
  - rewrite permitAny_matches by done. by destruct (packet_family p).
  - destruct (acl_matches a p); simpl; [done|apply IH].
Qed.

Lemma existsb_Permutation {A} (f : A -> bool) l l' : l ≡ₚ l' -> existsb f l = existsb f l'.
Proof.
  induction 1; simpl; [done|by f_equal| |congruence].
  rewrite !orb_assoc. f_equal. apply orb_comm.
Qed.

(** ** Properties *)

(** C12: [ACLRule.Key] identifies an entry: two well-formed entries with the same
    key are the same entry, so de-duplicating by key never merges rules that
    match different packets. *)
Theorem acl_key_injective (a b : ACLRule) : ACLRule_wf a -> ACLRule_wf b -> Key a = Key b -> a = b.
Proof. apply Key_inj. Qed.

Lemma acl_key_injective_witness : ACLRule_wf ex_acl /\ ex_acl = ex_acl.
Proof.
  assert (ACLRule_wf ex_acl) as W
    by (repeat split; unfold addr_wf, in_width; simpl; try lia; done).
  split; [exact W|]. apply (acl_key_injective ex_acl ex_acl W W eq_refl).
Defined.

(** A Managed ACL is a blocklist.  For deny rules in any order, followed by
    the permit-any of the packet's family, VPP's first-match evaluation drops the
    packet if and only if at least one rule matches it. *)
Theorem managed_acl_blocklist (rules rules' : list ACLRule) (p : packet) :
  Forall (fun a => Permit a = false) rules -> rules' ≡ₚ rules -> packet_wf p ->
  acl_permits (rules' ++ [permitAny (packet_family p)]) p = negb (existsb (fun a => acl_matches a p) rules).
Proof.
  intros Hd Hperm Hp. rewrite <-(existsb_Permutation _ _ _ Hperm). apply blocklist; [|done]. by rewrite Hperm.
Qed.

Lemma managed_acl_blocklist_witness :
  acl_permits ([ex_acl] ++ [permitAny (packet_family ex_packet)]) ex_packet = false.
Proof.
  rewrite (managed_acl_blocklist [ex_acl] [ex_acl] ex_packet);
    [by vm_compute|by constructor|reflexivity|apply ex_packet_wf].
Defined.

Section Conversion.
Context {BP : Type} (ip_types_ParsePrefix : string -> result gotext BP).
Context (parse_ok : forall p, prefix_wf p -> prefix_IsValid p = true ->
                    is_ok (ip_types_ParsePrefix (prefix_String p)) = true).

Lemma toBinapiRule_ok a : ACLRule_wf a -> is_ok (toBinapiRule ip_types_ParsePrefix a) = true.
Proof using All.
  intros [[S1 S2] [D1 D2] _ _ _ _ _ _ _]. pose proof (parse_ok _ S1 S2) as Hs. pose proof (parse_ok _ D1 D2) as Hd.
  unfold toBinapiRule, toBinapiPrefix. destruct (ip_types_ParsePrefix (prefix_String (a_Dst a))); [|done].
  cbn. by destruct (ip_types_ParsePrefix (prefix_String (a_Src a))).
Qed.

Lemma permitAny_wf f : ACLRule_wf (permitAny f).
Proof. destruct f; repeat split; unfold addr_wf, in_width; simpl; try lia; done. Qed.

(** The rule list sent to VPP: when the binary API parses the text of every
    valid prefix, [buildACLRules] converts every well-formed rule, keeps their
    order, denies exactly where the rule denies, and ends with one permit. *)
Theorem build_acl_rules_shape (f : VFamily) (rules : list ACLRule) :
  Forall ACLRule_wf rules ->
  exists out, buildACLRules ip_types_ParsePrefix f rules = Ok out /\
    Forall2 (fun a b => toBinapiRule ip_types_ParsePrefix a = Ok b) (rules ++ [permitAny f]) out /\
    map IsPermit out = map (fun a => if Permit a then ACL_ACTION_API_PERMIT else ACL_ACTION_API_DENY) rules
                       ++ [ACL_ACTION_API_PERMIT].
Proof using All.
  intros HF.
  assert (exists out, Forall2 (fun a b => toBinapiRule ip_types_ParsePrefix a = Ok b) rules out) as (out & Hout).
  { induction HF as [|a rules Ha HF IH]; [by exists []|]. destruct IH as (out & IH).
    pose proof (toBinapiRule_ok a Ha) as Hok. destruct (toBinapiRule _ a) as [b|] eqn:E; [|done].
    exists (b :: out). by constructor. }
  pose proof (toBinapiRule_ok _ (permitAny_wf f)) as Hok.
  destruct (toBinapiRule ip_types_ParsePrefix (permitAny f)) as [pb|] eqn:Ep; [|done].
  exists (out ++ [pb]). split; [|split].
  - unfold buildACLRules. rewrite Ep.
    rewrite (proj2 (result_map_Ok _ rules out)); [done|].
    eapply Forall2_impl; [exact Hout|]. by intros a b ->.
  - apply Forall2_app; [done|]. by constructor.
  - assert (forall a b, toBinapiRule ip_types_ParsePrefix a = Ok b ->
      IsPermit b = if Permit a then ACL_ACTION_API_PERMIT else ACL_ACTION_API_DENY) as Hact.
    { intros a b Hb. unfold toBinapiRule in Hb. inv_ok_all. by subst. }
    rewrite map_app. f_equal.
    + clear -Hout Hact. induction Hout; simpl; [done|]. f_equal; [by apply Hact|done].
    + simpl. f_equal. rewrite (Hact _ _ Ep). by destruct f.
Qed.
End Conversion.

Lemma build_acl_rules_shape_witness :
  exists out, buildACLRules (fun s => Ok s) IPv4 [ex_acl] = Ok out /\
    Forall2 (fun a b => toBinapiRule (fun s => Ok s) a = Ok b) ([ex_acl] ++ [permitAny IPv4]) out /\
    map IsPermit out = map (fun a => if Permit a then ACL_ACTION_API_PERMIT else ACL_ACTION_API_DENY) [ex_acl]
                       ++ [ACL_ACTION_API_PERMIT].
Proof.
  apply (build_acl_rules_shape (fun s => Ok s) (fun p _ _ => eq_refl) IPv4 [ex_acl]).
  constructor; [|constructor]. repeat split; unfold addr_wf, in_width; simpl; try lia; done.
Defined.
