(* ===== verification/Manager.v ===== *)
(** * The rule manager (internal/manager, internal/bgp/event.go)

    The single owner of mutable state: reference counts of ACL entries across
    sessions, the routes each session announced, and the reconciliation that
    pushes a family's desired rule set to the backend.  One [Apply] handles one
    [bgp.Update]; a run of the manager is the sequence of its [Apply]s. *)
From S2P Require Import Prelude Netip Flowspec VppTypes Translate.
#[local] Open Scope Z_scope.

(** ** bgp/event.go *)
Inductive Op := OpAnnounce | OpWithdraw | OpSessionDown | OpResync.

#[global] Instance Op_eq_dec : EqDecision Op.
Proof. solve_decision. Defined.

Definition Op_String (o : Op) : string :=
  match o with
  | OpAnnounce => "announce"
  | OpWithdraw => "withdraw"
  | OpSessionDown => "session_down"
  | OpResync => "resync"
  end.

Record Update := {
  u_Session : string;
  u_Op : Op;
  u_Rule : option Rule;
  u_Peer : string
}.

(** ** The backend the manager drives (vpp.Backend)

    [managed b f rs] says that the Managed ACL of family [f] is the one for the
    rule list [rs] (the rules in order, then the permit-any).  A successful
    [ReplaceACL] establishes it for the given rules and does not disturb the
    other family; [backend_inv] is what the implementation maintains. *)
Class Backend (B : Type) := {
  ReplaceACL : B -> VFamily -> list ACLRule -> B * bool;
  backend_inv : B -> Prop;
  managed : B -> VFamily -> list ACLRule -> Prop;
  ReplaceACL_inv : forall b f rs, backend_inv b -> backend_inv (ReplaceACL b f rs).1;
  ReplaceACL_ok : forall b f rs b', backend_inv b -> ReplaceACL b f rs = (b', true) -> managed b' f rs;
  ReplaceACL_other : forall b f rs b' g rs', backend_inv b -> ReplaceACL b f rs = (b', true) -> g <> f ->
    managed b g rs' -> managed b' g rs'
}.

(** ** manager.go: state *)
Record entry := {
  e_acl : ACLRule;
  e_family : VFamily;
  e_owners : gmap string Z
}.

Record Manager := {
  entries : gmap string entry;
  sessionRules : gmap string (gset string);
  sessionRoutes : gmap string (gmap string string)
}.

(** The empty tables of [New]. *)
Definition newManager : Manager := {| entries := ∅; sessionRules := ∅; sessionRoutes := ∅ |}.

(** Calls of the [Metrics] seam, in order. *)
Inductive metric :=
  | RuleApplied (family peer : string)
  | RuleIgnored (reason family peer : string)
  | SetACLEntries (family : string) (n : nat).

(** What a call does to the entry gauge. *)
Definition gauge_of (x : metric) : option (string * nat) :=
  match x with SetACLEntries f n => Some (f, n) | _ => None end.

Definition familyOf (acl : ACLRule) : VFamily := if IsIPv6 acl then IPv6 else IPv4.

(** ** refcount.go *)
Definition addOwner (key : string) (acl : ACLRule) (fam : VFamily) (session : string) (m : Manager)
  : Manager * bool :=
  let '(e, created) := match entries m !! key with
                       | Some e => (e, false)
                       | None => ({| e_acl := acl; e_family := fam; e_owners := ∅ |}, true)
                       end in
  let wasEmpty := bool_decide (e_owners e = ∅) in
  let e' := {| e_acl := e_acl e; e_family := e_family e;
               e_owners := <[session := default 0 (e_owners e !! session) + 1]> (e_owners e) |} in
  let sr := default ∅ (sessionRules m !! session) in
  ({| entries := <[key := e']> (entries m);
      sessionRules := <[session := {[key]} ∪ sr]> (sessionRules m);
      sessionRoutes := sessionRoutes m |},
   created || wasEmpty).

Definition removeOwner (key session : string) (m : Manager) : Manager * bool :=
  match entries m !! key with
  | None => (m, false)
  | Some e =>
      let n := default 0 (e_owners e !! session) in
      if n =? 0 then (m, false)
      else
        let owners := if n =? 1 then delete session (e_owners e)
                      else <[session := n - 1]> (e_owners e) in
        let e' := {| e_acl := e_acl e; e_family := e_family e; e_owners := owners |} in
        let srs := match sessionRules m !! session with
                   | None => sessionRules m
                   | Some sr =>
                       if default 0 (owners !! session) =? 0 then
                         let sr' := sr ∖ {[key]} in
                         if bool_decide (sr' = ∅) then delete session (sessionRules m)
                         else <[session := sr']> (sessionRules m)
                       else sessionRules m
                   end in
        if bool_decide (owners = ∅) then
          ({| entries := delete key (entries m); sessionRules := srs; sessionRoutes := sessionRoutes m |}, true)
        else
          ({| entries := <[key := e']> (entries m); sessionRules := srs; sessionRoutes := sessionRoutes m |}, false)
  end.

Definition removeSessionOwner (key session : string) (m : Manager) : Manager * bool :=
  match entries m !! key with
  | None => (m, false)
  | Some e =>
      if default 0 (e_owners e !! session) =? 0 then (m, false)
      else
        let owners := delete session (e_owners e) in
        let e' := {| e_acl := e_acl e; e_family := e_family e; e_owners := owners |} in
        if bool_decide (owners = ∅) then
          ({| entries := delete key (entries m); sessionRules := sessionRules m; sessionRoutes := sessionRoutes m |}, true)
        else
          ({| entries := <[key := e']> (entries m); sessionRules := sessionRules m; sessionRoutes := sessionRoutes m |}, false)
  end.

Definition routeKey (routeID session : string) (m : Manager) : option string :=
  sessionRoutes m !! session ≫= fun routes => routes !! routeID.

Definition rememberRoute (routeID key session : string) (m : Manager) : Manager :=
  let routes := default ∅ (sessionRoutes m !! session) in
  {| entries := entries m; sessionRules := sessionRules m;
     sessionRoutes := <[session := <[routeID := key]> routes]> (sessionRoutes m) |}.

Definition forgetRoute (routeID session key : string) (m : Manager) : Manager :=
  match sessionRoutes m !! session with
  | None => m
  | Some routes =>
      if bool_decide (default "" (routes !! routeID) = key) then
        let routes' := delete routeID routes in
        {| entries := entries m; sessionRules := sessionRules m;
           sessionRoutes := if bool_decide (routes' = ∅) then delete session (sessionRoutes m)
                            else <[session := routes']> (sessionRoutes m) |}
      else m
  end.

(** The family is the one of the entry whose removal made the desired state
    change; Go's zero value [IPv4] stands with [false]. *)
Definition removeRoute (routeID session : string) (m : Manager) : Manager * (VFamily * bool) :=
  match routeKey routeID session m with
  | None => (m, (IPv4, false))
  | Some key =>
      let m1 := forgetRoute routeID session key m in
      match entries m1 !! key with
      | None => (m1, (IPv4, false))
      | Some e => let '(m2, dirty) := removeOwner key session m1 in (m2, (e_family e, dirty))
      end
  end.

Definition replaceRoute (routeID newKey session : string) (m : Manager) : Manager * (VFamily * bool) :=
  match routeKey routeID session m with
  | None => (m, (IPv4, false))
  | Some oldKey => if bool_decide (oldKey = newKey) then (m, (IPv4, false)) else removeRoute routeID session m
  end.

(** ** reconcile.go *)

(** The keys of a family's entries with at least one owner. *)
Definition desired_keys (fam : VFamily) (m : Manager) : list string :=
  merge_sort String.le
    (fst <$> filter (fun ke => e_family ke.2 = fam /\ e_owners ke.2 <> ∅) (map_to_list (entries m))).

Definition desired (fam : VFamily) (m : Manager) : list ACLRule :=
  omap (fun k => e_acl <$> entries m !! k) (desired_keys fam m).

Section Run.
Context {B : Type} `{Backend B}.

(** Go's [%#v] of a match: the route identity of a rule without text. *)
Context (match_GoString : Match -> string).

Record world := { w_mgr : Manager; w_backend : B; w_metrics : list metric }.

Definition reconcile (fam : VFamily) (w : world) : world :=
  let rules := desired fam (w_mgr w) in
  let '(b, ok) := ReplaceACL (w_backend w) fam rules in
  {| w_mgr := w_mgr w; w_backend := b;
     w_metrics := if (ok : bool) then w_metrics w ++ [SetACLEntries (VFamily_String fam) (length rules)]
                  else w_metrics w |}.

(** [for fam := range dirtyFams { m.reconcile(ctx, fam) }] *)
Definition reconcile_all (o : RangeOrder) (dirty : gset VFamily) (w : world) : world :=
  foldl (fun w fam => reconcile fam w) w (range_list o (elements dirty)).

Definition set_mgr (m : Manager) (w : world) : world :=
  {| w_mgr := m; w_backend := w_backend w; w_metrics := w_metrics w |}.

Definition add_metric (x : metric) (w : world) : world :=
  {| w_mgr := w_mgr w; w_backend := w_backend w; w_metrics := w_metrics w ++ [x] |}.

(** [if fam, dirty := ...; dirty { dirtyFams[fam] = struct{}{} }] *)
Definition dirty_set (fd : VFamily * bool) : gset VFamily := if fd.2 then {[fd.1]} else ∅.

Definition routeIdentity (r : Rule) : string :=
  if bool_decide (r_Raw r <> "") then r_Raw r
  else Family_String (r_Family r) +:+ ":" +:+ match_GoString (r_Match r).

Definition reportIgnored (r : Rule) (peer : string) (err : terror) (w : world) : world :=
  let reason := match AsUnsupported err with
                | Some u => Reason_string (u_Reason u)
                | None => Reason_string ReasonUnsupportedComponent
                end in
  add_metric (RuleIgnored reason (Family_String (r_Family r)) peer) w.

Definition announce (o : RangeOrder) (u : Update) (w : world) : world :=
  match u_Rule u with
  | None => w
  | Some r =>
      let routeID := routeIdentity r in
      match Translate r with
      | Err err =>
          let '(m, fd) := removeRoute routeID (u_Session u) (w_mgr w) in
          let w := reportIgnored r (u_Peer u) err (set_mgr m w) in
          reconcile_all o (dirty_set fd) w
      | Ok acl =>
          let key := Key acl in
          let fam := familyOf acl in
          if bool_decide (routeKey routeID (u_Session u) (w_mgr w) = Some key) then w
          else
            let '(m1, fd) := replaceRoute routeID key (u_Session u) (w_mgr w) in
            let '(m2, dirty) := addOwner key acl fam (u_Session u) m1 in
            let m3 := rememberRoute routeID key (u_Session u) m2 in
            let w := set_mgr m3 w in
            let w := if (dirty : bool) then add_metric (RuleApplied (Family_String (r_Family r)) (u_Peer u)) w else w in
            reconcile_all o (dirty_set fd ∪ dirty_set (fam, dirty)) w
      end
  end.

Definition withdraw (u : Update) (w : world) : world :=
  match u_Rule u with
  | None => w
  | Some r =>
      let '(m, (fam, dirty)) := removeRoute (routeIdentity r) (u_Session u) (w_mgr w) in
      let w := set_mgr m w in
      if (dirty : bool) then reconcile fam w else w
  end.

(** The loop over the session's keys, collecting the dirty families. *)
Fixpoint drop_keys (session : string) (keys : list string) (m : Manager) (dirty : gset VFamily)
  : Manager * gset VFamily :=
  match keys with
  | [] => (m, dirty)
  | key :: keys' =>
      match entries m !! key with
      | Some e =>
          let '(m', d) := removeSessionOwner key session m in
          drop_keys session keys' m' (if (d : bool) then {[e_family e]} ∪ dirty else dirty)
      | None => drop_keys session keys' m dirty
      end
  end.

Definition sessionDown (o : RangeOrder) (u : Update) (w : world) : world :=
  let m := w_mgr w in
  let keys := default ∅ (sessionRules m !! u_Session u) in
  if bool_decide (keys = ∅) then
    set_mgr {| entries := entries m; sessionRules := delete (u_Session u) (sessionRules m);
               sessionRoutes := sessionRoutes m |} w
  else
    let '(m1, dirty) := drop_keys (u_Session u) (range_list o (elements keys)) m ∅ in
    let m2 := {| entries := entries m1;
                 sessionRules := delete (u_Session u) (sessionRules m1);
                 sessionRoutes := delete (u_Session u) (sessionRoutes m1) |} in
    reconcile_all o dirty (set_mgr m2 w).

Definition resync (w : world) : world := reconcile IPv6 (reconcile IPv4 w).

Definition Apply (o : RangeOrder) (u : Update) (w : world) : world :=
  match u_Op u with
  | OpAnnounce => announce o u w
  | OpWithdraw => withdraw u w
  | OpSessionDown => sessionDown o u w
  | OpResync => resync w
  end.

(** [Run] over the updates it receives, each with the map-iteration order of
    its call. *)
Definition Run (updates : list (RangeOrder * Update)) (w : world) : world :=
  foldl (fun w ou => Apply ou.1 ou.2 w) w updates.
End Run.
Arguments world B : clear implicits.
