(* ===== verification/ManagerFacts.v ===== *)
(** * Correctness of the rule manager

    The reference counts, the per-session rule sets and the route tables agree
    after every update ([Inv]); the manager refines an abstract routing table
    that maps (session, route identity) to a rule; and what the backend holds is
    the deny list of exactly the live, mappable rules. *)
From S2P Require Import Prelude Netip Flowspec VppTypes Translate TranslateFacts VppFacts Manager.
#[local] Open Scope Z_scope.

(** ** Routes of a session that map to a key *)
Definition routes_with (k : string) (rs : gmap string string) : nat :=
  size (filter (fun p => p.2 = k) rs).

Definition ind (P : Prop) `{Decision P} : Z := if decide P then 1 else 0.

Lemma routes_with_insert k id key rs :
  rs !! id = None ->
  Z.of_nat (routes_with k (<[id := key]> rs)) = Z.of_nat (routes_with k rs) + ind (key = k).
Proof.
  intros Hid. unfold routes_with, ind. destruct (decide (key = k)) as [->|Hne].
  - rewrite map_filter_insert_True by done. rewrite map_size_insert_None; [lia|].
    by apply map_lookup_filter_None_2; left.
  - rewrite map_filter_insert_False by done. rewrite delete_id by done. lia.
Qed.

Lemma routes_with_delete k id key rs :
  rs !! id = Some key ->
  Z.of_nat (routes_with k (delete id rs)) = Z.of_nat (routes_with k rs) - ind (key = k).
Proof.
  intros Hid. rewrite <-(insert_delete_id rs id key) at 2 by done.
  rewrite routes_with_insert by apply lookup_delete_eq. lia.
Qed.

Lemma routes_with_pos k id rs : rs !! id = Some k -> (0 < routes_with k rs)%nat.
Proof.
  intros Hid. pose proof (routes_with_delete k id k rs Hid) as E. unfold ind in E.
  rewrite decide_True in E by done. lia.
Qed.

Lemma routes_with_zero k rs : routes_with k rs = 0%nat <-> forall id, rs !! id <> Some k.
Proof.
  split.
  - intros E id Hid%routes_with_pos. lia.
  - intros Hn. unfold routes_with. apply map_size_empty_iff, map_empty.
    intros id. apply map_lookup_filter_None_2. right. intros k' Hid; cbn; intros ->. by eapply Hn.
Qed.

Lemma routes_with_empty k : routes_with k ∅ = 0%nat.
Proof. by apply routes_with_zero. Qed.

(** ** The invariant *)
Definition routes_of (m : Manager) (s : string) : gmap string string := default ∅ (sessionRoutes m !! s).
Definition rules_of (m : Manager) (s : string) : gset string := default ∅ (sessionRules m !! s).
Definition owners_of (m : Manager) (k : string) : gmap string Z := default ∅ (e_owners <$> entries m !! k).
Definition owned (m : Manager) (k s : string) : Z := default 0 (owners_of m k !! s).

(** An entry is stored under its own key, in its own family, denies, and has an
    owner; owner counts are positive. *)
Record entry_ok (k : string) (e : entry) : Prop := {
  eo_owned : e_owners e <> ∅;
  eo_pos : map_Forall (fun _ n => 0 < n) (e_owners e);
  eo_key : Key (e_acl e) = k;
  eo_fam : e_family e = familyOf (e_acl e);
  eo_wf : ACLRule_wf (e_acl e);
  eo_deny : Permit (e_acl e) = false
}.

Record Inv (m : Manager) : Prop := {
  inv_entries : map_Forall entry_ok (entries m);
  inv_rules_ne : map_Forall (fun _ ks => ks <> ∅) (sessionRules m);
  inv_routes_ne : map_Forall (fun _ rs => rs <> ∅) (sessionRoutes m);
  inv_count : forall s k, owned m k s = Z.of_nat (routes_with k (routes_of m s));
  inv_rules : forall s k, k ∈ rules_of m s <-> owned m k s <> 0
}.

Lemma newManager_Inv : Inv newManager.
Proof.
  split; try apply map_Forall_empty; simpl.
  - intros s k. unfold owned, owners_of, routes_of. simpl. by rewrite !lookup_empty.
  - intros s k. unfold rules_of, owned, owners_of. simpl. rewrite !lookup_empty. simpl.
    rewrite lookup_empty. set_solver.
Qed.

Lemma routeKey_routes id s m : routeKey id s m = routes_of m s !! id.
Proof. unfold routeKey, routes_of. by destruct (sessionRoutes m !! s); simpl; rewrite ?lookup_empty. Qed.

(** The entries as the deny rules they stand for. *)
Definition live (m : Manager) : gmap string ACLRule := e_acl <$> entries m.

Definition same_view (fam : VFamily) (m m' : Manager) : Prop :=
  forall k a, familyOf a = fam -> live m !! k = Some a <-> live m' !! k = Some a.

Lemma live_lookup m k a : live m !! k = Some a <-> exists e, entries m !! k = Some e /\ e_acl e = a.
Proof. unfold live. rewrite lookup_fmap, fmap_Some. split; intros (e & He & E); eauto. Qed.

Lemma live_key m k a : Inv m -> live m !! k = Some a -> k = Key a /\ ACLRule_wf a /\ Permit a = false.
Proof. intros HI (e & He & <-)%live_lookup. destruct (inv_entries _ HI _ _ He). done. Qed.

(** ** Effects of the owner operations on the counts *)
Lemma owned_at m k e s : entries m !! k = Some e -> owned m k s = default 0 (e_owners e !! s).
Proof. unfold owned, owners_of. by intros ->. Qed.

Lemma owned_none m k s : entries m !! k = None -> owned m k s = 0.
Proof. unfold owned, owners_of. by intros ->. Qed.

Lemma owned_pos_entry m k s : owned m k s <> 0 -> exists e, entries m !! k = Some e.
Proof. destruct (entries m !! k) eqn:E; [eauto|]. by rewrite (owned_none _ _ _ E). Qed.

Lemma e_owners_pos k e s : entry_ok k e -> default 0 (e_owners e !! s) <> 0 <-> is_Some (e_owners e !! s).
Proof.
  intros Ho. destruct (e_owners e !! s) eqn:E; simpl; [|split; [done|by intros []]].
  pose proof (eo_pos _ _ Ho _ _ E) as Hp. cbn in Hp. split; [eauto|lia].
Qed.

(** One owner map replaced, entries otherwise alone. *)
Definition put_owners (key : string) (e : entry) (owners : gmap string Z) (es : gmap string entry) : gmap string entry :=
  if bool_decide (owners = ∅) then delete key es
  else <[key := {| e_acl := e_acl e; e_family := e_family e; e_owners := owners |}]> es.

Lemma put_owners_owned key e owners m m' k s :
  entries m' = put_owners key e owners (entries m) ->
  owned m' k s = if decide (k = key) then default 0 (owners !! s) else owned m k s.
Proof.
  unfold owned, owners_of, put_owners. intros ->. case_bool_decide as Ho.
  - subst. rewrite lookup_empty. case_decide; subst.
    + by rewrite lookup_delete_eq.
    + by rewrite lookup_delete_ne.
  - case_decide; subst; [by rewrite lookup_insert_eq|by rewrite lookup_insert_ne].
Qed.

Lemma put_owners_ok key e owners es :
  map_Forall entry_ok es -> es !! key = Some e -> map_Forall (fun _ n => 0 < n) owners ->
  map_Forall entry_ok (put_owners key e owners es).
Proof.
  intros HF He Hpos. unfold put_owners. case_bool_decide.
  - by apply map_Forall_delete.
  - apply map_Forall_insert_2; [|done]. by destruct (HF _ _ He).
Qed.

Lemma put_owners_live key e owners es :
  es !! key = Some e ->
  e_acl <$> put_owners key e owners es = if bool_decide (owners = ∅) then delete key (e_acl <$> es) else e_acl <$> es.
Proof.
  intros He. unfold put_owners. case_bool_decide.
  - apply fmap_delete.
  - rewrite fmap_insert. simpl. apply insert_id. by rewrite lookup_fmap, He.
Qed.

(** ** Session rule sets *)
Lemma rules_of_put s sr srs m s' :
  sessionRules m = (if bool_decide (sr = ∅) then delete s srs else <[s := sr]> srs) ->
  rules_of m s' = if decide (s' = s) then sr else default ∅ (srs !! s').
Proof.
  unfold rules_of. intros ->. case_bool_decide; subst; case_decide; subst.
  - by rewrite lookup_delete_eq.
  - by rewrite lookup_delete_ne.
  - by rewrite lookup_insert_eq.
  - by rewrite lookup_insert_ne.
Qed.

Lemma nonempty_put {V} `{Empty V, EqDecision V} (s : string) (v : V) (ms : gmap string V) :
  map_Forall (fun _ x => x <> ∅) ms ->
  map_Forall (fun _ x => x <> ∅) (if bool_decide (v = ∅) then delete s ms else <[s := v]> ms).
Proof.
  intros HF. case_bool_decide; [by apply map_Forall_delete|by apply map_Forall_insert_2].
Qed.

(** ** The routes of one session change together with the owners *)
Definition put_routes (s : string) (rs : gmap string string) (rt : gmap string (gmap string string)) :=
  if bool_decide (rs = ∅) then delete s rt else <[s := rs]> rt.

Lemma routes_of_put s rs m m' s' :
  sessionRoutes m' = put_routes s rs (sessionRoutes m) ->
  routes_of m' s' = if decide (s' = s) then rs else routes_of m s'.
Proof.
  unfold routes_of, put_routes. intros ->. case_bool_decide; subst; case_decide; subst.
  - by rewrite lookup_delete_eq.
  - by rewrite lookup_delete_ne.
  - by rewrite lookup_insert_eq.
  - by rewrite lookup_insert_ne.
Qed.

(** The rule set of [s] after its ownership of [key] became [n]. *)
Definition put_rule (key : string) (n : Z) (ks : gset string) : gset string :=
  if n =? 0 then ks ∖ {[key]} else {[key]} ∪ ks.

(** The single shape of every state change of a route: the owners of [key], the
    rule set of [s] and the routes of [s] are updated; counts move by one. *)
Lemma Inv_put m key e owners s rs ks m' :
  Inv m ->
  entries m !! key = Some e ->
  map_Forall (fun _ n => 0 < n) owners ->
  (forall s', s' <> s -> owners !! s' = e_owners e !! s') ->
  default 0 (owners !! s) = Z.of_nat (routes_with key rs) ->
  (forall k, k <> key -> routes_with k rs = routes_with k (routes_of m s)) ->
  ks = put_rule key (default 0 (owners !! s)) (rules_of m s) ->
  entries m' = put_owners key e owners (entries m) ->
  sessionRules m' = (if bool_decide (ks = ∅) then delete s (sessionRules m) else <[s := ks]> (sessionRules m)) ->
  sessionRoutes m' = put_routes s rs (sessionRoutes m) ->
  Inv m'.
Proof.
  intros HI He Hpos Hoth Hcnt Hks -> Eent Esr Ert.
  assert (forall k s', owned m' k s' = if decide (k = key /\ s' = s) then default 0 (owners !! s) else owned m k s')
    as Hown.
  { intros k s'. rewrite (put_owners_owned _ _ _ _ _ _ _ Eent). destruct (decide (k = key)) as [->|].
    - destruct (decide (s' = s)) as [->|]; [by rewrite decide_True|].
      rewrite decide_False, Hoth, (owned_at _ _ _ _ He) by (try intros [? ?]; done). done.
    - by rewrite decide_False by by intros [? ?]. }
  split.
  - rewrite Eent. apply put_owners_ok; [apply HI|done..].
  - rewrite Esr. apply nonempty_put, HI.
  - rewrite Ert. apply nonempty_put, HI.
  - intros s' k. rewrite Hown, (routes_of_put _ _ _ _ _ Ert). destruct (decide (s' = s)) as [->|].
    + destruct (decide (k = key)) as [->|].
      * by rewrite decide_True.
      * rewrite decide_False by by intros [? ?]. rewrite Hks by done. apply HI.
    + rewrite decide_False by by intros [? ?]. apply HI.
  - intros s' k. rewrite Hown, (rules_of_put s _ _ _ s' Esr). destruct (decide (s' = s)) as [->|].
    + unfold put_rule. pose proof (inv_rules _ HI s k) as Hr.
      destruct (decide (k = key)) as [->|].
      * rewrite decide_True by done. destruct (Z.eqb_spec (default 0 (owners !! s)) 0); set_solver.
      * rewrite decide_False by by intros [? ?]. destruct (_ =? _); set_solver.
    + rewrite decide_False by by intros [? ?]. apply HI.
Qed.

(** ** Withdrawing and adding one route *)
Lemma nonempty_default {V} `{Empty V} (ms : gmap string V) s (P : V -> Prop) :
  P (default ∅ (ms !! s)) -> ~ P ∅ -> exists v, ms !! s = Some v /\ P v.
Proof. destruct (ms !! s); simpl; [eauto|done]. Qed.

(** A known route has an entry, an owner count and a rule set. *)
Lemma known_route m s id key :
  Inv m -> routes_of m s !! id = Some key ->
  exists rs e n ks,
    sessionRoutes m !! s = Some rs /\ rs !! id = Some key /\
    entries m !! key = Some e /\ e_owners e !! s = Some n /\
    0 < n /\ n = Z.of_nat (routes_with key rs) /\
    sessionRules m !! s = Some ks /\ key ∈ ks.
Proof.
  intros HI Hid. pose proof (routes_with_pos _ _ _ Hid) as Hc.
  pose proof (inv_count _ HI s key) as Hn.
  assert (owned m key s <> 0) as Ho by lia.
  destruct (owned_pos_entry _ _ _ Ho) as (e & He). rewrite (owned_at _ _ _ _ He) in Hn, Ho.
  apply (e_owners_pos _ _ _ (inv_entries _ HI _ _ He)) in Ho as Ho'. destruct Ho' as (n & En).
  assert (key ∈ rules_of m s) as Hk by (apply HI; by rewrite (owned_at _ _ _ _ He)).
  destruct (nonempty_default (sessionRules m) s (fun ks => key ∈ ks) Hk) as (ks & Eks & Hks); [set_solver|].
  destruct (nonempty_default (sessionRoutes m) s (fun rs => rs !! id = Some key) Hid) as (rs & Ers & Hrs);
    [by rewrite lookup_empty|].
  rewrite En in Hn. unfold routes_of in Hn. rewrite Ers in Hn. simpl in Hn.
  exists rs, e, n, ks. repeat (split; [done|]). split; [|done].
  unfold routes_of in Hc. rewrite Ers in Hc. simpl in Hc. lia.
Qed.

Lemma forgetRoute_known m s id key rs :
  sessionRoutes m !! s = Some rs -> rs !! id = Some key ->
  forgetRoute id s key m =
  {| entries := entries m; sessionRules := sessionRules m;
     sessionRoutes := put_routes s (delete id rs) (sessionRoutes m) |}.
Proof.
  intros Ers Hid. unfold forgetRoute. rewrite Ers, Hid. simpl.
  by rewrite bool_decide_true by done.
Qed.

(** The owners left when one ownership of [s] goes. *)
Definition one_less (s : string) (n : Z) (owners : gmap string Z) : gmap string Z :=
  if n =? 1 then delete s owners else <[s := n - 1]> owners.

Lemma one_less_self s n owners : default 0 (one_less s n owners !! s) = n - 1.
Proof.
  unfold one_less. destruct (Z.eqb_spec n 1); subst.
  - by rewrite lookup_delete_eq.
  - by rewrite lookup_insert_eq.
Qed.

Lemma one_less_other s n owners s' : s' <> s -> one_less s n owners !! s' = owners !! s'.
Proof.
  intros. unfold one_less. destruct (_ =? _); [by rewrite lookup_delete_ne|by rewrite lookup_insert_ne].
Qed.

Lemma one_less_pos s n owners :
  0 < n -> map_Forall (fun _ n => 0 < n) owners -> map_Forall (fun _ n => 0 < n) (one_less s n owners).
Proof.
  intros Hn HF. unfold one_less. destruct (Z.eqb_spec n 1).
  - by apply map_Forall_delete.
  - apply map_Forall_insert_2; [lia|done].
Qed.

Lemma removeOwner_shape m key s e n ks :
  entries m !! key = Some e -> e_owners e !! s = Some n -> 0 < n ->
  sessionRules m !! s = Some ks -> key ∈ ks ->
  exists m', removeOwner key s m = (m', bool_decide (one_less s n (e_owners e) = ∅)) /\
    entries m' = put_owners key e (one_less s n (e_owners e)) (entries m) /\
    sessionRules m' = (let ks' := put_rule key (n - 1) ks in
                       if bool_decide (ks' = ∅) then delete s (sessionRules m) else <[s := ks']> (sessionRules m)) /\
    sessionRoutes m' = sessionRoutes m.
Proof.
  intros He Hn Hpos Hks Hin. unfold removeOwner. rewrite He, Hn. change (default 0 (Some n)) with n. cbn zeta.
  rewrite (proj2 (Z.eqb_neq n 0)) by lia. fold (one_less s n (e_owners e)). rewrite Hks, one_less_self.
  assert ((if n - 1 =? 0 then
             if bool_decide (ks ∖ {[key]} = ∅) then delete s (sessionRules m) else <[s := ks ∖ {[key]}]> (sessionRules m)
           else sessionRules m) =
          (let ks' := put_rule key (n - 1) ks in
           if bool_decide (ks' = ∅) then delete s (sessionRules m) else <[s := ks']> (sessionRules m))) as E.
  { cbn zeta. unfold put_rule. destruct (_ =? _); [done|].
    assert ({[key]} ∪ ks = ks) as -> by set_solver.
    rewrite bool_decide_false by set_solver. by rewrite insert_id. }
  rewrite E. clear E.
  exists {| entries := put_owners key e (one_less s n (e_owners e)) (entries m);
            sessionRules := (let ks' := put_rule key (n - 1) ks in
                             if bool_decide (ks' = ∅) then delete s (sessionRules m) else <[s := ks']> (sessionRules m));
            sessionRoutes := sessionRoutes m |}.
  split; [|done]. unfold put_owners. by destruct (bool_decide (one_less _ _ _ = ∅)).
Qed.

Definition route_update (m m' : Manager) (id s : string) (v : option string) : Prop :=
  forall id' s', routeKey id' s' m' = if decide (id' = id /\ s' = s) then v else routeKey id' s' m.

Lemma put_routes_update m m' id s rs v :
  sessionRoutes m' = put_routes s rs (sessionRoutes m) ->
  rs !! id = v -> (forall id', id' <> id -> rs !! id' = routes_of m s !! id') ->
  route_update m m' id s v.
Proof.
  intros Ert Hv Hoth id' s'. rewrite !routeKey_routes, (routes_of_put _ _ _ _ _ Ert).
  destruct (decide (s' = s)) as [->|].
  - destruct (decide (id' = id)) as [->|]; [by rewrite decide_True|].
    rewrite decide_False by by intros [? ?]. by apply Hoth.
  - by rewrite decide_False by by intros [? ?].
Qed.

Lemma removeRoute_spec m id s :
  Inv m ->
  exists m' fam d, removeRoute id s m = (m', (fam, d)) /\ Inv m' /\ route_update m m' id s None /\
    (forall f, (d = true -> f <> fam) -> same_view f m m') /\
    (forall k a, live m' !! k = Some a -> live m !! k = Some a).
Proof.
  intros HI. unfold removeRoute. destruct (routeKey id s m) as [key|] eqn:Hid.
  2:{ exists m, IPv4, false. split; [done|]. split; [done|]. split; [|split; [|done]].
      - intros id' s'. case_decide as E; [|done]. by destruct E as [-> ->].
      - by intros f _ k a _. }
  pose proof Hid as Hid'. rewrite routeKey_routes in Hid.
  destruct (known_route m s id key HI Hid) as (rs & e & n & ks & Ers & Ers' & He & Hn & Hpos & Ecnt & Eks & Hk).
  rewrite (forgetRoute_known _ _ _ _ _ Ers Ers'). cbn [entries]. rewrite He.
  match goal with |- context [removeOwner key s ?m1] =>
    destruct (removeOwner_shape m1 key s e n ks He Hn Hpos Eks Hk) as (m' & -> & Eent & Esr & Ert) end.
  cbn [entries sessionRules sessionRoutes] in *.
  assert (routes_of m s = rs) as Hrs by (unfold routes_of; by rewrite Ers).
  assert (rules_of m s = ks) as Hrk by (unfold rules_of; by rewrite Eks).
  assert (live m' = if bool_decide (one_less s n (e_owners e) = ∅) then delete key (live m) else live m) as Hl.
  { unfold live. rewrite Eent. by apply put_owners_live. }
  exists m', (e_family e), (bool_decide (one_less s n (e_owners e) = ∅)). split; [done|]. split; [|split; [|split]].
  - eapply (Inv_put m key e (one_less s n (e_owners e)) s (delete id rs)); try done.
    + by apply one_less_pos, (inv_entries _ HI _ _ He).
    + intros. by apply one_less_other.
    + rewrite one_less_self, (routes_with_delete _ _ _ _ Ers'). unfold ind. rewrite decide_True by done. lia.
    + intros k Hne. pose proof (routes_with_delete k _ _ _ Ers') as E. unfold ind in E.
      rewrite decide_False in E by done. rewrite Hrs. lia.
    + by rewrite one_less_self, Hrk.
  - eapply put_routes_update; [done|apply lookup_delete_eq|]. intros. by rewrite lookup_delete_ne, Hrs.
  - intros f Hf k a Ha. rewrite Hl. case_bool_decide; [|done].
    destruct (decide (k = key)) as [->|]; [|by rewrite lookup_delete_ne].
    split; [|by rewrite lookup_delete_eq]. intros (e' & He' & <-)%live_lookup. simplify_eq.
    destruct (Hf eq_refl). symmetry. apply (eo_fam _ _ (inv_entries _ HI _ _ He)).
  - intros k a. rewrite Hl. case_bool_decide; [|done]. by intros [_ ?]%lookup_delete_Some.
Qed.

Lemma replaceRoute_spec m id key s :
  Inv m -> routeKey id s m <> Some key ->
  exists m' fam d, replaceRoute id key s m = (m', (fam, d)) /\ Inv m' /\ route_update m m' id s None /\
    (forall f, (d = true -> f <> fam) -> same_view f m m').
Proof.
  intros HI Hne. unfold replaceRoute. destruct (removeRoute_spec m id s HI) as (m' & fam & d & E & HI' & Hup & Hv & _).
  destruct (routeKey id s m) as [k|] eqn:Hk.
  - rewrite bool_decide_false by (intros ->; by apply Hne). eauto 10.
  - exists m, IPv4, false. split; [done|]. split; [done|]. split; [|by intros f _].
    intros id' s'. case_decide as D; [|done]. by destruct D as [-> ->].
Qed.

(** The entry an announcement adds to: the existing one, or a fresh one. *)
Definition entry_for (acl : ACLRule) (m : Manager) : entry :=
  default {| e_acl := acl; e_family := familyOf acl; e_owners := ∅ |} (entries m !! Key acl).

Lemma entry_for_acl m acl :
  Inv m -> ACLRule_wf acl -> e_acl (entry_for acl m) = acl /\ e_family (entry_for acl m) = familyOf acl.
Proof.
  intros HI Hwf. unfold entry_for. destruct (entries m !! Key acl) as [e|] eqn:He; simpl; [|done].
  destruct (inv_entries _ HI _ _ He) as [_ _ Hk Hf Hw _].
  apply Key_inj in Hk; [|done..]. by rewrite Hf, Hk.
Qed.

Lemma addOwner_shape m acl s :
  exists m' d, addOwner (Key acl) acl (familyOf acl) s m = (m', d) /\
    (d = false -> is_Some (entries m !! Key acl)) /\
    entries m' = <[Key acl := {| e_acl := e_acl (entry_for acl m); e_family := e_family (entry_for acl m);
                                 e_owners := <[s := owned m (Key acl) s + 1]> (e_owners (entry_for acl m)) |}]> (entries m) /\
    sessionRules m' = <[s := {[Key acl]} ∪ rules_of m s]> (sessionRules m) /\
    sessionRoutes m' = sessionRoutes m.
Proof.
  unfold addOwner, entry_for, owned, owners_of.
  destruct (entries m !! Key acl) as [e|] eqn:He; simpl.
  - do 2 eexists. split; [done|]. split; [done|]. done.
  - do 2 eexists. split; [done|]. split; [done|]. done.
Qed.

Lemma entry_for_owned m acl s : default 0 (e_owners (entry_for acl m) !! s) = owned m (Key acl) s.
Proof.
  unfold entry_for, owned, owners_of. by destruct (entries m !! Key acl); simpl; rewrite ?lookup_empty.
Qed.

Lemma entry_for_pos m acl : Inv m -> map_Forall (fun _ n => 0 < n) (e_owners (entry_for acl m)).
Proof.
  intros HI. unfold entry_for. destruct (entries m !! Key acl) eqn:He; simpl; [|apply map_Forall_empty].
  apply (inv_entries _ HI _ _ He).
Qed.

Lemma addRoute_owned m acl s id m2 d k s' :
  addOwner (Key acl) acl (familyOf acl) s m = (m2, d) ->
  owned (rememberRoute id (Key acl) s m2) k s' = owned m k s' + ind (Key acl = k /\ s' = s).
Proof.
  intros Ha. destruct (addOwner_shape m acl s) as (m2' & d' & Ha' & _ & Eent & _ & _).
  rewrite Ha in Ha'. injection Ha' as <- <-.
  unfold owned at 1, owners_of. cbn [rememberRoute entries]. rewrite Eent. unfold ind.
  destruct (decide (Key acl = k)) as [<-|].
  - rewrite lookup_insert_eq. simpl. destruct (decide (s' = s)) as [->|].
    + rewrite lookup_insert_eq, decide_True by done. done.
    + rewrite lookup_insert_ne, decide_False by (try intros [? ?]; done). rewrite entry_for_owned. lia.
  - rewrite lookup_insert_ne, decide_False by (try intros [? ?]; done).
    change (owned m k s' = owned m k s' + 0). lia.
Qed.

Lemma rememberRoute_routes m id key s s' :
  routes_of (rememberRoute id key s m) s' =
  if decide (s' = s) then <[id := key]> (routes_of m s) else routes_of m s'.
Proof.
  unfold routes_of, rememberRoute. cbn [sessionRoutes].
  case_decide; subst; [by rewrite lookup_insert_eq|by rewrite lookup_insert_ne].
Qed.

Lemma addRoute_Inv m acl s id m2 d :
  Inv m -> ACLRule_wf acl -> Permit acl = false -> routes_of m s !! id = None ->
  addOwner (Key acl) acl (familyOf acl) s m = (m2, d) ->
  Inv (rememberRoute id (Key acl) s m2).
Proof.
  intros HI Hwf Hd Hid Ha. pose proof (fun k s' => addRoute_owned m acl s id m2 d k s' Ha) as Hown.
  destruct (addOwner_shape m acl s) as (m2' & d' & Ha' & _ & Eent & Esr & Ert).
  rewrite Ha in Ha'. injection Ha' as <- <-. destruct (entry_for_acl m acl HI Hwf) as [Eacl Efam].
  assert (forall s', routes_of m2 s' = routes_of m s') as Hr2 by (intros; unfold routes_of; by rewrite Ert).
  split.
  - cbn [rememberRoute entries]. rewrite Eent. apply map_Forall_insert_2; [|apply HI].
    split; cbn [e_owners e_acl e_family]; rewrite ?Eacl, ?Efam; try done.
    + apply insert_non_empty.
    + apply map_Forall_insert_2; [rewrite (inv_count _ HI); lia|by apply entry_for_pos].
  - cbn [rememberRoute sessionRules]. rewrite Esr. apply map_Forall_insert_2; [set_solver|apply HI].
  - cbn [rememberRoute sessionRoutes]. apply map_Forall_insert_2; [apply insert_non_empty|]. rewrite Ert. apply HI.
  - intros s' k. rewrite Hown, rememberRoute_routes, (inv_count _ HI), !Hr2.
    unfold ind. destruct (decide (s' = s)) as [->|].
    + rewrite routes_with_insert by done. unfold ind. f_equal. repeat case_decide; tauto.
    + rewrite decide_False by by intros [? ?]. lia.
  - intros s' k. rewrite Hown. pose proof (inv_rules _ HI s' k) as Hr. rewrite (inv_count _ HI) in Hr |- *.
    unfold rules_of, rememberRoute. cbn [sessionRules]. rewrite Esr. unfold ind.
    destruct (decide (s' = s)) as [->|].
    + rewrite lookup_insert_eq. simpl. rewrite elem_of_union, elem_of_singleton. case_decide as Hc.
      * destruct Hc as [<- _]. split; [lia|by left].
      * rewrite Z.add_0_r. rewrite <-Hr. split; [intros [->|?]; tauto|by right].
    + rewrite lookup_insert_ne, decide_False by (try intros [? ?]; done). rewrite Z.add_0_r. apply Hr.
Qed.

Lemma addRoute_spec m acl s id :
  Inv m -> ACLRule_wf acl -> Permit acl = false -> routeKey id s m = None ->
  exists m2 d, addOwner (Key acl) acl (familyOf acl) s m = (m2, d) /\
    Inv (rememberRoute id (Key acl) s m2) /\
    route_update m (rememberRoute id (Key acl) s m2) id s (Some (Key acl)) /\
    live (rememberRoute id (Key acl) s m2) = <[Key acl := acl]> (live m) /\
    (forall f, (d = true -> f <> familyOf acl) -> same_view f m (rememberRoute id (Key acl) s m2)).
Proof.
  intros HI Hwf Hd Hid. destruct (addOwner_shape m acl s) as (m2 & d & Ha & Hdirty & Eent & Esr & Ert).
  exists m2, d. split; [done|]. rewrite routeKey_routes in Hid.
  assert (live (rememberRoute id (Key acl) s m2) = <[Key acl := acl]> (live m)) as Hl.
  { unfold live. cbn [rememberRoute entries]. rewrite Eent, fmap_insert. cbn [e_acl].
    by rewrite (proj1 (entry_for_acl m acl HI Hwf)). }
  split; [by eapply addRoute_Inv|]. split; [|split; [done|]].
  - intros id' s'. rewrite !routeKey_routes, rememberRoute_routes.
    unfold routes_of at 1 2. rewrite !Ert. fold (routes_of m s) (routes_of m s').
    destruct (decide (s' = s)) as [->|]; [|by rewrite decide_False by by intros [? ?]].
    destruct (decide (id' = id)) as [->|]; [by rewrite lookup_insert_eq, decide_True|].
    rewrite lookup_insert_ne, decide_False by (try intros [? ?]; congruence). done.
  - intros f Hf k a Hfam. rewrite Hl. destruct (decide (k = Key acl)) as [->|]; [|by rewrite lookup_insert_ne].
    rewrite lookup_insert_eq. split.
    + intros (Hk & Hw & _)%live_key; [|done]. by apply Key_inj in Hk as ->.
    + intros [= <-]. destruct d; [by destruct Hf|]. destruct (Hdirty eq_refl) as [e He].
      apply live_lookup. exists e. split; [done|].
      pose proof (proj1 (entry_for_acl m acl HI Hwf)) as E. unfold entry_for in E. by rewrite He in E.
Qed.

(** ** A session going down *)
Definition drop_owner (s : string) (e : entry) : option entry :=
  if bool_decide (delete s (e_owners e) = ∅) then None
  else Some {| e_acl := e_acl e; e_family := e_family e; e_owners := delete s (e_owners e) |}.

Lemma removeSessionOwner_spec m key s e :
  map_Forall entry_ok (entries m) -> entries m !! key = Some e ->
  exists m' d, removeSessionOwner key s m = (m', d) /\
    entries m' = partial_alter (fun _ => drop_owner s e) key (entries m) /\
    sessionRules m' = sessionRules m /\ sessionRoutes m' = sessionRoutes m /\
    (drop_owner s e = None -> d = true).
Proof.
  intros HF He. unfold removeSessionOwner. rewrite He. pose proof (HF _ _ He) as Ho.
  destruct (Z.eqb_spec (default 0 (e_owners e !! s)) 0) as [Hz|Hz].
  - assert (e_owners e !! s = None) as Hs.
    { apply eq_None_not_Some. by intros Hs%(e_owners_pos _ _ s Ho). }
    assert (drop_owner s e = Some e) as Hd.
    { unfold drop_owner. rewrite delete_id by done. rewrite bool_decide_false by apply Ho. by destruct e. }
    exists m, false. split; [done|]. split; [|by rewrite Hd]. rewrite Hd, <-He. by rewrite partial_alter_self.
  - unfold drop_owner. case_bool_decide.
    + by eexists _, _.
    + eexists _, _. split; [done|]. by repeat split.
Qed.

Lemma drop_owner_ok k s e : entry_ok k e -> from_option (entry_ok k) True (drop_owner s e).
Proof.
  intros [? ? ? ? ? ?]. unfold drop_owner. case_bool_decide; simpl; [done|].
  split; try done. by apply map_Forall_delete.
Qed.

Lemma drop_keys_spec s keys m dirty :
  map_Forall entry_ok (entries m) -> NoDup keys ->
  exists m' dirty', drop_keys s keys m dirty = (m', dirty') /\
    map_Forall entry_ok (entries m') /\
    (forall k, entries m' !! k = if decide (k ∈ keys) then entries m !! k ≫= drop_owner s else entries m !! k) /\
    sessionRules m' = sessionRules m /\ sessionRoutes m' = sessionRoutes m /\ dirty ⊆ dirty' /\
    (forall k e, k ∈ keys -> entries m !! k = Some e -> drop_owner s e = None -> e_family e ∈ dirty').
Proof.
  revert m dirty. induction keys as [|key keys IH]; intros m dirty HF Hnd; cbn [drop_keys].
  { exists m, dirty. split; [done|]. split; [done|]. split; [|by repeat split; intros; set_solver].
    intros k. by rewrite decide_False by apply not_elem_of_nil. }
  apply NoDup_cons in Hnd as [Hkey Hnd].
  destruct (entries m !! key) as [e|] eqn:He.
  - destruct (removeSessionOwner_spec m key s e HF He) as (m1 & d & -> & Eent & Esr & Ert & Hd).
    assert (map_Forall entry_ok (entries m1)) as HF1.
    { intros k x. rewrite Eent. destruct (decide (k = key)) as [->|].
      - rewrite lookup_partial_alter_eq. intros Hx. pose proof (drop_owner_ok key s e (HF _ _ He)) as Hx'.
        by rewrite Hx in Hx'.
      - rewrite lookup_partial_alter_ne by done. apply HF. }
    destruct (IH m1 (if d then {[e_family e]} ∪ dirty else dirty) HF1 Hnd)
      as (m' & dirty' & -> & HF' & Ek & Esr' & Ert' & Hsub & Hdirty).
    exists m', dirty'. split; [done|]. split; [done|]. split; [|split; [congruence|split; [congruence|split]]].
    + intros k. rewrite Ek, Eent. destruct (decide (k = key)) as [->|].
      * rewrite decide_False, decide_True by set_solver. by rewrite lookup_partial_alter_eq, He.
      * rewrite lookup_partial_alter_ne by done. by destruct (decide (k ∈ keys)), (decide (k ∈ key :: keys)); set_solver.
    + destruct d; set_solver.
    + intros k x Hk Hx Hnone. destruct (decide (k = key)) as [->|].
      * simplify_eq. rewrite (Hd Hnone) in Hsub. set_solver.
      * apply (Hdirty k); [set_solver| |done]. by rewrite Eent, lookup_partial_alter_ne.
  - destruct (IH m dirty HF Hnd) as (m' & dirty' & -> & HF' & Ek & Esr' & Ert' & Hsub & Hdirty).
    exists m', dirty'. do 2 (split; [done|]). split; [|do 3 (split; [done|])].
    + intros k. rewrite Ek. destruct (decide (k = key)) as [->|].
      * rewrite He. by destruct (decide (key ∈ keys)), (decide (key ∈ key :: keys)).
      * by destruct (decide (k ∈ keys)), (decide (k ∈ key :: keys)); set_solver.
    + intros k x Hk Hx. apply (Hdirty k); [|done]. destruct (decide (k = key)) as [->|]; set_solver.
Qed.

Definition session_dropped (s : string) (m : Manager) (es : gmap string entry) : Manager :=
  {| entries := es; sessionRules := delete s (sessionRules m); sessionRoutes := delete s (sessionRoutes m) |}.

Lemma drop_owner_owned s e s' :
  default 0 (default ∅ (e_owners <$> drop_owner s e) !! s') =
  if decide (s' = s) then 0 else default 0 (e_owners e !! s').
Proof.
  unfold drop_owner. case_bool_decide as Hd; simpl.
  - rewrite lookup_empty. case_decide; [done|]. by rewrite <-(lookup_delete_ne (e_owners e) s s'), Hd by done.
  - case_decide; subst; [by rewrite lookup_delete_eq|by rewrite lookup_delete_ne].
Qed.

Lemma session_dropped_Inv s m m1 :
  Inv m -> map_Forall entry_ok (entries m1) ->
  (forall k, entries m1 !! k = if decide (k ∈ rules_of m s) then entries m !! k ≫= drop_owner s else entries m !! k) ->
  Inv (session_dropped s m (entries m1)).
Proof.
  intros HI HF Hent.
  assert (forall k s', owned (session_dropped s m (entries m1)) k s' = if decide (s' = s) then 0 else owned m k s') as Ho.
  { intros k s'. unfold owned, owners_of. cbn [session_dropped entries]. rewrite Hent.
    case_decide as Hk.
    - destruct (entries m !! k) as [e|]; simpl; [apply drop_owner_owned|by case_decide].
    - case_decide; [subst|done]. rewrite (inv_rules _ HI) in Hk. unfold owned, owners_of in Hk.
      destruct (decide (default 0 (default ∅ (e_owners <$> entries m !! k) !! s) = 0)) as [|Hn]; [done|].
      by destruct (Hk Hn). }
  split; cbn [session_dropped entries sessionRules sessionRoutes]; [done| | | |].
  - apply map_Forall_delete, HI.
  - apply map_Forall_delete, HI.
  - intros s' k. rewrite Ho. unfold routes_of. cbn [session_dropped sessionRoutes].
    destruct (decide (s' = s)) as [->|].
    + by rewrite lookup_delete_eq.
    + rewrite lookup_delete_ne by done. apply HI.
  - intros s' k. rewrite Ho. unfold rules_of. cbn [session_dropped sessionRules].
    destruct (decide (s' = s)) as [->|].
    + rewrite lookup_delete_eq. set_solver.
    + rewrite lookup_delete_ne by done. apply HI.
Qed.

(** A session without rules has no routes and no rule set. *)
Lemma no_rules_no_routes s m :
  Inv m -> rules_of m s = ∅ -> sessionRules m !! s = None /\ sessionRoutes m !! s = None.
Proof.
  intros HI Hr. split.
  - unfold rules_of in Hr. destruct (sessionRules m !! s) eqn:E; [|done]. simpl in Hr. subst.
    by destruct (inv_rules_ne _ HI _ _ E).
  - destruct (sessionRoutes m !! s) as [rs|] eqn:E; [|done].
    destruct (inv_routes_ne _ HI _ _ E). apply map_empty. intros id.
    apply eq_None_not_Some. intros [k Hk].
    assert (owned m k s = 0) as Ho.
    { destruct (decide (owned m k s = 0)) as [|Hn]; [done|]. apply (inv_rules _ HI) in Hn. set_solver. }
    rewrite (inv_count _ HI) in Ho. unfold routes_of in Ho. rewrite E in Ho. simpl in Ho.
    apply routes_with_pos in Hk. lia.
Qed.

Lemma drop_owner_acl s e e' : drop_owner s e = Some e' -> e_acl e' = e_acl e.
Proof. unfold drop_owner. case_bool_decide; [done|]. by intros [= <-]. Qed.

(** What the loop of [sessionDown] leaves, and the families it marks. *)
Lemma sessionDown_spec s m o :
  Inv m ->
  exists m1 dirty, drop_keys s (range_list o (elements (rules_of m s))) m ∅ = (m1, dirty) /\
    sessionRules m1 = sessionRules m /\ sessionRoutes m1 = sessionRoutes m /\
    Inv (session_dropped s m (entries m1)) /\
    (forall id s', routeKey id s' (session_dropped s m (entries m1)) =
                   if decide (s' = s) then None else routeKey id s' m) /\
    (forall f, f ∉ dirty -> same_view f m (session_dropped s m (entries m1))).
Proof.
  intros HI.
  destruct (drop_keys_spec s (range_list o (elements (rules_of m s))) m ∅) as
    (m1 & dirty & Edk & HF & Hent & Esr & Ert & _ & Hdirty).
  { apply HI. } { rewrite (range_perm o). apply NoDup_elements. }
  assert (forall k, k ∈ range_list o (elements (rules_of m s)) <-> k ∈ rules_of m s) as Hmem.
  { intros k. by rewrite range_elem, elem_of_elements. }
  assert (forall k, entries m1 !! k = if decide (k ∈ rules_of m s) then entries m !! k ≫= drop_owner s else entries m !! k)
    as Hent'.
  { intros k. rewrite Hent. by rewrite (decide_ext _ _ _ _ (Hmem k)). }
  exists m1, dirty. do 3 (split; [done|]). split; [by apply session_dropped_Inv|]. split.
  - intros id s'. unfold routeKey. cbn [session_dropped sessionRoutes].
    case_decide; subst; [by rewrite lookup_delete_eq|by rewrite lookup_delete_ne].
  - intros f Hf k a Ha. unfold live. rewrite !lookup_fmap. cbn [session_dropped entries]. rewrite Hent'.
    destruct (entries m !! k) as [e|] eqn:He; [|by case_decide]. case_decide as Hk; [|done]. simpl.
    destruct (drop_owner s e) as [e'|] eqn:Hd; simpl.
    + by rewrite (drop_owner_acl _ _ _ Hd).
    + split; [|done]. intros [= <-]. destruct Hf. rewrite <-Ha, <-(eo_fam _ _ (inv_entries _ HI _ _ He)).
      apply (Hdirty k); [by apply Hmem|done..].
Qed.

(** ** The desired rule list *)
Lemma desired_keys_elem f m k :
  Inv m -> k ∈ desired_keys f m <-> exists a, live m !! k = Some a /\ familyOf a = f.
Proof.
  intros HI. unfold desired_keys. rewrite merge_sort_Permutation, list_elem_of_fmap. split.
  - intros ([k' e] & -> & [[Hf _] He%elem_of_map_to_list]%list_elem_of_filter). simpl in *.
    exists (e_acl e). split; [apply live_lookup; eauto|].
    rewrite <-Hf. symmetry. apply (inv_entries _ HI _ _ He).
  - intros (a & (e & He & <-)%live_lookup & Hf). exists (k, e). split; [done|].
    apply list_elem_of_filter. destruct (inv_entries _ HI _ _ He) as [Ho _ _ Hfam _ _].
    split; [simpl; split; congruence|by apply elem_of_map_to_list].
Qed.

Lemma desired_keys_NoDup f m : NoDup (desired_keys f m).
Proof.
  unfold desired_keys. rewrite merge_sort_Permutation.
  eapply sublist_NoDup; [apply (NoDup_fst_map_to_list (entries m))|].
  apply fmap_sublist, sublist_filter.
Qed.

Lemma desired_keys_sorted f m : StronglySorted String.le (desired_keys f m).
Proof. unfold desired_keys. apply (StronglySorted_merge_sort String.le). Qed.

Lemma desired_spec f m :
  Inv m ->
  Key <$> desired f m = desired_keys f m /\
  forall a, a ∈ desired f m <-> live m !! Key a = Some a /\ familyOf a = f.
Proof.
  intros HI.
  assert (forall ks : list string, (forall k, k ∈ ks -> exists a, live m !! k = Some a /\ familyOf a = f) ->
    Key <$> omap (fun k => e_acl <$> entries m !! k) ks = ks) as Hk.
  { induction ks as [|k ks IH]; intros Hks; [done|]. csimpl.
    destruct (Hks k) as (a & Ha & Hf); [set_solver|]. pose proof (live_key _ _ _ HI Ha) as [Ek _].
    apply live_lookup in Ha as (e & He & <-). rewrite He. csimpl. rewrite IH by set_solver. by rewrite <-Ek. }
  split; [apply Hk; intros k; by apply desired_keys_elem|].
  intros a. unfold desired. rewrite list_elem_of_omap. split.
  - intros (k & (b & Hb & Hf)%desired_keys_elem & Ha); [|done].
    change (e_acl <$> entries m !! k) with (e_acl <$> (entries m !! k)) in Ha. rewrite <-lookup_fmap in Ha.
    fold (live m) in Ha. simplify_eq. by destruct (live_key _ _ _ HI Hb) as [<- _].
  - intros [Ha Hf]. exists (Key a). split; [apply desired_keys_elem; eauto|].
    rewrite <-lookup_fmap. done.
Qed.

(** Unchanged entries of a family give an unchanged list. *)
Lemma desired_view f m m' : Inv m -> Inv m' -> same_view f m m' -> desired f m = desired f m'.
Proof.
  intros HI HI' Hv.
  assert (desired_keys f m = desired_keys f m') as Ek.
  { apply (StronglySorted_unique String.le); try apply desired_keys_sorted.
    apply NoDup_Permutation; try apply desired_keys_NoDup. intros k.
    rewrite !desired_keys_elem by done. unfold same_view in Hv. split; intros (a & Ha & Hf); exists a; split; try done;
      by apply (Hv k a Hf). }
  unfold desired. rewrite <-Ek. apply list_omap_ext. apply Forall2_same_length_lookup_2; [done|].
  intros i k k' Hk Hk'. simplify_eq.
  apply list_elem_of_lookup_2 in Hk. apply desired_keys_elem in Hk as (a & Ha & Hf); [|done].
  rewrite <-!lookup_fmap. change (live m !! k = live m' !! k). rewrite Ha. symmetry. by apply (Hv k a Hf).
Qed.

(** ** The abstract routing table

    What the sessions currently announce, by session and route identity, for the
    rules that can be mapped. *)
Abbreviation RIB := (gmap (string * string) Rule).

Definition acl_key (r : Rule) : option string :=
  match Translate r with Ok a => Some (Key a) | Err _ => None end.

(** Rules as the speakers hand them over: fields in their width, present
    prefixes valid. *)
Definition Rule_wf (r : Rule) : Prop := Match_wf (r_Match r) /\ Match_prefixes_valid (r_Match r).

Definition Update_wf (u : Update) : Prop := forall r, u_Rule u = Some r -> Rule_wf r.

Record represents (m : Manager) (rib : RIB) : Prop := {
  rep_inv : Inv m;
  rep_routes : forall s id, routeKey id s m = rib !! (s, id) ≫= acl_key;
  rep_rules : map_Forall (fun _ r => Rule_wf r /\ is_ok (Translate r) = true) rib
}.

Lemma acl_key_Some r a : Translate r = Ok a -> acl_key r = Some (Key a).
Proof. unfold acl_key. by intros ->. Qed.

(** The entries are the mapped rules of the table. *)
Lemma live_rib m rib k a :
  represents m rib ->
  live m !! k = Some a <-> k = Key a /\ exists s id r, rib !! (s, id) = Some r /\ Translate r = Ok a.
Proof.
  intros [HI Hr Hw]. split.
  - intros Ha. pose proof (live_key _ _ _ HI Ha) as (-> & Hwf & _). split; [done|].
    apply live_lookup in Ha as (e & He & <-). destruct (inv_entries _ HI _ _ He) as [Hne Hpos _ _ _ _].
    apply map_choose in Hne as (s & n & Hn). pose proof (Hpos _ _ Hn) as Hn0. cbn in Hn0.
    assert (routes_with (Key (e_acl e)) (routes_of m s) <> 0%nat) as Hc.
    { pose proof (inv_count _ HI s (Key (e_acl e))) as E. rewrite (owned_at _ _ _ _ He), Hn in E. simpl in E. lia. }
    rewrite routes_with_zero in Hc.
    destruct (decide (map_Exists (fun _ x => x = Key (e_acl e)) (routes_of m s))) as [Hx|Hx].
    2:{ destruct Hc. intros id Hid. apply Hx. by exists id, (Key (e_acl e)). }
    destruct Hx as (id & x & Hid & ->). rewrite <-routeKey_routes, Hr in Hid.
    apply bind_Some in Hid as (r & Hrib & Hk). unfold acl_key in Hk.
    destruct (Translate r) as [b|] eqn:T; [|done]. injection Hk as Hk. exists s, id, r. split; [done|].
    destruct (Hw _ _ Hrib) as [[W1 W2] _]. rewrite T. f_equal. apply Key_inj; [|done..].
    by eapply Translate_wf.
  - intros (-> & s & id & r & Hrib & T).
    assert (routeKey id s m = Some (Key a)) as Hid by (rewrite Hr, Hrib; simpl; by apply acl_key_Some).
    rewrite routeKey_routes in Hid.
    destruct (known_route m s id _ HI Hid) as (_ & e & _ & _ & _ & _ & He & _).
    apply live_lookup. exists e. split; [done|]. destruct (inv_entries _ HI _ _ He) as [_ _ Hk _ Hwf _].
    apply Key_inj; [done| |done]. destruct (Hw _ _ Hrib) as [[W1 W2] _]. by eapply Translate_wf.
Qed.

(** The desired list is exactly the mapped rules of the family. *)
Lemma desired_rib f m rib a :
  represents m rib ->
  a ∈ desired f m <-> familyOf a = f /\ exists s id r, rib !! (s, id) = Some r /\ Translate r = Ok a.
Proof.
  intros Hr. rewrite (proj2 (desired_spec f m (rep_inv _ _ Hr))), (live_rib _ _ _ _ Hr). naive_solver.
Qed.

Lemma represents_insert m m' rib s id r a :
  represents m rib -> Inv m' -> Rule_wf r -> Translate r = Ok a ->
  route_update m m' id s (Some (Key a)) -> represents m' (<[(s, id) := r]> rib).
Proof.
  intros [HI Hr Hw] HI' Hwf T Hu. split; [done| |].
  - intros s' id'. rewrite Hu. case_decide as E.
    + destruct E as [-> ->]. rewrite lookup_insert_eq. simpl. by rewrite (acl_key_Some _ _ T).
    + rewrite lookup_insert_ne by (intros [= -> ->]; tauto). apply Hr.
  - apply map_Forall_insert_2; [|done]. by rewrite T.
Qed.

Lemma represents_delete m m' rib s id :
  represents m rib -> Inv m' -> route_update m m' id s None -> represents m' (delete (s, id) rib).
Proof.
  intros [HI Hr Hw] HI' Hu. split; [done| |].
  - intros s' id'. rewrite Hu. case_decide as E.
    + destruct E as [-> ->]. by rewrite lookup_delete_eq.
    + rewrite lookup_delete_ne by (intros [= -> ->]; tauto). apply Hr.
  - by apply map_Forall_delete.
Qed.

Definition rib_drop (s : string) (rib : RIB) : RIB := filter (fun p => p.1.1 <> s) rib.

Lemma represents_drop m m' rib s :
  represents m rib -> Inv m' ->
  (forall id s', routeKey id s' m' = if decide (s' = s) then None else routeKey id s' m) ->
  represents m' (rib_drop s rib).
Proof.
  intros [HI Hr Hw] HI' Hu. unfold rib_drop. split; [done| |].
  - intros s' id. rewrite Hu, map_lookup_filter. destruct (decide (s' = s)) as [->|].
    + destruct (rib !! (s, id)); simpl; [|done]. case_guard as Hg; [|done]. by destruct Hg.
    + rewrite Hr. destruct (rib !! (s', id)); simpl; [|done]. by rewrite option_guard_True.
  - intros p r [Hp _]%map_lookup_filter_Some. by apply Hw in Hp.
Qed.

Lemma newManager_represents : represents newManager ∅.
Proof.
  split; [apply newManager_Inv| |apply map_Forall_empty].
  intros s id. unfold routeKey. simpl. by rewrite !lookup_empty.
Qed.

Section Refinement.
Context {B : Type} `{Backend B} (match_GoString : Match -> string).
Implicit Types w : world B.

#[local] Abbreviation identity := (routeIdentity match_GoString).

(** One update on the abstract table. *)
Definition rib_apply (u : Update) (rib : RIB) : RIB :=
  match u_Op u, u_Rule u with
  | OpAnnounce, Some r =>
      if is_ok (Translate r) then <[(u_Session u, identity r) := r]> rib
      else delete (u_Session u, identity r) rib
  | OpWithdraw, Some r => delete (u_Session u, identity r) rib
  | OpSessionDown, _ => rib_drop (u_Session u) rib
  | _, _ => rib
  end.

Lemma reconcile_mgr f w : w_mgr (reconcile f w) = w_mgr w.
Proof. unfold reconcile. by destruct (ReplaceACL _ _ _). Qed.

Lemma foldl_reconcile_mgr fs w : w_mgr (foldl (fun w f => reconcile f w) w fs) = w_mgr w.
Proof. revert w. induction fs as [|f fs IH]; intros w; [done|]. simpl. by rewrite IH, reconcile_mgr. Qed.

Lemma reconcile_all_mgr o d w : w_mgr (reconcile_all o d w) = w_mgr w.
Proof. apply foldl_reconcile_mgr. Qed.

(** Every step is: a change of the tables, some metrics, and a reconciliation
    of families that covers all families whose entries changed. *)
Definition step_shape (o : RangeOrder) (w w' : world B) (m' : Manager) : Prop :=
  exists dirty wm, w_backend wm = w_backend w /\ w_mgr wm = m' /\
    w' = reconcile_all o dirty wm /\ (forall f, f ∉ dirty -> same_view f (w_mgr w) m') /\
    omap gauge_of (w_metrics wm) = omap gauge_of (w_metrics w).

Lemma no_gauge (l : list metric) x : gauge_of x = None -> omap gauge_of (l ++ [x]) = omap gauge_of l.
Proof. intros Hx. rewrite omap_app. cbn. by rewrite Hx, app_nil_r. Qed.

Lemma dirty_set_spec f fam (d : bool) : f ∉ dirty_set (fam, d) -> d = true -> f <> fam.
Proof. unfold dirty_set. simpl. intros Hf -> ->. set_solver. Qed.

Lemma announce_refines o u w rib r :
  Update_wf u -> u_Rule u = Some r -> represents (w_mgr w) rib ->
  exists m', step_shape o w (announce match_GoString o u w) m' /\
    represents m' (if is_ok (Translate r) then <[(u_Session u, identity r) := r]> rib
                   else delete (u_Session u, identity r) rib).
Proof.
  intros Hu Hr Hrep. pose proof (Hu _ Hr) as Hwf. pose proof (rep_inv _ _ Hrep) as HI.
  unfold announce. rewrite Hr. cbn zeta.
  destruct (Translate r) as [acl|err] eqn:T; cbn [is_ok].
  2:{ destruct (removeRoute_spec (w_mgr w) (identity r) (u_Session u) HI)
        as (m' & fam & d & E & HI' & Hup & Hv & _). rewrite E.
      exists m'. split; [|by eapply represents_delete].
      eexists _, _. split; [|split; [|split; [reflexivity|split]]]; [done..| |by apply no_gauge].
      intros f Hf. apply Hv. by apply dirty_set_spec. }
  pose proof (Translate_wf _ _ (proj1 Hwf) (proj2 Hwf) T) as Wacl.
  pose proof (proj1 (Translate_deny _ _ T)) as Hdeny.
  case_bool_decide as Hsame.
  { exists (w_mgr w). split.
    - exists ∅, w. split; [done|]. split; [done|]. split; [|split; done]. unfold reconcile_all.
      rewrite elements_empty. by rewrite (proj1 (Permutation_nil_r _) (range_perm o [])).
    - eapply (represents_insert (w_mgr w)); [done|done|done|done|]. intros id' s'. case_decide as E; [|done].
      by destruct E as [-> ->]. }
  destruct (replaceRoute_spec (w_mgr w) (identity r) (Key acl) (u_Session u) HI Hsame)
    as (m1 & fam1 & d1 & E1 & HI1 & Hup1 & Hv1).
  rewrite E1.
  destruct (addRoute_spec m1 acl (u_Session u) (identity r)) as (m2 & d2 & E2 & HI2 & Hup2 & _ & Hv2); try done.
  { rewrite Hup1. by rewrite decide_True. }
  rewrite E2. exists (rememberRoute (identity r) (Key acl) (u_Session u) m2). split.
  - eexists _, _. split; [|split; [|split; [reflexivity|split]]]; [by destruct d2..| |by destruct d2; [apply no_gauge|]].
    intros f [Hf1 Hf2]%not_elem_of_union k a Ha.
    rewrite (Hv1 f (dirty_set_spec _ _ _ Hf1) k a Ha). by apply (Hv2 f (dirty_set_spec _ _ _ Hf2)).
  - eapply (represents_insert (w_mgr w)); [done|done|done|done|].
    intros id' s'. rewrite Hup2, Hup1. by repeat case_decide.
Qed.

Lemma reconcile_all_empty o w : reconcile_all o ∅ w = w.
Proof.
  unfold reconcile_all. rewrite elements_empty. by rewrite (proj1 (Permutation_nil_r _) (range_perm o [])).
Qed.

Lemma reconcile_all_single o f w : reconcile_all o {[f]} w = reconcile f w.
Proof.
  unfold reconcile_all. rewrite elements_singleton.
  by rewrite (proj1 (Permutation_singleton_r _ _) (range_perm o [f])).
Qed.

Lemma withdraw_refines o u w rib r :
  u_Rule u = Some r -> represents (w_mgr w) rib ->
  exists m', step_shape o w (withdraw match_GoString u w) m' /\
    represents m' (delete (u_Session u, identity r) rib).
Proof.
  intros Hr Hrep. unfold withdraw. rewrite Hr.
  destruct (removeRoute_spec (w_mgr w) (identity r) (u_Session u) (rep_inv _ _ Hrep))
    as (m' & fam & d & E & HI' & Hup & Hv & _).
  rewrite E. exists m'. split; [|by eapply represents_delete].
  exists (dirty_set (fam, d)), (set_mgr m' w). split; [done|]. split; [done|]. split.
  - unfold dirty_set. destruct d; simpl; [by rewrite reconcile_all_single|by rewrite reconcile_all_empty].
  - split; [|done]. intros f Hf. apply Hv. by apply dirty_set_spec.
Qed.

Lemma sessionDown_refines o u w rib :
  represents (w_mgr w) rib ->
  exists m', step_shape o w (sessionDown o u w) m' /\ represents m' (rib_drop (u_Session u) rib).
Proof.
  intros Hrep. pose proof (rep_inv _ _ Hrep) as HI. unfold sessionDown. fold (rules_of (w_mgr w) (u_Session u)).
  case_bool_decide as Hk.
  - destruct (no_rules_no_routes _ _ HI Hk) as [Er Et]. rewrite delete_id by done.
    exists (w_mgr w). split.
    + exists ∅, (set_mgr (w_mgr w) w). split; [done|]. split; [done|]. rewrite reconcile_all_empty.
      split; [|split; done]. by destruct w as [[]].
    + eapply represents_drop; [done|done|]. intros id s'. case_decide; subst; [|done].
      unfold routeKey. by rewrite Et.
  - destruct (sessionDown_spec (u_Session u) (w_mgr w) o HI) as (m1 & dirty & E & Esr & Ert & HI' & Hrt & Hv).
    rewrite E, Esr, Ert. eexists. split; [|by eapply represents_drop].
    eexists dirty, _. split; [|split; [|split; [reflexivity|split]]]; done.
Qed.

Lemma Apply_step o u w rib :
  Update_wf u -> represents (w_mgr w) rib -> u_Op u <> OpResync ->
  exists m', step_shape o w (Apply match_GoString o u w) m' /\ represents m' (rib_apply u rib).
Proof.
  intros Hu Hrep Hop.
  assert (step_shape o w w (w_mgr w)) as Hid.
  { exists ∅, w. rewrite reconcile_all_empty. by repeat split. }
  unfold Apply, rib_apply. destruct (u_Op u) eqn:Eop; [| | |done].
  - destruct (u_Rule u) as [r|] eqn:Hr; [by apply announce_refines|].
    unfold announce. rewrite Hr. eauto.
  - destruct (u_Rule u) as [r|] eqn:Hr; [by apply withdraw_refines|].
    unfold withdraw. rewrite Hr. eauto.
  - by apply sessionDown_refines.
Qed.

Lemma Apply_represents o u w rib :
  Update_wf u -> represents (w_mgr w) rib ->
  represents (w_mgr (Apply match_GoString o u w)) (rib_apply u rib).
Proof.
  intros Hu Hrep. destruct (decide (u_Op u = OpResync)) as [Eop|Hop].
  - unfold Apply, rib_apply. rewrite Eop. unfold resync. by rewrite !reconcile_mgr.
  - destruct (Apply_step o u w rib Hu Hrep Hop) as (m' & (d & wm & _ & Hm & -> & _) & Hr).
    by rewrite reconcile_all_mgr, Hm.
Qed.

Lemma Run_represents us w rib :
  Forall (fun ou => Update_wf ou.2) us -> represents (w_mgr w) rib ->
  represents (w_mgr (Run match_GoString us w)) (foldl (fun rib ou => rib_apply ou.2 rib) rib us).
Proof.
  revert w rib. induction us as [|[o u] us IH]; intros w rib Hus Hrep; [done|].
  apply Forall_cons in Hus as [Hu Hus]. simpl. apply IH; [done|]. by apply Apply_represents.
Qed.

(** *** The backend follows *)
Definition synced w : Prop := backend_inv (w_backend w) /\ forall f, managed (w_backend w) f (desired f (w_mgr w)).

Lemma reconcile_inv f w : backend_inv (w_backend w) -> backend_inv (w_backend (reconcile f w)).
Proof.
  intros Hi. unfold reconcile. pose proof (ReplaceACL_inv (w_backend w) f (desired f (w_mgr w)) Hi) as Hi'.
  by destruct (ReplaceACL _ _ _).
Qed.

Lemma reconcile_ok f w :
  backend_inv (w_backend w) ->
  (ReplaceACL (w_backend w) f (desired f (w_mgr w))).2 = true ->
  managed (w_backend (reconcile f w)) f (desired f (w_mgr w)) /\
  forall g rs, g <> f -> managed (w_backend w) g rs -> managed (w_backend (reconcile f w)) g rs.
Proof.
  intros Hi. unfold reconcile. destruct (ReplaceACL _ _ _) as [b ok] eqn:E. simpl. intros ->.
  split; [by eapply ReplaceACL_ok|]. intros g rs Hg. by eapply ReplaceACL_other.
Qed.

(** A resync whose replacements succeed synchronises whatever was there. *)
Lemma resync_synced w :
  backend_inv (w_backend w) ->
  (ReplaceACL (w_backend w) IPv4 (desired IPv4 (w_mgr w))).2 = true ->
  (ReplaceACL (w_backend (reconcile IPv4 w)) IPv6 (desired IPv6 (w_mgr w))).2 = true ->
  synced (resync w).
Proof.
  intros Hi H4 H6. unfold resync. split; [by apply reconcile_inv, reconcile_inv|].
  destruct (reconcile_ok IPv4 w Hi H4) as [E4 _].
  destruct (reconcile_ok IPv6 (reconcile IPv4 w)) as [E6 Eo]; [by apply reconcile_inv|by rewrite reconcile_mgr|].
  rewrite !reconcile_mgr in E6. intros f. rewrite !reconcile_mgr. destruct f; [|done]. apply Eo; [discriminate|exact E4].
Qed.

Context (reliable : forall b f rs, (ReplaceACL b f rs).2 = true).

Lemma reconcile_all_ok o d w f rs :
  backend_inv (w_backend w) ->
  backend_inv (w_backend (reconcile_all o d w)) /\
  (f ∈ d -> managed (w_backend (reconcile_all o d w)) f (desired f (w_mgr w))) /\
  (f ∉ d -> managed (w_backend w) f rs -> managed (w_backend (reconcile_all o d w)) f rs).
Proof using All.
  assert (forall fs w, backend_inv (w_backend w) ->
    let w' := foldl (fun w f => reconcile f w) w fs in
    backend_inv (w_backend w') /\
    (f ∈ fs \/ managed (w_backend w) f (desired f (w_mgr w)) -> managed (w_backend w') f (desired f (w_mgr w))) /\
    (f ∉ fs -> managed (w_backend w) f rs -> managed (w_backend w') f rs)) as Hl.
  { cbn zeta. induction fs as [|g fs IH]; intros w0 Hi.
    - simpl. split; [done|]. split; [intros [Hf|Hf]; [by apply elem_of_nil in Hf|done]|done].
    - destruct (reconcile_ok g w0 Hi (reliable _ _ _)) as [H1 H2]. simpl.
      destruct (IH (reconcile g w0) (reconcile_inv g w0 Hi)) as (IHi & IH1 & IH2). rewrite reconcile_mgr in IH1.
      split; [done|]. split.
      + intros Hf. apply IH1. destruct (decide (f = g)) as [->|]; [by right|].
        destruct Hf as [[?|?]%elem_of_cons|Hf]; [done|by left|right; by apply H2].
      + intros [? ?]%not_elem_of_cons Hm. apply IH2; [done|]. by apply H2. }
  intros Hi. unfold reconcile_all. destruct (Hl (range_list o (elements d)) w Hi) as (? & H1 & H2).
  split; [done|]. rewrite range_elem, elem_of_elements in H1, H2. auto.
Qed.

Lemma Apply_synced o u w rib :
  Update_wf u -> represents (w_mgr w) rib -> synced w -> synced (Apply match_GoString o u w).
Proof using All.
  intros Hu Hrep [Hi Hs]. destruct (decide (u_Op u = OpResync)) as [Eop|Hop].
  - unfold Apply. rewrite Eop. apply resync_synced; [done|apply reliable..].
  - destruct (Apply_step o u w rib Hu Hrep Hop) as (m' & (d & wm & Hb & Hm & -> & Hv) & Hr).
    assert (backend_inv (w_backend wm)) as Hi' by by rewrite Hb.
    split; [by apply (reconcile_all_ok o d wm IPv4 [])|]. intros f.
    destruct (reconcile_all_ok o d wm f (desired f m') Hi') as (_ & H1 & H2). rewrite reconcile_all_mgr, Hm in *.
    destruct (decide (f ∈ d)) as [Hd|Hd]; [by apply H1|]. apply H2; [done|]. rewrite Hb.
    rewrite <-(desired_view f (w_mgr w) m'); [apply Hs|apply Hrep|apply Hr|by apply Hv].
Qed.

Lemma Run_synced us w rib :
  Forall (fun ou => Update_wf ou.2) us -> represents (w_mgr w) rib -> synced w ->
  synced (Run match_GoString us w).
Proof using All.
  revert w rib. induction us as [|[o u] us IH]; intros w rib Hus Hrep Hs; [done|].
  apply Forall_cons in Hus as [Hu Hus]. simpl. eapply IH; [done| |by eapply Apply_synced].
  by apply (Apply_represents o u w rib).
Qed.
End Refinement.

(** ** Properties *)
Definition rib_run (match_GoString : Match -> string) (us : list (RangeOrder * Update)) : RIB :=
  foldl (fun rib ou => rib_apply match_GoString ou.2 rib) ∅ us.

(** The tables are a function of the routing table, as far as the backend sees. *)
Lemma desired_rib_unique f m m' rib : represents m rib -> represents m' rib -> desired f m = desired f m'.
Proof.
  intros H1 H2. apply desired_view; [apply H1|apply H2|].
  intros k a _. by rewrite (live_rib _ _ _ _ H1), (live_rib _ _ _ _ H2).
Qed.

Lemma existsb_True {A} (f : A -> bool) l : existsb f l = true <-> exists x, x ∈ l /\ f x = true.
Proof. rewrite existsb_exists. by setoid_rewrite list_elem_of_In. Qed.

(** What holds of every announced rule holds of every rule of the table. *)
Lemma rib_run_Forall match_GoString us (P : Rule -> Prop) :
  Forall (fun ou => forall r, u_Rule ou.2 = Some r -> P r) us ->
  map_Forall (fun _ r => P r) (rib_run match_GoString us).
Proof.
  unfold rib_run. assert (map_Forall (fun _ r => P r) (∅ : RIB)) as He by apply map_Forall_empty. revert He.
  generalize (∅ : RIB). induction us as [|[o u] us IH]; intros rib Hrib Hus; [done|].
  apply Forall_cons in Hus as [Hu Hus]. simpl. apply IH; [|done].
  unfold rib_apply. simpl in Hu.
  destruct (u_Op u), (u_Rule u) as [r|]; try done; try by apply map_Forall_delete.
  - destruct (is_ok _); [apply map_Forall_insert_2; auto|by apply map_Forall_delete].
  - intros k x [Hx _]%map_lookup_filter_Some. by eapply Hrib.
  - intros k x [Hx _]%map_lookup_filter_Some. by eapply Hrib.
Qed.

Lemma desired_deny f m : Inv m -> Forall (fun a => Permit a = false) (desired f m).
Proof.
  intros HI. apply Forall_forall. intros a [Ha _]%(proj2 (desired_spec f m HI)).
  by apply (live_key _ _ _ HI) in Ha as (_ & _ & ?).
Qed.

(** A rule that matches a packet maps into the packet's family. *)
Lemma matched_family r a p : Translate r = Ok a -> rule_matches r p = true -> familyOf a = packet_family p.
Proof.
  intros T Hm. unfold familyOf, packet_family. rewrite (proj2 (Translate_deny _ _ T)).
  unfold rule_matches in Hm. cbn zeta in Hm. bool_hyps.
  match goal with E : pk_family p = _ |- _ => rewrite E end. by destruct (r_Family r).
Qed.

(** The table depends on the updates only. *)
Lemma rib_run_orders g (us us' : list (RangeOrder * Update)) : us.*2 = us'.*2 -> rib_run g us = rib_run g us'.
Proof.
  unfold rib_run. generalize (∅ : RIB). revert us'.
  induction us as [|[o u] us IH]; intros [|[o' u'] us'] rib E; try done.
  injection E as -> E. simpl. by apply IH.
Qed.

(** Reconciliations only move the entry gauges. *)
Lemma reconcile_all_metrics `{Backend B} o d (w : world B) :
  exists g, w_metrics (reconcile_all o d w) = w_metrics w ++ g /\ Forall (fun x => exists f n, x = SetACLEntries f n) g.
Proof.
  unfold reconcile_all. generalize (range_list o (elements d)). intros fs. revert w.
  induction fs as [|f fs IH]; intros w; simpl; [exists []; by rewrite app_nil_r|].
  destruct (IH (reconcile f w)) as (g & -> & Hg). unfold reconcile. destruct (ReplaceACL _ _ _) as [b []]; simpl.
  - eexists (_ :: g). rewrite <-app_assoc. split; [done|]. constructor; eauto.
  - by exists g.
Qed.

Section Claims.
Context {B : Type} `{Backend B} (match_GoString : Match -> string).

(** C4: The manager refines the abstract routing table.  After any sequence of
    well-formed updates, whatever the map-iteration orders and whatever the
    backend answers, the tables represent the table that the updates build by
    insertion, deletion and dropping of sessions; in particular the reference
    count of every (entry, session) is the number of that session's routes
    mapped to the entry, and no entry is kept without an owner. *)
Theorem manager_refines_rib (us : list (RangeOrder * Update)) (w : world B) :
  w_mgr w = newManager -> Forall (fun ou => Update_wf ou.2) us ->
  represents (w_mgr (Run match_GoString us w)) (rib_run match_GoString us).
Proof. intros Hw Hus. apply Run_represents; [done|]. rewrite Hw. apply newManager_represents. Qed.

(** C5: Declarative desired state.  With a backend whose replacements succeed,
    after any sequence of updates the Managed ACL of each family holds, sorted
    by key and without duplicates, exactly the entries of the rules currently
    announced by some session. *)
Theorem backend_holds_desired (us : list (RangeOrder * Update)) (w : world B) :
  (forall b f rs, (ReplaceACL b f rs).2 = true) ->
  w_mgr w = newManager -> backend_inv (w_backend w) -> (forall f, managed (w_backend w) f []) ->
  Forall (fun ou => Update_wf ou.2) us ->
  forall f, exists rules, managed (w_backend (Run match_GoString us w)) f rules /\
    StronglySorted String.le (Key <$> rules) /\ NoDup (Key <$> rules) /\
    forall a, a ∈ rules <-> familyOf a = f /\
      exists s id r, rib_run match_GoString us !! (s, id) = Some r /\ Translate r = Ok a.
Proof.
  intros Hrel Hw Hbi Hb Hus f.
  assert (represents (w_mgr w) ∅) as Hrep by (rewrite Hw; apply newManager_represents).
  assert (represents (w_mgr (Run match_GoString us w)) (rib_run match_GoString us)) as Hrun
    by by apply Run_represents.
  exists (desired f (w_mgr (Run match_GoString us w))). split; [|split; [|split]].
  - eapply Run_synced; [done|done|exact Hrep|]. split; [done|]. intros g. rewrite Hw. apply Hb.
  - rewrite (proj1 (desired_spec f _ (rep_inv _ _ Hrun))). apply desired_keys_sorted.
  - rewrite (proj1 (desired_spec f _ (rep_inv _ _ Hrun))). apply desired_keys_NoDup.
  - intros a. by apply desired_rib.
Qed.

(** The packets that the desired list of a table drops. *)
Lemma desired_drops (m : Manager) (rib : RIB) (p : packet) :
  represents m rib -> map_Forall (fun _ r => no_proto0 r) rib -> packet_wf p ->
  (acl_permits (desired (packet_family p) m ++ [permitAny (packet_family p)]) p = false <->
   exists s id r, rib !! (s, id) = Some r /\ rule_matches r p = true).
Proof.
  intros Hrun Hz' Hp. rewrite blocklist; [|by apply desired_deny, Hrun|done].
  rewrite negb_false_iff, existsb_True. split.
  - intros (a & (Hf & s & id & r & Hrib & T)%(desired_rib _ _ _ _ Hrun) & Ha).
    exists s, id, r. split; [done|]. destruct (rep_rules _ _ Hrun _ _ Hrib) as [[Wm _] _].
    rewrite <-(Translate_matches r a p); [done|done|by eapply (Hz' (s, id))|done|done].
  - intros (s & id & r & Hrib & Hm). destruct (rep_rules _ _ Hrun _ _ Hrib) as [[Wm _] Hok].
    destruct (Translate r) as [a|] eqn:T; [|done]. exists a. rewrite (desired_rib _ _ _ _ Hrun).
    split; [|rewrite (Translate_matches r a p); [done|done|by eapply (Hz' (s, id))|done|done]].
    split; [|eauto]. by apply (matched_family r).
Qed.

(** The packets the Managed ACLs drop, from a fresh manager and a reliable
    backend. *)
Lemma live_rules_dropped (us : list (RangeOrder * Update)) (w : world B) (p : packet) :
  (forall b f rs, (ReplaceACL b f rs).2 = true) ->
  w_mgr w = newManager -> backend_inv (w_backend w) -> (forall f, managed (w_backend w) f []) ->
  Forall (fun ou => Update_wf ou.2) us ->
  Forall (fun ou => forall r, u_Rule ou.2 = Some r -> no_proto0 r) us -> packet_wf p ->
  exists rules, managed (w_backend (Run match_GoString us w)) (packet_family p) rules /\
    (acl_permits (rules ++ [permitAny (packet_family p)]) p = false <->
     exists s id r, rib_run match_GoString us !! (s, id) = Some r /\ rule_matches r p = true).
Proof.
  intros Hrel Hw Hbi Hb Hus Hz Hp.
  assert (represents (w_mgr w) ∅) as Hrep by (rewrite Hw; apply newManager_represents).
  exists (desired (packet_family p) (w_mgr (Run match_GoString us w))). split.
  - eapply Run_synced; [done|done|exact Hrep|]. split; [done|]. intros g. rewrite Hw. apply Hb.
  - apply desired_drops; [by apply Run_represents| |done].
    apply rib_run_Forall. eapply Forall_impl; [exact Hz|]. naive_solver.
Qed.

(** C2: End to end, with a backend whose replacements always succeed and updates
    none of whose rules names protocol 0: a packet is dropped by the Managed ACL of
    its family if and only if some session currently announces a rule that can be
    mapped and that matches the packet. *)
Theorem agent_drops_exactly_live_rules (us : list (RangeOrder * Update)) (w : world B) (p : packet) :
  (forall b f rs, (ReplaceACL b f rs).2 = true) ->
  w_mgr w = newManager -> backend_inv (w_backend w) -> (forall f, managed (w_backend w) f []) ->
  Forall (fun ou => Update_wf ou.2) us ->
  Forall (fun ou => forall r, u_Rule ou.2 = Some r -> no_proto0 r) us -> packet_wf p ->
  exists rules, managed (w_backend (Run match_GoString us w)) (packet_family p) rules /\
    (acl_permits (rules ++ [permitAny (packet_family p)]) p = false <->
     exists s id r, rib_run match_GoString us !! (s, id) = Some r /\ rule_matches r p = true).
Proof. apply live_rules_dropped. Qed.

(** C6: Recovery.  After any sequence of updates during which replacements may
    have failed or the ACLs were re-created empty, one resync whose two
    replacements succeed leaves both Managed ACLs with exactly the desired
    state, whatever they held before. *)
Theorem resync_recovers (us : list (RangeOrder * Update)) (w w1 : world B) (b : B) :
  w_mgr w = newManager -> Forall (fun ou => Update_wf ou.2) us -> backend_inv b ->
  w1 = {| w_mgr := w_mgr (Run match_GoString us w); w_backend := b; w_metrics := w_metrics w |} ->
  (ReplaceACL b IPv4 (desired IPv4 (w_mgr w1))).2 = true ->
  (ReplaceACL (w_backend (reconcile IPv4 w1)) IPv6 (desired IPv6 (w_mgr w1))).2 = true ->
  forall f, exists rules, managed (w_backend (resync w1)) f rules /\
    forall a, a ∈ rules <-> familyOf a = f /\
      exists s id r, rib_run match_GoString us !! (s, id) = Some r /\ Translate r = Ok a.
Proof.
  intros Hw Hus Hb -> H4 H6 f. set (w1 := Build_world _ _ _) in *.
  assert (represents (w_mgr w1) (rib_run match_GoString us)) as Hrun.
  { apply Run_represents; [done|]. rewrite Hw. apply newManager_represents. }
  destruct (resync_synced w1 Hb H4 H6) as [_ Hs]. exists (desired f (w_mgr w1)).
  split; [|intros a; by apply desired_rib]. specialize (Hs f). unfold resync in Hs. by rewrite !reconcile_mgr in Hs.
Qed.

(** The orders in which Go ranges over its maps do not show: two runs over
    the same updates, with any iteration orders and any two backends, want the
    same rule list for every family. *)
Theorem range_order_irrelevant (us us' : list (RangeOrder * Update)) (w w' : world B) (f : VFamily) :
  w_mgr w = newManager -> w_mgr w' = newManager -> us.*2 = us'.*2 -> Forall Update_wf us.*2 ->
  desired f (w_mgr (Run match_GoString us w)) = desired f (w_mgr (Run match_GoString us' w')).
Proof.
  intros Hw Hw' E Hwf. apply desired_rib_unique with (rib := rib_run match_GoString us).
  - apply Run_represents; [by rewrite Forall_fmap in Hwf|]. rewrite Hw. apply newManager_represents.
  - rewrite (rib_run_orders match_GoString us us' E). apply Run_represents.
    + by rewrite E, Forall_fmap in Hwf.
    + rewrite Hw'. apply newManager_represents.
Qed.

(** C13: A rejected announcement is reported once, with the reason of the first
    failing stage, before anything else happens, and no rule is installed for
    it: only routes of that session and identity disappear. *)
Theorem rejected_announce_reported (o : RangeOrder) (u : Update) (w : world B) (r : Rule) (e : terror) (rib : RIB) :
  u_Op u = OpAnnounce -> u_Rule u = Some r -> Translate r = Err e -> Update_wf u -> represents (w_mgr w) rib ->
  (exists gauges, w_metrics (Apply match_GoString o u w) =
     w_metrics w ++ RuleIgnored (Reason_string (expected_reason r)) (Family_String (r_Family r)) (u_Peer u) :: gauges /\
     Forall (fun x => exists f n, x = SetACLEntries f n) gauges) /\
  represents (w_mgr (Apply match_GoString o u w)) (delete (u_Session u, routeIdentity match_GoString r) rib).
Proof.
  intros Hop Hr T Hwf Hrep. split.
  - unfold Apply. rewrite Hop. unfold announce. rewrite Hr, T.
    destruct (removeRoute _ _ _) as [m fd].
    pose proof (Translate_reason r) as He. rewrite T in He. destruct He as (d & He).
    unfold reportIgnored. rewrite He. simpl.
    match goal with |- context [reconcile_all o ?d ?w1] =>
      destruct (reconcile_all_metrics o d w1) as (g & -> & Hg) end.
    exists g. simpl. by rewrite <-app_assoc.
  - pose proof (Apply_represents match_GoString o u w rib Hwf Hrep) as Hap.
    unfold rib_apply in Hap. by rewrite Hop, Hr, T in Hap.
Qed.
End Claims.

(** ** Witnesses: one rule announced by two sessions, over a backend of plain
    rule lists *)
#[global] Instance list_backend : Backend (VFamily -> list ACLRule).
Proof.
  refine {| ReplaceACL := fun b f rs => ((fun g => if decide (g = f) then rs else b g), true);
            backend_inv := fun _ => True;
            managed := fun b f rs => b f = rs |}.
  - done.
  - intros b f rs b' _ [= <-]. by rewrite decide_True.
  - intros b f rs b' g rs' _ [= <-] Hg. by rewrite decide_False.
Defined.

Definition ex_go (m : Match) : string := "match".
Definition ex_update (s : string) (op : Op) : Update :=
  {| u_Session := s; u_Op := op; u_Rule := Some ex_rule; u_Peer := s |}.
Definition ex_us : list (RangeOrder * Update) :=
  [(range_id, ex_update "a" OpAnnounce); (range_rev, ex_update "b" OpAnnounce); (range_id, ex_update "a" OpWithdraw)].
Definition ex_world : world (VFamily -> list ACLRule) :=
  {| w_mgr := newManager; w_backend := fun _ => []; w_metrics := [] |}.

Lemma ex_rule_wf : Rule_wf ex_rule.
Proof. split; [apply ex_match_wf|by split]. Qed.

Lemma ex_us_wf : Forall (fun ou => Update_wf ou.2) ex_us.
Proof. repeat apply Forall_cons_2; [..|apply Forall_nil_2]; intros r [= <-]; apply ex_rule_wf. Qed.

Lemma manager_refines_rib_witness :
  represents (w_mgr (Run ex_go ex_us ex_world)) (rib_run ex_go ex_us) /\
  desired IPv4 (w_mgr (Run ex_go ex_us ex_world)) = [ex_acl].
Proof.
  split; [|by vm_compute]. apply (manager_refines_rib ex_go ex_us ex_world eq_refl ex_us_wf).
Defined.

Lemma backend_holds_desired_witness :
  exists rules, managed (w_backend (Run ex_go ex_us ex_world)) IPv4 rules /\
    StronglySorted String.le (Key <$> rules) /\ NoDup (Key <$> rules) /\
    forall a, a ∈ rules <-> familyOf a = IPv4 /\
      exists s id r, rib_run ex_go ex_us !! (s, id) = Some r /\ Translate r = Ok a.
Proof.
  apply (@backend_holds_desired _ list_backend ex_go ex_us ex_world (fun _ _ _ => eq_refl) eq_refl I (fun _ => eq_refl) ex_us_wf IPv4).
Defined.

Lemma agent_drops_exactly_live_rules_witness :
  exists rules, managed (w_backend (Run ex_go ex_us ex_world)) (packet_family ex_packet) rules /\
    (acl_permits (rules ++ [permitAny (packet_family ex_packet)]) ex_packet = false <->
     exists s id r, rib_run ex_go ex_us !! (s, id) = Some r /\ rule_matches r ex_packet = true).
Proof.
  apply (@agent_drops_exactly_live_rules _ list_backend ex_go ex_us ex_world ex_packet (fun _ _ _ => eq_refl) eq_refl I
           (fun _ => eq_refl) ex_us_wf); [|apply ex_packet_wf].
  repeat apply Forall_cons_2; [..|apply Forall_nil_2]; intros r [= <-]; by repeat constructor.
Defined.

Lemma resync_recovers_witness :
  exists rules, managed (w_backend (resync {| w_mgr := w_mgr (Run ex_go ex_us ex_world);
      w_backend := fun _ => [ex_acl; ex_acl]; w_metrics := [] |})) IPv4 rules /\
    forall a, a ∈ rules <-> familyOf a = IPv4 /\
      exists s id r, rib_run ex_go ex_us !! (s, id) = Some r /\ Translate r = Ok a.
Proof.
  apply (@resync_recovers _ list_backend ex_go ex_us ex_world _ (fun _ => [ex_acl; ex_acl]) eq_refl ex_us_wf I eq_refl
           eq_refl eq_refl IPv4).
Defined.

Lemma range_order_irrelevant_witness :
  desired IPv4 (w_mgr (Run ex_go ex_us ex_world)) =
  desired IPv4 (w_mgr (Run ex_go ((fun ou => (range_rev, ou.2)) <$> ex_us) ex_world)).
Proof.
  apply (range_order_irrelevant ex_go ex_us ((fun ou => (range_rev, ou.2)) <$> ex_us) ex_world ex_world IPv4);
    [reflexivity..|].
  repeat apply Forall_cons_2; [..|apply Forall_nil_2]; intros r [= <-]; apply ex_rule_wf.
Defined.

Definition ex_rejected : Rule :=
  {| r_Family := FamilyIPv4; r_Match := r_Match ex_rule;
     r_Action := {| Kind := ActionUnsupported; Desc := "redirect" |}; r_Raw := r_Raw ex_rule |}.
Definition ex_reject : Update :=
  {| u_Session := "b"; u_Op := OpAnnounce; u_Rule := Some ex_rejected; u_Peer := "b" |}.

Lemma rejected_announce_reported_witness :
  represents (w_mgr (Apply ex_go range_id ex_reject ex_world)) (delete ("b", routeIdentity ex_go ex_rejected) ∅).
Proof.
  destruct (Translate ex_rejected) as [|e] eqn:T; [by vm_compute in T|].
  apply (rejected_announce_reported ex_go range_id ex_reject ex_world ex_rejected e ∅ eq_refl eq_refl T).
  - intros r [= <-]. apply ex_rule_wf.
  - apply newManager_represents.
Defined.
