(* ===== verification/Metrics.v ===== *)
(** * The metrics (internal/metrics/metrics.go)

    The three collectors by label values.  Prometheus keeps a child per tuple of
    label values; counters and gauges are exact integers here (they are [float64]
    in the library, exact up to 2^53). *)
From S2P Require Import Prelude Flowspec Manager.
#[local] Open Scope Z_scope.

Record Metrics := {
  mx_ignored : gmap (string * string * string) Z;   (** reason, family, peer *)
  mx_applied : gmap (string * string) Z;            (** family, peer *)
  mx_entries : gmap string Z                        (** family *)
}.

Definition new_Metrics : Metrics := {| mx_ignored := ∅; mx_applied := ∅; mx_entries := ∅ |}.

(** [WithLabelValues(...).Inc()] *)
Definition inc `{Countable K} (k : K) (c : gmap K Z) : gmap K Z := <[k := default 0 (c !! k) + 1]> c.

Definition metrics_RuleApplied (family peer : string) (m : Metrics) : Metrics :=
  {| mx_ignored := mx_ignored m; mx_applied := inc (family, peer) (mx_applied m); mx_entries := mx_entries m |}.

Definition metrics_RuleIgnored (reason family peer : string) (m : Metrics) : Metrics :=
  {| mx_ignored := inc (reason, family, peer) (mx_ignored m); mx_applied := mx_applied m; mx_entries := mx_entries m |}.

Definition metrics_SetACLEntries (family : string) (n : nat) (m : Metrics) : Metrics :=
  {| mx_ignored := mx_ignored m; mx_applied := mx_applied m; mx_entries := <[family := Z.of_nat n]> (mx_entries m) |}.

(** The calls of the manager, in order. *)
Definition metrics_call (m : Metrics) (x : metric) : Metrics :=
  match x with
  | RuleApplied family peer => metrics_RuleApplied family peer m
  | RuleIgnored reason family peer => metrics_RuleIgnored reason family peer m
  | SetACLEntries family n => metrics_SetACLEntries family n m
  end.

Definition metrics_of (calls : list metric) : Metrics := foldl metrics_call new_Metrics calls.
