(* ===== verification/MetricsFacts.v ===== *)
(** * What the metrics say

    The gauge of a family is the number of rules in force, and the counter of
    ignored rules is the number of rejected announcements, by reason and peer. *)
From S2P Require Import Prelude GoText Netip Flowspec VppTypes Translate TranslateFacts VppFacts Manager ManagerFacts Metrics.
#[local] Open Scope Z_scope.

(** ** Counters *)
Definition count `{EqDecision K} (k : K) (l : list K) : Z := Z.of_nat (length (filter (fun x => x = k) l)).

Lemma count_app `{EqDecision K} (k : K) l1 l2 : count k (l1 ++ l2) = count k l1 + count k l2.
Proof. unfold count. rewrite filter_app, length_app. lia. Qed.

Lemma inc_lookup `{Countable K} (k k' : K) c : default 0 (inc k c !! k') = default 0 (c !! k') + count k' [k].
Proof.
  unfold inc, count. rewrite filter_cons, filter_nil. destruct (decide (k = k')) as [->|Hne].
  - rewrite lookup_insert_eq. cbn. lia.
  - rewrite lookup_insert_ne by done. cbn. lia.
Qed.

Definition ignored_of (x : metric) : option (string * string * string) :=
  match x with RuleIgnored reason family peer => Some (reason, family, peer) | _ => None end.

Lemma metrics_of_snoc calls x : metrics_of (calls ++ [x]) = metrics_call (metrics_of calls) x.
Proof. unfold metrics_of. by rewrite foldl_app. Qed.

Lemma ignored_count calls k : default 0 (mx_ignored (metrics_of calls) !! k) = count k (omap ignored_of calls).
Proof.
  induction calls as [|x calls IH] using rev_ind; [done|]. rewrite metrics_of_snoc, omap_app, count_app, <-IH.
  destruct x as [fam peer|reason fam peer|fam n]; cbn -[inc count]; [unfold count; cbn; lia| |unfold count; cbn; lia].
  apply inc_lookup.
Qed.

(** ** The gauge *)
Definition entries_gauge (calls : list metric) (f : VFamily) : Z := default 0 (mx_entries (metrics_of calls) !! VFamily_String f).

Lemma gauge_snoc calls x f :
  entries_gauge (calls ++ [x]) f =
  match gauge_of x with Some (g, n) => if decide (g = VFamily_String f) then Z.of_nat n else entries_gauge calls f | None => entries_gauge calls f end.
Proof.
  unfold entries_gauge. rewrite metrics_of_snoc. destruct x as [fam peer|reason fam peer|fam n]; cbn; try done.
  destruct (decide (fam = VFamily_String f)) as [->|Hne]; [by rewrite lookup_insert_eq|by rewrite lookup_insert_ne].
Qed.

(** Only the gauge calls matter to it. *)
Lemma gauge_calls calls f : entries_gauge calls f =
  foldl (fun v gn => if decide (gn.1 = VFamily_String f) then Z.of_nat gn.2 else v) 0 (omap gauge_of calls).
Proof.
  induction calls as [|x calls IH] using rev_ind; [done|]. rewrite gauge_snoc, omap_app, foldl_app, <-IH. by destruct x.
Qed.

Lemma VFamily_String_inj f g : VFamily_String f = VFamily_String g -> f = g.
Proof. by destruct f, g. Qed.

Section Manager.
Context {B : Type} `{Backend B} (match_GoString : Match -> string).
Context (reliable : forall b f rs, (ReplaceACL b f rs).2 = true).

Definition gauge_exact (w : world B) : Prop :=
  forall f, entries_gauge (w_metrics w) f = Z.of_nat (length (desired f (w_mgr w))).

Lemma reconcile_gauge f w g :
  entries_gauge (w_metrics (reconcile f w)) g =
  if decide (f = g) then Z.of_nat (length (desired f (w_mgr w))) else entries_gauge (w_metrics w) g.
Proof using reliable.
  unfold reconcile. pose proof (reliable (w_backend w) f (desired f (w_mgr w))) as Hok.
  destruct (ReplaceACL _ _ _) as [b ok]. cbn in Hok. subst ok. cbn [w_metrics]. rewrite gauge_snoc. cbn [gauge_of].
  destruct (decide (f = g)) as [->|Hne]; [by rewrite decide_True|].
  rewrite decide_False; [done|]. intros E. by apply Hne, VFamily_String_inj.
Qed.

Lemma reconcile_all_gauge o d w g :
  entries_gauge (w_metrics (reconcile_all o d w)) g =
  if decide (g ∈ d) then Z.of_nat (length (desired g (w_mgr w))) else entries_gauge (w_metrics w) g.
Proof using reliable.
  assert (forall fs w, entries_gauge (w_metrics (foldl (fun w f => reconcile f w) w fs)) g =
    if decide (g ∈ fs) then Z.of_nat (length (desired g (w_mgr w))) else entries_gauge (w_metrics w) g) as Hl.
  { induction fs as [|f fs IH]; intros w0; cbn [foldl]; [by rewrite decide_False by apply not_elem_of_nil|].
    rewrite IH, reconcile_mgr, reconcile_gauge. destruct (decide (g ∈ fs)) as [Hg|Hg], (decide (f = g)) as [->|Hne].
    - by rewrite decide_True by (by left).
    - by rewrite decide_True by (by right).
    - by rewrite decide_True by (by left).
    - rewrite decide_False; [done|]. intros [->|?]%elem_of_cons; done. }
  unfold reconcile_all. rewrite Hl. apply decide_ext. by rewrite range_elem, elem_of_elements.
Qed.

Lemma Apply_gauge o u w rib :
  Update_wf u -> represents (w_mgr w) rib -> gauge_exact w -> gauge_exact (Apply match_GoString o u w).
Proof using reliable.
  intros Hu Hrep Hg. destruct (decide (u_Op u = OpResync)) as [Eop|Hop].
  - unfold Apply. rewrite Eop. unfold resync. intros f. rewrite reconcile_gauge, reconcile_gauge, !reconcile_mgr.
    destruct f; cbn; [by rewrite decide_False, decide_True|by rewrite decide_True].
  - destruct (Apply_step match_GoString o u w rib Hu Hrep Hop) as (m' & (d & wm & Hb & Hm & -> & Hv & Hga) & Hr).
    intros f. rewrite reconcile_all_gauge, reconcile_all_mgr, Hm. destruct (decide (f ∈ d)) as [Hd|Hd]; [done|].
    rewrite gauge_calls, Hga, <-gauge_calls, Hg. f_equal. f_equal.
    apply desired_view; [apply Hrep|apply Hr|by apply Hv].
Qed.

Lemma Run_gauge us w rib :
  Forall (fun ou => Update_wf ou.2) us -> represents (w_mgr w) rib -> gauge_exact w -> gauge_exact (Run match_GoString us w).
Proof using reliable.
  intros Hus. revert w rib. induction Hus as [|[o u] us Hu _ IH]; intros w rib Hrep Hg; [done|]. unfold Run. cbn [foldl].
  eapply IH; [by eapply Apply_represents|by eapply Apply_gauge].
Qed.
End Manager.

(** ** Rejections *)
Definition rejected (u : Update) : option (string * string * string) :=
  match u_Op u, u_Rule u with
  | OpAnnounce, Some r =>
      if is_ok (Translate r) then None else Some (Reason_string (expected_reason r), Family_String (r_Family r), u_Peer u)
  | _, _ => None
  end.

Section Rejections.
Context {B : Type} `{Backend B} (match_GoString : Match -> string).

Lemma reconcile_ignored f (w : world B) : omap ignored_of (w_metrics (reconcile f w)) = omap ignored_of (w_metrics w).
Proof. unfold reconcile. destruct (ReplaceACL _ _ _) as [b []]; cbn; [by rewrite omap_app, app_nil_r|done]. Qed.

Lemma reconcile_all_ignored o d (w : world B) : omap ignored_of (w_metrics (reconcile_all o d w)) = omap ignored_of (w_metrics w).
Proof.
  unfold reconcile_all. generalize (range_list o (elements d)). intros fs. revert w.
  induction fs as [|f fs IH]; intros w; [done|]. cbn [foldl]. by rewrite IH, reconcile_ignored.
Qed.

Lemma Apply_ignored o u (w : world B) :
  omap ignored_of (w_metrics (Apply match_GoString o u w)) = omap ignored_of (w_metrics w) ++ option_list (rejected u).
Proof.
  unfold Apply, rejected. destruct (u_Op u).
  - unfold announce. destruct (u_Rule u) as [r|]; [|by rewrite app_nil_r]. destruct (Translate r) as [acl|err] eqn:T; cbn [is_ok].
    + case_bool_decide; [by rewrite app_nil_r|]. destruct (replaceRoute _ _ _ _) as [m1 fd]. destruct (addOwner _ _ _ _ _) as [m2 d].
      rewrite reconcile_all_ignored, app_nil_r. destruct d; [|done]. cbn. by rewrite omap_app, app_nil_r.
    + destruct (removeRoute _ _ _) as [m fd]. rewrite reconcile_all_ignored.
      pose proof (Translate_reason r) as He. rewrite T in He. destruct He as (d & He). unfold reportIgnored. rewrite He. cbn.
      by rewrite omap_app.
  - unfold withdraw. rewrite app_nil_r. destruct (u_Rule u) as [r|]; [|done]. destruct (removeRoute _ _ _) as [m [fam d]].
    destruct d; [by rewrite reconcile_ignored|done].
  - unfold sessionDown. rewrite app_nil_r. case_bool_decide; [done|]. destruct (drop_keys _ _ _ _) as [m1 d]. by rewrite reconcile_all_ignored.
  - unfold resync. by rewrite !reconcile_ignored, app_nil_r.
Qed.

Lemma Run_ignored us (w : world B) :
  omap ignored_of (w_metrics (Run match_GoString us w)) = omap ignored_of (w_metrics w) ++ omap (fun ou => rejected ou.2) us.
Proof.
  revert w. induction us as [|[o u] us IH]; intros w; [by rewrite app_nil_r|]. unfold Run in *. cbn [foldl fst snd].
  rewrite IH, Apply_ignored, <-app_assoc. cbn. by destruct (rejected u).
Qed.
End Rejections.

(** ** Properties *)

(** C15: The metrics tell the truth.  After any updates, whatever the backend
    answered, the counter of ignored rules for a reason, family and peer is exactly
    the number of announcements of that peer rejected for that reason; and when the
    backend's replacements succeed, the entry gauge of each family is the number of
    distinct ACL entries of the rules currently announced. *)
Theorem metrics_exact {B : Type} {HB : Backend B} (g : Match -> string) (us : list (RangeOrder * Update)) (w : world B) :
  w_mgr w = newManager -> w_metrics w = [] -> Forall (fun ou => Update_wf ou.2) us ->
  (forall k, default 0 (mx_ignored (metrics_of (w_metrics (Run g us w))) !! k) = count k (omap (fun ou => rejected ou.2) us)) /\
  ((forall b f rs, (ReplaceACL b f rs).2 = true) -> forall f, exists rules,
     default 0 (mx_entries (metrics_of (w_metrics (Run g us w))) !! VFamily_String f) = Z.of_nat (length rules) /\ NoDup rules /\
     forall a, a ∈ rules <-> familyOf a = f /\ exists s id r, rib_run g us !! (s, id) = Some r /\ Translate r = Ok a).
Proof.
  intros Hw Hm Hus. split; [intros k; by rewrite ignored_count, Run_ignored, Hm|]. intros Hrel f.
  assert (represents (w_mgr w) ∅) as Hrep by (rewrite Hw; apply newManager_represents).
  assert (represents (w_mgr (Run g us w)) (rib_run g us)) as Hrun by (by apply Run_represents).
  exists (desired f (w_mgr (Run g us w))). split; [|split].
  - apply (Run_gauge g Hrel us w ∅); [done|done|]. intros f'. rewrite Hm, Hw. by destruct f'.
  - apply (NoDup_fmap_1 Key). rewrite (proj1 (desired_spec f _ (rep_inv _ _ Hrun))). apply desired_keys_NoDup.
  - intros a. by apply desired_rib.
Qed.

(** Two announcements that are accepted, one that is rejected. *)
Definition ex_metric_us : list (RangeOrder * Update) :=
  ex_us ++ [(range_id, {| u_Session := "a"; u_Op := OpAnnounce; u_Rule := Some ex_rejected; u_Peer := "a" |})].

Lemma metrics_exact_witness :
  default 0 (mx_ignored (metrics_of (w_metrics (Run ex_go ex_metric_us ex_world))) !! ("unsupported_action", "ipv4", "a")) = 1 /\
  exists rules, default 0 (mx_entries (metrics_of (w_metrics (Run ex_go ex_metric_us ex_world))) !! "ipv4") = Z.of_nat (length rules) /\
    NoDup rules /\ forall a, a ∈ rules <-> familyOf a = IPv4 /\ exists s id r, rib_run ex_go ex_metric_us !! (s, id) = Some r /\ Translate r = Ok a.
Proof.
  destruct (@metrics_exact _ list_backend ex_go ex_metric_us ex_world eq_refl eq_refl) as [H1 H2].
  - repeat apply Forall_cons_2; [..|apply Forall_nil_2]; intros r [= <-]; exact ex_rule_wf.
  - split; [rewrite H1; by vm_compute|]. exact (H2 (fun _ _ _ => eq_refl) IPv4).
Defined.
