(* ===== verification/VppClient.v ===== *)
(** * The GoVPP client (internal/vpp: client.go, attach.go, cleanup.go, acl.go)

    The client owns the indices of the two Managed ACLs and talks to VPP through
    the binary API.  VPP is a parameter: [VppApi] lists the messages the client
    sends, [VppLaws] what the API documents about them.  Operations hold [opMu],
    so each is one atomic transition; log lines are left out. *)
From S2P Require Import Prelude Netip Flowspec VppTypes Manager.
From Stdlib Require Import Ascii.
#[local] Open Scope Z_scope.

Definition aclIndexUnset : Z := 2 ^ 32 - 1.

(** ** strings.TrimRight(s, NUL) and strings.HasPrefix *)
Fixpoint trimNul (s : string) : string :=
  match s with
  | EmptyString => EmptyString
  | String c s' =>
      let t := trimNul s' in
      if bool_decide (t = "") && Ascii.eqb c "000"%char then EmptyString else String c t
  end.

Definition HasPrefix (s p : string) : bool := String.prefix p s.

(** ** State *)
Record ClientConfig := {
  InterfaceMode : string;
  InterfaceList : list string;
  cfg_Direction : Direction;
  ACLTagV4 : string;
  ACLTagV6 : string
}.

Record Client := {
  cfg : ClientConfig;
  idx : gmap VFamily Z
}.

(** [c.idx[f]]; the map always has both families. *)
Definition idx_of (c : Client) (f : VFamily) : Z := default 0 (idx c !! f).

Definition set_idx (f : VFamily) (i : Z) (c : Client) : Client :=
  {| cfg := cfg c; idx := <[f := i]> (idx c) |}.

(** The tag defaults of [Connect], and the client it builds. *)
Definition newClient (k : ClientConfig) : Client :=
  {| cfg := {| InterfaceMode := InterfaceMode k; InterfaceList := InterfaceList k;
               cfg_Direction := cfg_Direction k;
               ACLTagV4 := if bool_decide (ACLTagV4 k = "") then "flowspec-managed-ip4" else ACLTagV4 k;
               ACLTagV6 := if bool_decide (ACLTagV6 k = "") then "flowspec-managed-ip6" else ACLTagV6 k |};
     idx := <[IPv4 := aclIndexUnset]> {[IPv6 := aclIndexUnset]} |}.

Record aclList := { al_acls : list Z; al_nInput : Z }.
Definition emptyList : aclList := {| al_acls := []; al_nInput := 0 |}.

Record ifaceInfo := { if_index : Z; if_name : string }.

(** ** The binary API *)
Class VppApi (BP V : Type) := {
  ACLAddReplace : Z -> string -> Z -> list (BinRule BP) -> V -> V * result gotext Z;
  ACLDel : Z -> V -> V * result gotext unit;
  ACLInterfaceSetACLList : Z -> Z -> Z -> list Z -> V -> V * result gotext unit;
  ACLDump : V -> V * result gotext (list (Z * string));
  ACLInterfaceListDump : V -> V * result gotext (list (Z * aclList));
  SwInterfaceDump : V -> V * result gotext (list (Z * string))
}.

(** ** attach.go: list surgery *)
Fixpoint splitNonManaged_loop (i : Z) (cur : list Z) (nInput : Z) (managed : gset Z) : list Z * list Z :=
  match cur with
  | [] => ([], [])
  | a :: cur' =>
      let '(ins, outs) := splitNonManaged_loop (i + 1) cur' nInput managed in
      if bool_decide (a ∈ managed) then (ins, outs)
      else if u8 i <? nInput then (a :: ins, outs) else (ins, a :: outs)
  end.

Definition splitNonManaged (cur : list Z) (nInput : Z) (managed : gset Z) : list Z * list Z :=
  splitNonManaged_loop 0 cur nInput managed.

Definition mergeManagedLast (cur : list Z) (nInput : Z) (managed : gset Z) (ours : list Z) (dir : Direction)
  : list Z * Z :=
  let '(ins, outs) := splitNonManaged cur nInput managed in
  let '(ins, outs) := match dir with
                      | Ingress => (ins ++ ours, outs)
                      | Egress => (ins, outs ++ ours)
                      end in
  (ins ++ outs, u8 (Z.of_nat (length ins))).

Definition directionString (d : Direction) : string :=
  match d with Egress => "egress" | Ingress => "ingress" end.

(** The interfaces of a dump that the configuration selects. *)
Definition select_ifaces (k : ClientConfig) (dump : list (Z * string)) : list ifaceInfo :=
  omap (fun d : Z * string =>
    let name := trimNul d.2 in
    if (d.1 =? 0) || HasPrefix name "local" then None
    else if bool_decide (InterfaceMode k = "list") && negb (bool_decide (name ∈ InterfaceList k)) then None
    else Some {| if_index := d.1; if_name := name |}) dump.

(** [out[d.SwIfIndex] = ...] over a dump: a later entry wins. *)
Definition lists_of_dump (dump : list (Z * aclList)) : gmap Z aclList :=
  foldl (fun m d => <[d.1 := d.2]> m) ∅ dump.

(** ** cleanup.go: tags *)
Definition managedTag (k : ClientConfig) (tag : string) : bool :=
  let tag := trimNul tag in
  bool_decide (tag <> "") && (bool_decide (tag = ACLTagV4 k) || bool_decide (tag = ACLTagV6 k)).

Definition tag_of (k : ClientConfig) (f : VFamily) : string :=
  match f with IPv6 => ACLTagV6 k | IPv4 => ACLTagV4 k end.

(** [aclIndices]: the known indices in v4, v6 order. *)
Definition aclIndices (c : Client) : list Z :=
  (if bool_decide (idx_of c IPv4 = aclIndexUnset) then [] else [idx_of c IPv4]) ++
  (if bool_decide (idx_of c IPv6 = aclIndexUnset) then [] else [idx_of c IPv6]).

Section Ops.
Context {BP V : Type} `{VppApi BP V} (ip_types_ParsePrefix : string -> result gotext BP).

(** Client operations pass the VPP state along and return a value or an error. *)
Definition replaceACLLocked (family : VFamily) (rules : list ACLRule) (c : Client) (v : V)
  : Client * V * result gotext unit :=
  match buildACLRules ip_types_ParsePrefix family rules with
  | Err e => (c, v, Err e)
  | Ok binRules =>
      let '(v, reply) := ACLAddReplace (idx_of c family) (tag_of (cfg c) family)
                           (u32 (Z.of_nat (length binRules))) binRules v in
      match reply with
      | Err e => (c, v, Err (Text "acl_add_replace (%s): %w" [AStr (VFamily_String family); AStr (text_format e)]))
      | Ok i => (set_idx family i c, v, Ok tt)
      end
  end.

Definition taggedACLs (k : ClientConfig) (v : V) : V * result gotext (list Z) :=
  let '(v, r) := ACLDump v in
  (v, match r with
      | Err e => Err (Text "acl_dump: %w" [AStr (text_format e)])
      | Ok l => Ok (omap (fun d : Z * string => if managedTag k d.2 then Some d.1 else None) l)
      end).

Definition interfaceACLLists (v : V) : V * result gotext (gmap Z aclList) :=
  let '(v, r) := ACLInterfaceListDump v in
  (v, match r with
      | Err e => Err (Text "acl_interface_list_dump: %w" [AStr (text_format e)])
      | Ok l => Ok (lists_of_dump l)
      end).

Definition dataPlaneInterfaces (k : ClientConfig) (v : V) : V * result gotext (list ifaceInfo) :=
  let '(v, r) := SwInterfaceDump v in
  (v, match r with
      | Err e => Err (Text "sw_interface_dump: %w" [AStr (text_format e)])
      | Ok l => Ok (select_ifaces k l)
      end).

(** The loop of [attachLocked] over the interfaces. *)
Fixpoint attach_loop (k : ClientConfig) (acls : list Z) (managed : gset Z) (lists : gmap Z aclList)
    (ifs : list ifaceInfo) (v : V) : V * result gotext unit :=
  match ifs with
  | [] => (v, Ok tt)
  | i :: ifs' =>
      let cur := default emptyList (lists !! if_index i) in
      let '(newAcls, nInput) := mergeManagedLast (al_acls cur) (al_nInput cur) managed acls (cfg_Direction k) in
      let '(v, r) := ACLInterfaceSetACLList (if_index i) (u8 (Z.of_nat (length newAcls))) nInput newAcls v in
      match r with
      | Err e => (v, Err (Text "acl_interface_set_acl_list on %s: %w" [AStr (if_name i); AStr (text_format e)]))
      | Ok _ => attach_loop k acls managed lists ifs' v
      end
  end.

Definition attachLocked (c : Client) (v : V) : V * result gotext unit :=
  let acls := aclIndices c in
  if bool_decide (acls = []) then (v, Err (plain "no managed ACLs to attach"))
  else
    let '(v, r) := dataPlaneInterfaces (cfg c) v in
    match r with
    | Err e => (v, Err e)
    | Ok [] => (v, Ok tt)
    | Ok ifs =>
        let '(v, tagged) := taggedACLs (cfg c) v in
        let managed : gset Z := list_to_set (match tagged with Ok l => l | Err _ => [] end ++ acls) in
        let '(v, rl) := interfaceACLLists v in
        match rl with
        | Err e => (v, Err e)
        | Ok lists => attach_loop (cfg c) acls managed lists ifs v
        end
    end.

Definition Attach := attachLocked.

(** Deletions are best effort: a failure is logged and skipped. *)
Fixpoint del_loop (kept : gset Z) (indices : list Z) (v : V) : V :=
  match indices with
  | [] => v
  | i :: indices' =>
      if bool_decide (i ∈ kept) then del_loop kept indices' v
      else del_loop kept indices' (ACLDel i v).1
  end.

Definition cleanupTaggedExcept (k : ClientConfig) (keep : list Z) (v : V) : V :=
  let '(v, r) := taggedACLs k v in
  match r with
  | Err _ => v
  | Ok indices => del_loop (list_to_set keep) indices v
  end.

(** The loop of [detachManagedLocked] over the dumped lists. *)
Fixpoint detach_loop (ours : gset Z) (lists : list (Z * aclList)) (v : V) : V * result gotext unit :=
  match lists with
  | [] => (v, Ok tt)
  | (i, cur) :: lists' =>
      if existsb (fun a => bool_decide (a ∈ ours)) (al_acls cur) then
        let '(ins, outs) := splitNonManaged (al_acls cur) (al_nInput cur) ours in
        let kept := ins ++ outs in
        let '(v, r) := ACLInterfaceSetACLList i (u8 (Z.of_nat (length kept))) (u8 (Z.of_nat (length ins))) kept v in
        match r with
        | Err e => (v, Err (Text "rewrite acl list on sw_if_index %d: %w" [AInt i; AStr (text_format e)]))
        | Ok _ => detach_loop ours lists' v
        end
      else detach_loop ours lists' v
  end.

Definition detachManagedLocked (o : RangeOrder) (ours : gset Z) (v : V) : V * result gotext unit :=
  let '(v, r) := interfaceACLLists v in
  match r with
  | Err e => (v, Err e)
  | Ok lists => detach_loop ours (range_list o (map_to_list lists)) v
  end.

Definition cleanupOnClose (o : RangeOrder) (c : Client) (v : V) : V :=
  let indices := aclIndices c in
  if bool_decide (indices = []) then v
  else
    let '(v, _) := detachManagedLocked o (list_to_set indices) v in
    del_loop ∅ indices v.

(** ** client.go: life cycle *)
Definition bootstrapLocked (c : Client) (v : V) : Client * V * result gotext unit :=
  let '(c, v, r) := replaceACLLocked IPv4 [] c v in
  match r with
  | Err e => (c, v, Err (Text "create ipv4 managed acl: %w" [AStr (text_format e)]))
  | Ok _ =>
      let '(c, v, r) := replaceACLLocked IPv6 [] c v in
      match r with
      | Err e => (c, v, Err (Text "create ipv6 managed acl: %w" [AStr (text_format e)]))
      | Ok _ =>
          let '(v, r) := attachLocked c v in
          match r with
          | Err e => (c, v, Err (Text "attach managed acls: %w" [AStr (text_format e)]))
          | Ok _ => (c, cleanupTaggedExcept (cfg c) [idx_of c IPv4; idx_of c IPv6] v, Ok tt)
          end
      end
  end.

Inductive ConnState := Connected | Disconnected | Failed | OtherState.

(** [waitConnected] over the events that arrive before the channel closes (the
    end of the list) : the events left for [handleEvents]. *)
Fixpoint waitConnected (evs : list ConnState) : result gotext (list ConnState) :=
  match evs with
  | [] => Err (plain "vpp connection closed before ready")
  | Connected :: evs' => Ok evs'
  | _ :: evs' => waitConnected evs'
  end.

Definition Connect (k : ClientConfig) (evs : list ConnState) (v : V) : V * result gotext (Client * list ConnState) :=
  let c := newClient k in
  match waitConnected evs with
  | Err e => (v, Err e)
  | Ok evs' =>
      let '(c, v, r) := bootstrapLocked c v in
      (v, match r with Err e => Err e | Ok _ => Ok (c, evs') end)
  end.

(** One event of [handleEvents]; the flag says whether [OnReconnect] is called. *)
Definition handleEvent (e : ConnState) (c : Client) (v : V) : Client * V * bool :=
  match e with
  | Connected =>
      let c := set_idx IPv6 aclIndexUnset (set_idx IPv4 aclIndexUnset c) in
      let '(c, v, r) := bootstrapLocked c v in
      (c, v, is_ok r)
  | _ => (c, v, false)
  end.

(** [Close]; [conn] and [aclc] say whether the connection and its ACL client are
    set ([Connect] sets both before it returns a client), the flag of the result
    whether the connection was released.  A call that the five-second timeout
    cuts off is a call that fails. *)
Definition Close (conn aclc : bool) (o : RangeOrder) (c : Client) (v : V) : V * bool :=
  if negb conn then (v, false)
  else ((if aclc then cleanupOnClose o c v else v), true).
End Ops.

(** ** What the API documents

    [acls] and [lists] are the ACLs (tag and rules, by index) and the ACL lists of
    the interfaces; [ports] the interfaces.  A request that fails changes nothing
    the client looks at; dumps only read; an ACL in use is not deleted. *)
Class VppLaws {BP V : Type} (api : VppApi BP V) := {
  acls : V -> gmap Z (string * list (BinRule BP));
  lists : V -> gmap Z aclList;
  ports : V -> list (Z * string);

  add_ok : forall i tag rs v v' j, ACLAddReplace i tag (u32 (Z.of_nat (length rs))) rs v = (v', Ok j) ->
    (i = aclIndexUnset /\ acls v !! j = None \/ i = j /\ is_Some (acls v !! j)) /\ j <> aclIndexUnset /\
    acls v' = <[j := (tag, rs)]> (acls v) /\ lists v' = lists v /\ ports v' = ports v;
  add_err : forall i tag n rs v v' e, ACLAddReplace i tag n rs v = (v', Err e) ->
    acls v' = acls v /\ lists v' = lists v /\ ports v' = ports v;

  del_ok : forall i v v', ACLDel i v = (v', Ok tt) ->
    acls v' = delete i (acls v) /\ lists v' = lists v /\ ports v' = ports v;
  del_unused : forall i v v' x l, ACLDel i v = (v', Ok tt) -> lists v !! x = Some l -> i ∉ al_acls l;
  del_err : forall i v v' e, ACLDel i v = (v', Err e) ->
    acls v' = acls v /\ lists v' = lists v /\ ports v' = ports v;

  set_ok : forall i n l v v', ACLInterfaceSetACLList i (Z.of_nat (length l)) n l v = (v', Ok tt) ->
    lists v' = <[i := {| al_acls := l; al_nInput := n |}]> (lists v) /\ acls v' = acls v /\ ports v' = ports v;

  dump_ok : forall v v' r, ACLDump v = (v', r) ->
    (forall l, r = Ok l -> forall i tag, (i, tag) ∈ l <-> exists rs, acls v !! i = Some (tag, rs)) /\
    acls v' = acls v /\ lists v' = lists v /\ ports v' = ports v;
  list_dump_ok : forall v v' r, ACLInterfaceListDump v = (v', r) ->
    (forall l, r = Ok l -> lists_of_dump l = lists v) /\
    acls v' = acls v /\ lists v' = lists v /\ ports v' = ports v;
  port_dump_ok : forall v v' r, SwInterfaceDump v = (v', r) ->
    (forall l, r = Ok l -> l = ports v) /\
    acls v' = acls v /\ lists v' = lists v /\ ports v' = ports v
}.
