(* ===== verification/VppClientFacts.v ===== *)
(** * Correctness of the GoVPP client

    The client implements the manager's [Backend] interface over any VPP that
    obeys [VppLaws]; attaching keeps foreign ACLs, their order and their
    input/output split, and puts the managed pair last in its direction. *)
From S2P Require Import Prelude Netip Flowspec VppTypes Translate TranslateFacts VppFacts Manager ManagerFacts VppClient.
#[local] Open Scope Z_scope.

(** ** Interface lists *)
Definition foreign (managed : gset Z) (l : list Z) : list Z := filter (fun a => a ∉ managed) l.

Lemma splitNonManaged_loop_spec i cur n managed :
  0 <= i -> i + Z.of_nat (length cur) <= 256 ->
  splitNonManaged_loop i cur n managed =
  (foreign managed (take (Z.to_nat (n - i)) cur), foreign managed (drop (Z.to_nat (n - i)) cur)).
Proof.
  unfold foreign. revert i. induction cur as [|a cur IH]; intros i Hi Hlen; simpl.
  { by rewrite take_nil, drop_nil. }
  simpl in Hlen. rewrite IH by lia. unfold u8. rewrite Z.mod_small by lia.
  destruct (Z.ltb_spec i n) as [Hlt|Hge].
  - replace (Z.to_nat (n - i)) with (S (Z.to_nat (n - (i + 1)))) by lia. simpl.
    rewrite filter_cons. case_bool_decide; [by rewrite decide_False by (intros ?; done)|by rewrite decide_True].
  - replace (Z.to_nat (n - i)) with 0%nat by lia. replace (Z.to_nat (n - (i + 1))) with 0%nat by lia.
    rewrite !take_0, !drop_0. rewrite filter_cons.
    case_bool_decide; [by rewrite decide_False by (intros ?; done)|by rewrite decide_True].
Qed.

(** Up to 256 entries (VPP's count is one byte), [splitNonManaged] is the split at
    [nInput] with the managed entries filtered out. *)
Lemma splitNonManaged_spec cur n managed :
  (length cur <= 256)%nat ->
  splitNonManaged cur n managed = (foreign managed (take (Z.to_nat n) cur), foreign managed (drop (Z.to_nat n) cur)).
Proof.
  intros Hlen. unfold splitNonManaged. rewrite splitNonManaged_loop_spec by lia. by rewrite Z.sub_0_r.
Qed.

Lemma foreign_app managed l l' : foreign managed (l ++ l') = foreign managed l ++ foreign managed l'.
Proof. apply filter_app. Qed.

Lemma foreign_ours managed ours : Forall (fun a => a ∈ managed) ours -> foreign managed ours = [].
Proof.
  unfold foreign. induction 1 as [|a l Ha Hl IH]; [done|]. rewrite filter_cons, decide_False by (intros ?; done). done.
Qed.

Lemma foreign_idemp managed l : foreign managed (foreign managed l) = foreign managed l.
Proof.
  unfold foreign. induction l as [|a l IH]; [done|]. rewrite filter_cons. case_decide; [|done].
  by rewrite filter_cons, decide_True, IH.
Qed.

Lemma foreign_length managed l : (length (foreign managed l) <= length l)%nat.
Proof. apply length_filter. Qed.

(** The input and output parts after merging. *)
Definition merged_in (cur : list Z) (n : Z) (managed : gset Z) (ours : list Z) (dir : Direction) : list Z :=
  foreign managed (take (Z.to_nat n) cur) ++ match dir with Ingress => ours | Egress => [] end.
Definition merged_out (cur : list Z) (n : Z) (managed : gset Z) (ours : list Z) (dir : Direction) : list Z :=
  foreign managed (drop (Z.to_nat n) cur) ++ match dir with Ingress => [] | Egress => ours end.

Lemma merged_length cur n managed ours dir :
  (length (merged_in cur n managed ours dir ++ merged_out cur n managed ours dir) <= length cur + length ours)%nat.
Proof.
  unfold merged_in, merged_out.
  pose proof (foreign_length managed (take (Z.to_nat n) cur)) as H1.
  pose proof (foreign_length managed (drop (Z.to_nat n) cur)) as H2.
  rewrite <-(take_drop (Z.to_nat n) cur) at 3. rewrite !length_app in *. destruct dir; simpl; lia.
Qed.

Lemma mergeManagedLast_spec cur n managed ours dir :
  (length cur + length ours <= 255)%nat ->
  mergeManagedLast cur n managed ours dir =
  (merged_in cur n managed ours dir ++ merged_out cur n managed ours dir,
   Z.of_nat (length (merged_in cur n managed ours dir))).
Proof.
  intros Hlen. pose proof (merged_length cur n managed ours dir) as Hm. rewrite length_app in Hm.
  unfold mergeManagedLast. rewrite splitNonManaged_spec by lia. unfold merged_in, merged_out in *.
  destruct dir; rewrite ?app_nil_r in *; f_equal; apply u8_small; unfold in_width; lia.
Qed.

(** ** The client as a backend *)
Section Client.
Context {BP V : Type} {api : VppApi BP V} {laws : VppLaws api} (ip_types_ParsePrefix : string -> result gotext BP).

#[local] Abbreviation build := (buildACLRules ip_types_ParsePrefix).
#[local] Abbreviation replace := (replaceACLLocked ip_types_ParsePrefix).

(** Known indices exist in VPP and are distinct. *)
Definition client_inv (cv : Client * V) : Prop :=
  (forall f, idx_of cv.1 f <> aclIndexUnset -> is_Some (acls cv.2 !! idx_of cv.1 f)) /\
  (idx_of cv.1 IPv4 = idx_of cv.1 IPv6 -> idx_of cv.1 IPv4 = aclIndexUnset).

Lemma idx_distinct f g cv : client_inv cv -> f <> g -> idx_of cv.1 f = idx_of cv.1 g -> idx_of cv.1 f = aclIndexUnset.
Proof. intros [_ Hne] Hfg E. destruct f, g; try done; [by apply Hne|]. rewrite E. by apply Hne. Qed.

Definition client_managed (cv : Client * V) (f : VFamily) (rs : list ACLRule) : Prop :=
  exists bin, build f rs = Ok bin /\ idx_of cv.1 f <> aclIndexUnset /\
    acls cv.2 !! idx_of cv.1 f = Some (tag_of (cfg cv.1) f, bin).

Definition client_replace (cv : Client * V) (f : VFamily) (rs : list ACLRule) : (Client * V) * bool :=
  let '(c, v, r) := replace f rs cv.1 cv.2 in ((c, v), is_ok r).

Lemma idx_of_set f i c g : idx_of (set_idx f i c) g = if decide (g = f) then i else idx_of c g.
Proof. unfold idx_of, set_idx. simpl. case_decide; subst; [by rewrite lookup_insert_eq|by rewrite lookup_insert_ne]. Qed.

(** A replacement fails without effect, or installs the rules under an index that
    is the known one or a fresh one. *)
Lemma replaceACLLocked_spec f rs c v c' v' r :
  replace f rs c v = (c', v', r) ->
  lists v' = lists v /\ ports v' = ports v /\ cfg c' = cfg c /\
  match r with
  | Err _ => c' = c /\ acls v' = acls v
  | Ok _ => exists bin j, build f rs = Ok bin /\ c' = set_idx f j c /\ j <> aclIndexUnset /\
      acls v' = <[j := (tag_of (cfg c) f, bin)]> (acls v) /\
      (idx_of c f = aclIndexUnset /\ acls v !! j = None \/ idx_of c f = j)
  end.
Proof.
  unfold replaceACLLocked. destruct (build f rs) as [bin|e]; [|by intros [= <- <- <-]].
  destruct (ACLAddReplace _ _ _ _ _) as [v1 [j|e]] eqn:E; intros [= <- <- <-].
  - destruct (add_ok _ _ _ _ _ _ E) as (Hi & Hj & Ha & Hl & Hp). repeat (split; [done|]).
    exists bin, j. repeat (split; [done|]). destruct Hi as [?|[? _]]; auto.
  - destruct (add_err _ _ _ _ _ _ _ E) as (? & ? & ?). done.
Qed.

Lemma replace_inv f rs c v c' v' r :
  client_inv (c, v) -> replace f rs c v = (c', v', r) -> client_inv (c', v').
Proof.
  intros Hinv E%replaceACLLocked_spec. destruct (Hinv) as [Hex Hne]. destruct E as (_ & _ & _ & E).
  destruct r as [[]|e]; [|by destruct E as [-> Ea]; split; simpl in *; rewrite ?Ea].
  destruct E as (bin & j & _ & -> & Hj & Ha & Hold). unfold client_inv. simpl in *.
  assert (forall g, g <> f -> idx_of c g <> aclIndexUnset -> idx_of c g <> j) as Hother.
  { intros g Hg Hset E. destruct Hold as [[_ Hn]|Hold].
    - destruct (Hex g Hset) as [x Hx]. congruence.
    - apply Hset. apply (idx_distinct g f (c, v)); [done|done|simpl; congruence]. }
  split.
  - intros g. rewrite idx_of_set, Ha. case_decide as Hg; [rewrite lookup_insert_eq; eauto|]. intros Hset.
    rewrite lookup_insert_ne by (apply not_eq_sym; by apply Hother). by apply Hex.
  - rewrite !idx_of_set. destruct f; simpl; intros E.
    + destruct (decide (idx_of c IPv6 = aclIndexUnset)) as [|Hs]; [congruence|]. by destruct (Hother IPv6).
    + destruct (decide (idx_of c IPv4 = aclIndexUnset)) as [|Hs]; [done|]. by destruct (Hother IPv4).
Qed.

Lemma replace_managed f rs c v c' v' :
  client_inv (c, v) -> replace f rs c v = (c', v', Ok tt) ->
  client_managed (c', v') f rs /\ forall g rs', g <> f -> client_managed (c, v) g rs' -> client_managed (c', v') g rs'.
Proof.
  intros Hinv E%replaceACLLocked_spec. destruct E as (_ & _ & Ec & bin & j & Hb & -> & Hj & Ha & Hold).
  unfold client_managed. simpl. split.
  - exists bin. rewrite idx_of_set, decide_True by done. split; [done|]. split; [done|]. by rewrite Ha, lookup_insert_eq.
  - intros g rs' Hg (bin' & Hb' & Hset & Hin). exists bin'. rewrite idx_of_set, decide_False by done.
    split; [done|]. split; [done|]. rewrite Ha, lookup_insert_ne; [done|]. intros E.
    destruct Hold as [[_ Hn]|Hold]; [congruence|]. apply Hset.
    apply (idx_distinct g f (c, v)); [done|done|simpl; congruence].
Qed.

#[export] Instance client_backend : Backend (Client * V).
Proof using laws ip_types_ParsePrefix.
  refine {| ReplaceACL := client_replace; backend_inv := client_inv; managed := client_managed |}.
  - intros [c v] f rs Hinv. unfold client_replace. simpl. destruct (replace f rs c v) as [[c' v'] r] eqn:E. simpl.
    by eapply replace_inv.
  - intros [c v] f rs b' Hinv. unfold client_replace. simpl. destruct (replace f rs c v) as [[c' v'] [[]|]] eqn:E;
      intros [= <-]. by eapply replace_managed in E as [? _].
  - intros [c v] f rs b' g rs' Hinv. unfold client_replace. simpl.
    destruct (replace f rs c v) as [[c' v'] [[]|]] eqn:E; intros [= <-] Hg.
    by eapply replace_managed in E as [_ Ho]; [apply Ho|].
Defined.

(** ** Attaching *)
Definition cur_list (ls : gmap Z aclList) (x : Z) : aclList := default emptyList (ls !! x).

(** The list an interface gets. *)
Definition attached (ls : gmap Z aclList) (managed : gset Z) (ours : list Z) (dir : Direction) (x : Z) : aclList :=
  let cur := cur_list ls x in
  {| al_acls := merged_in (al_acls cur) (al_nInput cur) managed ours dir ++
                merged_out (al_acls cur) (al_nInput cur) managed ours dir;
     al_nInput := Z.of_nat (length (merged_in (al_acls cur) (al_nInput cur) managed ours dir)) |}.

(** VPP counts ACLs of an interface in one byte: room for ours. *)
Definition room (ls : gmap Z aclList) (ours : list Z) : Prop :=
  forall x, (length (al_acls (cur_list ls x)) + length ours <= 255)%nat.

Lemma attach_loop_spec k ours managed ls ifs v v' :
  room ls ours -> attach_loop k ours managed ls ifs v = (v', Ok tt) ->
  acls v' = acls v /\ ports v' = ports v /\
  forall x, lists v' !! x = if decide (x ∈ if_index <$> ifs) then Some (attached ls managed ours (cfg_Direction k) x)
                            else lists v !! x.
Proof.
  intros Hroom. revert v. induction ifs as [|i ifs IH]; intros v.
  { intros [= <-]. split; [done|]. split; [done|]. intros x. by rewrite decide_False by apply not_elem_of_nil. }
  cbn [attach_loop]. fold (cur_list ls (if_index i)).
  pose proof (Hroom (if_index i)) as Hr.
  pose proof (merged_length (al_acls (cur_list ls (if_index i))) (al_nInput (cur_list ls (if_index i))) managed ours (cfg_Direction k)) as Hm.
  rewrite mergeManagedLast_spec by done. cbn zeta. rewrite u8_small by (unfold in_width; lia).
  destruct (ACLInterfaceSetACLList _ _ _ _ _) as [v1 [[]|e]] eqn:E; [|done].
  apply set_ok in E as (El & Ea & Ep). intros Hrest. destruct (IH v1 Hrest) as (IHa & IHp & IHl).
  split; [congruence|]. split; [congruence|]. intros x. rewrite IHl, El, fmap_cons.
  destruct (decide (x = if_index i)) as [->|Hx].
  - rewrite (decide_True (P := if_index i ∈ if_index i :: _)) by left. rewrite lookup_insert_eq. by case_decide.
  - rewrite lookup_insert_ne by done. apply decide_ext. rewrite elem_of_cons. tauto.
Qed.

Lemma taggedACLs_spec k v v' r :
  taggedACLs k v = (v', r) ->
  acls v' = acls v /\ lists v' = lists v /\ ports v' = ports v /\
  forall l, r = Ok l -> forall i, i ∈ l <-> exists tag rs, acls v !! i = Some (tag, rs) /\ managedTag k tag = true.
Proof.
  unfold taggedACLs. destruct (ACLDump v) as [v1 r1] eqn:E. intros [= <- <-].
  apply dump_ok in E as (Hl & Ha & Hls & Hp). do 3 (split; [done|]). destruct r1 as [l1|]; [|done].
  intros l [= <-] i. rewrite list_elem_of_omap. split.
  - intros ([j tag] & Hin & Hj). simpl in Hj. destruct (managedTag k tag) eqn:Ht; [|done]. injection Hj as <-.
    apply (Hl l1 eq_refl) in Hin as (rs & Hrs). eauto.
  - intros (tag & rs & Hrs & Ht). exists (i, tag). simpl. rewrite Ht. split; [|done].
    apply (Hl l1 eq_refl). eauto.
Qed.

(** What stays attached as foreign: everything but ours and, when the tags could
    be dumped, the orphans that carry one of our tags. *)
Definition managed_set_ok (c : Client) (v : V) (managed : gset Z) : Prop :=
  (forall i, i ∈ aclIndices c -> i ∈ managed) /\
  (forall i, i ∈ managed -> i ∈ aclIndices c \/
     exists tag rs, acls v !! i = Some (tag, rs) /\ managedTag (cfg c) tag = true).

Lemma attachLocked_spec c v v' :
  room (lists v) (aclIndices c) -> attachLocked c v = (v', Ok tt) ->
  acls v' = acls v /\ ports v' = ports v /\
  exists managed, managed_set_ok c v managed /\
    forall x, lists v' !! x = if decide (x ∈ if_index <$> select_ifaces (cfg c) (ports v))
                              then Some (attached (lists v) managed (aclIndices c) (cfg_Direction (cfg c)) x)
                              else lists v !! x.
Proof.
  intros Hroom. unfold attachLocked. case_bool_decide as Hne; [done|].
  unfold dataPlaneInterfaces. destruct (SwInterfaceDump v) as [v1 rp] eqn:E1.
  apply port_dump_ok in E1 as (Hp & Ea1 & El1 & Ep1). destruct rp as [l|]; [|done].
  specialize (Hp l eq_refl) as ->. destruct (select_ifaces (cfg c) (ports v)) as [|i0 ifs0] eqn:Hsel.
  { intros [= <-]. split; [done|]. split; [done|]. exists (list_to_set (aclIndices c)). split.
    - split; intros i; rewrite elem_of_list_to_set; auto.
    - intros x. rewrite decide_False by (intros ?%elem_of_nil; done); congruence. }
  destruct (taggedACLs (cfg c) v1) as [v2 tagged] eqn:E2. apply taggedACLs_spec in E2 as (Ea2 & El2 & Ep2 & Ht).
  unfold interfaceACLLists. destruct (ACLInterfaceListDump v2) as [v3 rl] eqn:E3.
  apply list_dump_ok in E3 as (Hls & Ea3 & El3 & Ep3). destruct rl as [dump|]; [|done].
  rewrite (Hls dump eq_refl). intros E4. apply attach_loop_spec in E4 as (Ea4 & Ep4 & Hfin).
  2:{ by rewrite El2, El1. }
  split; [congruence|]. split; [congruence|]. eexists. split.
  2:{ intros x. rewrite Hfin. rewrite El3, El2, El1. done. }
  split; intros i; rewrite elem_of_list_to_set, elem_of_app; [auto|].
  intros [Hi|]; [right|by left]. destruct tagged as [tl|]; [|by apply elem_of_nil in Hi].
  apply (Ht tl eq_refl) in Hi. by rewrite Ea1 in Hi.
Qed.

(** ** Deleting orphans *)
Lemma ACLDel_spec i v v' r :
  ACLDel i v = (v', r) ->
  lists v' = lists v /\ ports v' = ports v /\ forall j, j <> i -> acls v' !! j = acls v !! j.
Proof.
  destruct r as [[]|e]; intros E; [apply del_ok in E as (Ha & ? & ?)|apply del_err in E as (Ha & ? & ?)];
    (split; [done|]; split; [done|]; intros j Hj; rewrite Ha); [by rewrite lookup_delete_ne|done].
Qed.

Lemma del_loop_spec kept js v :
  lists (del_loop kept js v) = lists v /\ ports (del_loop kept js v) = ports v /\
  forall j, j ∈ kept \/ j ∉ js -> acls (del_loop kept js v) !! j = acls v !! j.
Proof.
  revert v. induction js as [|i js IH]; intros v; simpl; [done|]. case_bool_decide as Hk.
  - destruct (IH v) as (? & ? & Hj). split; [done|]. split; [done|]. intros j Hj'. apply Hj. set_solver.
  - destruct (ACLDel i v) as [v1 r] eqn:E. apply ACLDel_spec in E as (El & Ep & Ha). simpl.
    destruct (IH v1) as (IHl & IHp & Hj). split; [congruence|]. split; [congruence|].
    intros j Hj'. rewrite Hj by set_solver. apply Ha. intros ->. set_solver.
Qed.

Lemma cleanup_spec k keep v :
  lists (cleanupTaggedExcept k keep v) = lists v /\ ports (cleanupTaggedExcept k keep v) = ports v /\
  forall j, j ∈ keep -> acls (cleanupTaggedExcept k keep v) !! j = acls v !! j.
Proof.
  unfold cleanupTaggedExcept. destruct (taggedACLs k v) as [v1 r] eqn:E.
  apply taggedACLs_spec in E as (Ea & El & Ep & _). destruct r as [js|]; [|by rewrite Ea].
  destruct (del_loop_spec (list_to_set keep) js v1) as (Hl & Hp & Hj).
  split; [congruence|]. split; [congruence|]. intros j Hk. rewrite Hj; [by rewrite Ea|]. left. by apply elem_of_list_to_set.
Qed.

(** ** Bootstrapping *)
Lemma aclIndices_set c :
  idx_of c IPv4 <> aclIndexUnset -> idx_of c IPv6 <> aclIndexUnset -> aclIndices c = [idx_of c IPv4; idx_of c IPv6].
Proof. intros H4 H6. unfold aclIndices. by rewrite !bool_decide_false. Qed.

Lemma client_managed_set cv f rs : client_managed cv f rs -> idx_of cv.1 f <> aclIndexUnset.
Proof. by intros (? & _ & ? & _). Qed.

(** The two creations of a bootstrap from unset indices. *)
Lemma create_pair_spec c v c1 v1 c2 v2 :
  idx_of c IPv4 = aclIndexUnset -> idx_of c IPv6 = aclIndexUnset ->
  replace IPv4 [] c v = (c1, v1, Ok tt) -> replace IPv6 [] c1 v1 = (c2, v2, Ok tt) ->
  client_inv (c2, v2) /\ (forall f, client_managed (c2, v2) f []) /\ cfg c2 = cfg c /\
  lists v2 = lists v /\ ports v2 = ports v /\
  (forall i, i ∈ aclIndices c2 -> acls v !! i = None) /\
  (forall i, i ∉ aclIndices c2 -> acls v2 !! i = acls v !! i).
Proof.
  intros U4 U6 E1 E2.
  assert (client_inv (c, v)) as Hinv.
  { split; [|done]. by intros []; simpl; rewrite ?U4, ?U6. }
  pose proof (replace_inv _ _ _ _ _ _ _ Hinv E1) as Hinv1.
  pose proof (replace_inv _ _ _ _ _ _ _ Hinv1 E2) as Hinv2.
  destruct (replace_managed _ _ _ _ _ _ Hinv E1) as [M4 _].
  destruct (replace_managed _ _ _ _ _ _ Hinv1 E2) as [M6 Mo].
  apply replaceACLLocked_spec in E1 as (El1 & Ep1 & Ec1 & b4 & j4 & _ & -> & J4 & Ea1 & O4).
  apply replaceACLLocked_spec in E2 as (El2 & Ep2 & Ec2 & b6 & j6 & _ & -> & J6 & Ea2 & O6).
  destruct O4 as [[_ N4]|O4]; [|congruence].
  assert (acls v !! j6 = None /\ j6 <> j4) as [N6 Hne].
  { rewrite idx_of_set, decide_False in O6 by done. destruct O6 as [[_ N6]|O6]; [|congruence].
    rewrite Ea1 in N6. apply lookup_insert_None in N6 as [? ?]. done. }
  assert (aclIndices (set_idx IPv6 j6 (set_idx IPv4 j4 c)) = [j4; j6]) as Eidx.
  { rewrite aclIndices_set; rewrite !idx_of_set; done. }
  split; [done|]. split; [intros []; [by apply Mo|done]|]. split; [done|]. split; [congruence|]. split; [congruence|].
  rewrite Eidx. split; intros i; rewrite !elem_of_cons, elem_of_nil.
  - by intros [->|[->|[]]].
  - intros Hi. rewrite Ea2, lookup_insert_ne, Ea1, lookup_insert_ne; [done|..]; intros ->; apply Hi; auto.
Qed.

(** A foreign ACL is one that exists and does not carry one of our tags. *)
Definition is_foreign (k : ClientConfig) (v : V) (i : Z) : Prop :=
  exists tag rs, acls v !! i = Some (tag, rs) /\ managedTag k tag = false.

Lemma bootstrap_spec c v c' v' :
  idx_of c IPv4 = aclIndexUnset -> idx_of c IPv6 = aclIndexUnset ->
  (forall x, (length (al_acls (cur_list (lists v) x)) <= 253)%nat) ->
  bootstrapLocked ip_types_ParsePrefix c v = (c', v', Ok tt) ->
  client_inv (c', v') /\ (forall f, client_managed (c', v') f []) /\ cfg c' = cfg c /\
  exists managed, (forall i, is_foreign (cfg c) v i -> i ∉ managed) /\
    forall x, lists v' !! x = if decide (x ∈ if_index <$> select_ifaces (cfg c) (ports v))
                              then Some (attached (lists v) managed [idx_of c' IPv4; idx_of c' IPv6] (cfg_Direction (cfg c)) x)
                              else lists v !! x.
Proof.
  intros U4 U6 Hroom. unfold bootstrapLocked.
  destruct (replace IPv4 [] c v) as [[c1 v1] [[]|]] eqn:E1; [|done].
  destruct (replace IPv6 [] c1 v1) as [[c2 v2] [[]|]] eqn:E2; [|done].
  destruct (create_pair_spec _ _ _ _ _ _ U4 U6 E1 E2) as ([Hex Hne] & HM & Ec & El & Ep & Hfresh & Hsame).
  pose proof (client_managed_set _ _ _ (HM IPv4)) as S4. pose proof (client_managed_set _ _ _ (HM IPv6)) as S6.
  simpl in S4, S6. pose proof (aclIndices_set c2 S4 S6) as Eidx.
  destruct (attachLocked c2 v2) as [v3 [[]|]] eqn:E3; [|done]. intros [= <- <-].
  apply attachLocked_spec in E3 as (Ea3 & Ep3 & managed & [_ Hman] & Hl3).
  2:{ intros x. rewrite El, Eidx. specialize (Hroom x). simpl. lia. }
  destruct (cleanup_spec (cfg c2) [idx_of c2 IPv4; idx_of c2 IPv6] v3) as (Hl & Hp & Hkeep).
  assert (forall f, acls (cleanupTaggedExcept (cfg c2) [idx_of c2 IPv4; idx_of c2 IPv6] v3) !! idx_of c2 f =
                    acls v2 !! idx_of c2 f) as Hk.
  { intros f. rewrite Hkeep, Ea3; [done|]. destruct f; rewrite !elem_of_cons; auto. }
  split; [split; simpl; [intros f; rewrite Hk; apply Hex|done]|]. split; [|split; [done|]].
  - intros f. destruct (HM f) as (bin & ? & ? & ?). exists bin. simpl in *. by rewrite Hk.
  - exists managed. split.
    + intros i (tag & rs & Hi & Ht) Hm. destruct (decide (i ∈ aclIndices c2)) as [Hin|Hin].
      * apply Hfresh in Hin. congruence.
      * destruct (Hman i Hm) as [?|(tag' & rs' & Hi' & Ht')]; [done|]. rewrite Hsame, Ec in * by done. congruence.
    + intros x. rewrite Hl, Hl3, El, Ep, Ec, Eidx. done.
Qed.
End Client.

(** ** A VPP that obeys the laws *)
Record sim := { s_acls : gmap Z (string * list (BinRule string)); s_lists : gmap Z aclList; s_ports : list (Z * string) }.

Definition sim_put (j : Z) (x : string * list (BinRule string)) (v : sim) : sim :=
  {| s_acls := <[j := x]> (s_acls v); s_lists := s_lists v; s_ports := s_ports v |}.

#[global] Instance sim_api : VppApi string sim := {|
  ACLAddReplace := fun i tag _ rs v =>
    if bool_decide (i = aclIndexUnset) then
      let j := fresh ({[aclIndexUnset]} ∪ dom (s_acls v)) in (sim_put j (tag, rs) v, Ok j)
    else if bool_decide (is_Some (s_acls v !! i)) then (sim_put i (tag, rs) v, Ok i)
    else (v, Err (plain "no such ACL"));
  ACLDel := fun i v =>
    if bool_decide (map_Forall (fun _ l => i ∉ al_acls l) (s_lists v))
    then ({| s_acls := delete i (s_acls v); s_lists := s_lists v; s_ports := s_ports v |}, Ok tt)
    else (v, Err (plain "ACL in use"));
  ACLInterfaceSetACLList := fun i _ n l v =>
    ({| s_acls := s_acls v; s_lists := <[i := {| al_acls := l; al_nInput := n |}]> (s_lists v); s_ports := s_ports v |}, Ok tt);
  ACLDump := fun v => (v, Ok ((fun ix => (ix.1, ix.2.1)) <$> map_to_list (s_acls v)));
  ACLInterfaceListDump := fun v => (v, Ok (map_to_list (s_lists v)));
  SwInterfaceDump := fun v => (v, Ok (s_ports v))
|}.

Lemma lists_of_dump_fold (l : list (Z * aclList)) (m : gmap Z aclList) :
  NoDup l.*1 -> foldl (fun m d => <[d.1 := d.2]> m) m l = list_to_map l ∪ m.
Proof.
  revert m. induction l as [|[k x] l IH]; intros m Hnd; simpl; [by rewrite map_empty_union|].
  apply NoDup_cons in Hnd as [Hk Hnd]. rewrite IH by done.
  rewrite <-insert_union_r by (by apply not_elem_of_list_to_map_1). by rewrite insert_union_l.
Qed.

#[global] Instance sim_laws : VppLaws sim_api.
Proof.
  refine {| acls := s_acls; lists := s_lists; ports := s_ports |}.
  - intros i tag rs v v' j. simpl. case_bool_decide as Hi.
    + intros [= <- <-]. pose proof (is_fresh ({[aclIndexUnset]} ∪ dom (s_acls v) : gset Z)) as Hf.
      apply not_elem_of_union in Hf as [H1 H2]. split; [left; split; [done|by apply not_elem_of_dom]|].
      split; [set_solver|done].
    + case_bool_decide as Hs; [|done]. intros [= <- <-]. split; [by right|]. done.
  - intros i tag n rs v v' e. simpl. case_bool_decide; [done|]. case_bool_decide; [done|]. by intros [= <- _].
  - intros i v v'. simpl. case_bool_decide; [by intros [= <-]|done].
  - intros i v v' x l. simpl. case_bool_decide as Hu; [|done]. intros _. apply Hu.
  - intros i v v' e. simpl. case_bool_decide; [done|by intros [= <- _]].
  - by intros i n l v v' [= <-].
  - intros v v' r [= <- <-]. split; [|done]. intros l [= <-] i tag. rewrite list_elem_of_fmap. split.
    + intros ([j [t rs]] & [= -> ->] & Hin%elem_of_map_to_list). eauto.
    + intros (rs & Hrs). exists (i, (tag, rs)). split; [done|]. by apply elem_of_map_to_list.
  - intros v v' r [= <- <-]. split; [|done]. intros l [= <-]. unfold lists_of_dump.
    rewrite lists_of_dump_fold by apply NoDup_fst_map_to_list. by rewrite map_union_empty, list_to_map_to_list.
  - intros v v' r [= <- <-]. split; [|done]. by intros l [= <-].
Defined.

(** ** Properties *)

(** C17: Connecting or reconnecting takes over the interfaces without touching the
    operator's ACLs.  A bootstrap from unset indices that succeeds, with at most 253
    ACLs on every interface, leaves both
    Managed ACLs empty (permit-any only) under distinct known indices; every
    selected interface has its foreign ACLs in their order and direction, with the
    managed pair last in the configured direction; every other interface is
    unchanged.  VPP may hold orphans of earlier runs. *)
Theorem bootstrap_takes_over {BP V : Type} {api : VppApi BP V} {laws : VppLaws api}
    (parse : string -> result gotext BP) (c c' : Client) (v v' : V) :
  idx_of c IPv4 = aclIndexUnset -> idx_of c IPv6 = aclIndexUnset ->
  (forall x, (length (al_acls (cur_list (lists v) x)) <= 253)%nat) ->
  bootstrapLocked parse c v = (c', v', Ok tt) ->
  client_inv (c', v') /\ (forall f, client_managed parse (c', v') f []) /\
  exists managed, (forall i, is_foreign (cfg c) v i -> i ∉ managed) /\
    forall x, lists v' !! x = if decide (x ∈ if_index <$> select_ifaces (cfg c) (ports v))
                              then Some (attached (lists v) managed [idx_of c' IPv4; idx_of c' IPv6] (cfg_Direction (cfg c)) x)
                              else lists v !! x.
Proof.
  intros U4 U6 Hr E. destruct (bootstrap_spec parse c v c' v' U4 U6 Hr E) as (? & ? & _ & ?). done.
Qed.

(** A VPP with an operator's ACL 7 on interface 3 and an orphan of ours. *)
Definition ex_cfg : ClientConfig :=
  {| InterfaceMode := "all"; InterfaceList := []; cfg_Direction := Ingress; ACLTagV4 := ""; ACLTagV6 := "" |}.
Definition ex_sim : sim :=
  {| s_acls := <[7 := ("operator", [])]> {[9 := ("flowspec-managed-ip4", [])]};
     s_lists := {[3 := {| al_acls := [7; 9; 7]; al_nInput := 2 |}]};
     s_ports := [(0, "local0"); (3, "eth0")] |}.
Definition ex_boot : Client * sim * result gotext unit := bootstrapLocked (fun s => Ok s) (newClient ex_cfg) ex_sim.

Lemma ex_room x : (length (al_acls (cur_list (s_lists ex_sim) x)) <= 253)%nat.
Proof.
  unfold cur_list, ex_sim. simpl. destruct (decide (x = 3)) as [->|]; [rewrite lookup_singleton_eq; simpl; lia|].
  rewrite lookup_singleton_ne by done. simpl. lia.
Qed.

Lemma bootstrap_takes_over_witness :
  ex_boot = (ex_boot.1.1, ex_boot.1.2, Ok tt) /\ client_inv (ex_boot.1.1, ex_boot.1.2) /\
  (al_acls <$> lists ex_boot.1.2 !! 3) = Some [7; idx_of ex_boot.1.1 IPv4; idx_of ex_boot.1.1 IPv6; 7].
Proof.
  split; [by vm_compute|]. split; [|by vm_compute].
  apply (@bootstrap_takes_over _ _ sim_api sim_laws (fun s => Ok s) (newClient ex_cfg) ex_boot.1.1 ex_sim ex_boot.1.2 eq_refl eq_refl ex_room).
  by vm_compute.
Defined.

(** C16: The full reconnect path, with at most 253 ACLs on every interface.  When
    VPP comes back, the client re-creates and re-attaches the Managed ACLs and
    calls [OnReconnect]; if the replacements of
    the resync it triggers succeed, both Managed ACLs hold exactly the entries of
    the live routing table again, whatever VPP lost. *)
Theorem reconnect_restores {BP V : Type} {api : VppApi BP V} {laws : VppLaws api}
    (parse : string -> result gotext BP) (m : Manager) (rib : RIB) (c c' : Client) (v v' : V)
    (w : world (Client * V)) :
  represents m rib -> (forall x, (length (al_acls (cur_list (lists v) x)) <= 253)%nat) ->
  handleEvent parse Connected c v = (c', v', true) ->
  w = {| w_mgr := m; w_backend := (c', v'); w_metrics := [] |} ->
  (client_replace parse (c', v') IPv4 (desired IPv4 m)).2 = true ->
  (client_replace parse (w_backend (@reconcile _ (client_backend parse) IPv4 w)) IPv6 (desired IPv6 m)).2 = true ->
  forall f, exists rules, client_managed parse (w_backend (@resync _ (client_backend parse) w)) f rules /\
    forall a, a ∈ rules <-> familyOf a = f /\
      exists s id r, rib !! (s, id) = Some r /\ Translate r = Ok a.
Proof.
  intros Hrep Hr Hev -> H4 H6 f. unfold handleEvent in Hev.
  destruct (bootstrapLocked parse _ v) as [[c1 v1] [[]|]] eqn:E; simpl in Hev; [|done]. injection Hev as <- <-.
  apply bootstrap_spec in E as (Hinv & _); [|by rewrite !idx_of_set|by rewrite !idx_of_set|done].
  destruct (@resync_synced _ (client_backend parse) (Build_world m (c1, v1) []) Hinv H4 H6) as [_ Hs].
  specialize (Hs f). unfold resync in Hs at 2. rewrite !reconcile_mgr in Hs.
  exists (desired f m). split; [exact Hs|]. intros a. by apply desired_rib.
Qed.

Definition ex_reconnect : Client * sim * bool := handleEvent (fun s => Ok s) Connected (newClient ex_cfg) ex_sim.

Lemma reconnect_restores_witness :
  exists rules, client_managed (fun s => Ok s)
      (w_backend (@resync _ (client_backend (fun s => Ok s))
        {| w_mgr := w_mgr (Run ex_go ex_us ex_world); w_backend := (ex_reconnect.1.1, ex_reconnect.1.2); w_metrics := [] |}))
      IPv4 rules /\
    forall a, a ∈ rules <-> familyOf a = IPv4 /\
      exists s id r, rib_run ex_go ex_us !! (s, id) = Some r /\ Translate r = Ok a.
Proof.
  apply (@reconnect_restores _ _ sim_api sim_laws (fun s => Ok s) (w_mgr (Run ex_go ex_us ex_world)) (rib_run ex_go ex_us) (newClient ex_cfg)
          ex_reconnect.1.1 ex_sim ex_reconnect.1.2
          {| w_mgr := w_mgr (Run ex_go ex_us ex_world); w_backend := (ex_reconnect.1.1, ex_reconnect.1.2); w_metrics := [] |});
    [|exact ex_room|by vm_compute|reflexivity|by vm_compute|by vm_compute].
  apply Run_represents; [apply ex_us_wf|apply newManager_represents].
Defined.

(** Attaching is idempotent and reversible.  Merging again over the result
    changes nothing, and splitting the managed pair out of the result, as a clean
    exit does, gives back the foreign ACLs with their input/output split; the
    byte-sized counts are exact as long as the list fits VPP's limit of 255. *)
Theorem attach_idempotent_reversible (cur : list Z) (n : Z) (managed : gset Z) (ours : list Z) (dir : Direction)
    (l : list Z) (n' : Z) :
  (length cur + length ours <= 253)%nat -> Forall (fun a => a ∈ managed) ours ->
  mergeManagedLast cur n managed ours dir = (l, n') ->
  mergeManagedLast l n' managed ours dir = (l, n') /\
  splitNonManaged l n' managed = splitNonManaged cur n managed /\
  u8 (Z.of_nat (length l)) = Z.of_nat (length l) /\ 0 <= n' <= Z.of_nat (length l).
Proof.
  intros Hlen Ho. rewrite mergeManagedLast_spec by lia. intros [= <- <-].
  pose proof (merged_length cur n managed ours dir) as Hm.
  set (ins := merged_in cur n managed ours dir) in *. set (outs := merged_out cur n managed ours dir) in *.
  assert (splitNonManaged (ins ++ outs) (Z.of_nat (length ins)) managed = splitNonManaged cur n managed) as Hsplit.
  { rewrite !splitNonManaged_spec by lia. rewrite Nat2Z.id, take_app_length, drop_app_length.
    unfold ins, outs, merged_in, merged_out. rewrite !foreign_app, !foreign_idemp.
    destruct dir; rewrite (foreign_ours _ _ Ho); by rewrite !app_nil_r. }
  split; [|split; [done|split; [apply u8_small; unfold in_width; lia|rewrite length_app; lia]]].
  unfold mergeManagedLast. rewrite Hsplit, splitNonManaged_spec by lia.
  unfold ins, outs, merged_in, merged_out. rewrite length_app in Hm.
  destruct dir; rewrite ?app_nil_r; f_equal; apply u8_small; unfold in_width;
    unfold ins, outs, merged_in, merged_out in Hm; rewrite ?app_nil_r in Hm; lia.
Qed.

Lemma attach_idempotent_reversible_witness :
  mergeManagedLast [7; 1; 2; 8] 3 {[1; 2]} [1; 2] Ingress = ([7; 1; 2; 8], 3) /\
  splitNonManaged [7; 1; 2; 8] 3 {[1; 2]} = splitNonManaged [1; 7; 8] 2 {[1; 2]} /\
  u8 (Z.of_nat (length [7; 1; 2; 8])) = Z.of_nat (length [7; 1; 2; 8]) /\ 0 <= 3 <= Z.of_nat (length [7; 1; 2; 8]).
Proof.
  apply (attach_idempotent_reversible [1; 7; 8] 2 {[1; 2]} [1; 2] Ingress [7; 1; 2; 8] 3);
    [simpl; lia|repeat constructor; set_solver|by vm_compute].
Defined.
