(* ===== verification/VppCloseFacts.v ===== *)
(** * A clean exit of the GoVPP client

    From [Connect] over any number of rule updates to [Close]: what the agent put
    into VPP is gone and what the operator had there is as it was. *)
From S2P Require Import Prelude Netip Flowspec VppTypes Translate VppFacts Manager VppClient VppClientFacts.
#[local] Open Scope Z_scope.

(** ** Lists without the managed entries *)
Definition stripped (managed : gset Z) (l : aclList) : aclList :=
  let n := Z.to_nat (al_nInput l) in
  {| al_acls := foreign managed (take n (al_acls l)) ++ foreign managed (drop n (al_acls l));
     al_nInput := Z.of_nat (length (foreign managed (take n (al_acls l)))) |}.

(** A list whose input count is within it. *)
Definition counted (l : aclList) : Prop := 0 <= al_nInput l <= Z.of_nat (length (al_acls l)).

Lemma foreign_all managed l : Forall (fun a => a ∉ managed) l -> foreign managed l = l.
Proof. unfold foreign. induction 1 as [|a l Ha _ IH]; [done|]. by rewrite filter_cons, decide_True, IH. Qed.

Lemma foreign_sub (ours managed : gset Z) l : ours ⊆ managed -> foreign ours (foreign managed l) = foreign managed l.
Proof.
  intros Hsub. apply foreign_all, Forall_forall. intros a [Ha _]%list_elem_of_filter. set_solver.
Qed.

Lemma stripped_none managed l : counted l -> Forall (fun a => a ∉ managed) (al_acls l) -> stripped managed l = l.
Proof.
  intros [H0 Hn] Hf. unfold stripped. rewrite !foreign_all by (by apply Forall_take || by apply Forall_drop).
  rewrite take_drop, length_take. destruct l as [acls n]. simpl in *. f_equal. lia.
Qed.

(** Taking ours out of an attached list undoes the attachment. *)
Lemma stripped_attached ls (managed ours : gset Z) l dir x :
  list_to_set l = ours -> ours ⊆ managed ->
  stripped ours (attached ls managed l dir x) = stripped managed (cur_list ls x).
Proof.
  intros Hl Hsub. unfold stripped, attached. cbn zeta. cbn [al_acls al_nInput].
  rewrite Nat2Z.id, take_app_length, drop_app_length. unfold merged_in, merged_out.
  assert (foreign ours l = []) as Hours.
  { apply foreign_ours, Forall_forall. intros a Ha. rewrite <-Hl. by apply elem_of_list_to_set. }
  destruct dir; rewrite !foreign_app, !(foreign_sub ours managed), Hours, ?app_nil_r by done; done.
Qed.

Section Close.
Context {BP V : Type} {api : VppApi BP V} {laws : VppLaws api} (parse : string -> result gotext BP).

(** Every ACL that an interface lists exists. *)
Definition listed (v : V) : Prop := forall x a, a ∈ al_acls (cur_list (lists v) x) -> is_Some (acls v !! a).

(** VPP is reachable and does what can be done: it dumps, it sets a list of
    existing ACLs, and it deletes an existing ACL that no interface lists. *)
Record answers : Prop := {
  dump_answers v : exists v' l, ACLInterfaceListDump v = (v', Ok l);
  set_answers i n l v : (forall a, a ∈ l -> is_Some (acls v !! a)) ->
    exists v', ACLInterfaceSetACLList i (Z.of_nat (length l)) n l v = (v', Ok tt);
  del_answers i v : is_Some (acls v !! i) -> (forall x, i ∉ al_acls (cur_list (lists v) x)) ->
    exists v', ACLDel i v = (v', Ok tt)
}.

(** ** Deleting keeps what is listed *)
Lemma ACLDel_listed i v v' r : ACLDel i v = (v', r) -> listed v -> listed v'.
Proof.
  intros E Hl x a. destruct r as [[]|e].
  - pose proof (del_ok _ _ _ E) as (Ea & El & _). rewrite El, Ea. intros Ha.
    rewrite lookup_delete_ne; [by apply (Hl x)|]. intros <-. unfold cur_list in Ha.
    destruct (lists v !! x) as [l|] eqn:Hx; [|by apply elem_of_nil in Ha]. by apply (del_unused _ _ _ x l E Hx).
  - apply del_err in E as (Ea & El & _). rewrite El, Ea. apply Hl.
Qed.

Lemma del_loop_listed kept js v : listed v -> listed (del_loop kept js v).
Proof.
  revert v. induction js as [|i js IH]; intros v Hl; simpl; [done|]. case_bool_decide; [by apply IH|].
  apply IH. destruct (ACLDel i v) as [v1 r] eqn:E. by eapply ACLDel_listed.
Qed.

Lemma cleanup_keeps k keep v :
  (listed v -> listed (cleanupTaggedExcept k keep v)) /\
  forall i, is_foreign k v i -> acls (cleanupTaggedExcept k keep v) !! i = acls v !! i.
Proof.
  unfold cleanupTaggedExcept. destruct (taggedACLs k v) as [v1 r] eqn:E.
  apply taggedACLs_spec in E as (Ea & El & _ & Ht). assert (listed v -> listed v1) as Hl1.
  { intros Hl x a. rewrite El, Ea. apply Hl. }
  destruct r as [js|]; [|split; [done|by rewrite Ea]]. split; [intros Hl; by apply del_loop_listed, Hl1|].
  intros i (tag & rs & Hi & Hf). destruct (del_loop_spec (list_to_set keep) js v1) as (_ & _ & Hj).
  rewrite Hj; [by rewrite Ea|]. right. rewrite (Ht js eq_refl). intros (tag' & rs' & Hi' & Ht'). congruence.
Qed.

(** ** Bootstrapping keeps the operator's ACLs *)
Lemma attached_elem ls managed ours dir x a :
  a ∈ al_acls (attached ls managed ours dir x) -> a ∈ ours \/ a ∈ al_acls (cur_list ls x).
Proof.
  unfold attached. cbn zeta. cbn [al_acls]. unfold merged_in, merged_out, foreign.
  set (l := al_acls (cur_list ls x)). set (n := Z.to_nat _).
  assert (a ∈ take n l \/ a ∈ drop n l -> a ∈ l) as Hl by (rewrite <-elem_of_app, take_drop; done).
  rewrite !elem_of_app, !list_elem_of_filter. destruct dir; rewrite ?elem_of_nil; tauto.
Qed.

Lemma bootstrap_keeps c v c' v' :
  idx_of c IPv4 = aclIndexUnset -> idx_of c IPv6 = aclIndexUnset ->
  (forall x, (length (al_acls (cur_list (lists v) x)) <= 253)%nat) -> listed v ->
  bootstrapLocked parse c v = (c', v', Ok tt) ->
  listed v' /\ (forall i, i ∈ aclIndices c' -> acls v !! i = None) /\
  (forall i, is_foreign (cfg c) v i -> acls v' !! i = acls v !! i) /\
  exists managed, (forall i, is_foreign (cfg c) v i -> i ∉ managed) /\ list_to_set (aclIndices c') ⊆ managed /\
    forall x, lists v' !! x = if decide (x ∈ if_index <$> select_ifaces (cfg c) (ports v))
                              then Some (attached (lists v) managed (aclIndices c') (cfg_Direction (cfg c)) x)
                              else lists v !! x.
Proof.
  intros U4 U6 Hroom Hlist. unfold bootstrapLocked.
  destruct (replaceACLLocked parse IPv4 [] c v) as [[c1 v1] [[]|]] eqn:E1; [|done].
  destruct (replaceACLLocked parse IPv6 [] c1 v1) as [[c2 v2] [[]|]] eqn:E2; [|done].
  destruct (create_pair_spec _ _ _ _ _ _ _ U4 U6 E1 E2) as ([Hex _] & HM & Ec & El & Ep & Hfresh & Hsame).
  pose proof (aclIndices_set c2 (client_managed_set _ _ _ _ (HM IPv4)) (client_managed_set _ _ _ _ (HM IPv6))) as Eidx.
  destruct (attachLocked c2 v2) as [v3 [[]|]] eqn:E3; [|done]. intros [= <- <-].
  apply attachLocked_spec in E3 as (Ea3 & Ep3 & managed & [Hin Hman] & Hl3).
  2:{ intros x. rewrite El, Eidx. specialize (Hroom x). simpl. lia. }
  destruct (cleanup_spec (cfg c2) [idx_of c2 IPv4; idx_of c2 IPv6] v3) as (Hl & _ & _).
  destruct (cleanup_keeps (cfg c2) [idx_of c2 IPv4; idx_of c2 IPv6] v3) as (Hlc & Hfc).
  assert (forall i, i ∈ aclIndices c2 -> is_Some (acls v2 !! i)) as Hours.
  { intros i. rewrite Eidx, !elem_of_cons, elem_of_nil.
    intros [->|[->|[]]]; apply Hex; by eapply client_managed_set. }
  assert (forall i, is_foreign (cfg c) v i -> i ∉ aclIndices c2) as Hfo.
  { intros i (tag & rs & Hi & _) Hc. apply Hfresh in Hc. congruence. }
  split; [apply Hlc; intros x a|split; [done|split]].
  - rewrite Ea3. intros Ha. assert (a ∈ aclIndices c2 \/ a ∈ al_acls (cur_list (lists v) x)) as [Ha'|Ha'].
    { revert Ha. unfold cur_list at 1. rewrite Hl3. case_decide; [simpl; rewrite El; apply attached_elem|]. rewrite El. by right. }
    + by apply Hours.
    + destruct (decide (a ∈ aclIndices c2)); [by apply Hours|]. rewrite Hsame by done. by apply (Hlist x).
  - intros i Hi. rewrite Hfc; [by rewrite Ea3, Hsame by auto|]. destruct Hi as (tag & rs & Hi & Ht).
    exists tag, rs. rewrite Ea3, Hsame, Ec; [done|]. apply Hfo. by exists tag, rs.
  - exists managed. split; [|split; [intros i; rewrite elem_of_list_to_set; apply Hin|]].
    + intros i Hi Hm. destruct (Hman i Hm) as [?|(tag' & rs' & Hi' & Ht')]; [by apply (Hfo i)|].
      rewrite Hsame, Ec in * by auto. destruct Hi as (tag & rs & Hi & Ht). congruence.
    + intros x. rewrite Hl, Hl3, El, Ep, Ec. done.
Qed.

(** ** Rule updates while running *)
Definition updates (us : list (VFamily * list ACLRule)) (cv : Client * V) : Client * V :=
  foldl (fun cv u => (client_replace parse cv u.1 u.2).1) cv us.

(** Both indices are known and exist. *)
Definition set_up (cv : Client * V) : Prop :=
  client_inv cv /\ idx_of cv.1 IPv4 <> aclIndexUnset /\ idx_of cv.1 IPv6 <> aclIndexUnset.

Lemma updates_keep us cv :
  set_up cv -> set_up (updates us cv) /\ aclIndices (updates us cv).1 = aclIndices cv.1 /\
  lists (updates us cv).2 = lists cv.2 /\ (listed cv.2 -> listed (updates us cv).2) /\
  forall i, i ∉ aclIndices cv.1 -> acls (updates us cv).2 !! i = acls cv.2 !! i.
Proof.
  revert cv. induction us as [|[f rs] us IH]; intros [c v] (Hinv & S4 & S6); [done|].
  change (updates ((f, rs) :: us) (c, v)) with (updates us (client_replace parse (c, v) f rs).1).
  destruct (client_replace parse (c, v) f rs) as [[c1 v1] b] eqn:E. unfold client_replace in E. cbn [fst snd] in E.
  destruct (replaceACLLocked parse f rs c v) as [[c' v'] r] eqn:E'. injection E as -> -> <-. cbn [fst snd].
  pose proof (replace_inv _ _ _ _ _ _ _ _ Hinv E') as Hinv1.
  apply replaceACLLocked_spec in E' as (El & _ & _ & E').
  assert ((forall g, idx_of c1 g = idx_of c g) /\ (forall i, i ∉ aclIndices c -> acls v1 !! i = acls v !! i) /\
          (forall i, is_Some (acls v !! i) -> is_Some (acls v1 !! i))) as (Hidx & Ha & Hs).
  { destruct r as [[]|]; [|by destruct E' as [-> ->]]. destruct E' as (bin & j & _ & -> & Hj & -> & [[Hu _]|<-]);
      [by destruct f|]. split; [|split].
    - intros g. rewrite idx_of_set. by case_decide; subst.
    - intros i. rewrite aclIndices_set, !elem_of_cons by done. intros Hi. apply lookup_insert_ne. intros <-. destruct f; tauto.
    - intros i Hi. destruct (decide (i = idx_of c f)) as [->|]; [rewrite lookup_insert_eq; eauto|by rewrite lookup_insert_ne]. }
  assert (aclIndices c1 = aclIndices c) as Eidx by (unfold aclIndices; by rewrite !Hidx).
  destruct (IH (c1, v1)) as (IHs & IHi & IHl & IHd & IHa); [split; [done|]; cbn [fst]; by rewrite !Hidx|].
  cbn [fst snd] in *. split; [done|]. split; [congruence|]. split; [congruence|]. split.
  - intros Hd. apply IHd. intros x a. rewrite El. intros Hx. by apply Hs, (Hd x).
  - intros i Hi. rewrite IHa by congruence. by apply Ha.
Qed.

(** ** Detaching *)
Definition detached (ours : gset Z) (l : aclList) : aclList :=
  if existsb (fun a => bool_decide (a ∈ ours)) (al_acls l) then stripped ours l else l.

Lemma detached_elem ours l a : a ∈ al_acls (detached ours l) -> a ∈ al_acls l /\ a ∉ ours.
Proof.
  unfold detached, stripped, foreign. destruct (existsb _ _) eqn:E; cbn zeta; cbn [al_acls].
  - rewrite elem_of_app, !list_elem_of_filter. intros Ha. split; [|tauto].
    rewrite <-(take_drop (Z.to_nat (al_nInput l)) (al_acls l)). rewrite elem_of_app. tauto.
  - intros Ha. split; [done|]. intros Ho. apply not_true_iff_false in E. apply E, existsb_exists.
    exists a. rewrite bool_decide_true by done. split; [by apply list_elem_of_In|done].
Qed.

Lemma detached_stripped ours l : counted l -> detached ours l = stripped ours l.
Proof.
  intros Hc. unfold detached. destruct (existsb _ _) eqn:E; [done|]. symmetry. apply stripped_none; [done|].
  apply Forall_forall. intros a Ha Ho. apply not_true_iff_false in E. apply E, existsb_exists.
  exists a. rewrite bool_decide_true by done. split; [by apply list_elem_of_In|done].
Qed.

Context (Hans : answers).

Lemma detach_loop_returns ours ls v :
  listed v -> NoDup ls.*1 -> (forall x l, (x, l) ∈ ls -> lists v !! x = Some l /\ (length (al_acls l) <= 255)%nat) ->
  exists v', detach_loop ours ls v = (v', Ok tt) /\ acls v' = acls v /\
    forall x, lists v' !! x = if decide (x ∈ ls.*1) then detached ours <$> lists v !! x else lists v !! x.
Proof using Hans.
  revert v. induction ls as [|[x l] ls IH]; intros v Hv Hnd Hls.
  { exists v. split; [done|]. split; [done|]. intros x. by rewrite decide_False by apply not_elem_of_nil. }
  rewrite fmap_cons in Hnd. apply NoDup_cons in Hnd as [Hx Hnd]. destruct (Hls x l) as [Hlx Hlen]; [left|].
  assert (exists v1, acls v1 = acls v /\ lists v1 = <[x := detached ours l]> (lists v) /\
            detach_loop ours ((x, l) :: ls) v = detach_loop ours ls v1) as (v1 & Ea & El & E).
  { cbn [detach_loop]. destruct (existsb _ _) eqn:Ex.
    2:{ exists v. unfold detached. rewrite Ex. by rewrite insert_id. }
    assert (detached ours l = stripped ours l) as Ed by (unfold detached; by rewrite Ex).
    pose proof (foreign_length ours (take (Z.to_nat (al_nInput l)) (al_acls l))) as L1.
    pose proof (foreign_length ours (drop (Z.to_nat (al_nInput l)) (al_acls l))) as L2.
    rewrite length_take in L1. rewrite length_drop in L2.
    rewrite splitNonManaged_spec by lia. cbn zeta.
    rewrite !u8_small by (unfold in_width; rewrite ?length_app; lia).
    destruct (set_answers Hans x (al_nInput (stripped ours l)) (al_acls (stripped ours l)) v) as [v1 E1].
    { intros a Ha. rewrite <-Ed in Ha. apply detached_elem in Ha as [Ha _]. apply (Hv x). unfold cur_list. by rewrite Hlx. }
    unfold stripped in E1. cbn zeta in E1. cbn [al_acls al_nInput] in E1. rewrite E1.
    apply set_ok in E1 as (El & Ea & _). exists v1. split; [done|]. split; [|done]. by rewrite El, Ed. }
  rewrite E. destruct (IH v1) as (v' & E' & Ea' & El'); [| done |..].
  - intros y a. rewrite Ea. unfold cur_list. rewrite El. destruct (decide (y = x)) as [->|].
    + rewrite lookup_insert_eq. intros [Ha _]%detached_elem. apply (Hv x). unfold cur_list. by rewrite Hlx.
    + rewrite lookup_insert_ne by done. apply Hv.
  - intros y l' Hy. rewrite El, lookup_insert_ne; [apply Hls; by right|]. intros <-. apply Hx.
    apply list_elem_of_fmap. by exists (x, l').
  - exists v'. split; [done|]. split; [congruence|]. intros y. rewrite El', El, fmap_cons. cbn [fst].
    destruct (decide (y = x)) as [->|Hne].
    + rewrite decide_False, (decide_True (P := x ∈ x :: _)), lookup_insert_eq, Hlx; [done|left|done].
    + rewrite lookup_insert_ne by done. apply decide_ext. rewrite elem_of_cons. tauto.
Qed.

Lemma detachManaged_returns o ours v :
  listed v -> (forall x, (length (al_acls (cur_list (lists v) x)) <= 255)%nat) ->
  exists v', detachManagedLocked o ours v = (v', Ok tt) /\ acls v' = acls v /\
    forall x, lists v' !! x = detached ours <$> lists v !! x.
Proof using Hans.
  intros Hv Hlen. unfold detachManagedLocked, interfaceACLLists.
  destruct (dump_answers Hans v) as (v1 & dump & E). rewrite E. apply list_dump_ok in E as (Hd & Ea & El & _).
  rewrite (Hd dump eq_refl). set (ls := range_list o (map_to_list (lists v))).
  assert (Permutation ls (map_to_list (lists v))) as Hp by apply range_perm.
  destruct (detach_loop_returns ours ls v1) as (v' & E' & Ea' & El').
  - intros x a. rewrite El, Ea. apply Hv.
  - rewrite Hp. apply NoDup_fst_map_to_list.
  - intros x l. rewrite Hp, elem_of_map_to_list, El. intros Hx. split; [done|]. specialize (Hlen x).
    unfold cur_list in Hlen. by rewrite Hx in Hlen.
  - exists v'. split; [done|]. split; [congruence|]. intros x. rewrite El', El. case_decide as Hx; [done|].
    destruct (lists v !! x) as [l|] eqn:Hlx; [|done]. contradict Hx. rewrite Hp, list_elem_of_fmap.
    exists (x, l). split; [done|]. by apply elem_of_map_to_list.
Qed.

(** ** Deleting ours *)
Lemma del_loop_deletes js v :
  NoDup js -> (forall i, i ∈ js -> is_Some (acls v !! i) /\ forall x, i ∉ al_acls (cur_list (lists v) x)) ->
  lists (del_loop ∅ js v) = lists v /\
  forall i, acls (del_loop ∅ js v) !! i = if decide (i ∈ js) then None else acls v !! i.
Proof using Hans.
  revert v. induction js as [|j js IH]; intros v Hnd Hjs.
  { split; [done|]. intros i. by rewrite decide_False by apply not_elem_of_nil. }
  apply NoDup_cons in Hnd as [Hj Hnd]. destruct (Hjs j) as [Hs Hu]; [left|].
  destruct (del_answers Hans j v Hs Hu) as [v1 E]. cbn [del_loop]. rewrite bool_decide_false by set_solver. rewrite E.
  cbn [fst]. apply del_ok in E as (Ea & El & _). destruct (IH v1 Hnd) as [IHl IHa].
  { intros i Hi. rewrite Ea, El, lookup_delete_ne by (intros ->; done). apply Hjs. by right. }
  split; [congruence|]. intros i. rewrite IHa, Ea. destruct (decide (i = j)) as [->|Hne].
  - rewrite decide_False, (decide_True (P := j ∈ j :: _)) by (done || left). by rewrite lookup_delete_eq.
  - rewrite lookup_delete_ne by done. apply decide_ext. rewrite elem_of_cons. tauto.
Qed.

Lemma cleanupOnClose_spec o c v :
  set_up (c, v) -> listed v -> (forall x, (length (al_acls (cur_list (lists v) x)) <= 255)%nat) ->
  (forall i, acls (cleanupOnClose o c v) !! i = if decide (i ∈ aclIndices c) then None else acls v !! i) /\
  forall x, lists (cleanupOnClose o c v) !! x = detached (list_to_set (aclIndices c)) <$> lists v !! x.
Proof using Hans.
  intros ([Hex Hne] & S4 & S6) Hv Hlen. cbn [fst snd] in *. unfold cleanupOnClose.
  pose proof (aclIndices_set c S4 S6) as Eidx. rewrite bool_decide_false by (by rewrite Eidx).
  destruct (detachManaged_returns o (list_to_set (aclIndices c)) v Hv Hlen) as (v1 & -> & Ea & El).
  destruct (del_loop_deletes (aclIndices c) v1) as [Hl Ha].
  - rewrite Eidx. apply NoDup_cons; split; [|apply NoDup_singleton]. intros E%list_elem_of_singleton. auto.
  - intros i Hi. split.
    + rewrite Ea. rewrite Eidx, !elem_of_cons, elem_of_nil in Hi. destruct Hi as [->|[->|[]]]; by apply Hex.
    + intros x Hx. unfold cur_list in Hx. rewrite El in Hx. destruct (lists v !! x) as [l|]; [|by apply elem_of_nil in Hx].
      cbn [fmap option_fmap option_map default] in Hx. apply detached_elem in Hx as [_ Hx]. apply Hx. by apply elem_of_list_to_set.
  - split; [intros i; rewrite Ha, Ea; done|]. intros x. by rewrite Hl, El.
Qed.
End Close.

(** ** Properties *)

(** C18: A clean exit leaves nothing behind.  After a bootstrap and any rule
    updates, [Close] on a reachable VPP has deleted both Managed ACLs, and the
    operator's ACLs are unchanged; the list of every interface is the one found at
    the bootstrap, in its order and with its input/output split, less orphans of
    earlier runs of the agent; without such orphans it is exactly that list. *)
Theorem clean_exit_restores {BP V : Type} {api : VppApi BP V} {laws : VppLaws api}
    (parse : string -> result gotext BP) (o : RangeOrder) (us : list (VFamily * list ACLRule)) (c c1 c2 : Client) (v v1 v2 : V) :
  answers -> idx_of c IPv4 = aclIndexUnset -> idx_of c IPv6 = aclIndexUnset ->
  (forall x, (length (al_acls (cur_list (lists v) x)) <= 253)%nat) -> listed v ->
  (forall x, counted (cur_list (lists v) x)) ->
  bootstrapLocked parse c v = (c1, v1, Ok tt) -> updates parse us (c1, v1) = (c2, v2) ->
  let v3 := (Close true true o c2 v2).1 in
  (forall i, i ∈ aclIndices c1 -> acls v3 !! i = None) /\
  (forall i, is_foreign (cfg c) v i -> acls v3 !! i = acls v !! i) /\
  (forall x, exists managed, (forall i, is_foreign (cfg c) v i -> i ∉ managed) /\
     cur_list (lists v3) x = stripped managed (cur_list (lists v) x)) /\
  ((forall i, is_Some (acls v !! i) -> is_foreign (cfg c) v i) -> forall x, cur_list (lists v3) x = cur_list (lists v) x).
Proof.
  intros Hans U4 U6 Hroom Hv Hcnt Eb Eu v3.
  destruct (bootstrap_keeps parse c v c1 v1 U4 U6 Hroom Hv Eb) as (Hv1 & Hfresh & Hkeep & managed & Hman & Hsub & Hl1).
  destruct (bootstrap_spec parse c v c1 v1 U4 U6 Hroom Eb) as (Hinv & HM & _ & _).
  assert (set_up (c1, v1)) as Hup by (split; [done|]; split; apply (client_managed_set parse _ _ _ (HM _))).
  destruct (updates_keep parse us (c1, v1) Hup) as (Hup2 & Eidx & El2 & Hv2 & Ha2). rewrite Eu in *. cbn [fst snd] in *.
  assert (forall i, is_foreign (cfg c) v i -> i ∉ aclIndices c1) as Hfo.
  { intros i (tag & rs & Hi & _) Hc. apply Hfresh in Hc. congruence. }
  assert (forall x, (length (al_acls (cur_list (lists v2) x)) <= 255)%nat) as Hlen.
  { intros x. rewrite El2. unfold cur_list at 1. rewrite Hl1. specialize (Hroom x). case_decide; [|unfold cur_list in Hroom; lia].
    simpl. etrans; [apply merged_length|]. rewrite (aclIndices_set c1) by apply Hup. simpl. lia. }
  destruct (cleanupOnClose_spec Hans o c2 v2 Hup2 (Hv2 Hv1) Hlen) as [Hacl Hlist]. rewrite Eidx in *.
  change (cleanupOnClose o c2 v2) with v3 in Hacl, Hlist.
  assert (forall x, exists managed, (forall i, is_foreign (cfg c) v i -> i ∉ managed) /\
            cur_list (lists v3) x = stripped managed (cur_list (lists v) x)) as Hlists.
  { intros x. unfold cur_list at 1. rewrite Hlist, El2, Hl1. case_decide.
    - exists managed. split; [done|]. simpl. rewrite detached_stripped; [by apply stripped_attached|].
      unfold counted, attached. cbn zeta. cbn [al_acls al_nInput]. rewrite length_app. lia.
    - exists (list_to_set (aclIndices c1)). split; [intros i Hi; rewrite elem_of_list_to_set; auto|].
      specialize (Hcnt x). unfold cur_list in *. destruct (lists v !! x) as [l|]; [by apply detached_stripped|done]. }
  split; [intros i Hi; by rewrite Hacl, decide_True|]. split; [|split; [done|]].
  - intros i Hi. rewrite Hacl, decide_False by auto. rewrite Ha2 by auto. by apply Hkeep.
  - intros Hall x. destruct (Hlists x) as (m & Hm & ->). apply stripped_none; [done|].
    apply Forall_forall. intros a Ha. by apply Hm, Hall, (Hv x).
Qed.

(** An operator's VPP with two interfaces, one of which the agent manages. *)
Definition ex_operator_sim : sim :=
  {| s_acls := {[7 := ("operator", [])]};
     s_lists := <[3 := {| al_acls := [7; 7]; al_nInput := 1 |}]> {[4 := {| al_acls := [7]; al_nInput := 0 |}]};
     s_ports := [(0, "local0"); (3, "eth0"); (4, "local1")] |}.
Definition ex_connect : Client * sim * result gotext unit := bootstrapLocked (fun s => Ok s) (newClient ex_cfg) ex_operator_sim.
Definition ex_changes : list (VFamily * list ACLRule) := [(IPv4, [permitAny IPv4]); (IPv6, []); (IPv4, [])].
Definition ex_running : Client * sim := updates (fun s => Ok s) ex_changes (ex_connect.1.1, ex_connect.1.2).

Lemma ex_operator_list x :
  cur_list (s_lists ex_operator_sim) x ∈ [emptyList; {| al_acls := [7; 7]; al_nInput := 1 |}; {| al_acls := [7]; al_nInput := 0 |}].
Proof.
  unfold cur_list, ex_operator_sim. cbn [s_lists]. destruct (decide (x = 3)) as [->|]; [rewrite lookup_insert_eq; right; left|].
  rewrite lookup_insert_ne by done. destruct (decide (x = 4)) as [->|]; [rewrite lookup_singleton_eq; right; right; left|].
  rewrite lookup_singleton_ne by done. left.
Qed.

Lemma sim_answers : @answers _ sim sim_api sim_laws.
Proof.
  split.
  - intros v. by exists v, (map_to_list (s_lists v)).
  - intros i n l v _. eexists. reflexivity.
  - intros i v _ Hu. eexists. simpl. rewrite bool_decide_true; [reflexivity|].
    intros x l Hx. specialize (Hu x). unfold cur_list in Hu. simpl in Hu. by rewrite Hx in Hu.
Qed.

Lemma clean_exit_restores_witness :
  let v3 := (Close true true range_rev ex_running.1 ex_running.2).1 in
  al_acls <$> lists ex_running.2 !! 3 = Some [7; idx_of ex_running.1 IPv4; idx_of ex_running.1 IPv6; 7] /\
  forall x, cur_list (lists v3) x = cur_list (lists ex_operator_sim) x.
Proof.
  intros v3. split; [by vm_compute|].
  destruct (@clean_exit_restores _ _ sim_api sim_laws (fun s => Ok s) range_rev ex_changes (newClient ex_cfg) ex_connect.1.1 ex_running.1
              ex_operator_sim ex_connect.1.2 ex_running.2 sim_answers eq_refl eq_refl) as (_ & _ & _ & H).
  - intros x. change (lists ex_operator_sim) with (s_lists ex_operator_sim).
    pose proof (ex_operator_list x) as Hx. rewrite !elem_of_cons, elem_of_nil in Hx.
    destruct Hx as [->|[->|[->|[]]]]; simpl; lia.
  - intros x a Ha. pose proof (ex_operator_list x) as Hx. rewrite !elem_of_cons, elem_of_nil in Hx.
    change (lists ex_operator_sim) with (s_lists ex_operator_sim) in Ha.
    assert (a = 7) as -> by (destruct Hx as [Hx|[Hx|[Hx|[]]]]; rewrite Hx in Ha; cbn [al_acls emptyList] in Ha; rewrite ?elem_of_cons, elem_of_nil in Ha; tauto).
    exists ("operator", []). by vm_compute.
  - intros x. change (lists ex_operator_sim) with (s_lists ex_operator_sim).
    pose proof (ex_operator_list x) as Hx. rewrite !elem_of_cons, elem_of_nil in Hx.
    destruct Hx as [->|[->|[->|[]]]]; unfold counted; simpl; lia.
  - by vm_compute.
  - exact (surjective_pairing ex_running).
  - apply H. intros i [y Hi]. cbn in Hi. apply lookup_singleton_Some in Hi as [<- <-].
    exists "operator", []. split; by vm_compute.
Defined.
