(* ===== verification/LocalRules.v ===== *)
(** * The lease controller (internal/localrules/controller.go)

    Turns detector events into manager updates and owns the lifetime of the
    locally generated rules.  [time.Time] and [time.Duration] are nanosecond
    counts; 0 is Go's zero [Time]. *)
From S2P Require Import Prelude Flowspec Manager.
#[local] Open Scope Z_scope.

(** ** time *)
Definition Nanosecond : Z := 1.
Definition Hour : Z := 3600 * 1000000000.
Definition maxDuration : Z := 2 ^ 63 - 1.
Definition minDuration : Z := - 2 ^ 63.

(** [Time.Sub] saturates at the range of [Duration]. *)
Definition time_Sub (t u : Z) : Z := Z.max minDuration (Z.min maxDuration (t - u)).

(** ** detector.Event, the fields the controller reads *)
Record Event := {
  ev_ID : string;
  ev_Description : string;
  ev_TTL : Z;
  ev_Refresh : bool;
  ev_Rule : Rule
}.

Record lease := { l_rule : Rule; l_expiresAt : Z }.

Record LeaseSnapshot := {
  ls_EventID : string;
  ls_Family : string;
  ls_FlowSpec : string;
  ls_ExpiresAt : Z
}.

(** [advertiser != nil] is [c_advertiser]. *)
Record Controller := {
  c_session : string;
  c_peer : string;
  c_leases : gmap string lease;
  c_dryRun : bool;
  c_advertiser : bool;
  c_latest : option (list LeaseSnapshot)
}.

Definition defaultSession : string := "detector".
Definition defaultPeer : string := "detector".

Definition newController : Controller :=
  {| c_session := defaultSession; c_peer := defaultPeer; c_leases := ∅; c_dryRun := false;
     c_advertiser := false; c_latest := None |}.

Definition SetDryRun (v : bool) (c : Controller) : Controller :=
  {| c_session := c_session c; c_peer := c_peer c; c_leases := c_leases c; c_dryRun := v;
     c_advertiser := c_advertiser c; c_latest := c_latest c |}.

Definition SetAdvertiser (v : bool) (c : Controller) : Controller :=
  {| c_session := c_session c; c_peer := c_peer c; c_leases := c_leases c; c_dryRun := c_dryRun c;
     c_advertiser := v; c_latest := c_latest c |}.

Definition set_leases (ls : gmap string lease) (c : Controller) : Controller :=
  {| c_session := c_session c; c_peer := c_peer c; c_leases := ls; c_dryRun := c_dryRun c;
     c_advertiser := c_advertiser c; c_latest := c_latest c |}.

(** What the controller does to the outside, in order. *)
Inductive effect :=
  | Sent (u : Update)
  | Advertised (r : Rule) (withdraw : bool).

(** [send] blocks until the manager takes the update; once the context is done it
    may give up instead.  [deliver u] says whether the update got through. *)
Definition send (deliver : Update -> bool) (u : Update) : list effect :=
  if deliver u then [Sent u] else [].

Definition advertise (c : Controller) (r : Rule) (withdraw : bool) : list effect :=
  if c_advertiser c then [Advertised r withdraw] else [].

Definition update_of (c : Controller) (op : Op) (r : Rule) : Update :=
  {| u_Session := c_session c; u_Op := op; u_Rule := Some r; u_Peer := c_peer c |}.

Definition publish (o : RangeOrder) (c : Controller) : Controller :=
  {| c_session := c_session c; c_peer := c_peer c; c_leases := c_leases c; c_dryRun := c_dryRun c;
     c_advertiser := c_advertiser c;
     c_latest := Some (map (fun idl => {| ls_EventID := idl.1; ls_Family := Family_String (r_Family (l_rule idl.2));
                                           ls_FlowSpec := r_Raw (l_rule idl.2); ls_ExpiresAt := l_expiresAt idl.2 |})
                           (range_list o (map_to_list (c_leases c)))) |}.

Definition Snapshot (c : Controller) : list LeaseSnapshot := default [] (c_latest c).

Definition sameRule (a b : Rule) : bool := bool_decide (r_Raw a = r_Raw b).

Section Steps.
Context (deliver : Update -> bool) (o : RangeOrder).

(** Withdraw a rule: the pair of calls every removal makes. *)
Definition withdraw_rule (c : Controller) (r : Rule) : list effect :=
  send deliver (update_of c OpWithdraw r) ++ advertise c r true.

Definition applyEvent (now : Z) (ev : Event) (c : Controller) : Controller * list effect :=
  if ev_TTL ev <=? 0 then (c, [])
  else if c_dryRun c then (c, [])
  else
    let expiresAt := now + ev_TTL ev in
    let old := c_leases c !! ev_ID ev in
    match old with
    | Some l =>
        if sameRule (l_rule l) (ev_Rule ev) then
          if ev_Refresh ev then
            (publish o (set_leases (<[ev_ID ev := {| l_rule := l_rule l; l_expiresAt := expiresAt |}]> (c_leases c)) c), [])
          else (c, [])
        else
          let c := set_leases (<[ev_ID ev := {| l_rule := ev_Rule ev; l_expiresAt := expiresAt |}]> (c_leases c)) c in
          (publish o c,
           withdraw_rule c (l_rule l) ++
           send deliver (update_of c OpAnnounce (ev_Rule ev)) ++ advertise c (ev_Rule ev) false)
    | None =>
        let c := set_leases (<[ev_ID ev := {| l_rule := ev_Rule ev; l_expiresAt := expiresAt |}]> (c_leases c)) c in
        (publish o c, send deliver (update_of c OpAnnounce (ev_Rule ev)) ++ advertise c (ev_Rule ev) false)
    end.

(** The loop of [expire] over the leases, deleting those that are due. *)
Fixpoint expire_loop (now : Z) (ls : list (string * lease)) (c : Controller) (out : list effect) (changed : bool)
  : Controller * list effect * bool :=
  match ls with
  | [] => (c, out, changed)
  | (id, l) :: ls' =>
      if now <? l_expiresAt l then expire_loop now ls' c out changed
      else
        let c' := set_leases (delete id (c_leases c)) c in
        expire_loop now ls' c' (out ++ withdraw_rule c' (l_rule l)) true
  end.

Definition expire (now : Z) (c : Controller) : Controller * list effect :=
  let '(c', out, changed) := expire_loop now (range_list o (map_to_list (c_leases c))) c [] false in
  (if (changed : bool) then publish o c' else c', out).

Fixpoint withdrawAll_loop (ls : list (string * lease)) (c : Controller) (out : list effect)
  : Controller * list effect :=
  match ls with
  | [] => (c, out)
  | (id, l) :: ls' =>
      let c' := set_leases (delete id (c_leases c)) c in
      withdrawAll_loop ls' c' (out ++ withdraw_rule c' (l_rule l))
  end.

Definition withdrawAll (c : Controller) : Controller * list effect :=
  let '(c', out) := withdrawAll_loop (range_list o (map_to_list (c_leases c))) c [] in (publish o c', out).
End Steps.

(** The fold over the leases that finds the earliest expiry. *)
Definition earliest (ls : list (string * lease)) : Z :=
  foldl (fun next idl => if (next =? 0) || (l_expiresAt idl.2 <? next) then l_expiresAt idl.2 else next) 0 ls.

Definition nextWake (o : RangeOrder) (now : Z) (leases : gmap string lease) : Z :=
  if bool_decide (leases = ∅) then Hour
  else
    let next := earliest (range_list o (map_to_list leases)) in
    let d := time_Sub next now in
    if 0 <? d then d else Nanosecond.

(** ** Run

    One turn of the loop of [Run]: an event or the timer, at a time, or the end
    of the context or of the event channel.  The map order of the call and what
    the updates channel takes are part of the turn. *)
Inductive turn :=
  | TEvent (now : Z) (ev : Event)
  | TTimer (now : Z)
  | TDone (deliver : Update -> bool).

Definition run_turn (o : RangeOrder) (t : turn) (c : Controller) : Controller * list effect :=
  match t with
  | TEvent now ev => applyEvent (fun _ => true) o now ev c
  | TTimer now => expire (fun _ => true) o now c
  | TDone deliver => withdrawAll deliver o c
  end.

Definition Run (turns : list (RangeOrder * turn)) (c : Controller) : Controller * list effect :=
  foldl (fun '(c, out) '(o, t) => let '(c', out') := run_turn o t c in (c', out ++ out')) (c, []) turns.
