(* ===== verification/LocalRulesFacts.v ===== *)
(** * Correctness of the lease controller

    The updates it sends keep the manager's table equal to its active leases,
    leases end on time, and the timer never sleeps past an expiry. *)
From S2P Require Import Prelude Flowspec VppTypes Translate TranslateFacts Manager ManagerFacts LocalRules.
#[local] Open Scope Z_scope.

(** ** Updates and the routing table *)
Definition sent (out : list effect) : list Update :=
  omap (fun e => match e with Sent u => Some u | Advertised _ _ => None end) out.

Lemma sent_app a b : sent (a ++ b) = sent a ++ sent b.
Proof. apply omap_app. Qed.

Lemma sent_advertise c r w : sent (advertise c r w) = [].
Proof. unfold advertise. by destruct (c_advertiser c). Qed.

Lemma sent_send_true u : sent (send (fun _ => true) u) = [u].
Proof. done. Qed.

Lemma withdrawAll_loop_spec deliver ls c out :
  exists c' out', withdrawAll_loop deliver ls c out = (c', out') /\
    c_session c' = c_session c /\ c_dryRun c' = c_dryRun c /\
    (forall id, c_leases c' !! id = if decide (id ∈ ls.*1) then None else c_leases c !! id) /\
    sent out' = sent out ++ filter (fun u => deliver u = true) ((fun idl => update_of c OpWithdraw (l_rule idl.2)) <$> ls).
Proof.
  revert c out. induction ls as [|[id0 l0] ls IH]; intros c out; cbn [withdrawAll_loop].
  { exists c, out. do 3 (split; [done|]). split; [|by rewrite app_nil_r].
    intros id. by rewrite decide_False by apply not_elem_of_nil. }
  destruct (IH (set_leases (delete id0 (c_leases c)) c) (out ++ withdraw_rule deliver (set_leases (delete id0 (c_leases c)) c) (l_rule l0)))
    as (c' & out' & -> & Hs & Hd & Hl & Ho).
  exists c', out'. do 3 (split; [done|]). split.
  - intros id. rewrite Hl. simpl. destruct (decide (id = id0)) as [->|].
    + rewrite lookup_delete_eq, (decide_True (P := id0 ∈ id0 :: _)) by left. by case_decide.
    + rewrite lookup_delete_ne by done. apply decide_ext. rewrite elem_of_cons. naive_solver.
  - rewrite Ho. unfold withdraw_rule. rewrite !sent_app, sent_advertise, app_nil_r, <-app_assoc. f_equal.
    csimpl. rewrite filter_cons. unfold send.
    change (update_of (set_leases (delete id0 (c_leases c)) c)) with (update_of c).
    destruct (deliver _) eqn:E; [by rewrite decide_True|by rewrite decide_False].
Qed.

Section Table.
Context (match_GoString : Match -> string).

Definition rib_fold (us : list Update) (rib : RIB) : RIB := foldl (fun rib u => rib_apply match_GoString u rib) rib us.

Lemma rib_fold_app us us' rib : rib_fold (us ++ us') rib = rib_fold us' (rib_fold us rib).
Proof. apply foldl_app. Qed.

Lemma rib_apply_other s id u rib : u_Session u <> s -> rib_apply match_GoString u rib !! (s, id) = rib !! (s, id).
Proof.
  intros Hs. unfold rib_apply, rib_drop.
  destruct (u_Op u), (u_Rule u) as [r|]; try destruct (is_ok _);
    rewrite ?lookup_insert_ne, ?lookup_delete_ne by congruence; try done.
  all: rewrite map_lookup_filter; destruct (rib !! (s, id)); simpl; [|done]; by rewrite option_guard_True.
Qed.

Lemma rib_apply_agree s u rib rib' :
  (forall id, rib !! (s, id) = rib' !! (s, id)) ->
  forall id, rib_apply match_GoString u rib !! (s, id) = rib_apply match_GoString u rib' !! (s, id).
Proof.
  intros E id. unfold rib_apply, rib_drop.
  destruct (u_Op u), (u_Rule u) as [r|]; try destruct (is_ok _); rewrite ?map_lookup_filter, ?E; try done.
  - destruct (decide ((u_Session u, routeIdentity match_GoString r) = (s, id))) as [->|];
      [by rewrite !lookup_insert_eq|by rewrite !lookup_insert_ne].
  - destruct (decide ((u_Session u, routeIdentity match_GoString r) = (s, id))) as [->|];
      [by rewrite !lookup_delete_eq|by rewrite !lookup_delete_ne].
  - destruct (decide ((u_Session u, routeIdentity match_GoString r) = (s, id))) as [->|];
      [by rewrite !lookup_delete_eq|by rewrite !lookup_delete_ne].
Qed.

(** The routes of a session depend on that session's updates only. *)
Lemma rib_fold_session s us rib rib' :
  (forall id, rib !! (s, id) = rib' !! (s, id)) ->
  forall id, rib_fold us rib !! (s, id) = rib_fold (filter (fun u => u_Session u = s) us) rib' !! (s, id).
Proof.
  revert rib rib'. induction us as [|u us IH]; intros rib rib' E id; [apply E|].
  rewrite filter_cons. simpl. case_decide as Hs.
  - simpl. apply IH. by apply rib_apply_agree.
  - apply IH. intros id'. by rewrite rib_apply_other.
Qed.

(** ** Leases and routes

    Rule texts determine the event they belong to ([owner_of]): the detector
    builds both from the rule name and the instance key. *)
Context (owner_of : string -> string).

Definition Event_ok (ev : Event) : Prop :=
  r_Raw (ev_Rule ev) <> "" /\ owner_of (r_Raw (ev_Rule ev)) = ev_ID ev.

Definition leases_ok (ls : gmap string lease) : Prop :=
  map_Forall (fun id l => r_Raw (l_rule l) <> "" /\ owner_of (r_Raw (l_rule l)) = id) ls.

(** The route that should be in the table under a rule text. *)
Definition expected (ls : gmap string lease) (raw : string) : option Rule :=
  l ← ls !! owner_of raw;
  if bool_decide (r_Raw (l_rule l) = raw) && is_ok (Translate (l_rule l)) then Some (l_rule l) else None.

Definition mirrors (c : Controller) (rib : RIB) : Prop :=
  leases_ok (c_leases c) /\ forall raw, rib !! (c_session c, raw) = expected (c_leases c) raw.

Lemma identity_raw r : r_Raw r <> "" -> routeIdentity match_GoString r = r_Raw r.
Proof. intros. unfold routeIdentity. by rewrite bool_decide_true. Qed.

(** Removing a lease and withdrawing its rule. *)
Lemma mirrors_remove c id l rib :
  mirrors c rib -> c_leases c !! id = Some l ->
  mirrors (set_leases (delete id (c_leases c)) c)
          (rib_apply match_GoString (update_of c OpWithdraw (l_rule l)) rib).
Proof.
  intros [Hok Hm] Hl. destruct (Hok _ _ Hl) as [Hne Hid]. split; [by apply map_Forall_delete|].
  intros raw. unfold rib_apply. simpl. rewrite identity_raw by done.
  unfold expected. destruct (decide (owner_of raw = id)) as [E|E].
  - rewrite E, lookup_delete_eq. simpl. destruct (decide (raw = r_Raw (l_rule l))) as [->|Hr].
    + apply lookup_delete_eq.
    + rewrite lookup_delete_ne by congruence. rewrite Hm. unfold expected. rewrite E, Hl. simpl.
      by rewrite bool_decide_false by congruence.
  - rewrite (lookup_delete_ne (c_leases c)) by done. rewrite lookup_delete_ne; [apply Hm|].
    intros [= <-]. congruence.
Qed.

(** Adding a lease where the event has none. *)
Lemma mirrors_add c ev t rib :
  mirrors c rib -> Event_ok ev -> c_leases c !! ev_ID ev = None ->
  mirrors (set_leases (<[ev_ID ev := {| l_rule := ev_Rule ev; l_expiresAt := t |}]> (c_leases c)) c)
          (rib_apply match_GoString (update_of c OpAnnounce (ev_Rule ev)) rib).
Proof.
  intros [Hok Hm] [Hne Hid] Hnone. split; [by apply map_Forall_insert_2|].
  intros raw. unfold rib_apply. simpl. rewrite identity_raw by done.
  assert (owner_of raw <> ev_ID ev -> expected (<[ev_ID ev := {| l_rule := ev_Rule ev; l_expiresAt := t |}]> (c_leases c)) raw =
    expected (c_leases c) raw) as Hoth by (intros; unfold expected; by rewrite lookup_insert_ne).
  destruct (decide (raw = r_Raw (ev_Rule ev))) as [->|Hr].
  - unfold expected. rewrite Hid, lookup_insert_eq. simpl. rewrite bool_decide_true by done.
    destruct (is_ok _); simpl; [by rewrite lookup_insert_eq|by rewrite lookup_delete_eq].
  - assert ((if is_ok (Translate (ev_Rule ev)) then <[(c_session c, r_Raw (ev_Rule ev)) := ev_Rule ev]> rib
             else delete (c_session c, r_Raw (ev_Rule ev)) rib) !! (c_session c, raw) = rib !! (c_session c, raw)) as ->.
    { destruct (is_ok _); [rewrite lookup_insert_ne|rewrite lookup_delete_ne]; congruence. }
    rewrite Hm. destruct (decide (owner_of raw = ev_ID ev)) as [E|E]; [|by rewrite Hoth].
    unfold expected. rewrite E, lookup_insert_eq, Hnone. simpl. by rewrite bool_decide_false by congruence.
Qed.

Lemma mirrors_publish o c rib : mirrors (publish o c) rib <-> mirrors c rib.
Proof. done. Qed.

Lemma applyEvent_mirrors o now ev c rib :
  mirrors c rib -> Event_ok ev ->
  let '(c', out) := applyEvent (fun _ => true) o now ev c in
  mirrors c' (rib_fold (sent out) rib) /\ c_session c' = c_session c.
Proof.
  intros Hm Hev. unfold applyEvent. case_bool; [done|]. case_bool; [done|]. cbn zeta.
  destruct (c_leases c !! ev_ID ev) as [l|] eqn:Hl.
  2:{ split; [|done]. rewrite mirrors_publish, sent_app, sent_advertise, app_nil_r, sent_send_true.
      by apply (mirrors_add c ev (now + ev_TTL ev) rib). }
  unfold sameRule. case_bool_decide as Hs.
  - destruct (ev_Refresh ev); split; try done. rewrite mirrors_publish. destruct Hm as [Hok Hm]. split.
    + apply map_Forall_insert_2; [|done]. by apply (Hok _ _ Hl).
    + intros raw. simpl. rewrite Hm. unfold expected. destruct (decide (owner_of raw = ev_ID ev)) as [->|].
      * by rewrite lookup_insert_eq, Hl.
      * by rewrite lookup_insert_ne.
  - split; [|done]. rewrite mirrors_publish. unfold withdraw_rule.
    rewrite !sent_app, !sent_advertise, !app_nil_r, !sent_send_true. simpl.
    pose proof (mirrors_remove c (ev_ID ev) l rib Hm Hl) as Hr.
    eapply (mirrors_add _ ev (now + ev_TTL ev)) in Hr; [|done|apply lookup_delete_eq].
    simpl in Hr. rewrite insert_delete_eq in Hr. apply Hr.
Qed.

(** ** The loops over the leases *)
Definition due (now : Z) (idl : string * lease) : bool := negb (now <? l_expiresAt idl.2).

Lemma expire_loop_spec now ls c out ch rib :
  NoDup ls.*1 -> (forall id l, (id, l) ∈ ls -> c_leases c !! id = Some l) -> mirrors c (rib_fold (sent out) rib) ->
  exists c' out', expire_loop (fun _ => true) now ls c out ch = (c', out', ch || existsb (due now) ls) /\
    mirrors c' (rib_fold (sent out') rib) /\ c_session c' = c_session c /\ c_dryRun c' = c_dryRun c /\
    forall id l, c_leases c' !! id = Some l <-> c_leases c !! id = Some l /\ ((id, l) ∈ ls -> now < l_expiresAt l).
Proof.
  revert c out ch. induction ls as [|[id0 l0] ls IH]; intros c out ch Hnd Hin Hm; simpl.
  { exists c, out. rewrite orb_false_r. do 4 (split; [done|]). intros id l.
    split; [intros ?; split; [done|by intros ?%elem_of_nil]|by intros []]. }
  apply NoDup_cons in Hnd as [Hn0 Hnd]. unfold due at 1. simpl. destruct (Z.ltb_spec now (l_expiresAt l0)) as [Hlt|Hge].
  - destruct (IH c out ch Hnd) as (c' & out' & -> & Hm' & Hs & Hd & Hl); [set_solver|done|].
    exists c', out'. do 4 (split; [done|]). intros id l. rewrite Hl, elem_of_cons.
    split; [|naive_solver]. intros [? Hx]. split; [done|]. intros [[= -> ->]|?]; auto.
  - assert (c_leases c !! id0 = Some l0) as Hl0 by (apply Hin; left).
    destruct (IH (set_leases (delete id0 (c_leases c)) c)
                 (out ++ withdraw_rule (fun _ => true) (set_leases (delete id0 (c_leases c)) c) (l_rule l0)) true Hnd)
      as (c' & out' & -> & Hm' & Hs & Hd & Hl).
    + intros id l Hx. simpl. rewrite lookup_delete_ne; [apply Hin; by right|].
      intros ->. apply Hn0. apply list_elem_of_fmap. by exists (id, l).
    + unfold withdraw_rule. rewrite !sent_app, sent_advertise, app_nil_r, sent_send_true, rib_fold_app. simpl.
      by apply (mirrors_remove c).
    + exists c', out'. rewrite orb_true_r. do 4 (split; [done|]). intros id l. rewrite Hl. simpl.
      rewrite lookup_delete_Some, elem_of_cons. split.
      * intros [[Hne ?] Hx]. split; [done|]. intros [[= -> ->]|?]; [done|auto].
      * intros [Hx Hy]. destruct (decide (id = id0)) as [->|]; [|naive_solver].
        assert (l = l0) as -> by congruence. specialize (Hy ltac:(by left)). lia.
Qed.

Lemma leases_listed o (ls : gmap string lease) :
  NoDup (range_list o (map_to_list ls)).*1 /\
  forall id l, (id, l) ∈ range_list o (map_to_list ls) <-> ls !! id = Some l.
Proof.
  split; [|intros id l; rewrite range_elem; apply elem_of_map_to_list].
  rewrite (range_perm o). apply NoDup_fst_map_to_list.
Qed.

Lemma expire_spec o now c rib :
  mirrors c rib ->
  exists c' out, expire (fun _ => true) o now c = (c', out) /\ mirrors c' (rib_fold (sent out) rib) /\
    c_session c' = c_session c /\ c_dryRun c' = c_dryRun c /\
    forall id l, c_leases c' !! id = Some l <-> c_leases c !! id = Some l /\ now < l_expiresAt l.
Proof.
  intros Hm. destruct (leases_listed o (c_leases c)) as [Hnd Hin].
  destruct (expire_loop_spec now (range_list o (map_to_list (c_leases c))) c [] false rib Hnd)
    as (c' & out & E & Hm' & Hs & Hd & Hl); [by intros id l ?%Hin|done|].
  unfold expire. rewrite E. eexists _, out. split; [done|].
  assert (forall id l, c_leases c' !! id = Some l <-> c_leases c !! id = Some l /\ now < l_expiresAt l) as Hl'.
  { intros id l. rewrite Hl, Hin. tauto. }
  by destruct (false || _).
Qed.

Lemma Run_cons (o : RangeOrder) (t : turn) turns c :
  LocalRules.Run ((o, t) :: turns) c =
  (let '(c1, out1) := run_turn o t c in let '(c2, out2) := LocalRules.Run turns c1 in (c2, out1 ++ out2)).
Proof.
  unfold LocalRules.Run. simpl. destruct (run_turn o t c) as [c1 out1]. simpl.
  assert (forall turns c out, foldl (fun '(c, out) '(o, t) => let '(c', out') := run_turn o t c in (c', out ++ out')) (c, out) turns =
    let '(c2, out2) := foldl (fun '(c, out) '(o, t) => let '(c', out') := run_turn o t c in (c', out ++ out')) (c, []) turns in
    (c2, out ++ out2)) as Happ.
  { clear. induction turns as [|[o t] turns IH]; intros c out; simpl; [by rewrite app_nil_r|].
    destruct (run_turn o t c) as [c1 out1]. rewrite (IH c1 (out ++ out1)), (IH c1 out1).
    destruct (foldl _ (c1, []) turns) as [c2 out2]. by rewrite app_assoc. }
  apply Happ.
Qed.

(** Turns of a run that is not shutting down, with events that are [Event_ok]. *)
Definition turn_ok (t : turn) : Prop :=
  match t with TEvent _ ev => Event_ok ev | TTimer _ => True | TDone _ => False end.

Lemma Run_mirrors turns c rib :
  Forall (fun ot => turn_ok ot.2) turns -> mirrors c rib ->
  let '(c', out) := LocalRules.Run turns c in
  mirrors c' (rib_fold (sent out) rib) /\ c_session c' = c_session c.
Proof.
  revert c rib. induction turns as [|[o t] turns IH]; intros c rib Ht Hm; [done|].
  apply Forall_cons in Ht as [Ht Hts]. rewrite Run_cons.
  assert (let '(c1, out1) := run_turn o t c in
          mirrors c1 (rib_fold (sent out1) rib) /\ c_session c1 = c_session c) as Hstep.
  { destruct t as [now ev|now|]; simpl in Ht |- *; [by apply applyEvent_mirrors| |done].
    destruct (expire_spec o now c rib Hm) as (c' & out & -> & ? & ? & _). done. }
  destruct (run_turn o t c) as [c1 out1]. destruct Hstep as [Hm1 Hs1].
  specialize (IH c1 _ Hts Hm1). destruct (LocalRules.Run turns c1) as [c2 out2]. destruct IH as [Hm2 Hs2].
  rewrite sent_app, rib_fold_app. split; [done|congruence].
Qed.

Lemma newController_mirrors : mirrors newController ∅.
Proof. split; [apply map_Forall_empty|]. intros raw. by rewrite lookup_empty. Qed.
End Table.

(** ** The timer *)
Lemma earliest_fold_spec (ls : list (string * lease)) next :
  Forall (fun idl => 0 < l_expiresAt idl.2) ls -> 0 <= next ->
  let r := foldl (fun next idl => if (next =? 0) || (l_expiresAt idl.2 <? next) then l_expiresAt idl.2 else next) next ls in
  (next = 0 -> ls <> [] -> 0 < r) /\ (0 < next -> 0 < r <= next) /\
  Forall (fun idl => r <= l_expiresAt idl.2) ls /\ (r = next \/ exists idl, idl ∈ ls /\ l_expiresAt idl.2 = r).
Proof.
  cbn zeta. revert next. induction ls as [|[id l] ls IH]; intros next HF Hn; simpl.
  { split; [done|]. split; [lia|]. split; [constructor|by left]. }
  apply Forall_cons in HF as [Hl HF]. simpl in Hl.
  set (next' := if (next =? 0) || (l_expiresAt l <? next) then l_expiresAt l else next).
  assert (0 < next' /\ next' <= l_expiresAt l /\ (0 < next -> next' <= next) /\ (next' = next \/ next' = l_expiresAt l)) as (H1 & H2 & H3 & H4).
  { unfold next'. destruct (Z.eqb_spec next 0), (Z.ltb_spec (l_expiresAt l) next); simpl; lia. }
  destruct (IH next' HF ltac:(lia)) as (_ & Hb & Hc & Hd). specialize (Hb H1).
  split; [lia|]. split; [lia|]. split; [constructor; [simpl; lia|done]|].
  destruct Hd as [->|(idl & Hin & Hr)].
  - destruct H4 as [-> | ->]; [by left|right]. exists (id, l). split; [left|done].
  - right. exists idl. split; [by right|done].
Qed.

Lemma earliest_spec ls :
  Forall (fun idl => 0 < l_expiresAt idl.2) ls -> ls <> [] ->
  Forall (fun idl => earliest ls <= l_expiresAt idl.2) ls /\ exists idl, idl ∈ ls /\ l_expiresAt idl.2 = earliest ls.
Proof.
  intros HF Hne. destruct (earliest_fold_spec ls 0 HF) as (H1 & _ & H2 & H3); [lia|].
  unfold earliest. split; [done|]. specialize (H1 eq_refl Hne). destruct H3 as [H3|]; [lia|done].
Qed.

(** ** Properties *)

(** The leases are what is installed.  In any interleaving [us] of updates in
    which the detector session's updates are those the controller sent, the
    manager's table holds, under the detector session, exactly the mappable rules
    of the active leases, however events, timers and map orders fall. *)
Theorem leases_are_installed (g : Match -> string) (owner_of : string -> string)
    (turns : list (RangeOrder * turn)) (us : list Update) (c : Controller) (out : list effect) :
  Forall (fun ot => turn_ok owner_of ot.2) turns ->
  LocalRules.Run turns newController = (c, out) ->
  filter (fun u => u_Session u = defaultSession) us = sent out ->
  forall raw r, rib_fold g us ∅ !! (defaultSession, raw) = Some r <->
    exists id l, c_leases c !! id = Some l /\ l_rule l = r /\ r_Raw r = raw /\ is_ok (Translate r) = true.
Proof.
  intros Ht Hrun Hus raw r. pose proof (Run_mirrors g owner_of turns newController ∅ Ht) as Hm.
  rewrite Hrun in Hm. destruct Hm as [[Hok Hm] Hs]; [apply newController_mirrors|].
  rewrite (rib_fold_session g defaultSession us ∅ ∅), Hus by done.
  rewrite Hs in Hm. rewrite Hm. unfold expected. rewrite bind_Some. split.
  - intros (l & Hl & Hif). exists (owner_of raw), l. destruct (bool_decide _ && _) eqn:E; [|done].
    injection Hif as <-. bool_hyps. done.
  - intros (id & l & Hl & <- & <- & Hi). exists l. destruct (Hok _ _ Hl) as [_ ->]. split; [done|].
    by rewrite bool_decide_true, Hi.
Qed.

Definition ex_event : Event :=
  {| ev_ID := "dns"; ev_Description := ""; ev_TTL := 60; ev_Refresh := true;
     ev_Rule := {| r_Family := r_Family ex_rule; r_Match := r_Match ex_rule; r_Action := r_Action ex_rule;
                   r_Raw := "detector:dns" |} |}.

Definition ex_turns : list (RangeOrder * turn) :=
  [(range_id, TEvent 10 ex_event); (range_id, TEvent 30 ex_event); (range_rev, TTimer 80)].

Lemma leases_are_installed_witness :
  rib_fold ex_go (sent (LocalRules.Run ex_turns newController).2) ∅ !! (defaultSession, "detector:dns") = Some (ev_Rule ex_event) <->
  exists id l, c_leases (LocalRules.Run ex_turns newController).1 !! id = Some l /\ l_rule l = ev_Rule ex_event /\
    r_Raw (ev_Rule ex_event) = "detector:dns" /\ is_ok (Translate (ev_Rule ex_event)) = true.
Proof.
  apply (leases_are_installed ex_go (fun _ => "dns") ex_turns (sent (LocalRules.Run ex_turns newController).2)
          (LocalRules.Run ex_turns newController).1 (LocalRules.Run ex_turns newController).2).
  - repeat apply Forall_cons_2; [by split..|done|constructor].
  - reflexivity.
  - reflexivity.
Defined.

(** Leases end on time.  [expire] at a time keeps exactly the leases whose
    expiry is later, for any map order, and what it sends takes the rules of the
    others, and no others, out of the manager's table. *)
Theorem expire_exact (g : Match -> string) (owner_of : string -> string) (o : RangeOrder) (now : Z) (c : Controller) (rib : RIB) :
  mirrors owner_of c rib ->
  exists c' out, expire (fun _ => true) o now c = (c', out) /\
    (forall id l, c_leases c' !! id = Some l <-> c_leases c !! id = Some l /\ now < l_expiresAt l) /\
    mirrors owner_of c' (rib_fold g (sent out) rib).
Proof.
  intros Hm. destruct (expire_spec g owner_of o now c rib Hm) as (c' & out & ? & ? & _ & _ & ?). eauto.
Qed.

Lemma expire_exact_witness :
  exists c' out, expire (fun _ => true) range_id 100 newController = (c', out) /\
    (forall id l, c_leases c' !! id = Some l <-> c_leases newController !! id = Some l /\ 100 < l_expiresAt l) /\
    mirrors id c' (rib_fold ex_go (sent out) ∅).
Proof. apply (expire_exact ex_go id range_id 100 newController ∅ (newController_mirrors id)). Defined.

(** C21: The timer is exact.  The delay is always positive; it never passes the
    expiry of a lease (one nanosecond for a lease already due); and, while no
    expiry is further away than the largest Duration, some lease is due when it
    fires. *)
Theorem next_wake_exact (o : RangeOrder) (now : Z) (leases : gmap string lease) :
  map_Forall (fun _ l => 0 < l_expiresAt l) leases ->
  0 < nextWake o now leases /\
  (forall id l, leases !! id = Some l -> now + nextWake o now leases <= Z.max (l_expiresAt l) (now + Nanosecond)) /\
  (leases <> ∅ -> (forall id l, leases !! id = Some l -> l_expiresAt l - now <= maxDuration) ->
     exists id l, leases !! id = Some l /\ l_expiresAt l <= now + nextWake o now leases).
Proof.
  intros HF. unfold nextWake. case_bool_decide as He.
  { subst. split; [done|]. split; [by intros id l ?|done]. }
  cbn zeta. destruct (leases_listed o leases) as [_ Hin].
  set (ls := range_list o (map_to_list leases)) in *.
  assert (Forall (fun idl => 0 < l_expiresAt idl.2) ls) as HFl.
  { apply Forall_forall. intros [id l] Hx%Hin. by apply (HF _ _ Hx). }
  assert (ls <> []) as Hne.
  { apply map_choose in He as (id & l & Hx). apply Hin in Hx. intros E. rewrite E in Hx. by apply elem_of_nil in Hx. }
  destruct (earliest_spec ls HFl Hne) as (Hmin & [id0 l0] & Hx0 & E0). simpl in E0. rewrite <-E0 in *.
  rewrite Forall_forall in Hmin. apply Hin in Hx0.
  unfold time_Sub, minDuration, maxDuration, Nanosecond.
  split; [case_bool; lia|]. split.
  - intros id l Hl. specialize (Hmin (id, l) ltac:(by apply Hin)). simpl in Hmin. case_bool; lia.
  - intros _ Hfar. exists id0, l0. split; [done|]. specialize (Hfar _ _ Hx0).
    unfold maxDuration in Hfar. case_bool; lia.
Qed.

Lemma next_wake_exact_witness :
  0 < nextWake range_id 5 {["a" := {| l_rule := ex_rule; l_expiresAt := 9 |}]} /\
  nextWake range_id 5 {["a" := {| l_rule := ex_rule; l_expiresAt := 9 |}]} = 4.
Proof.
  split; [|by vm_compute]. apply (next_wake_exact range_id 5 {["a" := {| l_rule := ex_rule; l_expiresAt := 9 |}]}).
  apply map_Forall_singleton. simpl. lia.
Defined.

(** Dry run and non-positive lifetimes take no action: no update is sent,
    nothing is advertised and the leases do not change. *)
Theorem dry_run_takes_no_action (deliver : Update -> bool) (o : RangeOrder) (now : Z) (ev : Event) (c : Controller) :
  c_dryRun c = true \/ ev_TTL ev <= 0 -> applyEvent deliver o now ev c = (c, []).
Proof. unfold applyEvent. intros [->|Hz]; repeat case_bool; done || lia. Qed.

Lemma dry_run_takes_no_action_witness :
  applyEvent (fun _ => true) range_id 7 ex_event (SetDryRun true newController) = (SetDryRun true newController, []).
Proof. apply dry_run_takes_no_action. by left. Defined.

(** Shutdown: [withdrawAll] leaves no lease and attempts to withdraw each of
    them once; an update is lost only if the channel did not take it. *)
Theorem shutdown_withdraws_all (deliver : Update -> bool) (o : RangeOrder) (c : Controller) :
  c_leases (withdrawAll deliver o c).1 = ∅ /\
  sent (withdrawAll deliver o c).2 =
    filter (fun u => deliver u = true)
      ((fun idl => update_of c OpWithdraw (l_rule idl.2)) <$> range_list o (map_to_list (c_leases c))).
Proof.
  unfold withdrawAll. destruct (withdrawAll_loop_spec deliver (range_list o (map_to_list (c_leases c))) c [])
    as (c' & out & -> & _ & _ & Hl & Ho). split; [|exact Ho].
  apply map_empty. intros id. simpl. rewrite Hl. case_decide as Hid; [done|].
  apply eq_None_not_Some. intros [l Hx]. apply Hid. apply list_elem_of_fmap. exists (id, l). split; [done|].
  by apply leases_listed.
Qed.
