(* ===== verification/Packet.v ===== *)
(** * Packet header decoding (internal/packet/packet.go, detector.Sample)

    Bytes are numbers below 256.  Every slice and index expression of the source
    is checked: [None] is Go's out-of-range panic (and the end of the fuel of the
    VLAN loop), so that "never panics and always returns" is a theorem.  The
    inner option is the [ok] result. *)
From S2P Require Import Prelude Netip Flowspec.
#[local] Open Scope Z_scope.

(** ** Slices and big-endian reads *)
Definition byte_wf (x : Z) : Prop := in_width 8 x.

Definition len {A} (b : list A) : Z := Z.of_nat (length b).

(** [b[lo:hi]] *)
Definition slice {A} (b : list A) (lo hi : Z) : option (list A) :=
  if (0 <=? lo) && (lo <=? hi) && (hi <=? len b)
  then Some (take (Z.to_nat (hi - lo)) (drop (Z.to_nat lo) b)) else None.

(** [b[lo:]] *)
Definition slice_from {A} (b : list A) (lo : Z) : option (list A) := slice b lo (len b).

(** [b[i]] *)
Definition index {A} (b : list A) (i : Z) : option A :=
  if 0 <=? i then b !! Z.to_nat i else None.

(** [binary.BigEndian.UintN] of a slice of the right length *)
Definition be (l : list Z) : Z := foldl (fun acc x => acc * 256 + x) 0 l.

Definition u16_at (b : list Z) (i : Z) : option Z := be <$> slice b i (i + 2).

(** ** detector.Sample *)
Record Sample := {
  s_At : Z;
  s_Family : Family;
  s_Src : Addr;
  s_Dst : Addr;
  s_Proto : Z;
  s_SrcPort : Z;
  s_DstPort : Z;
  s_PacketLen : Z;
  s_TCPFlags : Z;
  s_ICMPType : Z;
  s_ICMPCode : Z;
  s_IngressIf : string;
  s_SampleRate : Z
}.

#[global] Instance Sample_eq_dec : EqDecision Sample.
Proof. solve_decision. Defined.

Definition etherTypeIPv4 : Z := 0x0800.
Definition etherTypeIPv6 : Z := 0x86dd.
Definition etherTypeVLAN : Z := 0x8100.

Definition extHopByHop : Z := 0.
Definition extRouting : Z := 43.
Definition extFragment : Z := 44.
Definition extAH : Z := 51.
Definition extDestOpts : Z := 60.
Definition extMobility : Z := 135.

Definition ClampU16 (v : Z) : Z := if 0xffff <? v then 0xffff else u16 v.

(** Field updates of a sample. *)
Definition set_ports (sp dp flags : Z) (s : Sample) : Sample :=
  {| s_At := s_At s; s_Family := s_Family s; s_Src := s_Src s; s_Dst := s_Dst s; s_Proto := s_Proto s;
     s_SrcPort := sp; s_DstPort := dp; s_PacketLen := s_PacketLen s; s_TCPFlags := flags;
     s_ICMPType := s_ICMPType s; s_ICMPCode := s_ICMPCode s; s_IngressIf := s_IngressIf s;
     s_SampleRate := s_SampleRate s |}.

Definition set_icmp (ty code : Z) (s : Sample) : Sample :=
  {| s_At := s_At s; s_Family := s_Family s; s_Src := s_Src s; s_Dst := s_Dst s; s_Proto := s_Proto s;
     s_SrcPort := s_SrcPort s; s_DstPort := s_DstPort s; s_PacketLen := s_PacketLen s;
     s_TCPFlags := s_TCPFlags s; s_ICMPType := ty; s_ICMPCode := code; s_IngressIf := s_IngressIf s;
     s_SampleRate := s_SampleRate s |}.

(** Stamp the envelope's metadata. *)
Definition set_meta (at_ len_ rate : Z) (ifn : string) (s : Sample) : Sample :=
  {| s_At := at_; s_Family := s_Family s; s_Src := s_Src s; s_Dst := s_Dst s; s_Proto := s_Proto s;
     s_SrcPort := s_SrcPort s; s_DstPort := s_DstPort s; s_PacketLen := len_;
     s_TCPFlags := s_TCPFlags s; s_ICMPType := s_ICMPType s; s_ICMPCode := s_ICMPCode s; s_IngressIf := ifn;
     s_SampleRate := if rate =? 0 then 1 else rate |}.

(** A sample with the L3 fields only. *)
Definition l3_sample (f : Family) (src dst : Addr) (proto plen : Z) : Sample :=
  {| s_At := 0; s_Family := f; s_Src := src; s_Dst := dst; s_Proto := proto; s_SrcPort := 0; s_DstPort := 0;
     s_PacketLen := plen; s_TCPFlags := 0; s_ICMPType := 0; s_ICMPCode := 0; s_IngressIf := ""; s_SampleRate := 0 |}.

(** ** fillPorts *)
Definition fillPorts (s : Sample) (payload : list Z) : option Sample :=
  if s_Proto s =? protoTCP then
    if len payload <? 14 then Some s
    else sp ← u16_at payload 0; dp ← u16_at payload 2; fl ← index payload 13; Some (set_ports sp dp fl s)
  else if s_Proto s =? protoUDP then
    if len payload <? 4 then Some s
    else sp ← u16_at payload 0; dp ← u16_at payload 2; Some (set_ports sp dp (s_TCPFlags s) s)
  else if (s_Proto s =? protoICMP) || (s_Proto s =? protoICMPv6) then
    if len payload <? 2 then Some s
    else ty ← index payload 0; code ← index payload 1; Some (set_icmp ty code s)
  else Some s.

(** ** skipIPv6ExtHeaders

    [next] and the bytes at the upper-layer header; [None] bytes are Go's nil
    slice, which reads as empty. *)
Inductive ext_step :=
  | ExtStop (next : Z) (l4 : list Z)   (* return *)
  | ExtLen (hdrLen : Z).               (* continue after a header of this length *)

Definition ext_header (next : Z) (rest : list Z) : option ext_step :=
  if (next =? extHopByHop) || (next =? extRouting) || (next =? extDestOpts) || (next =? extMobility) then
    if len rest <? 2 then Some (ExtStop next [])
    else l ← index rest 1; Some (ExtLen ((l + 1) * 8))
  else if next =? extFragment then
    if len rest <? 8 then Some (ExtStop next [])
    else
      fo ← u16_at rest 2;
      if negb (Z.shiftr fo 3 =? 0) then n0 ← index rest 0; Some (ExtStop n0 [])
      else Some (ExtLen 8)
  else if next =? extAH then
    if len rest <? 2 then Some (ExtStop next [])
    else l ← index rest 1; Some (ExtLen ((l + 2) * 4))
  else Some (ExtStop next rest).

Fixpoint skip_loop (n : nat) (next : Z) (rest : list Z) : option (Z * list Z) :=
  match n with
  | O => Some (next, rest)
  | S n' =>
      st ← ext_header next rest;
      match st with
      | ExtStop p l4 => Some (p, l4)
      | ExtLen hdrLen =>
          if (hdrLen <=? 0) || (len rest <? hdrLen) then Some (next, [])
          else next' ← index rest 0; rest' ← slice_from rest hdrLen; skip_loop n' next' rest'
      end
  end.

Definition skipIPv6ExtHeaders (next : Z) (rest : list Z) : option (Z * list Z) := skip_loop 8 next rest.

(** ** DecodeIPv4, DecodeIPv6 *)
Definition DecodeIPv4 (b : list Z) : option (option Sample) :=
  if len b <? 20 then Some None
  else
    b0 ← index b 0;
    if negb (Z.shiftr b0 4 =? 4) then Some None
    else
      let ihl := Z.land b0 15 * 4 in
      if (ihl <? 20) || (len b <? ihl) then Some None
      else
        totalLen ← u16_at b 2;
        proto ← index b 9;
        src ← slice b 12 16;
        dst ← slice b 16 20;
        let s := l3_sample FamilyIPv4 (Addr4 (be src)) (Addr4 (be dst)) proto totalLen in
        fo ← u16_at b 6;
        if Z.land fo 0x1fff =? 0 then
          payload ← slice_from b ihl; s ← fillPorts s payload; Some (Some s)
        else Some (Some s).

Definition DecodeIPv6 (b : list Z) : option (option Sample) :=
  if len b <? 40 then Some None
  else
    b0 ← index b 0;
    if negb (Z.shiftr b0 4 =? 6) then Some None
    else
      payloadLen ← u16_at b 4;
      src ← slice b 8 24;
      dst ← slice b 24 40;
      b6 ← index b 6;
      rest ← slice_from b 40;
      pl ← skipIPv6ExtHeaders b6 rest;
      let s := l3_sample FamilyIPv6 (Addr6 (be src)) (Addr6 (be dst)) pl.1 (ClampU16 (u32 (payloadLen + 40))) in
      s ← fillPorts s pl.2; Some (Some s).

(** ** DecodeEthernet: [Some None] when a VLAN tag is truncated *)
Fixpoint vlan_loop (fuel : nat) (typ off : Z) (b : list Z) : option (option (Z * Z)) :=
  match fuel with
  | O => None
  | S fuel' =>
      if typ =? etherTypeVLAN then
        if len b <? off + 4 then Some None
        else typ' ← u16_at b (off + 2); vlan_loop fuel' typ' (off + 4) b
      else Some (Some (typ, off))
  end.

Definition DecodeEthernet (b : list Z) : option (option Sample) :=
  if len b <? 14 then Some None
  else
    typ0 ← u16_at b 12;
    r ← vlan_loop (S (length b)) typ0 14 b;
    match r with
    | None => Some None
    | Some (typ, off) =>
        if typ =? etherTypeIPv4 then rest ← slice_from b off; DecodeIPv4 rest
        else if typ =? etherTypeIPv6 then rest ← slice_from b off; DecodeIPv6 rest
        else Some None
    end.

Definition FromEthernet (b : list Z) (at_ sampleRate : Z) (ingressIf : string) : option (option Sample) :=
  r ← DecodeEthernet b;
  match r with
  | None => Some None
  | Some s => Some (Some (set_meta at_ (s_PacketLen s) sampleRate ingressIf s))
  end.
