(* ===== verification/PacketFacts.v ===== *)
(** * Correctness of header decoding

    No input makes the decoders index out of range or loop, and they invert the
    header layouts of IPv4, IPv6 with extension headers, and tagged Ethernet. *)
From S2P Require Import Prelude Netip Flowspec Packet.
#[local] Open Scope Z_scope.

(** ** Slices *)
Lemma len_nonneg {A} (b : list A) : 0 <= len b.
Proof. unfold len. lia. Qed.

Lemma len_app {A} (a b : list A) : len (a ++ b) = len a + len b.
Proof. unfold len. rewrite length_app. lia. Qed.

Lemma len_cons {A} (x : A) b : len (x :: b) = 1 + len b.
Proof. unfold len. simpl. lia. Qed.

Lemma slice_Some {A} (b : list A) lo hi : 0 <= lo -> lo <= hi -> hi <= len b -> is_Some (slice b lo hi).
Proof. intros. unfold slice. case_bool; [eauto|lia]. Qed.

Lemma slice_from_Some {A} (b : list A) lo : 0 <= lo -> lo <= len b -> is_Some (slice_from b lo).
Proof. intros. apply slice_Some; lia. Qed.

Lemma index_Some {A} (b : list A) i : 0 <= i -> i < len b -> is_Some (index b i).
Proof. intros. unfold index. case_bool; [|lia]. apply lookup_lt_is_Some. unfold len in *. lia. Qed.

Lemma u16_at_Some b i : 0 <= i -> i + 2 <= len b -> is_Some (u16_at b i).
Proof. intros. unfold u16_at. destruct (slice_Some b i (i + 2)) as [l ->]; try lia. simpl. eauto. Qed.

(** A slice that lies in the part after [a]. *)
Lemma slice_app {A} (a b : list A) lo hi :
  len a <= lo -> slice (a ++ b) lo hi = slice b (lo - len a) (hi - len a).
Proof.
  intros Hlo. pose proof (len_nonneg a). unfold slice. rewrite len_app.
  replace ((0 <=? lo) && (lo <=? hi) && (hi <=? len a + len b))
    with ((0 <=? lo - len a) && (lo - len a <=? hi - len a) && (hi - len a <=? len b)) by lia.
  case_bool; [|done]. f_equal. replace (hi - lo) with (hi - len a - (lo - len a)) by lia. f_equal.
  rewrite drop_app_ge by (unfold len in *; lia). f_equal. unfold len in *. lia.
Qed.

(** The slice that is exactly the first part. *)
Lemma slice_prefix {A} (a b : list A) n : n = len a -> slice (a ++ b) 0 n = Some a.
Proof.
  intros ->. pose proof (len_nonneg a). pose proof (len_nonneg b). unfold slice. rewrite len_app.
  case_bool; [|lia]. rewrite Z.sub_0_r. simpl. rewrite drop_0. f_equal.
  unfold len. rewrite Nat2Z.id. apply take_app_length.
Qed.

Lemma slice_at {A} (pre a b : list A) lo hi :
  lo = len pre -> hi = len pre + len a -> slice (pre ++ a ++ b) lo hi = Some a.
Proof. intros -> ->. rewrite slice_app by lia. rewrite Z.sub_diag. apply slice_prefix. lia. Qed.

Lemma slice_from_at {A} (pre b : list A) lo : lo = len pre -> slice_from (pre ++ b) lo = Some b.
Proof.
  intros ->. unfold slice_from. rewrite len_app, slice_app by lia. rewrite Z.sub_diag.
  replace (len pre + len b - len pre) with (len b) by lia.
  pose proof (slice_prefix b [] (len b) eq_refl) as E. by rewrite app_nil_r in E.
Qed.

Lemma index_at {A} (pre : list A) x b i : i = len pre -> index (pre ++ x :: b) i = Some x.
Proof.
  intros ->. unfold index, len. rewrite (proj2 (Z.leb_le 0 _)) by lia. rewrite Nat2Z.id. by rewrite list_lookup_middle.
Qed.

(** ** Big-endian fields *)
Fixpoint enc (n : nat) (v : Z) : list Z :=
  match n with
  | O => []
  | S n' => (v / 256 ^ Z.of_nat n') mod 256 :: enc n' v
  end.

Lemma enc_length n v : length (enc n v) = n.
Proof. induction n; simpl; congruence. Qed.

Lemma enc_len n v : len (enc n v) = Z.of_nat n.
Proof. unfold len. by rewrite enc_length. Qed.

Lemma be_fold acc l : foldl (fun acc x => acc * 256 + x) acc l = acc * 256 ^ len l + be l.
Proof.
  revert acc. induction l as [|x l IH]; intros acc; [unfold len, be; simpl; lia|].
  unfold be. cbn [foldl]. rewrite (IH (acc * 256 + x)), (IH (0 * 256 + x)), len_cons, Z.pow_add_r by (unfold len; lia). lia.
Qed.

Lemma be_cons x l : be (x :: l) = x * 256 ^ len l + be l.
Proof. unfold be at 1. cbn [foldl]. rewrite be_fold. lia. Qed.

Lemma be_enc_mod n v : 0 <= v -> be (enc n v) = v mod 256 ^ Z.of_nat n.
Proof.
  intros Hv. induction n as [|n IH]; [by rewrite Z.mod_1_r|].
  cbn [enc]. rewrite be_cons, IH, enc_len, Nat2Z.inj_succ, Z.pow_succ_r by lia.
  assert (0 < 256 ^ Z.of_nat n) by (apply Z.pow_pos_nonneg; lia).
  rewrite (Z.mul_comm 256), Z.rem_mul_r by lia. lia.
Qed.

Lemma be_enc n v : 0 <= v < 256 ^ Z.of_nat n -> be (enc n v) = v.
Proof. intros. rewrite be_enc_mod by lia. apply Z.mod_small. lia. Qed.

Lemma u16_at_enc pre v b i : i = len pre -> in_width 16 v -> u16_at (pre ++ enc 2 v ++ b) i = Some v.
Proof.
  intros -> Hv. unfold u16_at. rewrite slice_at by (rewrite ?enc_len; lia). cbn [fmap option_fmap option_map].
  f_equal. apply be_enc. unfold in_width in Hv. change (256 ^ Z.of_nat 2) with 65536. lia.
Qed.

(** ** No panics *)

(** Step through a bind whose first part is known to return. *)
Ltac returns H := let x := fresh "x" in let E := fresh "E" in destruct H as [x E]; [lia..|]; rewrite E; cbn [mbind option_bind].

Lemma fillPorts_returns s payload : is_Some (fillPorts s payload).
Proof.
  unfold fillPorts. repeat case_bool; eauto.
  - returns (u16_at_Some payload 0). returns (u16_at_Some payload 2). returns (index_Some payload 13). eauto.
  - returns (u16_at_Some payload 0). returns (u16_at_Some payload 2). eauto.
  - returns (index_Some payload 0). returns (index_Some payload 1). eauto.
Qed.

Lemma ext_header_returns next rest : is_Some (ext_header next rest).
Proof.
  unfold ext_header. repeat case_bool; eauto.
  - returns (index_Some rest 1). eauto.
  - returns (u16_at_Some rest 2). case_bool; [|eauto]. returns (index_Some rest 0). eauto.
  - returns (index_Some rest 1). eauto.
Qed.

Lemma skip_loop_returns n next rest : is_Some (skip_loop n next rest).
Proof.
  revert next rest. induction n as [|n IH]; intros next rest; simpl; [eauto|].
  destruct (ext_header_returns next rest) as [st ->]. simpl. destruct st as [p l4|hdrLen]; [eauto|].
  case_bool; [eauto|]. returns (index_Some rest 0). returns (slice_from_Some rest hdrLen). apply IH.
Qed.

Lemma DecodeIPv4_returns b : is_Some (DecodeIPv4 b).
Proof.
  unfold DecodeIPv4. case_bool; [eauto|]. returns (index_Some b 0). case_bool; [eauto|]. cbn zeta.
  case_bool; [eauto|]. returns (u16_at_Some b 2). returns (index_Some b 9). returns (slice_Some b 12 16).
  returns (slice_Some b 16 20). returns (u16_at_Some b 6). case_bool; [|eauto].
  returns (slice_from_Some b (Z.land x 15 * 4)).
  destruct (fillPorts_returns (l3_sample FamilyIPv4 (Addr4 (be x2)) (Addr4 (be x3)) x1 x0) x5) as [s' ->]. simpl. eauto.
Qed.

Lemma DecodeIPv6_returns b : is_Some (DecodeIPv6 b).
Proof.
  unfold DecodeIPv6. case_bool; [eauto|]. returns (index_Some b 0). case_bool; [eauto|].
  returns (u16_at_Some b 4). returns (slice_Some b 8 24). returns (slice_Some b 24 40). returns (index_Some b 6).
  returns (slice_from_Some b 40). destruct (skip_loop_returns 8 x3 x4) as [[p l4] Hs].
  unfold skipIPv6ExtHeaders. rewrite Hs. cbn [mbind option_bind].
  edestruct fillPorts_returns as [s' ->]. simpl. eauto.
Qed.

(** The VLAN loop leaves an offset inside the frame, and its fuel is enough. *)
Lemma vlan_loop_returns fuel typ off b :
  0 <= off -> off <= len b -> len b - off < 4 * Z.of_nat fuel ->
  exists r, vlan_loop fuel typ off b = Some r /\ forall t o, r = Some (t, o) -> off <= o <= len b.
Proof.
  revert typ off. induction fuel as [|fuel IH]; intros typ off H0 Hoff Hfuel; [lia|]. cbn [vlan_loop].
  case_bool; [|eexists; split; [done|]; intros t o [= -> ->]; lia].
  case_bool; [by eexists|]. returns (u16_at_Some b (off + 2)).
  destruct (IH x (off + 4)) as (r & -> & Hr); [lia..|]. exists r. split; [done|]. intros t o Ho.
  specialize (Hr t o Ho). lia.
Qed.

Lemma DecodeEthernet_returns b : is_Some (DecodeEthernet b).
Proof.
  unfold DecodeEthernet. case_bool; [eauto|]. returns (u16_at_Some b 12).
  destruct (vlan_loop_returns (S (length b)) x 14 b) as (r & -> & Hr); [lia..|unfold len; lia|].
  cbn [mbind option_bind]. destruct r as [[typ off]|]; [|eauto]. specialize (Hr typ off eq_refl).
  repeat case_bool; eauto.
  - returns (slice_from_Some b off). apply DecodeIPv4_returns.
  - returns (slice_from_Some b off). apply DecodeIPv6_returns.
Qed.

Lemma FromEthernet_returns b at_ rate ifn : is_Some (FromEthernet b at_ rate ifn).
Proof. unfold FromEthernet. destruct (DecodeEthernet_returns b) as [[s|] ->]; simpl; eauto. Qed.

(** ** Header layouts

    Upper-layer headers as far as the decoder reads them. *)
Inductive l4 :=
  | L4TCP (sp dp : Z) (seq_ack : list Z) (doff flags : Z) (rest : list Z)
  | L4UDP (sp dp : Z) (rest : list Z)
  | L4ICMP (ty code : Z) (rest : list Z)
  | L4Other (rest : list Z).

Definition l4_bytes (l : l4) : list Z :=
  match l with
  | L4TCP sp dp sa doff flags rest => enc 2 sp ++ enc 2 dp ++ sa ++ doff :: flags :: rest
  | L4UDP sp dp rest => enc 2 sp ++ enc 2 dp ++ rest
  | L4ICMP ty code rest => ty :: code :: rest
  | L4Other rest => rest
  end.

(** The header goes with the protocol number. *)
Definition l4_fits (proto : Z) (l : l4) : Prop :=
  match l with
  | L4TCP sp dp sa _ _ _ => proto = protoTCP /\ in_width 16 sp /\ in_width 16 dp /\ len sa = 8
  | L4UDP sp dp _ => proto = protoUDP /\ in_width 16 sp /\ in_width 16 dp
  | L4ICMP _ _ _ => proto = protoICMP \/ proto = protoICMPv6
  | L4Other _ => proto <> protoTCP /\ proto <> protoUDP /\ proto <> protoICMP /\ proto <> protoICMPv6
  end.

(** What a sample of the packet records of it. *)
Definition l4_fill (l : l4) (s : Sample) : Sample :=
  match l with
  | L4TCP sp dp _ _ flags _ => set_ports sp dp flags s
  | L4UDP sp dp _ => set_ports sp dp (s_TCPFlags s) s
  | L4ICMP ty code _ => set_icmp ty code s
  | L4Other _ => s
  end.

(** Encoded fields as single bytes. *)
Lemma enc2_shape v : in_width 16 v -> exists a b, enc 2 v = [a; b] /\ be [a; b] = v.
Proof. intros Hv. do 2 eexists. split; [reflexivity|]. apply (be_enc 2). unfold in_width in Hv. simpl. lia. Qed.

Lemma enc4_shape v : in_width 32 v -> exists a b c d, enc 4 v = [a; b; c; d] /\ be [a; b; c; d] = v.
Proof. intros Hv. do 4 eexists. split; [reflexivity|]. apply (be_enc 4). unfold in_width in Hv. simpl. lia. Qed.

Lemma enc_be n v : 0 <= v < 256 ^ Z.of_nat n -> exists l, enc n v = l /\ be l = v /\ length l = n.
Proof. intros. exists (enc n v). split; [done|]. split; [by apply be_enc|apply enc_length]. Qed.

Ltac byte_len := repeat (rewrite len_cons || rewrite len_app); unfold len in *; simpl length in *; lia.

Lemma slice_eval {A} (b : list A) lo hi l :
  0 <= lo -> lo <= hi -> hi <= len b -> take (Z.to_nat (hi - lo)) (drop (Z.to_nat lo) b) = l -> slice b lo hi = Some l.
Proof. intros ? ? ? <-. unfold slice. case_bool; [done|lia]. Qed.

Lemma u16_eval b i x y : 0 <= i -> i + 2 <= len b -> take 2 (drop (Z.to_nat i) b) = [x; y] -> u16_at b i = Some (be [x; y]).
Proof.
  intros ? ? E. unfold u16_at. erewrite slice_eval; [reflexivity|lia..|].
  by replace (Z.to_nat (i + 2 - i)) with 2%nat by lia.
Qed.

Lemma index_eval {A} (b : list A) i x : 0 <= i -> b !! Z.to_nat i = Some x -> index b i = Some x.
Proof. intros ? E. unfold index. by rewrite (proj2 (Z.leb_le 0 i)). Qed.

(** Read the fields of a header given byte by byte. *)
Ltac read_u16 n := erewrite (u16_eval _ n); [|lia|byte_len|reflexivity]; cbn [mbind option_bind].
Ltac read_slice n m l := rewrite (slice_eval _ n m l); [|lia|lia|byte_len|reflexivity]; cbn [mbind option_bind].
Ltac read_byte n := erewrite (index_eval _ n); [|lia|reflexivity]; cbn [mbind option_bind].
Ltac not_short := rewrite (proj2 (Z.ltb_ge _ _)) by byte_len.

Lemma fillPorts_l4 s l : l4_fits (s_Proto s) l -> fillPorts s (l4_bytes l) = Some (l4_fill l s).
Proof.
  intros Hf. unfold fillPorts.
  destruct l as [sp dp sa doff flags rest|sp dp rest|ty code rest|rest]; cbn [l4_fits l4_bytes l4_fill] in *.
  - destruct Hf as (-> & Hsp & Hdp & Hsa). cbn [Z.eqb protoTCP Pos.eqb].
    destruct (enc2_shape sp Hsp) as (s1 & s2 & -> & Es). destruct (enc2_shape dp Hdp) as (d1 & d2 & -> & Ed).
    do 8 (destruct sa as [|? sa]; [byte_len|]). destruct sa; [|byte_len]. simpl app.
    not_short. read_u16 0. read_u16 2. by rewrite Es, Ed.
  - destruct Hf as (-> & Hsp & Hdp). cbn [Z.eqb protoTCP protoUDP Pos.eqb].
    destruct (enc2_shape sp Hsp) as (s1 & s2 & -> & Es). destruct (enc2_shape dp Hdp) as (d1 & d2 & -> & Ed). simpl app.
    not_short. read_u16 0. read_u16 2. by rewrite Es, Ed.
  - assert (((s_Proto s =? protoTCP) = false) /\ ((s_Proto s =? protoUDP) = false) /\
            ((s_Proto s =? protoICMP) || (s_Proto s =? protoICMPv6)) = true) as (-> & -> & ->)
      by (unfold protoTCP, protoUDP, protoICMP, protoICMPv6 in *; lia).
    not_short. done.
  - assert (((s_Proto s =? protoTCP) = false) /\ ((s_Proto s =? protoUDP) = false) /\
            ((s_Proto s =? protoICMP) || (s_Proto s =? protoICMPv6)) = false) as (-> & -> & ->)
      by (unfold protoTCP, protoUDP, protoICMP, protoICMPv6 in *; lia). done.
Qed.

(** *** IPv4 *)
Record ipv4 := {
  v4_tos : Z; v4_len : Z; v4_id : Z; v4_frag : Z; v4_ttl : Z; v4_proto : Z; v4_sum : Z;
  v4_src : Z; v4_dst : Z; v4_options : list Z
}.

Definition ipv4_bytes (h : ipv4) (payload : list Z) : list Z :=
  (0x40 + (5 + len (v4_options h) / 4)) :: v4_tos h :: enc 2 (v4_len h) ++ enc 2 (v4_id h) ++ enc 2 (v4_frag h) ++
  v4_ttl h :: v4_proto h :: enc 2 (v4_sum h) ++ enc 4 (v4_src h) ++ enc 4 (v4_dst h) ++ v4_options h ++ payload.

Record ipv4_wf (h : ipv4) : Prop := {
  v4wf_len : in_width 16 (v4_len h);
  v4wf_id : in_width 16 (v4_id h);
  v4wf_frag : in_width 16 (v4_frag h);
  v4wf_sum : in_width 16 (v4_sum h);
  v4wf_src : in_width 32 (v4_src h);
  v4wf_dst : in_width 32 (v4_dst h);
  v4wf_opt : exists k, len (v4_options h) = 4 * k /\ 0 <= k <= 10
}.

(** Only a packet with fragment offset 0 shows its upper-layer header. *)
Definition ipv4_sample (h : ipv4) (l : l4) : Sample :=
  let s := l3_sample FamilyIPv4 (Addr4 (v4_src h)) (Addr4 (v4_dst h)) (v4_proto h) (v4_len h) in
  if Z.land (v4_frag h) 0x1fff =? 0 then l4_fill l s else s.

Lemma version_byte v k : 0 <= v < 16 -> 0 <= k < 16 -> Z.shiftr (16 * v + k) 4 = v /\ Z.land (16 * v + k) 15 = k.
Proof.
  intros Hv Hk. rewrite Z.shiftr_div_pow2 by lia. change (2 ^ 4) with 16. change 15 with (Z.ones 4).
  rewrite Z.land_ones by lia. change (2 ^ 4) with 16. split.
  - rewrite Z.mul_comm, Z.div_add_l by lia. rewrite Z.div_small by lia. lia.
  - rewrite Z.mul_comm, Z.add_comm, Z.mod_add by lia. apply Z.mod_small. lia.
Qed.

Lemma DecodeIPv4_bytes h l :
  ipv4_wf h -> l4_fits (v4_proto h) l -> DecodeIPv4 (ipv4_bytes h (l4_bytes l)) = Some (Some (ipv4_sample h l)).
Proof.
  intros [Wl Wi Wf Wc Ws Wd (k & Hopt & Hk)] Hl. unfold ipv4_bytes, ipv4_sample.
  assert (len (v4_options h) / 4 = k) as -> by (rewrite Hopt, Z.mul_comm, Z.div_mul; lia).
  destruct (version_byte 4 (5 + k)) as [Hver Hihl]; [lia..|]. change (16 * 4) with 0x40 in Hver, Hihl.
  set (b0 := 0x40 + (5 + k)) in *.
  destruct (enc2_shape _ Wl) as (l1 & l2 & -> & El). destruct (enc2_shape _ Wi) as (i1 & i2 & -> & Ei).
  destruct (enc2_shape _ Wf) as (f1 & f2 & -> & Ef). destruct (enc2_shape _ Wc) as (c1 & c2 & -> & Ec).
  destruct (enc4_shape _ Ws) as (s1 & s2 & s3 & s4 & -> & Es). destruct (enc4_shape _ Wd) as (d1 & d2 & d3 & d4 & -> & Ed).
  cbn [app]. unfold DecodeIPv4. pose proof (len_nonneg (v4_options h ++ l4_bytes l)) as Hpos.
  rewrite (proj2 (Z.ltb_ge _ 20)) by byte_len. read_byte 0.
  rewrite Hver, Hihl. cbn [Z.eqb negb Pos.eqb]. cbn zeta.
  rewrite (proj2 (Z.ltb_ge ((5 + k) * 4) 20)), orb_false_l, (proj2 (Z.ltb_ge _ ((5 + k) * 4))) by byte_len.
  read_u16 2. read_byte 9. read_slice 12 16 [s1; s2; s3; s4]. read_slice 16 20 [d1; d2; d3; d4]. read_u16 6. rewrite El, Ef, Es, Ed. case_bool; [|done].
  assert (slice_from (b0 :: v4_tos h :: l1 :: l2 :: i1 :: i2 :: f1 :: f2 :: v4_ttl h :: v4_proto h :: c1 :: c2 ::
    s1 :: s2 :: s3 :: s4 :: d1 :: d2 :: d3 :: d4 :: v4_options h ++ l4_bytes l) ((5 + k) * 4) = Some (l4_bytes l)) as ->.
  { apply (slice_from_at (b0 :: v4_tos h :: l1 :: l2 :: i1 :: i2 :: f1 :: f2 :: v4_ttl h :: v4_proto h :: c1 :: c2 ::
      s1 :: s2 :: s3 :: s4 :: d1 :: d2 :: d3 :: d4 :: v4_options h)). byte_len. }
  cbn [mbind option_bind]. by rewrite fillPorts_l4.
Qed.

(** *** IPv6 extension headers *)
Inductive ext :=
  | ExtOpts (kind k : Z) (body : list Z)      (* hop-by-hop, routing, destination options, mobility *)
  | ExtFrag0 (res low : Z) (id : list Z)      (* fragment header with offset 0 *)
  | ExtAuth (k : Z) (body : list Z).          (* authentication header *)

Definition ext_kind (e : ext) : Z :=
  match e with ExtOpts kind _ _ => kind | ExtFrag0 _ _ _ => extFragment | ExtAuth _ _ => extAH end.

Definition ext_bytes (next : Z) (e : ext) : list Z :=
  match e with
  | ExtOpts _ k body => next :: k :: body
  | ExtFrag0 res low id => next :: res :: 0 :: low :: id
  | ExtAuth k body => next :: k :: body
  end.

Definition ext_wf (e : ext) : Prop :=
  match e with
  | ExtOpts kind k body => kind ∈ [extHopByHop; extRouting; extDestOpts; extMobility] /\ 0 <= k /\ len body = 8 * k + 6
  | ExtFrag0 _ low id => 0 <= low < 8 /\ len id = 4
  | ExtAuth k body => 0 <= k /\ len body = 4 * k + 6
  end.

Definition is_ext (p : Z) : bool :=
  (p =? extHopByHop) || (p =? extRouting) || (p =? extDestOpts) || (p =? extMobility) || (p =? extFragment) || (p =? extAH).

Definition chain_next (es : list ext) (proto : Z) : Z := match es with [] => proto | e :: _ => ext_kind e end.

Fixpoint chain_bytes (es : list ext) (proto : Z) (l : list Z) : list Z :=
  match es with
  | [] => l
  | e :: es' => ext_bytes (chain_next es' proto) e ++ chain_bytes es' proto l
  end.

(** One header of the chain is measured right. *)
Lemma ext_header_wf e next rest :
  ext_wf e -> ext_header (ext_kind e) (ext_bytes next e ++ rest) = Some (ExtLen (len (ext_bytes next e))).
Proof.
  intros Hw. destruct e as [kind k body|res low id|k body]; cbn [ext_wf ext_kind ext_bytes app] in *; unfold ext_header.
  - destruct Hw as (Hk & Hk0 & Hb).
    assert ((kind =? extHopByHop) || (kind =? extRouting) || (kind =? extDestOpts) || (kind =? extMobility) = true) as ->.
    { rewrite !elem_of_cons in Hk. unfold extHopByHop, extRouting, extDestOpts, extMobility in *.
      destruct Hk as [->|[->|[->|[->|Hk]]]]; try done. by apply elem_of_nil in Hk. }
    not_short. read_byte 1. do 2 f_equal. byte_len.
  - destruct Hw as [Hl Hid]. cbn [Z.eqb extFragment extHopByHop extRouting extDestOpts extMobility Pos.eqb orb].
    not_short. read_u16 2.
    assert (Z.shiftr (be [0; low]) 3 = 0) as ->.
    { unfold be. cbn [foldl]. rewrite Z.shiftr_div_pow2 by lia. apply Z.div_small. lia. }
    cbn [Z.eqb negb]. do 2 f_equal. byte_len.
  - destruct Hw as (Hk0 & Hb). cbn [Z.eqb extFragment extHopByHop extRouting extDestOpts extMobility extAH Pos.eqb orb].
    not_short. read_byte 1. do 2 f_equal. byte_len.
Qed.

Lemma ext_header_stop p rest : is_ext p = false -> ext_header p rest = Some (ExtStop p rest).
Proof.
  unfold is_ext, ext_header. intros Hp. bool_hyps. rewrite !orb_false_r || idtac.
  repeat match goal with E : (_ =? _) = false |- _ => rewrite E; clear E end. done.
Qed.

Lemma ext_bytes_cons next e : exists r, ext_bytes next e = next :: r.
Proof. destruct e; simpl; eauto. Qed.

Lemma skip_chain n es proto l :
  (length es <= n)%nat -> Forall ext_wf es -> is_ext proto = false ->
  skip_loop n (chain_next es proto) (chain_bytes es proto l) = Some (proto, l).
Proof.
  revert n. induction es as [|e es IH]; intros n Hn Hw Hp.
  { destruct n; [done|]. cbn [skip_loop chain_next chain_bytes]. by rewrite ext_header_stop. }
  destruct n as [|n]; [simpl in Hn; lia|]. apply Forall_cons in Hw as [He Hw].
  cbn [skip_loop chain_next chain_bytes]. rewrite ext_header_wf by done. cbn [mbind option_bind].
  destruct (ext_bytes_cons (chain_next es proto) e) as [r Er].
  assert (0 < len (ext_bytes (chain_next es proto) e)) as Hpos by (rewrite Er; byte_len).
  pose proof (len_nonneg (chain_bytes es proto l)).
  rewrite (proj2 (Z.leb_gt _ _)), (proj2 (Z.ltb_ge _ _)) by (rewrite ?len_app; lia).
  rewrite slice_from_at by done. rewrite Er. cbn [app].
  read_byte 0. apply IH; [simpl in Hn; lia|done..].
Qed.

(** *** IPv6 *)
Record ipv6 := {
  v6_b0 : Z; v6_b1 : Z; v6_b2 : Z; v6_b3 : Z; v6_len : Z; v6_hop : Z; v6_src : Z; v6_dst : Z
}.

Definition ipv6_bytes (h : ipv6) (es : list ext) (proto : Z) (payload : list Z) : list Z :=
  (0x60 + v6_b0 h) :: v6_b1 h :: v6_b2 h :: v6_b3 h :: enc 2 (v6_len h) ++ chain_next es proto :: v6_hop h ::
  enc 16 (v6_src h) ++ enc 16 (v6_dst h) ++ chain_bytes es proto payload.

Record ipv6_wf (h : ipv6) : Prop := {
  v6wf_b0 : 0 <= v6_b0 h < 16;
  v6wf_len : in_width 16 (v6_len h);
  v6wf_src : in_width 128 (v6_src h);
  v6wf_dst : in_width 128 (v6_dst h)
}.

Definition ipv6_sample (h : ipv6) (proto : Z) (l : l4) : Sample :=
  l4_fill l (l3_sample FamilyIPv6 (Addr6 (v6_src h)) (Addr6 (v6_dst h)) proto (Z.min 65535 (v6_len h + 40))).

Lemma ClampU16_min v : 0 <= v -> ClampU16 v = Z.min 65535 v.
Proof.
  intros Hv. unfold ClampU16. case_bool; [lia|]. rewrite u16_small by (unfold in_width; lia). lia.
Qed.

Lemma DecodeIPv6_bytes h es proto l :
  ipv6_wf h -> (length es <= 8)%nat -> Forall ext_wf es -> is_ext proto = false -> l4_fits proto l ->
  DecodeIPv6 (ipv6_bytes h es proto (l4_bytes l)) = Some (Some (ipv6_sample h proto l)).
Proof.
  intros [W0 Wl Ws Wd] Hn Hw Hp Hl. unfold ipv6_bytes, ipv6_sample.
  destruct (version_byte 6 (v6_b0 h)) as [Hver _]; [lia..|]. change (16 * 6) with 0x60 in Hver.
  set (b0 := 0x60 + v6_b0 h) in *. destruct (enc2_shape _ Wl) as (l1 & l2 & -> & El). cbn [app].
  set (pre := [b0; v6_b1 h; v6_b2 h; v6_b3 h; l1; l2; chain_next es proto; v6_hop h]).
  change (b0 :: v6_b1 h :: v6_b2 h :: v6_b3 h :: l1 :: l2 :: chain_next es proto :: v6_hop h :: ?r) with (pre ++ r).
  assert (len pre = 8) as Hpre by done. pose proof (len_nonneg (chain_bytes es proto (l4_bytes l))) as Hr.
  assert (len (enc 16 (v6_src h)) = 16 /\ len (enc 16 (v6_dst h)) = 16) as [L1 L2] by by rewrite !enc_len.
  unfold DecodeIPv6. rewrite (proj2 (Z.ltb_ge _ 40)) by (rewrite !len_app; lia).
  rewrite (index_eval _ 0 b0) by done. cbn [mbind option_bind]. rewrite Hver. cbn [Z.eqb negb Pos.eqb].
  rewrite (u16_eval _ 4 l1 l2) by (rewrite ?len_app; done || lia). cbn [mbind option_bind].
  rewrite (slice_at pre _ _ 8 24) by lia. cbn [mbind option_bind].
  rewrite (app_assoc pre), (slice_at (pre ++ enc 16 (v6_src h)) _ _ 24 40) by (rewrite len_app; lia). cbn [mbind option_bind].
  rewrite (index_eval _ 6 (chain_next es proto)) by done. cbn [mbind option_bind].
  rewrite (app_assoc (pre ++ enc 16 (v6_src h))), slice_from_at by (rewrite !len_app; lia). cbn [mbind option_bind].
  unfold skipIPv6ExtHeaders. rewrite skip_chain by done. cbn [mbind option_bind fst snd].
  rewrite El, !be_enc by (unfold in_width in *; change (256 ^ Z.of_nat 16) with (2 ^ 128); lia).
  unfold in_width in Wl. rewrite u32_small, ClampU16_min by (unfold in_width; lia). by rewrite fillPorts_l4.
Qed.

(** *** Ethernet with VLAN tags *)
Definition tag_bytes (tags : list (list Z)) (typ : Z) : list Z :=
  concat (map (fun tci => enc 2 etherTypeVLAN ++ tci) tags) ++ enc 2 typ.

Lemma vlan_tags fuel macs pre tags typ b off :
  Forall (fun tci : list Z => len tci = 2) tags -> in_width 16 typ -> typ <> etherTypeVLAN ->
  (length tags < fuel)%nat -> off = len (macs ++ pre) ->
  forall t0, u16_at (macs ++ pre ++ tag_bytes tags typ ++ b) (off) = Some t0 ->
  vlan_loop fuel t0 (off + 2) (macs ++ pre ++ tag_bytes tags typ ++ b) =
  Some (Some (typ, off + 2 + 4 * Z.of_nat (length tags))).
Proof.
  intros Ht Wt Hne. revert fuel pre off. induction tags as [|tci tags IH]; intros fuel pre off Hf -> t0 E.
  - destruct fuel as [|fuel]; [simpl in Hf; lia|]. unfold tag_bytes in E |- *. cbn [map concat app vlan_loop length] in *.
    rewrite (app_assoc macs pre), u16_at_enc in E by done. injection E as <-.
    rewrite (proj2 (Z.eqb_neq _ _)) by done. do 3 f_equal. lia.
  - destruct fuel as [|fuel]; [simpl in Hf; lia|]. apply Forall_cons in Ht as [Ht1 Ht].
    assert (macs ++ pre ++ tag_bytes (tci :: tags) typ ++ b =
            macs ++ (pre ++ enc 2 etherTypeVLAN ++ tci) ++ tag_bytes tags typ ++ b) as Eb.
    { unfold tag_bytes. cbn [map concat]. by rewrite <-!app_assoc. }
    assert (t0 = etherTypeVLAN) as ->.
    { rewrite Eb in E. rewrite <-!app_assoc, (app_assoc macs pre), u16_at_enc in E by done. congruence. }
    rewrite Eb in *. cbn [vlan_loop]. rewrite Z.eqb_refl.
    assert (len (enc 2 typ) = 2 /\ len (enc 2 etherTypeVLAN) = 2) as [L1 L2] by by rewrite !enc_len.
    pose proof (len_nonneg b). pose proof (len_nonneg (concat (map (fun tci => enc 2 etherTypeVLAN ++ tci) tags))).
    assert (2 <= len (tag_bytes tags typ)) by (unfold tag_bytes; rewrite len_app; lia).
    rewrite (proj2 (Z.ltb_ge _ _)) by (rewrite !len_app; lia).
    replace (len (macs ++ pre) + 2 + 2) with (len (macs ++ pre ++ enc 2 etherTypeVLAN ++ tci)) by (rewrite !len_app; lia).
    destruct (u16_at_Some (macs ++ (pre ++ enc 2 etherTypeVLAN ++ tci) ++ tag_bytes tags typ ++ b)
                (len (macs ++ pre ++ enc 2 etherTypeVLAN ++ tci))) as [t1 Et1]; [apply len_nonneg|rewrite !len_app; lia|].
    rewrite Et1. cbn [mbind option_bind].
    replace (len (macs ++ pre) + 2 + 4) with (len (macs ++ pre ++ enc 2 etherTypeVLAN ++ tci) + 2) by (rewrite !len_app; lia).
    rewrite IH; [|done|simpl in Hf; lia|done|done]. do 3 f_equal. rewrite !len_app. simpl length. lia.
Qed.

(** *** Whole frames *)
Inductive inner :=
  | In4 (h : ipv4) (l : l4)
  | In6 (h : ipv6) (es : list ext) (proto : Z) (l : l4).

Definition inner_type (i : inner) : Z := match i with In4 _ _ => etherTypeIPv4 | In6 _ _ _ _ => etherTypeIPv6 end.

Definition inner_bytes (i : inner) : list Z :=
  match i with
  | In4 h l => ipv4_bytes h (l4_bytes l)
  | In6 h es proto l => ipv6_bytes h es proto (l4_bytes l)
  end.

Definition inner_wf (i : inner) : Prop :=
  match i with
  | In4 h l => ipv4_wf h /\ l4_fits (v4_proto h) l
  | In6 h es proto l => ipv6_wf h /\ (length es <= 8)%nat /\ Forall ext_wf es /\ is_ext proto = false /\ l4_fits proto l
  end.

Definition inner_sample (i : inner) : Sample :=
  match i with In4 h l => ipv4_sample h l | In6 h es proto l => ipv6_sample h proto l end.

Definition frame (macs : list Z) (tags : list (list Z)) (i : inner) : list Z :=
  macs ++ tag_bytes tags (inner_type i) ++ inner_bytes i.

Lemma tag_bytes_len tags typ :
  Forall (fun tci : list Z => len tci = 2) tags -> len (tag_bytes tags typ) = 4 * Z.of_nat (length tags) + 2.
Proof.
  assert (forall v, len (enc 2 v) = 2) as L by (intros; by rewrite enc_len).
  unfold tag_bytes. intros Ht. rewrite len_app, L. induction Ht as [|tci tags Ht _ IH]; [done|].
  cbn [map concat length]. rewrite !len_app, L. lia.
Qed.

Lemma DecodeEthernet_frame macs tags i :
  len macs = 12 -> Forall (fun tci : list Z => len tci = 2) tags -> inner_wf i ->
  DecodeEthernet (frame macs tags i) = Some (Some (inner_sample i)).
Proof.
  intros Hm Ht Hi. pose proof (tag_bytes_len tags (inner_type i) Ht) as Hl.
  pose proof (len_nonneg (inner_bytes i)) as Hn. unfold DecodeEthernet, frame.
  rewrite (proj2 (Z.ltb_ge _ 14)) by (rewrite !len_app; lia).
  destruct (u16_at_Some (macs ++ tag_bytes tags (inner_type i) ++ inner_bytes i) 12) as [t0 E]; [lia|rewrite !len_app; lia|].
  rewrite E. cbn [mbind option_bind].
  pose proof (vlan_tags (S (length (macs ++ tag_bytes tags (inner_type i) ++ inner_bytes i))) macs [] tags (inner_type i)
                (inner_bytes i) 12 Ht) as Hv. cbn [app] in Hv.
  change (12 + 2) with 14 in Hv. rewrite (Hv) with (t0 := t0); [|by destruct i|by destruct i| |by rewrite app_nil_r|done].
  2:{ rewrite !length_app. unfold len in *. lia. }
  cbn [mbind option_bind].
  assert (slice_from (macs ++ tag_bytes tags (inner_type i) ++ inner_bytes i) (14 + 4 * Z.of_nat (length tags)) =
          Some (inner_bytes i)) as Hs.
  { rewrite app_assoc. apply slice_from_at. rewrite len_app. lia. }
  destruct i as [h l|h es proto l]; cbn [inner_type inner_bytes inner_wf inner_sample] in *.
  - rewrite Z.eqb_refl, Hs. cbn [mbind option_bind]. destruct Hi. by apply DecodeIPv4_bytes.
  - cbn [Z.eqb Pos.eqb etherTypeIPv6 etherTypeIPv4]. change (inner_type (In6 h es proto l)) with etherTypeIPv6 in Hs.
    rewrite Hs. cbn [mbind option_bind]. destruct Hi as (? & ? & ? & ? & ?). by apply DecodeIPv6_bytes.
Qed.

(** ** Properties *)

(** Header decoding is total: on every byte string, however short or malformed,
    the Ethernet, IPv4 and IPv6 decoders return without an out-of-range access,
    and their loops over VLAN tags and extension headers end. *)
Theorem packet_decoders_never_panic (b : list Z) (at_ rate : Z) (ifn : string) :
  is_Some (FromEthernet b at_ rate ifn) /\ is_Some (DecodeEthernet b) /\
  is_Some (DecodeIPv4 b) /\ is_Some (DecodeIPv6 b).
Proof. auto using FromEthernet_returns, DecodeEthernet_returns, DecodeIPv4_returns, DecodeIPv6_returns. Qed.

(** C22: Decoding inverts the header layouts.  For every Ethernet frame with any
    number of VLAN tags around an IPv4 packet with options, or an IPv6 packet with
    up to eight extension headers (initial fragments included), the sample carries
    the addresses, the upper-layer protocol, the length, and the ports, flags or
    ICMP type and code of the frame; a later IPv4 fragment carries no ports. *)
Theorem decode_inverts_layout (macs : list Z) (tags : list (list Z)) (i : inner) (at_ rate : Z) (ifn : string) :
  len macs = 12 -> Forall (fun tci : list Z => len tci = 2) tags -> inner_wf i ->
  FromEthernet (frame macs tags i) at_ rate ifn =
  Some (Some (set_meta at_ (s_PacketLen (inner_sample i)) rate ifn (inner_sample i))).
Proof. intros Hm Ht Hi. unfold FromEthernet. by rewrite DecodeEthernet_frame. Qed.

(** A doubly tagged TCP segment behind a hop-by-hop and a fragment header. *)
Definition ex_inner : inner :=
  In6 {| v6_b0 := 0; v6_b1 := 0; v6_b2 := 0; v6_b3 := 0; v6_len := 40; v6_hop := 64; v6_src := 1; v6_dst := 2 |}
    [ExtOpts 0 0 [1; 4; 0; 0; 0; 0]; ExtFrag0 0 1 [0; 0; 0; 7]] 6
    (L4TCP 443 5555 [0; 0; 0; 1; 0; 0; 0; 2] 80 18 []).

Lemma decode_inverts_layout_witness :
  FromEthernet (frame (repeat 0 12) [[0; 1]; [0; 2]] ex_inner) 9 0 "eth0" =
  Some (Some (set_meta 9 (s_PacketLen (inner_sample ex_inner)) 0 "eth0" (inner_sample ex_inner))) /\
  s_DstPort (inner_sample ex_inner) = 5555.
Proof.
  split; [|by vm_compute].
  apply (decode_inverts_layout (repeat 0 12) [[0; 1]; [0; 2]] ex_inner 9 0 "eth0");
    [reflexivity|repeat constructor|].
  split; [split; unfold in_width; simpl; lia|]. split; [simpl; lia|].
  split; [|split; [reflexivity|repeat split; unfold in_width; simpl; lia]].
  constructor; [|constructor; [|constructor]].
  - split; [left|]. split; [lia|reflexivity].
  - split; [lia|reflexivity].
Defined.
