(* ===== verification/Sflow.v ===== *)
(** * sFlow v5 and PSAMPLE decoding (internal/sflow, internal/psample)

    A [reader] is the part of the datagram not yet consumed ([b[n:]] of the
    source's [reader{b, n}]); the slice expressions of its methods are checked, as
    in [Packet]: the outer option is a panic or the end of the fuel.  The loops over
    samples and records get one more than the bytes left as fuel, since every turn
    consumes eight bytes or fails. *)
From S2P Require Import Prelude GoText Netip Flowspec Packet.
#[local] Open Scope Z_scope.

(** ** A computation that panics ([None]), returns an error or a value *)
Notation fallible A := (option (result gotext A)) (only parsing).

Definition and_then {A B} (m : fallible A) (f : A -> fallible B) : fallible B :=
  match m with
  | None => None
  | Some (Err e) => Some (Err e)
  | Some (Ok a) => f a
  end.

#[local] Notation "' x <~ m ; k" := (and_then m (fun x => k)) (at level 100, x strict pattern, m at next level, right associativity).

(** ** reader *)
Definition reader := list Z.

Definition left (r : reader) : Z := len r.

(** The inner option is the [ok] result. *)
Definition rd_u32 (r : reader) : option (option (Z * reader)) :=
  if left r <? 4 then Some None
  else
    v ← slice r 0 4;
    r' ← slice_from r 4;
    Some (Some (be v, r')).

Definition rd_bytes (n : Z) (r : reader) : option (option (list Z * reader)) :=
  if (n <? 0) || (left r <? n) then Some None
  else
    v ← slice r 0 n;
    r' ← slice_from r n;
    Some (Some (v, r')).

Definition rd_take (n : Z) (r : reader) : option (list Z * reader) :=
  vr ← rd_bytes n r;
  Some (match vr with Some vr => vr | None => ([], r) end).

(** [skip]: the flag is the [ok] result. *)
Definition rd_skip (n : Z) (r : reader) : option (bool * reader) :=
  vr ← rd_bytes n r;
  Some (match vr with Some vr => (true, vr.2) | None => (false, r) end).

Definition pad4 (n : Z) : Z := (4 - n mod 4) mod 4.

Definition ifIndexName (v : Z) : string :=
  if (v =? 0) || (v =? 0x3fffffff) then "" else "ifindex:" +:+ itoa (Z.land v 0x3fffffff).

(** [if v, ok := r.u32(); !ok { return nil, fmt.Errorf(msg) }] *)
Definition need (msg : string) (r : reader) : fallible (Z * reader) :=
  vr ← rd_u32 r;
  Some (match vr with Some vr => Ok vr | None => Err (plain msg) end).

(** A run of 32-bit fields, each with its own error text; their values. *)
Fixpoint need_all (msgs : list string) (r : reader) : fallible (list Z * reader) :=
  match msgs with
  | [] => Some (Ok ([], r))
  | m :: msgs' => '(v, r) <~ need m r; '(vs, r) <~ need_all msgs' r; Some (Ok (v :: vs, r))
  end.

(** ** readAgent *)
Definition readAgent (r : reader) : option (option (Addr * reader)) :=
  t ← rd_u32 r;
  match t with
  | None => Some None
  | Some (typ, r) =>
      if typ =? 1 then
        b ← rd_bytes 4 r;
        Some (match b with Some (b, r) => Some (Addr4 (be b), r) | None => None end)
      else if typ =? 2 then
        b ← rd_bytes 16 r;
        Some (match b with Some (b, r) => Some (Addr6 (be b), r) | None => None end)
      else Some None
  end.

Definition recordRawPacketHeader : Z := 1.
Definition sampleFlowSample : Z := 1.
Definition sampleExpandedFlowSample : Z := 3.
Definition datagramVersion5 : Z := 5.
Definition headerEthernetISO8023 : Z := 1.
Definition headerIPv4 : Z := 11.
Definition headerIPv6 : Z := 12.

(** ** decodeRawHeader *)
Definition decodeRawHeader (data : list Z) (now sampleRate : Z) (inputIf : string) : option (option Sample) :=
  fields ← need_all ["protocol"; "frame length"; "stripped"; "header length"] data;
  match fields with
  | Ok ([headerProtocol; frameLen; _; headerLen], r) =>
      if left r <? headerLen then Some None
      else
        hr ← rd_take headerLen r;
        let header := hr.1 in
        d ← (if headerProtocol =? headerEthernetISO8023 then DecodeEthernet header
             else if headerProtocol =? headerIPv4 then DecodeIPv4 header
             else if headerProtocol =? headerIPv6 then DecodeIPv6 header
             else Some None);
        match d with
        | None => Some None
        | Some s => Some (Some (set_meta now (ClampU16 frameLen) sampleRate inputIf s))
        end
  | _ => Some None
  end.

(** ** Framed payloads: a type, a length, the bytes and their padding *)
Record tlv_msgs := { m_type : string; m_payload : string; m_padding : string }.

Definition read_tlv (m : tlv_msgs) (r : reader) : fallible (Z * list Z * reader) :=
  '(format, r) <~ need (m_type m) r;
  '(l, r) <~ need (m_payload m) r;
  if left r <? l then Some (Err (plain (m_payload m)))
  else
    pr ← rd_take l r;
    sk ← rd_skip (pad4 l) pr.2;
    Some (if (sk.1 : bool) then Ok (format, pr.1, sk.2) else Err (plain (m_padding m))).

Definition record_msgs : tlv_msgs :=
  {| m_type := "short flow record type"; m_payload := "short flow record payload";
     m_padding := "short flow record padding" |}.
Definition sample_msgs : tlv_msgs :=
  {| m_type := "short sflow sample type"; m_payload := "short sflow sample payload";
     m_padding := "short sflow sample padding" |}.

(** ** decodeSample *)
Fixpoint record_loop (fuel : nat) (n : Z) (now sampleRate : Z) (inputIf : string) (r : reader) (out : list Sample)
  : fallible (list Sample) :=
  if n <=? 0 then Some (Ok out)
  else
    match fuel with
    | O => None
    | S fuel' =>
        '(recordFormat, payload, r) <~ read_tlv record_msgs r;
        if negb (Z.land recordFormat 0x00000fff =? recordRawPacketHeader) then
          record_loop fuel' (n - 1) now sampleRate inputIf r out
        else
          d ← decodeRawHeader payload now sampleRate inputIf;
          record_loop fuel' (n - 1) now sampleRate inputIf r (match d with Some s => out ++ [s] | None => out end)
    end.

Definition flow_msgs : list string :=
  ["short flow sample sequence"; "short flow sample source id"; "short flow sample rate"; "short flow sample pool";
   "short flow sample drops"; "short flow sample input"; "short flow sample output"].
Definition expanded_msgs : list string :=
  ["short expanded flow sample sequence"; "short expanded flow sample source id class";
   "short expanded flow sample source id index"; "short expanded flow sample rate"; "short expanded flow sample pool";
   "short expanded flow sample drops"; "short expanded flow sample input format";
   "short expanded flow sample input value"; "short expanded flow sample output format";
   "short expanded flow sample output value"].

(** The sampling rate and the ingress interface of a flow sample; the outermost
    [None] is the [default] of the switch. *)
Definition sample_head (format : Z) (r : reader) : option (fallible (Z * string * reader)) :=
  if format =? sampleFlowSample then
    Some ('(vs, r) <~ need_all flow_msgs r;
          Some (Ok (nth 2 vs 0, ifIndexName (nth 5 vs 0), r)))
  else if format =? sampleExpandedFlowSample then
    Some ('(vs, r) <~ need_all expanded_msgs r;
          Some (Ok (nth 3 vs 0, ifIndexName (nth 7 vs 0), r)))
  else None.

Definition decodeSample (format : Z) (data : list Z) (now : Z) : fallible (list Sample) :=
  match sample_head format data with
  | None => Some (Ok [])
  | Some head =>
      '(sampleRate, inputIf, r) <~ head;
      '(records, r) <~ need "short flow sample record count" r;
      record_loop (S (length r)) records now sampleRate inputIf r []
  end.

(** ** Decode *)
Fixpoint sample_loop (fuel : nat) (n : Z) (now : Z) (r : reader) (samples : list Sample) : fallible (list Sample) :=
  if n <=? 0 then Some (Ok samples)
  else
    match fuel with
    | O => None
    | S fuel' =>
        '(format, payload, r) <~ read_tlv sample_msgs r;
        and_then (decodeSample (Z.land format 0x00000fff) payload now) (fun decoded =>
        sample_loop fuel' (n - 1) now r (samples ++ decoded))
    end.

Definition Decode (data : list Z) (now : Z) : fallible (list Sample) :=
  '(version, r) <~ need "short sflow datagram" data;
  if negb (version =? datagramVersion5) then Some (Err (Text "unsupported sflow version %d" [AInt version]))
  else
    agent ← readAgent r;
    match agent with
    | None => Some (Err (plain "short sflow agent address"))
    | Some (_, r) =>
        '(vs, r) <~ need_all ["short sflow sub-agent id"; "short sflow sequence"; "short sflow uptime"; "short sflow sample count"] r;
        sample_loop (S (length r)) (nth 3 vs 0) now r []
    end.

(** ** psample: decode

    The attributes of a message as the netlink library decodes them, in order;
    [None] when it reports an error. *)
Inductive attr :=
  | attrIIFIndex (v : Z)
  | attrSampleGroup (v : Z)
  | attrSampleRate (v : Z)
  | attrData (b : list Z)
  | attrOther.

Record psample_state := { ps_data : list Z; ps_rate : Z; ps_group : Z; ps_ifindex : Z; ps_haveGroup : bool }.

Definition ps_step (st : psample_state) (a : attr) : psample_state :=
  match a with
  | attrIIFIndex v => {| ps_data := ps_data st; ps_rate := ps_rate st; ps_group := ps_group st; ps_ifindex := v;
                         ps_haveGroup := ps_haveGroup st |}
  | attrSampleGroup v => {| ps_data := ps_data st; ps_rate := ps_rate st; ps_group := v; ps_ifindex := ps_ifindex st;
                            ps_haveGroup := true |}
  | attrSampleRate v => {| ps_data := ps_data st; ps_rate := v; ps_group := ps_group st; ps_ifindex := ps_ifindex st;
                           ps_haveGroup := ps_haveGroup st |}
  | attrData b => {| ps_data := b; ps_rate := ps_rate st; ps_group := ps_group st; ps_ifindex := ps_ifindex st;
                     ps_haveGroup := ps_haveGroup st |}
  | attrOther => st
  end.

Definition ifname (i : Z) : string := if i =? 0 then "" else "ifindex:" +:+ itoa i.

Definition psample_decode (group : Z) (attrs : option (list attr)) (now : Z) : option (option Sample) :=
  match attrs with
  | None => Some None
  | Some l =>
      let st := foldl ps_step {| ps_data := []; ps_rate := 0; ps_group := 0; ps_ifindex := 0; ps_haveGroup := false |} l in
      if len (ps_data st) =? 0 then Some None
      else if negb (group =? 0) && ps_haveGroup st && negb (ps_group st =? group) then Some None
      else FromEthernet (ps_data st) now (ps_rate st) (ifname (ps_ifindex st))
  end.

(** ** The hand-over to the detector queue

    A bounded channel: a sample that does not fit is dropped and counted. *)
Record queue := { q_cap : nat; q_items : list Sample; q_dropped : Z }.

Definition offer (q : queue) (s : Sample) : queue :=
  if (length (q_items q) <? q_cap q)%nat
  then {| q_cap := q_cap q; q_items := q_items q ++ [s]; q_dropped := q_dropped q |}
  else {| q_cap := q_cap q; q_items := q_items q; q_dropped := q_dropped q + 1 |}.

(** One datagram of the collector's [Run]: malformed datagrams are dropped whole. *)
Definition collect (data : list Z) (now : Z) (q : queue) : queue :=
  match Decode data now with
  | Some (Ok samples) => foldl offer q samples
  | _ => q
  end.

(** The messages of one receive of the PSAMPLE collector, with their times. *)
Definition psample_collect (group : Z) (msgs : list (option (list attr) * Z)) (q : queue) : queue :=
  foldl (fun q m => match psample_decode group m.1 m.2 with Some (Some s) => offer q s | _ => q end) q msgs.

(** ** The loops of [Run]

    A read returns data or fails; a failure with the context cancelled ends the
    loop, any other is logged and the loop goes on.  In between the detector takes
    samples from the channel. *)
Inductive collector_input (D : Type) :=
  | CRead (d : D)
  | CFail (cancelled : bool)
  | CTake.
Arguments CRead {D}.
Arguments CFail {D}.
Arguments CTake {D}.

Record collector := { cl_queue : queue; cl_taken : list Sample; cl_running : bool }.

Definition new_collector (cap : nat) : collector :=
  {| cl_queue := {| q_cap := cap; q_items := []; q_dropped := 0 |}; cl_taken := []; cl_running := true |}.

Definition collector_step {D} (handle : D -> queue -> queue) (c : collector) (i : collector_input D) : collector :=
  match i with
  | CTake =>
      match q_items (cl_queue c) with
      | [] => c
      | s :: rest => {| cl_queue := {| q_cap := q_cap (cl_queue c); q_items := rest; q_dropped := q_dropped (cl_queue c) |};
                        cl_taken := cl_taken c ++ [s]; cl_running := cl_running c |}
      end
  | CRead d => if cl_running c then {| cl_queue := handle d (cl_queue c); cl_taken := cl_taken c; cl_running := true |} else c
  | CFail cancelled => if cancelled then {| cl_queue := cl_queue c; cl_taken := cl_taken c; cl_running := false |} else c
  end.

Definition sflow_Run (inputs : list (collector_input (list Z * Z))) (c : collector) : collector :=
  foldl (collector_step (fun d => collect d.1 d.2)) c inputs.

Definition psample_Run (group : Z) (inputs : list (collector_input (list (option (list attr) * Z)))) (c : collector) : collector :=
  foldl (collector_step (psample_collect group)) c inputs.
