(* ===== verification/SflowFacts.v ===== *)
(** * Correctness of sFlow decoding

    Every datagram is decoded or refused in bounded time without an out-of-range
    access; well-framed datagrams give exactly the samples of their flow samples;
    the hand-over to the detector accounts for every sample. *)
From S2P Require Import Prelude GoText Netip Flowspec Packet PacketFacts Sflow.
#[local] Open Scope Z_scope.

(** ** Readers *)
Lemma rd_bytes_eq n r :
  rd_bytes n r = Some (if (n <? 0) || (left r <? n) then None else Some (take (Z.to_nat n) r, drop (Z.to_nat n) r)).
Proof.
  unfold rd_bytes, left, slice_from, slice. case_bool; [done|].
  rewrite !(proj2 (Z.leb_le _ _)) by lia. cbn [andb mbind option_bind]. rewrite Z.sub_0_r, drop_0.
  do 4 f_equal. rewrite take_ge; [done|]. rewrite length_drop. unfold len in *. lia.
Qed.

Lemma rd_u32_bytes r : rd_u32 r = vr ← rd_bytes 4 r; Some (match vr with Some (v, r') => Some (be v, r') | None => None end).
Proof.
  unfold rd_u32, rd_bytes. cbn [Z.ltb Z.compare orb]. destruct (left r <? 4); [done|].
  destruct (slice r 0 4) as [v|]; [|done]. cbn [mbind option_bind]. by destruct (slice_from r 4).
Qed.

(** What is read is a prefix, what is left a suffix. *)
Lemma rd_bytes_cases n r :
  rd_bytes n r = Some None \/ exists v r', rd_bytes n r = Some (Some (v, r')) /\ r = v ++ r' /\ len v = n.
Proof.
  rewrite rd_bytes_eq. unfold left, len. case_bool; [by left|]. right. eexists _, _. split; [done|].
  split; [by rewrite take_drop|]. rewrite length_take. lia.
Qed.

Lemma rd_u32_cases r :
  rd_u32 r = Some None \/ exists v r', rd_u32 r = Some (Some (be v, r')) /\ r = v ++ r' /\ len v = 4.
Proof. rewrite rd_u32_bytes. destruct (rd_bytes_cases 4 r) as [->|(v & r' & -> & Hr)]; [by left|]. right. by exists v, r'. Qed.

Lemma need_cases m r :
  need m r = Some (Err (plain m)) \/ exists v r', need m r = Some (Ok (be v, r')) /\ r = v ++ r' /\ len v = 4.
Proof. unfold need. destruct (rd_u32_cases r) as [->|(v & r' & -> & Hr)]; [by left|]. right. by exists v, r'. Qed.

Lemma need_all_cases ms r :
  (exists e, need_all ms r = Some (Err e)) \/ exists vs r', need_all ms r = Some (Ok (vs, r')) /\ r' `suffix_of` r /\ length vs = length ms.
Proof.
  revert r. induction ms as [|m ms IH]; intros r; cbn [need_all]; [right; by exists [], r|].
  destruct (need_cases m r) as [->|(v & r1 & -> & -> & _)]; [left; by eexists|]. cbn [and_then].
  destruct (IH r1) as [[e ->]|(vs & r2 & -> & Hs & Hl)]; [left; by eexists|]. right. exists (be v :: vs), r2.
  split; [done|]. split; [by apply suffix_app_r|]. cbn. by rewrite Hl.
Qed.

Lemma rd_take_cases n r : exists v r' pre, rd_take n r = Some (v, r') /\ r = pre ++ r' /\ (v = [] \/ v = pre).
Proof.
  unfold rd_take. destruct (rd_bytes_cases n r) as [->|(v & r' & -> & Hr & _)]; [exists [], r, []; by eauto|]. exists v, r', v. eauto.
Qed.

Lemma rd_skip_cases n r : exists b r', rd_skip n r = Some (b, r') /\ r' `suffix_of` r.
Proof.
  unfold rd_skip. destruct (rd_bytes_cases n r) as [->|(v & r' & -> & -> & _)]; [by exists false, r|]. exists true, r'. split; [done|]. by exists v.
Qed.

(** A framed payload takes at least its eight bytes of type and length. *)
Lemma read_tlv_cases m r :
  (exists e, read_tlv m r = Some (Err e)) \/
  exists f p r', read_tlv m r = Some (Ok (f, p, r')) /\ (length r' + 8 <= length r)%nat /\ r' `suffix_of` r /\ forall x, x ∈ p -> x ∈ r.
Proof.
  unfold read_tlv. destruct (need_cases (m_type m) r) as [->|(t & r1 & -> & -> & Ht)]; [left; by eexists|]. cbn [and_then].
  destruct (need_cases (m_payload m) r1) as [->|(l & r2 & -> & -> & Hl)]; [left; by eexists|]. cbn [and_then].
  case_bool; [left; by eexists|]. destruct (rd_take_cases (be l) r2) as (p & r3 & pre & -> & -> & Hp). cbn [mbind option_bind fst snd].
  destruct (rd_skip_cases (pad4 (be l)) r3) as ([] & r4 & -> & Hs); cbn; [right|left; by eexists].
  exists (be t), p, r4. split; [done|]. pose proof (suffix_length _ _ Hs). unfold len in Ht, Hl. split; [rewrite !length_app; lia|].
  split; [by do 3 apply suffix_app_r|]. intros x Hx. destruct Hp as [->| ->]; [by apply not_elem_of_nil in Hx|]. rewrite !elem_of_app. auto.
Qed.

(** ** No panics, enough fuel *)
Lemma decodeRawHeader_returns data now rate ifn : is_Some (decodeRawHeader data now rate ifn).
Proof.
  unfold decodeRawHeader. destruct (need_all_cases ["protocol"; "frame length"; "stripped"; "header length"] data) as [[e ->]|(vs & r & -> & _ & Hl)].
  { cbn. eauto. }
  cbn [mbind option_bind]. do 5 (destruct vs as [|? vs]; try done). case_bool; [eauto|].
  match goal with |- context [rd_take ?n r] => destruct (rd_take_cases n r) as (header & r' & _ & -> & _) end. cbn [mbind option_bind fst].
  match goal with |- is_Some (?d ≫= _) => assert (is_Some d) as [[s|] ->] end; [|simpl; eauto..].
  repeat case_bool; eauto using DecodeEthernet_returns, DecodeIPv4_returns, DecodeIPv6_returns.
Qed.

Lemma record_loop_returns fuel n now rate ifn r out :
  (length r < fuel)%nat -> is_Some (record_loop fuel n now rate ifn r out).
Proof.
  revert n r out. induction fuel as [|fuel IH]; intros n r out Hf; [lia|]. cbn [record_loop].
  case_bool; [eauto|]. destruct (read_tlv_cases record_msgs r) as [[e ->]|(f & p & r' & -> & Hr' & _)]; [cbn; eauto|]. cbn [and_then].
  case_bool; [apply IH; lia|]. destruct (decodeRawHeader_returns p now rate ifn) as [d ->]. cbn [mbind option_bind]. apply IH. lia.
Qed.

Lemma sample_head_cases f data :
  sample_head f data = None \/ (exists e, sample_head f data = Some (Some (Err e))) \/
  exists rate ifn r, sample_head f data = Some (Some (Ok (rate, ifn, r))) /\ r `suffix_of` data.
Proof.
  unfold sample_head. destruct (f =? sampleFlowSample); [|destruct (f =? sampleExpandedFlowSample); [|by left]]; right;
    [destruct (need_all_cases flow_msgs data) as [[e ->]|(vs & r & -> & Hs & _)]|
     destruct (need_all_cases expanded_msgs data) as [[e ->]|(vs & r & -> & Hs & _)]]; cbn [and_then];
    [left; by eexists|right; by eexists _, _, _|left; by eexists|right; by eexists _, _, _].
Qed.

Lemma decodeSample_returns f data now : is_Some (decodeSample f data now).
Proof.
  unfold decodeSample. destruct (sample_head_cases f data) as [->|[[e ->]|(rate & ifn & r & -> & _)]]; cbn [and_then]; [eauto..|].
  destruct (need_cases "short flow sample record count" r) as [->|(n & r' & -> & _)]; cbn [and_then]; [eauto|]. apply record_loop_returns. lia.
Qed.

Lemma sample_loop_returns fuel n now r out :
  (length r < fuel)%nat -> is_Some (sample_loop fuel n now r out).
Proof.
  revert n r out. induction fuel as [|fuel IH]; intros n r out Hf; [lia|]. cbn [sample_loop].
  case_bool; [eauto|]. destruct (read_tlv_cases sample_msgs r) as [[e ->]|(f & p & r' & -> & Hr' & _)]; [cbn; eauto|]. cbn [and_then].
  destruct (decodeSample_returns (Z.land f 0x00000fff) p now) as [[ds|e] ->]; cbn [and_then]; [|eauto]. apply IH. lia.
Qed.

Lemma readAgent_cases r :
  readAgent r = Some None \/ exists a r', readAgent r = Some (Some (a, r')) /\ r' `suffix_of` r.
Proof.
  unfold readAgent. destruct (rd_u32_cases r) as [->|(t & r1 & -> & -> & _)]; [by left|]. cbn [mbind option_bind].
  repeat case_bool; [..|by left].
  - destruct (rd_bytes_cases 4 r1) as [->|(v & r2 & -> & -> & _)]; [by left|right]. eexists _, _. split; [done|]. by do 2 apply suffix_app_r.
  - destruct (rd_bytes_cases 16 r1) as [->|(v & r2 & -> & -> & _)]; [by left|right]. eexists _, _. split; [done|]. by do 2 apply suffix_app_r.
Qed.

(** A datagram is refused, or read up to its samples. *)
Lemma Decode_cases data now :
  (exists e, Decode data now = Some (Err e)) \/
  exists n r, Decode data now = sample_loop (S (length r)) n now r [] /\ r `suffix_of` data.
Proof.
  unfold Decode. destruct (need_cases "short sflow datagram" data) as [->|(v & r & -> & -> & _)]; [left; by eexists|]. cbn [and_then].
  case_bool; [left; by eexists|]. destruct (readAgent_cases r) as [->|(a & r1 & -> & Hs1)]; [left; by eexists|]. cbn [mbind option_bind].
  match goal with |- context [need_all ?ms r1] => destruct (need_all_cases ms r1) as [[e ->]|(vs & r2 & -> & Hs2 & _)] end; [left; by eexists|].
  right. eexists _, r2. split; [reflexivity|]. apply suffix_app_r. by etransitivity.
Qed.

Lemma Decode_returns data now : is_Some (Decode data now).
Proof. destruct (Decode_cases data now) as [[e ->]|(n & r & -> & _)]; [eauto|]. apply sample_loop_returns. lia. Qed.

(** ** What holds of every decoded sample

    An invariant [P] of the samples that the raw headers give when their bytes
    satisfy [Q]. *)
Section Samples.
Context (Q : Z -> Prop) (P : Sample -> Prop).
Context (raw : forall data now rate ifn s, Forall Q data -> decodeRawHeader data now rate ifn = Some (Some s) -> P s).

Lemma record_loop_all fuel n now rate ifn r out l :
  Forall Q r -> record_loop fuel n now rate ifn r out = Some (Ok l) -> Forall P out -> Forall P l.
Proof using raw.
  revert n r out. induction fuel as [|fuel IH]; intros n r out Hr; cbn [record_loop]; case_bool; try by intros [= <-].
  destruct (read_tlv_cases record_msgs r) as [[e ->]|(f & p & r' & -> & _ & Hs & Hp)]; cbn [and_then]; [done|].
  assert (Forall Q r') as Hr' by (destruct Hs as [pre ->]; by apply Forall_app in Hr as [_ ?]).
  case_bool; [by apply IH|]. destruct (decodeRawHeader p now rate ifn) as [[s|]|] eqn:Er; cbn [mbind option_bind]; [|by apply IH|done].
  intros Hl Ho. eapply IH; [exact Hr'|exact Hl|]. apply Forall_app. split; [done|]. constructor; [|done].
  eapply raw; [|exact Er]. rewrite Forall_forall in Hr |- *. eauto.
Qed.

Lemma decodeSample_all f data now l : Forall Q data -> decodeSample f data now = Some (Ok l) -> Forall P l.
Proof using raw.
  intros Hd. unfold decodeSample. destruct (sample_head_cases f data) as [->|[[e ->]|(rate & ifn & r & -> & [pre ->])]]; cbn [and_then]; [intros [= <-]; constructor|done|].
  apply Forall_app in Hd as [_ Hr]. destruct (need_cases "short flow sample record count" r) as [->|(n & r' & -> & -> & _)]; cbn [and_then]; [done|].
  apply Forall_app in Hr as [_ Hr]. intros E. eapply record_loop_all; [exact Hr|exact E|constructor].
Qed.

Lemma sample_loop_all fuel n now r out l :
  Forall Q r -> sample_loop fuel n now r out = Some (Ok l) -> Forall P out -> Forall P l.
Proof using raw.
  revert n r out. induction fuel as [|fuel IH]; intros n r out Hr; cbn [sample_loop]; case_bool; try by intros [= <-].
  destruct (read_tlv_cases sample_msgs r) as [[e ->]|(f & p & r' & -> & _ & Hs & Hp)]; cbn [and_then]; [done|].
  destruct (decodeSample (Z.land f 0x00000fff) p now) as [[ds|e]|] eqn:Er; cbn [and_then]; [|done..].
  intros Hl Ho. eapply IH; [|exact Hl|].
  - destruct Hs as [pre ->]. by apply Forall_app in Hr as [_ ?].
  - apply Forall_app. split; [done|]. eapply decodeSample_all; [|exact Er]. rewrite Forall_forall in Hr |- *. eauto.
Qed.

Lemma Decode_all data now l : Forall Q data -> Decode data now = Some (Ok l) -> Forall P l.
Proof using raw.
  intros Hd. destruct (Decode_cases data now) as [[e ->]|(n & r & -> & [pre ->])]; [done|]. intros H.
  apply Forall_app in Hd as [_ Hr]. eapply sample_loop_all; [exact Hr|exact H|constructor].
Qed.
End Samples.

(** ** Samples carry a positive rate *)
Definition rate_ok (s : Sample) : Prop := s_SampleRate s <> 0.

Lemma decodeRawHeader_inv data now rate ifn s :
  decodeRawHeader data now rate ifn = Some (Some s) ->
  exists proto frameLen header s0, (forall x, x ∈ header -> x ∈ data) /\ s = set_meta now (ClampU16 frameLen) rate ifn s0 /\
    (if proto =? headerEthernetISO8023 then DecodeEthernet header else if proto =? headerIPv4 then DecodeIPv4 header
     else if proto =? headerIPv6 then DecodeIPv6 header else Some None) = Some (Some s0).
Proof.
  unfold decodeRawHeader. destruct (need_all_cases ["protocol"; "frame length"; "stripped"; "header length"] data) as [[e ->]|(vs & r & -> & [pre ->] & Hl)]; [done|].
  cbn [mbind option_bind]. do 5 (destruct vs as [|? vs]; try done). case_bool; [done|].
  match goal with |- context [rd_take ?n r] => destruct (rd_take_cases n r) as (header & r' & pre' & -> & -> & Hh) end. cbn [mbind option_bind fst].
  match goal with |- (?d ≫= _) = _ -> _ => destruct d as [[s0|]|] eqn:Ed end; cbn [mbind option_bind]; [|done..].
  intros [= <-]. eexists _, _, header, s0. split; [|by split]. intros x Hx. destruct Hh as [->| ->]; [by apply not_elem_of_nil in Hx|].
  rewrite !elem_of_app. auto.
Qed.

Lemma Decode_rate data now l : Decode data now = Some (Ok l) -> Forall rate_ok l.
Proof.
  apply (Decode_all (fun _ => True)); [|by apply Forall_true]. intros d t rate ifn s _ (p & fl & h & s0 & _ & -> & _)%decodeRawHeader_inv.
  unfold rate_ok, set_meta. cbn. case_bool; lia.
Qed.

(** ** Framing *)
Definition word (v : Z) : list Z := enc 4 v.

Definition tlv (fp : Z * list Z) : list Z :=
  word fp.1 ++ word (len fp.2) ++ fp.2 ++ repeat 0 (Z.to_nat (pad4 (len fp.2))).

Definition tlv_wf (fp : Z * list Z) : Prop := in_width 32 fp.1 /\ in_width 32 (len fp.2).

Lemma rd_bytes_app v r n : n = len v -> rd_bytes n (v ++ r) = Some (Some (v, r)).
Proof.
  intros ->. rewrite rd_bytes_eq. unfold left. rewrite len_app. pose proof (len_nonneg v). pose proof (len_nonneg r).
  rewrite (proj2 (Z.ltb_ge _ _)), orb_false_l, (proj2 (Z.ltb_ge _ _)) by lia. unfold len. rewrite Nat2Z.id.
  by rewrite take_app_length, drop_app_length.
Qed.

Lemma rd_u32_word v r : in_width 32 v -> rd_u32 (word v ++ r) = Some (Some (v, r)).
Proof.
  intros Hv. rewrite rd_u32_bytes, rd_bytes_app by (symmetry; apply enc_len). cbn [mbind option_bind]. do 3 f_equal.
  apply be_enc. unfold in_width in Hv. change (256 ^ Z.of_nat 4) with (2 ^ 32). lia.
Qed.

Lemma need_word msg v r : in_width 32 v -> need msg (word v ++ r) = Some (Ok (v, r)).
Proof. intros. unfold need. by rewrite rd_u32_word. Qed.

Lemma need_all_words msgs vs r :
  length msgs = length vs -> Forall (in_width 32) vs -> need_all msgs (concat (map word vs) ++ r) = Some (Ok (vs, r)).
Proof.
  revert vs. induction msgs as [|m msgs IH]; intros [|v vs] Hl Hw; try done. cbn [need_all map concat].
  apply Forall_cons in Hw as [Hv Hw]. rewrite <-app_assoc, need_word by done. cbn [and_then].
  rewrite IH; [done|by injection Hl|done].
Qed.

Lemma pad4_len (p : list Z) : len (repeat 0 (Z.to_nat (pad4 (len p)))) = pad4 (len p).
Proof. unfold len at 1. rewrite repeat_length, Z2Nat.id; [done|]. apply Z.mod_pos_bound. lia. Qed.

Lemma read_tlv_tlv m fp r : tlv_wf fp -> read_tlv m (tlv fp ++ r) = Some (Ok (fp.1, fp.2, r)).
Proof.
  destruct fp as [f p]. intros [Wf Wp]. unfold read_tlv, tlv. cbn [fst snd] in *. rewrite <-!app_assoc.
  rewrite need_word by done. cbn [and_then]. rewrite need_word by done. cbn [and_then].
  unfold left. rewrite !len_app, pad4_len. pose proof (len_nonneg r). pose proof (Z.mod_pos_bound (4 - len p mod 4) 4 ltac:(lia)) as Hp.
  fold (pad4 (len p)) in Hp. rewrite (proj2 (Z.ltb_ge _ _)) by lia. unfold rd_take. rewrite rd_bytes_app by done. cbn [mbind option_bind fst snd].
  unfold rd_skip. by rewrite rd_bytes_app by by rewrite pad4_len.
Qed.

(** ** Datagrams

    A type is an enterprise number and a format in the low twelve bits.  The
    standard raw packet header is type 1 (enterprise 0); the decoder looks at the
    low twelve bits only, so the types of other enterprises that end in 1 (and, of
    samples, in 3) are left out here: see [vendor_record_taken_for_raw_header]. *)

(** The sampled header: an Ethernet frame, a bare IP packet, or of another protocol. *)
Inductive header :=
  | HEthernet (macs : list Z) (tags : list (list Z)) (i : inner)
  | HIP (i : inner)
  | HOther (protocol : Z) (bytes : list Z).

Definition header_protocol (h : header) : Z :=
  match h with HEthernet _ _ _ => 1 | HIP (In4 _ _) => 11 | HIP (In6 _ _ _ _) => 12 | HOther p _ => p end.

Definition header_bytes (h : header) : list Z :=
  match h with HEthernet macs tags i => frame macs tags i | HIP i => inner_bytes i | HOther _ b => b end.

Definition header_wf (h : header) : Prop :=
  in_width 32 (header_protocol h) /\ in_width 32 (len (header_bytes h)) /\
  match h with
  | HEthernet macs tags i => len macs = 12 /\ Forall (fun tci : list Z => len tci = 2) tags /\ inner_wf i
  | HIP i => inner_wf i
  | HOther p _ => p <> 1 /\ p <> 11 /\ p <> 12
  end.

Definition header_sample (h : header) : option Sample :=
  match h with HEthernet _ _ i | HIP i => Some (inner_sample i) | HOther _ _ => None end.

Inductive record :=
  | RRaw (frameLen stripped : Z) (h : header)       (* a raw packet header *)
  | ROther (type : Z) (body : list Z).              (* any other record type *)

(** The header is a variable-length opaque: padded to four bytes inside the record. *)
Definition raw_payload (frameLen stripped : Z) (h : header) : list Z :=
  concat (map word [header_protocol h; frameLen; stripped; len (header_bytes h)]) ++
  header_bytes h ++ repeat 0 (Z.to_nat (pad4 (len (header_bytes h)))).

Definition record_tlv (c : record) : Z * list Z :=
  match c with
  | RRaw fl st h => (1, raw_payload fl st h)
  | ROther f body => (f, body)
  end.

Definition record_wf (c : record) : Prop :=
  tlv_wf (record_tlv c) /\
  match c with
  | RRaw fl st h => in_width 32 fl /\ in_width 32 st /\ header_wf h
  | ROther f _ => Z.land f 0xfff <> 1
  end.

(** Flow samples (format 1 or, expanded, 3) and other sample types. *)
Inductive sample :=
  | SFlow (expanded : bool) (fields : list Z) (records : list record)
  | SOther (format : Z) (body : list Z).

Definition flow_rate (expanded : bool) (fields : list Z) : Z := nth (if expanded then 3 else 2)%nat fields 0.
Definition flow_input (expanded : bool) (fields : list Z) : Z := nth (if expanded then 7 else 5)%nat fields 0.

Definition sample_tlv (s : sample) : Z * list Z :=
  match s with
  | SFlow expanded fields records =>
      (if expanded then 3 else 1,
       concat (map word (fields ++ [Z.of_nat (length records)])) ++ concat (map (fun c => tlv (record_tlv c)) records))
  | SOther f body => (f, body)
  end.

Definition sample_wf (s : sample) : Prop :=
  tlv_wf (sample_tlv s) /\
  match s with
  | SFlow expanded fields records =>
      length fields = (if expanded then 10 else 7)%nat /\ Forall (in_width 32) fields /\
      in_width 32 (Z.of_nat (length records)) /\ Forall record_wf records
  | SOther f _ => Z.land f 0xfff <> 1 /\ Z.land f 0xfff <> 3
  end.

(** What the datagram says about the sampled packets. *)
Definition record_sample (now rate : Z) (ifn : string) (c : record) : option Sample :=
  match c with
  | RRaw fl _ h => set_meta now (Z.min 65535 fl) rate ifn <$> header_sample h
  | ROther _ _ => None
  end.

Definition sample_samples (now : Z) (s : sample) : list Sample :=
  match s with
  | SFlow e fields records => omap (record_sample now (flow_rate e fields) (ifIndexName (flow_input e fields))) records
  | SOther _ _ => []
  end.

Lemma decodeRawHeader_raw fl st h now rate ifn :
  in_width 32 fl -> in_width 32 st -> header_wf h ->
  decodeRawHeader (raw_payload fl st h) now rate ifn = Some (set_meta now (Z.min 65535 fl) rate ifn <$> header_sample h).
Proof.
  intros Wf Ws (Wp & Wl & Hh). unfold decodeRawHeader, raw_payload.
  rewrite need_all_words; [|done|by repeat apply Forall_cons_2]. cbn [mbind option_bind].
  unfold left. rewrite len_app, pad4_len. pose proof (Z.mod_pos_bound (4 - len (header_bytes h) mod 4) 4 ltac:(lia)) as Hp.
  fold (pad4 (len (header_bytes h))) in Hp. rewrite (proj2 (Z.ltb_ge _ _)) by lia.
  unfold rd_take. rewrite rd_bytes_app by done. cbn [mbind option_bind fst].
  unfold headerEthernetISO8023, headerIPv4, headerIPv6. rewrite <-(ClampU16_min fl) by (unfold in_width in Wf; lia).
  destruct h as [macs tags i|[h4 l|h6 es proto l]|p b]; cbn [header_protocol header_bytes header_sample] in *; cbn [Z.eqb Pos.eqb].
  - destruct Hh as (? & ? & ?). by rewrite DecodeEthernet_frame.
  - destruct Hh as [? ?]. cbn [inner_bytes]. by rewrite (DecodeIPv4_bytes h4 l).
  - destruct Hh as (? & ? & ? & ? & ?). cbn [inner_bytes]. by rewrite (DecodeIPv6_bytes h6 es proto l).
  - destruct Hh as (? & ? & ?). by rewrite !(proj2 (Z.eqb_neq _ _)).
Qed.

Lemma record_loop_records fuel now rate ifn records r out :
  Forall record_wf records -> (length records <= fuel)%nat ->
  record_loop fuel (Z.of_nat (length records)) now rate ifn (concat (map (fun c => tlv (record_tlv c)) records) ++ r) out =
  Some (Ok (out ++ omap (record_sample now rate ifn) records)).
Proof.
  revert fuel out. induction records as [|c records IH]; intros fuel out Hw Hf.
  { destruct fuel; simpl; by rewrite app_nil_r. }
  destruct fuel as [|fuel]; [simpl in Hf; lia|]. apply Forall_cons in Hw as [Hc Hw].
  cbn [record_loop map concat length]. rewrite (proj2 (Z.leb_gt _ 0)) by lia.
  rewrite <-app_assoc, read_tlv_tlv by apply Hc.
  replace (Z.of_nat (S (length records)) - 1) with (Z.of_nat (length records)) by lia.
  cbn [and_then]. destruct c as [fl st h|f body]; cbn [record_tlv fst snd] in *.
  - cbn [Z.land Pos.land Z.eqb recordRawPacketHeader negb Pos.eqb]. destruct Hc as (_ & ? & ? & ?). rewrite decodeRawHeader_raw by done.
    destruct (header_sample h) as [s|] eqn:Eh; csimpl; (rewrite IH; [|done|simpl in Hf; lia]); rewrite Eh; [by rewrite <-app_assoc|done].
  - destruct Hc as [_ Hne]. rewrite (proj2 (Z.eqb_neq _ _)) by done. cbn [negb].
    rewrite IH; [done|done|simpl in Hf; lia].
Qed.

Lemma words_app vs v : concat (map word (vs ++ [v])) = concat (map word vs) ++ word v.
Proof. rewrite map_app, concat_app. cbn [map concat]. by rewrite app_nil_r. Qed.

Lemma tlvs_length {A} (f : A -> Z * list Z) l : (length l <= length (concat (map (fun c => tlv (f c)) l)))%nat.
Proof.
  induction l as [|c l IH]; [done|]. cbn [map concat length]. rewrite length_app.
  assert (4 <= length (tlv (f c)))%nat; [|lia]. unfold tlv, word. rewrite length_app, enc_length. lia.
Qed.

Lemma decodeSample_sample s now :
  sample_wf s -> decodeSample (Z.land (sample_tlv s).1 0xfff) (sample_tlv s).2 now = Some (Ok (sample_samples now s)).
Proof.
  intros [_ Hw]. destruct s as [e fields records|f body]; cbn [sample_tlv fst snd] in *.
  - destruct Hw as (Hl & Hfw & Hn & Hr). unfold decodeSample. rewrite words_app, <-app_assoc.
    assert (sample_head (Z.land (if e then 3 else 1) 0xfff)
        (concat (map word fields) ++ word (Z.of_nat (length records)) ++ concat (map (fun c => tlv (record_tlv c)) records)) =
      Some (Some (Ok (flow_rate e fields, ifIndexName (flow_input e fields),
                word (Z.of_nat (length records)) ++ concat (map (fun c => tlv (record_tlv c)) records))))) as ->.
    { unfold sample_head. destruct e.
      - change (Z.land 3 0xfff) with 3. cbn [Z.eqb sampleFlowSample sampleExpandedFlowSample Pos.eqb].
        by rewrite need_all_words by by rewrite ?Hl.
      - change (Z.land 1 0xfff) with 1. cbn [Z.eqb sampleFlowSample Pos.eqb].
        by rewrite need_all_words by by rewrite ?Hl. }
    cbn [and_then]. rewrite need_word by done. cbn [and_then]. rewrite <-(app_nil_r (concat (map (fun c => tlv (record_tlv c)) records))).
    rewrite record_loop_records; [done|done|]. rewrite app_nil_r. pose proof (tlvs_length record_tlv records). lia.
  - destruct Hw as [H1 H3]. unfold decodeSample, sample_head, sampleFlowSample, sampleExpandedFlowSample.
    by rewrite !(proj2 (Z.eqb_neq _ _)) by done.
Qed.

Lemma sample_loop_samples fuel now ss r out :
  Forall sample_wf ss -> (length ss <= fuel)%nat ->
  sample_loop fuel (Z.of_nat (length ss)) now (concat (map (fun s => tlv (sample_tlv s)) ss) ++ r) out =
  Some (Ok (out ++ concat (map (sample_samples now) ss))).
Proof.
  revert fuel out. induction ss as [|s ss IH]; intros fuel out Hw Hf.
  { destruct fuel; simpl; by rewrite app_nil_r. }
  destruct fuel as [|fuel]; [simpl in Hf; lia|]. apply Forall_cons in Hw as [Hs Hw].
  cbn [sample_loop map concat length]. rewrite (proj2 (Z.leb_gt _ 0)) by lia.
  rewrite <-app_assoc, read_tlv_tlv by apply Hs. cbn [and_then]. rewrite decodeSample_sample by done. cbn [and_then].
  replace (Z.of_nat (S (length ss)) - 1) with (Z.of_nat (length ss)) by lia.
  rewrite IH; [by rewrite <-app_assoc|done|simpl in Hf; lia].
Qed.

(** A datagram of an IPv4 or IPv6 agent. *)
Record datagram := {
  dg_v6 : bool; dg_agent : Z; dg_sub : Z; dg_seq : Z; dg_uptime : Z; dg_samples : list sample
}.

Definition datagram_bytes (d : datagram) : list Z :=
  word 5 ++ (if dg_v6 d then word 2 ++ enc 16 (dg_agent d) else word 1 ++ enc 4 (dg_agent d)) ++
  concat (map word [dg_sub d; dg_seq d; dg_uptime d; Z.of_nat (length (dg_samples d))]) ++
  concat (map (fun s => tlv (sample_tlv s)) (dg_samples d)).

Record datagram_wf (d : datagram) : Prop := {
  dg_words : Forall (in_width 32) [dg_sub d; dg_seq d; dg_uptime d; Z.of_nat (length (dg_samples d))];
  dg_wf : Forall sample_wf (dg_samples d)
}.

Lemma readAgent_bytes (v6 : bool) agent r :
  exists a, readAgent ((if v6 then word 2 ++ enc 16 agent else word 1 ++ enc 4 agent) ++ r) = Some (Some (a, r)).
Proof.
  unfold readAgent. destruct v6; rewrite <-app_assoc, rd_u32_word by by unfold in_width.
  - cbn [mbind option_bind Z.eqb Pos.eqb]. rewrite rd_bytes_app by by rewrite enc_len. cbn. eauto.
  - cbn [mbind option_bind Z.eqb Pos.eqb]. rewrite rd_bytes_app by by rewrite enc_len. cbn. eauto.
Qed.

Lemma Decode_datagram d now :
  datagram_wf d -> Decode (datagram_bytes d) now = Some (Ok (concat (map (sample_samples now) (dg_samples d)))).
Proof.
  intros [Ww Ws]. unfold Decode, datagram_bytes. rewrite need_word by by unfold in_width.
  cbn [and_then Z.eqb datagramVersion5 negb Pos.eqb].
  destruct (readAgent_bytes (dg_v6 d) (dg_agent d)
    (concat (map word [dg_sub d; dg_seq d; dg_uptime d; Z.of_nat (length (dg_samples d))]) ++
     concat (map (fun s => tlv (sample_tlv s)) (dg_samples d)))) as [a ->].
  cbn [mbind option_bind]. rewrite need_all_words by done. cbn [and_then nth].
  rewrite <-(app_nil_r (concat (map (fun s => tlv (sample_tlv s)) (dg_samples d)))).
  rewrite sample_loop_samples; [done|done|]. rewrite app_nil_r. pose proof (tlvs_length sample_tlv (dg_samples d)). lia.
Qed.

(** ** Hand-over *)
(** What a bounded hand-over of samples does: some are queued, in their order, and
    the others are counted. *)
Lemma offers_split q ss :
  (length (q_items q) <= q_cap q)%nat ->
  exists kept dropped, q_items (foldl offer q ss) = q_items q ++ kept /\ sublist kept ss /\ Permutation ss (kept ++ dropped) /\
    q_dropped (foldl offer q ss) = q_dropped q + Z.of_nat (length dropped) /\
    q_cap (foldl offer q ss) = q_cap q /\ (length (q_items (foldl offer q ss)) <= q_cap q)%nat.
Proof.
  revert q. induction ss as [|s ss IH]; intros q Hq.
  { exists [], []. cbn. rewrite app_nil_r, Z.add_0_r. repeat split; done. }
  cbn [foldl]. destruct (Nat.ltb_spec (length (q_items q)) (q_cap q)) as [Hlt|Hge].
  - assert (offer q s = {| q_cap := q_cap q; q_items := q_items q ++ [s]; q_dropped := q_dropped q |}) as ->.
    { unfold offer. by rewrite (proj2 (Nat.ltb_lt _ _)). }
    destruct (IH {| q_cap := q_cap q; q_items := q_items q ++ [s]; q_dropped := q_dropped q |}) as (k & d & E & Hs & Hp & Hd & Hc & Hl);
      cbn [q_items q_dropped q_cap] in *; [rewrite length_app; simpl; lia|].
    exists (s :: k), d. rewrite E, <-app_assoc. split; [done|]. split; [by apply sublist_skip|]. split; [by rewrite Hp|].
    by rewrite E, <-app_assoc in Hl.
  - assert (offer q s = {| q_cap := q_cap q; q_items := q_items q; q_dropped := q_dropped q + 1 |}) as ->.
    { unfold offer. by rewrite (proj2 (Nat.ltb_ge _ _)). }
    destruct (IH {| q_cap := q_cap q; q_items := q_items q; q_dropped := q_dropped q + 1 |}) as (k & d & E & Hs & Hp & Hd & Hc & Hl);
      cbn [q_items q_dropped q_cap] in *; [done|].
    exists k, (s :: d). split; [done|]. split; [by apply sublist_cons|]. split; [by rewrite Hp, Permutation_middle|].
    split; [rewrite Hd; cbn [length]; lia|done].
Qed.

(** The samples of the reads until the loop ends. *)
Fixpoint heard {D} (samples : D -> list Sample) (is_ : list (collector_input D)) : list Sample :=
  match is_ with
  | [] => []
  | CRead d :: is' => samples d ++ heard samples is'
  | CFail true :: _ => []
  | CFail false :: is' | CTake :: is' => heard samples is'
  end.

Definition sflow_samples (d : list Z * Z) : list Sample :=
  match Decode d.1 d.2 with Some (Ok l) => l | _ => [] end.

Definition psample_samples (group : Z) (msgs : list (option (list attr) * Z)) : list Sample :=
  omap (fun m => match psample_decode group m.1 m.2 with Some r => r | None => None end) msgs.

Lemma heard_rate reads : Forall rate_ok (heard sflow_samples reads).
Proof.
  induction reads as [|[d|[]|] reads IH]; cbn [heard]; try done. apply Forall_app. split; [|done].
  unfold sflow_samples. destruct (Decode d.1 d.2) as [[l|]|] eqn:E; try done. by apply Decode_rate in E.
Qed.

Lemma collect_offers d q : collect d.1 d.2 q = foldl offer q (sflow_samples d).
Proof. unfold collect, sflow_samples. by destruct (Decode _ _) as [[]|]. Qed.

Lemma psample_offers group msgs q : psample_collect group msgs q = foldl offer q (psample_samples group msgs).
Proof.
  unfold psample_collect, psample_samples. revert q. induction msgs as [|m msgs IH]; intros q; [done|]. cbn [foldl omap list_omap].
  rewrite IH. by destruct (psample_decode group m.1 m.2) as [[]|].
Qed.

(** A collector that no longer runs only gives samples away. *)
Lemma stopped_collector {D} (handle : D -> queue -> queue) is_ c :
  cl_running c = false -> (length (q_items (cl_queue c)) <= q_cap (cl_queue c))%nat ->
  let c' := foldl (collector_step handle) c is_ in
  cl_taken c' ++ q_items (cl_queue c') = cl_taken c ++ q_items (cl_queue c) /\ q_dropped (cl_queue c') = q_dropped (cl_queue c) /\
  (length (q_items (cl_queue c')) <= q_cap (cl_queue c))%nat.
Proof.
  cbn zeta. revert c. induction is_ as [|i is_ IH]; intros c Hr Hq; [done|]. cbn [foldl].
  destruct i as [d|[]|]; cbn [collector_step]; [rewrite Hr; by apply IH|by apply (IH {| cl_queue := _; cl_taken := _; cl_running := false |})|by apply IH|].
  destruct (q_items (cl_queue c)) as [|s rest] eqn:E; [rewrite <-E; apply IH; [done|by rewrite E]|].
  destruct (IH {| cl_queue := {| q_cap := q_cap (cl_queue c); q_items := rest; q_dropped := q_dropped (cl_queue c) |};
                  cl_taken := cl_taken c ++ [s]; cl_running := cl_running c |}) as (H1 & H2 & H3); cbn in *; [done|lia|].
  by rewrite H1, <-app_assoc.
Qed.

Lemma collector_accounts {D} (handle : D -> queue -> queue) (samples : D -> list Sample) is_ c :
  (forall d q, handle d q = foldl offer q (samples d)) ->
  cl_running c = true -> (length (q_items (cl_queue c)) <= q_cap (cl_queue c))%nat ->
  let c' := foldl (collector_step handle) c is_ in
  exists kept dropped, cl_taken c' ++ q_items (cl_queue c') = (cl_taken c ++ q_items (cl_queue c)) ++ kept /\
    sublist kept (heard samples is_) /\ Permutation (heard samples is_) (kept ++ dropped) /\
    q_dropped (cl_queue c') = q_dropped (cl_queue c) + Z.of_nat (length dropped) /\
    (length (q_items (cl_queue c')) <= q_cap (cl_queue c))%nat.
Proof.
  intros Hh. cbn zeta. revert c. induction is_ as [|i is_ IH]; intros c Hr Hq.
  { exists [], []. cbn. rewrite app_nil_r, Z.add_0_r. repeat split; done. }
  cbn [foldl]. destruct i as [d|[]|]; cbn [collector_step heard].
  - rewrite Hr. destruct (offers_split (cl_queue c) (samples d) Hq) as (k1 & d1 & E1 & S1 & P1 & D1 & C1 & L1). rewrite <-Hh in *.
    destruct (IH {| cl_queue := handle d (cl_queue c); cl_taken := cl_taken c; cl_running := true |}) as (k2 & d2 & E2 & S2 & P2 & D2 & L2);
      cbn [cl_queue cl_taken cl_running] in *; [done|lia|].
    exists (k1 ++ k2), (d1 ++ d2). rewrite E2, E1, !app_assoc. split; [done|]. split; [by apply sublist_app|].
    split; [|split; [rewrite D2, D1, length_app; lia|lia]].
    rewrite P1, P2. rewrite <-!app_assoc. f_equiv. rewrite !app_assoc. f_equiv. apply Permutation_app_comm.
  - destruct (stopped_collector handle is_ {| cl_queue := cl_queue c; cl_taken := cl_taken c; cl_running := false |} eq_refl Hq) as (H1 & H2 & H3).
    exists [], []. cbn [cl_queue cl_taken] in *. rewrite H1, H2, app_nil_r, Z.add_0_r. repeat split; done.
  - by apply IH.
  - destruct (q_items (cl_queue c)) as [|s rest] eqn:E; [rewrite <-E; apply IH; [done|by rewrite E]|].
    destruct (IH {| cl_queue := {| q_cap := q_cap (cl_queue c); q_items := rest; q_dropped := q_dropped (cl_queue c) |};
                    cl_taken := cl_taken c ++ [s]; cl_running := cl_running c |}) as (k & d & E2 & Hs & Hp & Hd & Hl); cbn in *; [done|lia|].
    exists k, d. rewrite E2. split; [by rewrite <-!app_assoc|done].
Qed.

(** ** Properties *)

(** C24: sFlow decoding is total: every datagram, however malformed, is decoded or
    refused with an error, without an out-of-range access and within one loop turn
    per eight bytes; a PSAMPLE message likewise. *)
Theorem sflow_decode_total (data : list Z) (now group : Z) (attrs : option (list attr)) :
  is_Some (Decode data now) /\ is_Some (psample_decode group attrs now).
Proof.
  split; [apply Decode_returns|]. unfold psample_decode. destruct attrs as [l|]; [|eauto]. cbn zeta.
  repeat case_bool; eauto using FromEthernet_returns.
Qed.


Definition ex_inner4 : inner :=
  In4 {| v4_tos := 0; v4_len := 60; v4_id := 7; v4_frag := 0; v4_ttl := 64; v4_proto := 17; v4_sum := 0; v4_src := 1; v4_dst := 2; v4_options := [] |}
    (L4UDP 53 4444 [1; 2]).

Definition ex_datagram : datagram :=
  {| dg_v6 := false; dg_agent := 1; dg_sub := 0; dg_seq := 7; dg_uptime := 9;
     dg_samples := [SOther 2 [1; 2; 3];
                    SFlow false [1; 2; 1000; 4; 0; 12; 13]
                      [ROther 1001 [0]; RRaw 1514 4 (HEthernet (repeat 0 12) [] ex_inner); RRaw 60 0 (HIP ex_inner4); RRaw 80 0 (HIP ex_inner);
                       RRaw 80 0 (HOther 7 [1; 2; 3])]] |}.

Lemma ex_inner_wf : inner_wf ex_inner /\ inner_wf ex_inner4.
Proof.
  split.
  - split; [split; unfold in_width; simpl; lia|]. split; [simpl; lia|].
    split; [|split; [reflexivity|repeat split; unfold in_width; simpl; lia]].
    constructor; [split; [left|]; (split; [lia|reflexivity])|constructor; [split; [lia|reflexivity]|constructor]].
  - split; [split; unfold in_width; cbn; try lia; exists 0; done|]. split; [done|]. by unfold in_width.
Qed.

Lemma ex_datagram_wf : datagram_wf ex_datagram.
Proof.
  destruct ex_inner_wf as [H6 H4]. split; [by repeat apply Forall_cons_2|].
  apply Forall_cons_2; [|apply Forall_singleton]; (split; [by split|]); [by split|].
  split; [done|]. split; [by repeat apply Forall_cons_2|]. split; [done|].
  repeat apply Forall_cons_2; [..|apply Forall_nil_2]; (split; [by split|]); [done|..]; (split; [done|]; split; [done|]; split; [done|]; split; [done|]); done.
Qed.


(** The decoder compares the low twelve bits of a type only: a record of any other
    enterprise whose format is 1 is decoded as if it were a raw packet header,
    instead of being skipped as unsupported. *)
Theorem vendor_record_taken_for_raw_header enterprise fl st h now rate ifn :
  0 < enterprise < 2 ^ 20 -> tlv_wf (4096 * enterprise + 1, raw_payload fl st h) -> in_width 32 fl -> in_width 32 st -> header_wf h ->
  record_loop 2 1 now rate ifn (tlv (4096 * enterprise + 1, raw_payload fl st h)) [] =
  Some (Ok (option_list (set_meta now (Z.min 65535 fl) rate ifn <$> header_sample h))).
Proof.
  intros He Hw Hfl Hst Hh. cbn [record_loop Z.leb Z.compare]. rewrite <-(app_nil_r (tlv _)), read_tlv_tlv by done. cbn [and_then fst snd].
  change 0xfff with (Z.ones 12). rewrite Z.land_ones by lia. change (2 ^ 12) with 4096.
  rewrite Z.mul_comm, Z.add_comm, Z.mod_add by lia. cbn [Z.eqb Pos.eqb recordRawPacketHeader negb]. change (1 mod 4096 =? 1) with true. cbn [negb].
  rewrite decodeRawHeader_raw by done. by destruct (header_sample h).
Qed.

(** C25: The collectors account for every sample.  Over any sequence of reads,
    failed reads and samples taken by the detector, until the context ends the
    loop: what the detector has taken followed by what is queued are samples the
    collector decoded, in their order; the others are exactly as many as the
    counter of dropped samples says; the queue never exceeds its capacity; and no
    sFlow sample has the sampling rate zero, which would weigh nothing. *)
Theorem collectors_account (cap : nat) (group : Z) (reads : list (collector_input (list Z * Z)))
    (receives : list (collector_input (list (option (list attr) * Z)))) :
  let accounted c all := exists dropped,
    sublist (cl_taken c ++ q_items (cl_queue c)) all /\ Permutation all ((cl_taken c ++ q_items (cl_queue c)) ++ dropped) /\
    q_dropped (cl_queue c) = Z.of_nat (length dropped) /\ (length (q_items (cl_queue c)) <= cap)%nat in
  accounted (sflow_Run reads (new_collector cap)) (heard sflow_samples reads) /\
  accounted (psample_Run group receives (new_collector cap)) (heard (psample_samples group) receives) /\
  Forall rate_ok (heard sflow_samples reads).
Proof.
  cbn zeta. split; [|split; [|apply heard_rate]].
  - destruct (collector_accounts (fun d => collect d.1 d.2) sflow_samples reads (new_collector cap) collect_offers eq_refl)
      as (k & d & E & S & P & Hd & L); [simpl; lia|]. exists d. unfold sflow_Run. rewrite E. done.
  - destruct (collector_accounts (psample_collect group) (psample_samples group) receives (new_collector cap) (psample_offers group) eq_refl)
      as (k & d & E & S & P & Hd & L); [simpl; lia|]. exists d. unfold psample_Run. rewrite E. done.
Qed.
