(* ===== verification/Spread.v ===== *)
(** * Diversity gates (internal/detector/spread.go)

    Region arithmetic on addresses and ports at machine width, and the
    fixed-memory sliding window that counts distinct regions.  Index expressions
    and shift counts are checked: [None] is a run-time panic. *)
From S2P Require Import Prelude Netip Flowspec Packet.
#[local] Open Scope Z_scope.

Definition spreadMaxBuckets : Z := 20.
Definition spreadMinSamples : Z := 16.

Inductive spreadKind := spreadSrc | spreadDst | spreadSrcPort | spreadDstPort.

Record spreadField := {
  sf_kind : spreadKind;
  sf_buckets : Z;
  sf_minRatio : Z;
  sf_ipv6 : bool;
  sf_maskBits : Z;
  sf_portLo : Z;
  sf_portSize : Z;
  sf_portMod : bool
}.

(** [bits.Mul64]: the high word of the 128-bit product. *)
Definition Mul64_hi (x y : Z) : Z := (x * y) / 2 ^ 64.

(** Shifts of a uint64; a count of 64 or more gives 0. *)
Definition shl64 (x n : Z) : Z := u64 (Z.shiftl x n).
Definition shr64 (x n : Z) : Z := Z.shiftr x n.

(** [As4] panics on an address that is not IPv4 (or IPv4-mapped). *)
Definition As4 (a : Addr) : option Z :=
  match a with
  | Addr4 v => Some v
  | Addr6 v => if v / 2 ^ 32 =? 65535 then Some (v mod 2 ^ 32) else None
  | AddrNone => None
  end.

(** [As16] maps IPv4 addresses to ::ffff:a.b.c.d; the zero address gives zeros. *)
Definition As16 (a : Addr) : Z :=
  match a with
  | Addr4 v => 65535 * 2 ^ 32 + v
  | Addr6 v => v
  | AddrNone => 0
  end.

Definition ipRegion (a : Addr) (v6 : bool) (maskBits n : Z) : option Z :=
  if negb (addr_IsValid a) then Some 0
  else
    lj ← (if negb v6 then
            x ← As4 a;
            let spreadBits := 32 - maskBits in
            if (spreadBits <? 0) || (64 - spreadBits <? 0) then None
            else
              let varying := Z.land x (u64 (shl64 1 spreadBits - 1)) in
              Some (shl64 varying (64 - spreadBits))
          else
            let hi := As16 a / 2 ^ 64 in
            let lo := As16 a mod 2 ^ 64 in
            if maskBits <? 64 then
              if maskBits <? 0 then None
              else
                let lj := shl64 hi maskBits in
                Some (if 0 <? maskBits then Z.lor lj (shr64 lo (64 - maskBits)) else lj)
            else
              let spreadBits := 128 - maskBits in
              if spreadBits <? 0 then None
              else
                let varying := Z.land lo (u64 (shl64 1 spreadBits - 1)) in
                Some (shl64 varying (64 - spreadBits)));
    Some (Mul64_hi lj (u64 n)).

(** A zero [size] is a division by zero. *)
Definition portRegion (p lo size : Z) (md : bool) (n : Z) : option Z :=
  if md && (size =? 0) then None
  else
    let varying :=
      if md then p mod size
      else
        let v := if p <? lo then lo else p in
        let varying := u32 (v - lo) in
        if size <=? varying then u32 (size - 1) else varying in
    if size <=? u32 n then Some varying
    else Some (u64 (varying * u64 n) / size).

Definition bucket (f : spreadField) (s : Sample) : option Z :=
  match sf_kind f with
  | spreadSrc => ipRegion (s_Src s) (sf_ipv6 f) (sf_maskBits f) (sf_buckets f)
  | spreadDst => ipRegion (s_Dst s) (sf_ipv6 f) (sf_maskBits f) (sf_buckets f)
  | spreadSrcPort => portRegion (s_SrcPort s) (sf_portLo f) (sf_portSize f) (sf_portMod f) (sf_buckets f)
  | spreadDstPort => portRegion (s_DstPort s) (sf_portLo f) (sf_portSize f) (sf_portMod f) (sf_buckets f)
  end.

Definition spreadField_String (f : spreadField) : string :=
  match sf_kind f with
  | spreadSrc => "src"
  | spreadDst => "dst"
  | spreadSrcPort => "src_port"
  | spreadDstPort => "dst_port"
  end.

(** ** The estimator *)
Record spreadEstimator := {
  e_buckets : Z;
  e_window : Z;
  e_ring : list Z;    (* uint8 *)
  e_count : list Z;   (* uint8 *)
  e_head : Z;
  e_filled : Z;
  e_distinct : Z
}.

Definition newSpreadEstimator (buckets : Z) : spreadEstimator :=
  let w := if buckets <? spreadMinSamples then spreadMinSamples else buckets in
  {| e_buckets := buckets; e_window := w; e_ring := replicate (Z.to_nat w) 0; e_count := replicate (Z.to_nat buckets) 0;
     e_head := 0; e_filled := 0; e_distinct := 0 |}.

(** [l[i] = x] *)
Definition store_at (l : list Z) (i x : Z) : option (list Z) :=
  if (0 <=? i) && (i <? len l) then Some (<[Z.to_nat i := x]> l) else None.

(** The first branch of [observe]: make room for the new sample. *)
Definition evict (e : spreadEstimator) : option (list Z * Z * Z) :=
  if e_filled e =? e_window e then
    old ← index (e_ring e) (e_head e);
    c ← index (e_count e) old;
    let c' := u8 (c - 1) in
    count ← store_at (e_count e) old c';
    Some (count, (if c' =? 0 then e_distinct e - 1 else e_distinct e), e_filled e)
  else Some (e_count e, e_distinct e, e_filled e + 1).

Definition observe (e : spreadEstimator) (region : Z) : option (spreadEstimator * Z) :=
  '(count, distinct, filled) ← evict e;
  ring ← store_at (e_ring e) (e_head e) (u8 region);
  c ← index count region;
  let distinct := if (c =? 0 : bool) then distinct + 1 else distinct in
  count ← store_at count region (u8 (c + 1));
  let head := e_head e + 1 in
  let head := if head =? e_window e then 0 else head in
  if e_buckets e =? 0 then None
  else Some ({| e_buckets := e_buckets e; e_window := e_window e; e_ring := ring; e_count := count; e_head := head;
                e_filled := filled; e_distinct := distinct |},
             Z.quot (distinct * 100) (e_buckets e)).

Definition ratioPct (e : spreadEstimator) : option Z :=
  if e_buckets e =? 0 then None else Some (Z.quot (e_distinct e * 100) (e_buckets e)).
