(* ===== verification/SpreadFacts.v ===== *)
(** * Correctness of the diversity gates

    Regions are always in range, and the estimator's counters are those of the
    sliding window of the most recent samples. *)
From S2P Require Import Prelude Netip Flowspec Packet PacketFacts Spread.
#[local] Open Scope Z_scope.

(** ** Regions *)
Lemma Mul64_hi_range x n : in_width 64 x -> 0 < n -> 0 <= Mul64_hi x n < n.
Proof.
  unfold in_width, Mul64_hi. intros Hx Hn. split; [apply Z.div_pos; nia|].
  apply Z.div_lt_upper_bound; [lia|]. nia.
Qed.

Lemma ipRegion_lt a v6 maskBits n r :
  addr_wf a -> 0 < n < 2 ^ 64 -> ipRegion a v6 maskBits n = Some r -> 0 <= r < n.
Proof.
  intros Ha Hn. unfold ipRegion. case_bool; [intros [= <-]; lia|].
  rewrite u64_small by (unfold in_width; lia).
  match goal with |- (?d ≫= _) = _ -> _ => destruct d as [lj|] eqn:Elj end; cbn [mbind option_bind]; [|done].
  intros [= <-]. apply Mul64_hi_range; [|lia]. revert Elj.
  assert (0 <= As16 a / 2 ^ 64 < 2 ^ 64 /\ 0 <= As16 a mod 2 ^ 64 < 2 ^ 64) as [Hhi Hlo].
  { unfold addr_wf, in_width, BitLen, addr_val in Ha. split; [|apply Z.mod_pos_bound; lia].
    assert (0 <= As16 a < 2 ^ 128) by (destruct a; simpl in *; lia).
    split; [apply Z.div_pos; lia|apply Z.div_lt_upper_bound; lia]. }
  case_bool.
  - destruct (As4 a) as [x|]; cbn [mbind option_bind]; [|done]. case_bool; [done|]. intros [= <-]. apply u64_width.
  - repeat case_bool; try done; intros [= <-]; try apply u64_width.
    apply in_width_lor; [lia|apply u64_width|]. unfold shr64, in_width. rewrite Z.shiftr_div_pow2 by lia.
    split; [apply Z.div_pos; lia|]. apply Z.div_lt_upper_bound; [lia|].
    assert (1 <= 2 ^ (64 - maskBits)) by (change 1 with (2 ^ 0); apply Z.pow_le_mono_r; lia). nia.
Qed.

Lemma ipRegion_returns a v6 maskBits n :
  (v6 = false -> (Is4 a = true \/ a = AddrNone) /\ 0 <= maskBits <= 32) -> (v6 = true -> 0 <= maskBits <= 128) ->
  is_Some (ipRegion a v6 maskBits n).
Proof.
  intros H4 H6. unfold ipRegion. case_bool; [eauto|]. destruct v6; cbn [negb].
  - specialize (H6 eq_refl). repeat case_bool; try lia; simpl; eauto.
  - specialize (H4 eq_refl) as [Ha Hm]. destruct a; destruct Ha as [Ha|Ha]; try done. cbn [As4 mbind option_bind].
    case_bool; [lia|]. simpl. eauto.
Qed.

Lemma portRegion_range p lo size md n :
  in_width 16 p -> 0 <= lo < 2 ^ 32 -> 0 < size < 2 ^ 32 -> 0 < n < 2 ^ 31 ->
  exists r, portRegion p lo size md n = Some r /\ 0 <= r < n.
Proof.
  unfold in_width. intros Hp Hlo Hsize Hn. unfold portRegion.
  rewrite (proj2 (Z.eqb_neq size 0)), andb_false_r by lia. cbn zeta.
  set (varying := if md then _ else _). assert (0 <= varying < size) as Hv.
  { unfold varying. destruct md; [apply Z.mod_pos_bound; lia|].
    generalize (u32_width ((if p <? lo then lo else p) - lo)).
    generalize (u32 ((if p <? lo then lo else p) - lo)) as x. unfold in_width. intros x Hx.
    destruct (Z.leb_spec size x); [|lia].
    rewrite u32_small by (unfold in_width; lia). lia. }
  clearbody varying. rewrite (u32_small n), (u64_small n), u64_small by (unfold in_width; nia || lia).
  case_bool; eexists; (split; [reflexivity|]); [lia|].
  split; [apply Z.div_pos; nia|]. apply Z.div_lt_upper_bound; nia.
Qed.

(** ** The sliding window *)
Definition occ (r : Z) (w : list Z) : Z := Z.of_nat (length (filter (fun x => x = r) w)).

Lemma occ_cons r x w : occ r (x :: w) = (if decide (x = r) then 1 else 0) + occ r w.
Proof. unfold occ. rewrite filter_cons. case_decide; simpl; lia. Qed.

Lemma occ_app r v w : occ r (v ++ w) = occ r v + occ r w.
Proof. unfold occ. rewrite filter_app, length_app. lia. Qed.

Lemma occ_zero r w : occ r w = 0 <-> r ∉ w.
Proof.
  induction w as [|x w IH]; [split; [intros _; apply not_elem_of_nil|done]|].
  rewrite occ_cons, not_elem_of_cons, <-IH. unfold occ. case_decide; naive_solver lia.
Qed.

Lemma occ_le r w : 0 <= occ r w <= len w.
Proof. unfold occ, len. pose proof (length_filter (fun x => x = r) w). lia. Qed.

(** The number of distinct regions in a window. *)
Definition distinct_of (w : list Z) : Z := Z.of_nat (size (list_to_set w : gset Z)).

Lemma distinct_cons x w : distinct_of (x :: w) = (if decide (x ∈ w) then 0 else 1) + distinct_of w.
Proof.
  unfold distinct_of. rewrite list_to_set_cons. case_decide as Hx.
  - rewrite subseteq_union_1_L; [lia|]. set_solver.
  - rewrite size_union, size_singleton by set_solver. lia.
Qed.

Lemma distinct_snoc x w : distinct_of (w ++ [x]) = (if decide (x ∈ w) then 0 else 1) + distinct_of w.
Proof.
  rewrite <-distinct_cons. unfold distinct_of. do 2 f_equal. apply set_eq. set_solver.
Qed.

(** The window an estimator holds, oldest first. *)
Definition win (e : spreadEstimator) : list Z :=
  if e_filled e =? e_window e then drop (Z.to_nat (e_head e)) (e_ring e) ++ take (Z.to_nat (e_head e)) (e_ring e)
  else take (Z.to_nat (e_head e)) (e_ring e).

Record est_inv (e : spreadEstimator) : Prop := {
  ei_buckets : 0 < e_buckets e <= 255;
  ei_window : 0 < e_window e <= 255;
  ei_ring : len (e_ring e) = e_window e;
  ei_count : len (e_count e) = e_buckets e;
  ei_head : 0 <= e_head e < e_window e;
  ei_filled : e_filled e = e_window e \/ e_filled e = e_head e /\ e_filled e < e_window e;
  ei_regions : Forall (fun r => 0 <= r < e_buckets e) (win e);
  ei_occ : forall r, 0 <= r < e_buckets e -> e_count e !! Z.to_nat r = Some (occ r (win e));
  ei_distinct : e_distinct e = distinct_of (win e)
}.

Lemma newSpreadEstimator_inv b : 0 < b <= 255 -> est_inv (newSpreadEstimator b) /\ win (newSpreadEstimator b) = [].
Proof.
  intros Hb. assert (win (newSpreadEstimator b) = []) as Hw.
  { unfold win, newSpreadEstimator, spreadMinSamples. cbn [e_filled e_window e_head e_ring].
    destruct (Z.ltb_spec b 16); (case_bool; [lia|done]). }
  split; [|done]. split; rewrite ?Hw; unfold newSpreadEstimator, spreadMinSamples; cbn [e_buckets e_window e_ring e_count e_head e_filled e_distinct];
    unfold len; rewrite ?length_replicate; try (repeat case_bool; lia); try done.
  intros r Hr. by apply lookup_replicate_2; lia.
Qed.

(** ** One observation *)
Definition last_n (n : Z) (w : list Z) : list Z := drop (length w - Z.to_nat n) w.

Lemma store_at_in l i x : 0 <= i < len l -> store_at l i x = Some (<[Z.to_nat i := x]> l).
Proof. intros Hi. unfold store_at. by rewrite (proj2 (Z.leb_le 0 i)), (proj2 (Z.ltb_lt i (len l))) by lia. Qed.

Lemma index_lookup {A} (l : list A) i : 0 <= i -> index l i = l !! Z.to_nat i.
Proof. intros Hi. unfold index. by rewrite (proj2 (Z.leb_le 0 i)). Qed.

Lemma win_length e : est_inv e -> len (win e) = e_filled e.
Proof.
  intros [? ? Hr ? Hh Hf _ _ _]. unfold win, len in *. case_bool.
  - rewrite length_app, length_drop, length_take. lia.
  - rewrite length_take. lia.
Qed.

(** What stays of the window when a sample enters. *)
Definition kept (e : spreadEstimator) : list Z := if e_filled e =? e_window e then tail (win e) else win e.

Lemma win_full_cons e old :
  est_inv e -> e_filled e = e_window e -> e_ring e !! Z.to_nat (e_head e) = Some old -> win e = old :: kept e.
Proof.
  intros Hi Hf Ho. unfold kept, win. rewrite Hf, Z.eqb_refl.
  by rewrite (drop_S _ old (Z.to_nat (e_head e))).
Qed.

Lemma evict_spec e :
  est_inv e ->
  exists count filled, evict e = Some (count, distinct_of (kept e), filled) /\ len count = e_buckets e /\
    filled = Z.min (e_filled e + 1) (e_window e) /\
    Forall (fun r => 0 <= r < e_buckets e) (kept e) /\
    forall r, 0 <= r < e_buckets e -> count !! Z.to_nat r = Some (occ r (kept e)).
Proof.
  intros Hi. pose proof Hi as [Hb Hw Hr Hc Hh Hf Hreg Hocc Hd]. unfold evict. case_bool.
  - apply Z.eqb_eq in E. unfold len in *.
    destruct (lookup_lt_is_Some_2 (e_ring e) (Z.to_nat (e_head e))) as [old Ho]; [lia|].
    pose proof (win_full_cons _ _ Hi E Ho) as Hwin. rewrite Hwin in Hreg. apply Forall_cons in Hreg as [Hold Hreg].
    rewrite index_lookup, Ho by lia. cbn [mbind option_bind].
    rewrite index_lookup, Hocc by lia. cbn [mbind option_bind].
    assert (occ old (win e) = 1 + occ old (kept e)) as Ho1 by (by rewrite Hwin, occ_cons, decide_True).
    pose proof (occ_le old (kept e)) as Hle. pose proof (win_length e Hi) as Hl. rewrite Hwin in Hl.
    unfold len in *. simpl in Hl.
    rewrite Ho1, u8_small by (unfold in_width; lia). replace (1 + occ old (kept e) - 1) with (occ old (kept e)) by lia.
    rewrite store_at_in by (unfold len; lia). cbn [mbind option_bind].
    eexists _, _. split; [|split; [|split; [|split; [exact Hreg|]]]].
    + rewrite Hd, Hwin, distinct_cons. do 3 f_equal. case_decide as Hk; pose proof (occ_zero old (kept e)) as Hz.
      * case_bool; [|lia]. apply Z.eqb_eq in E0. tauto.
      * rewrite (proj2 (Z.eqb_eq _ _)) by tauto. lia.
    + by rewrite length_insert.
    + lia.
    + intros r Hrr. destruct (decide (r = old)) as [->|Hne].
      * rewrite list_lookup_insert_eq by lia. done.
      * rewrite list_lookup_insert_ne, Hocc, Hwin, occ_cons, decide_False by (congruence || lia). f_equal; lia.
  - apply Z.eqb_neq in E. unfold kept. rewrite (proj2 (Z.eqb_neq _ _)) by done.
    eexists _, _. rewrite Hd. split; [done|]. split_and!; try done. lia.
Qed.

Lemma take_S_insert {A} (l : list A) h x : (h < length l)%nat -> take (S h) (<[h := x]> l) = take h l ++ [x].
Proof.
  intros Hh. rewrite insert_take_drop, cons_middle, app_assoc by done. apply take_app_length'.
  rewrite length_app, length_take. simpl. lia.
Qed.

Lemma drop_S_insert {A} (l : list A) h x : drop (S h) (<[h := x]> l) = drop (S h) l.
Proof. apply drop_insert_lt; lia. Qed.

(** Writing at the head and advancing appends to what is kept. *)
Lemma win_advance e e' region :
  est_inv e -> e_ring e' = <[Z.to_nat (e_head e) := region]> (e_ring e) -> e_window e' = e_window e ->
  e_head e' = (if e_head e + 1 =? e_window e then 0 else e_head e + 1) ->
  e_filled e' = Z.min (e_filled e + 1) (e_window e) -> win e' = kept e ++ [region].
Proof.
  intros [_ Hw Hr _ Hh Hf _ _ _] Hring Hwin Hhead Hfill. unfold len in Hr.
  assert (Z.to_nat (e_head e) < length (e_ring e))%nat as Hlt by lia.
  pose proof (take_S_insert _ _ region Hlt) as Ht. pose proof (drop_S_insert (e_ring e) (Z.to_nat (e_head e)) region) as Hd.
  assert (Z.to_nat (e_head e + 1) = S (Z.to_nat (e_head e))) as Hs by lia.
  assert (tail (win e) = if e_filled e =? e_window e then drop (S (Z.to_nat (e_head e))) (e_ring e) ++ take (Z.to_nat (e_head e)) (e_ring e) else tail (win e)) as Hk.
  { case_bool; [|done]. unfold win. rewrite E. destruct (lookup_lt_is_Some_2 _ _ Hlt) as [x Hx]. by rewrite (drop_S _ x). }
  unfold win at 1. rewrite Hring, Hwin, Hhead, Hfill. unfold kept. destruct (Z.eqb_spec (e_filled e) (e_window e)) as [Hff|Hff].
  - rewrite Hk, Z.min_r, Z.eqb_refl by lia. case_bool.
    + rewrite <-app_assoc, <-Ht, <-Hd. change (Z.to_nat 0) with 0%nat. rewrite drop_0, take_0, app_nil_r.
      by rewrite (take_ge _ (S _)), (drop_ge _ (S _)) by (rewrite length_insert; lia).
    + by rewrite Hs, Hd, Ht, app_assoc.
  - unfold win. rewrite (proj2 (Z.eqb_neq _ _) Hff). destruct (Z.eqb_spec (e_head e + 1) (e_window e)) as [Hlast|Hlast].
    + rewrite (proj2 (Z.eqb_eq _ _)) by lia. rewrite <-Ht. change (Z.to_nat 0) with 0%nat. rewrite drop_0, take_0, app_nil_r.
      by rewrite (take_ge _ (S _)) by (rewrite length_insert; lia).
    + rewrite (proj2 (Z.eqb_neq _ _)) by lia. by rewrite Hs, Ht.
Qed.

(** The new window is the old one, less its oldest sample when full, with the
    new region at its end. *)
Lemma observe_spec e region :
  est_inv e -> 0 <= region < e_buckets e ->
  exists e', observe e region = Some (e', Z.quot (distinct_of (win e') * 100) (e_buckets e)) /\ est_inv e' /\
    win e' = kept e ++ [region] /\ e_buckets e' = e_buckets e /\ e_window e' = e_window e.
Proof.
  intros Hi Hreg. destruct (evict_spec e Hi) as (count & filled & Hev & Hcl & Hfl & Hfa & Hocc).
  pose proof (win_length e Hi) as Hwl. pose proof Hi as [Hb Hw Hr Hc Hh Hf _ _ _].
  unfold observe. rewrite Hev. cbn [mbind option_bind].
  rewrite u8_small by (unfold in_width; lia). rewrite store_at_in by lia. cbn [mbind option_bind].
  rewrite index_lookup, Hocc by lia. cbn [mbind option_bind].
  assert (occ region (kept e) < 255) as Hlt.
  { pose proof (occ_le region (kept e)) as [_ Hle]. unfold kept, len in *.
    destruct (Z.eqb_spec (e_filled e) (e_window e)) as [Hff|Hff]; [|lia].
    destruct (win e) as [|x w']; simpl in *; lia. }
  pose proof (occ_le region (kept e)).
  rewrite u8_small by (unfold in_width; lia). rewrite store_at_in by lia. cbn [mbind option_bind].
  rewrite (proj2 (Z.eqb_neq (e_buckets e) 0)) by lia.
  set (head := if e_head e + 1 =? e_window e then 0 else e_head e + 1).
  eexists.
  match goal with |- Some (?x, _) = _ /\ _ => set (e' := x) end.
  assert (win e' = kept e ++ [region]) as Hwin by (by apply win_advance).
  assert (e_distinct e' = distinct_of (win e')) as Hd.
  { rewrite Hwin, distinct_snoc. subst e'. cbn [e_distinct]. pose proof (occ_zero region (kept e)) as Hz.
    case_decide; case_bool; lia || (exfalso; rewrite ?Z.eqb_eq, ?Z.eqb_neq in *; tauto). }
  split; [by rewrite <-Hd|]. split_and!; [|done..].
  split; try done; subst e'; cbn [e_buckets e_window e_ring e_count e_head e_filled e_distinct]; unfold len in *;
    rewrite ?length_insert; try lia.
  - subst head. case_bool; lia.
  - subst head. case_bool; lia.
  - rewrite Hwin. apply Forall_app_2; [done|]. by apply Forall_singleton.
  - intros r Hrr. rewrite Hwin, occ_app, occ_cons. change (occ r []) with 0. destruct (decide (region = r)) as [<-|Hne].
    + rewrite list_lookup_insert_eq by lia. f_equal; lia.
    + rewrite list_lookup_insert_ne, Hocc by lia. f_equal; lia.
Qed.

(** ** Any number of observations *)
Definition observe_all (e : spreadEstimator) (regions : list Z) : option spreadEstimator :=
  foldl (fun acc r => e ← acc; fst <$> observe e r) (Some e) regions.

Lemma observe_all_app e rs r : observe_all e (rs ++ [r]) = (e' ← observe_all e rs; fst <$> observe e' r).
Proof. unfold observe_all. by rewrite foldl_app. Qed.

Lemma tail_drop_S {A} n (l : list A) : tail (drop n l) = drop (S n) l.
Proof. revert l. induction n as [|n IH]; intros [|x l]; simpl; auto. Qed.

Lemma kept_last_n e ws :
  est_inv e -> win e = last_n (e_window e) ws -> forall r, kept e ++ [r] = last_n (e_window e) (ws ++ [r]).
Proof.
  intros Hi Hw r. pose proof (win_length e Hi) as Hl. destruct Hi as [_ Hww _ _ Hh Hf _ _ _].
  unfold kept, last_n in *. unfold len in Hl. rewrite Hw in *. rewrite length_drop in Hl. rewrite length_app. simpl.
  case_bool.
  - assert (Z.to_nat (e_window e) <= length ws)%nat by lia.
    replace (length ws + 1 - Z.to_nat (e_window e))%nat with (S (length ws - Z.to_nat (e_window e))) by lia.
    rewrite drop_app_le by lia. by rewrite tail_drop_S.
  - assert (length ws < Z.to_nat (e_window e))%nat by lia.
    by rewrite !(proj2 (Nat.sub_0_le _ _)), !drop_0 by lia.
Qed.

Lemma observe_all_spec b rs :
  0 < b <= 255 -> Forall (fun r => 0 <= r < b) rs ->
  exists e, observe_all (newSpreadEstimator b) rs = Some e /\ est_inv e /\ win e = last_n (Z.max b 16) rs /\
    e_buckets e = b /\ e_window e = Z.max b 16.
Proof.
  intros Hb. induction rs as [|r rs IH] using rev_ind; intros Hrs.
  - destruct (newSpreadEstimator_inv b Hb) as [Hi Hw]. exists (newSpreadEstimator b).
    rewrite Hw. unfold last_n. rewrite drop_nil. split_and!; try done.
    unfold newSpreadEstimator, spreadMinSamples. cbn [e_window]. destruct (Z.ltb_spec b 16); lia.
  - apply Forall_app in Hrs as [Hrs Hr%Forall_inv]. destruct (IH Hrs) as (e & He & Hi & Hw & Hbk & Hwd).
    rewrite observe_all_app, He. cbn [mbind option_bind].
    destruct (observe_spec e r Hi) as (e' & Ho & Hi' & Hw' & Hb' & Hwd'); [by rewrite Hbk|].
    exists e'. rewrite Ho. split_and!; try done; try congruence.
    rewrite Hw'. rewrite <-Hwd in *. by apply kept_last_n.
Qed.

(** C39: the diversity estimator reports, after any history of samples, the
    percentage of regions that occur among the most recent [window] samples
    (the number of buckets, at least 16), and no counter of it ever wraps nor
    any index leaves its array. *)
Theorem spread_is_recent_diversity b history r :
  0 < b <= 255 -> Forall (fun x => 0 <= x < b) (history ++ [r]) ->
  exists e e', observe_all (newSpreadEstimator b) history = Some e /\
    observe e r = Some (e', Z.quot (distinct_of (last_n (Z.max b spreadMinSamples) (history ++ [r])) * 100) b) /\
    ratioPct e' = Some (Z.quot (distinct_of (last_n (Z.max b spreadMinSamples) (history ++ [r])) * 100) b).
Proof.
  intros Hb [Hh Hr%Forall_inv]%Forall_app.
  destruct (observe_all_spec b history Hb Hh) as (e & He & Hi & Hw & Hbk & Hwd). exists e.
  destruct (observe_spec e r Hi) as (e' & Ho & [] & Hw' & Hb' & Hwd'); [by rewrite Hbk|]. exists e'.
  rewrite <-Hwd in Hw. pose proof (kept_last_n e history Hi Hw r) as Hk. rewrite Hwd in Hk. rewrite Hw', Hk, Hbk in Ho.
  change spreadMinSamples with 16. split_and!; [done|done|].
  unfold ratioPct. rewrite Hb', Hbk, (proj2 (Z.eqb_neq _ _)) by lia. congruence.
Qed.

Lemma spread_is_recent_diversity_witness :
  0 < 20 <= 255 /\ exists e e',
    observe_all (newSpreadEstimator 20) [1; 2; 3; 3; 1] = Some e /\ observe e 7 = Some (e', 20) /\ ratioPct e' = Some 20.
Proof.
  split; [lia|]. apply (spread_is_recent_diversity 20 [1; 2; 3; 3; 1] 7); [lia|].
  repeat apply Forall_cons_2; try lia. apply Forall_nil_2.
Defined.

(** ** Fields

    A gate compiled with sane bounds (compile.go: at most 20 buckets, a mask
    within the family, a non-empty port range). *)
Definition field_ok (f : spreadField) : bool :=
  (0 <? sf_buckets f) && (sf_buckets f <=? spreadMaxBuckets) && (0 <=? sf_maskBits f) &&
  (sf_maskBits f <=? (if sf_ipv6 f then 128 else 32)) &&
  match sf_kind f with
  | spreadSrc | spreadDst => true
  | _ => (0 <=? sf_portLo f) && (sf_portLo f <? 2 ^ 32) && (0 <? sf_portSize f) && (sf_portSize f <? 2 ^ 32)
  end.

(** The samples a gate of this family sees: addresses of the family, or absent. *)
Definition sample_for (v6 : bool) (s : Sample) : Prop :=
  addr_wf (s_Src s) /\ addr_wf (s_Dst s) /\ in_width 16 (s_SrcPort s) /\ in_width 16 (s_DstPort s) /\
  (v6 = false -> (Is4 (s_Src s) = true \/ s_Src s = AddrNone) /\ (Is4 (s_Dst s) = true \/ s_Dst s = AddrNone)).

Lemma bucket_region f s :
  field_ok f = true -> addr_wf (s_Src s) -> addr_wf (s_Dst s) -> in_width 16 (s_SrcPort s) -> in_width 16 (s_DstPort s) ->
  (match sf_kind f with spreadSrc | spreadDst => sf_ipv6 f = false | _ => False end ->
     (Is4 (s_Src s) = true \/ s_Src s = AddrNone) /\ (Is4 (s_Dst s) = true \/ s_Dst s = AddrNone)) ->
  exists r, bucket f s = Some r /\ 0 <= r < sf_buckets f.
Proof.
  unfold field_ok, spreadMaxBuckets. intros Hf Hs Hd Hsp Hdp H4. bool_hyps.
  assert (forall a, addr_wf a -> (sf_ipv6 f = false -> Is4 a = true \/ a = AddrNone) ->
    exists r, ipRegion a (sf_ipv6 f) (sf_maskBits f) (sf_buckets f) = Some r /\ 0 <= r < sf_buckets f) as Hip.
  { intros a Ha Ha4. destruct (ipRegion_returns a (sf_ipv6 f) (sf_maskBits f) (sf_buckets f)) as [r Hr].
    - intros E. rewrite E in *. split; [auto|lia].
    - intros E. rewrite E in *. lia.
    - exists r. split; [done|]. eapply ipRegion_lt; [exact Ha| |exact Hr]. lia. }
  unfold bucket. destruct (sf_kind f); bool_hyps.
  - apply Hip; [done|]. intros E. by apply H4.
  - apply Hip; [done|]. intros E. by apply H4.
  - apply portRegion_range; try done; lia.
  - apply portRegion_range; try done; lia.
Qed.

(** Every sample of the gate's family falls in one of the gate's regions:
    the region computation neither panics nor leaves [0, buckets). *)
Theorem bucket_in_range f s :
  field_ok f = true -> sample_for (sf_ipv6 f) s -> exists r, bucket f s = Some r /\ 0 <= r < sf_buckets f.
Proof.
  intros Hf (Hs & Hd & Hsp & Hdp & H4). apply bucket_region; try done. destruct (sf_kind f); done || apply H4.
Qed.

Definition gate_example : spreadField :=
  {| sf_kind := spreadDst; sf_buckets := 20; sf_minRatio := 50; sf_ipv6 := false; sf_maskBits := 8;
     sf_portLo := 0; sf_portSize := 0; sf_portMod := false |}.

Definition sample_example : Sample :=
  {| s_At := 0; s_Family := FamilyIPv4; s_Src := Addr4 167772161; s_Dst := Addr4 3232235777; s_Proto := 17; s_SrcPort := 53;
     s_DstPort := 4000; s_PacketLen := 512; s_TCPFlags := 0; s_ICMPType := 0; s_ICMPCode := 0; s_IngressIf := "";
     s_SampleRate := 1 |}.

Lemma bucket_in_range_witness :
  field_ok gate_example = true /\ exists r, bucket gate_example sample_example = Some r /\ 0 <= r < 20.
Proof.
  split; [reflexivity|]. apply (bucket_in_range gate_example sample_example); [reflexivity|].
  repeat split; try (left; reflexivity); simpl; lia.
Defined.
