(* ===== verification/Float64.v ===== *)
(** * Go's [float64]

    IEEE 754 binary64 with round-to-nearest-even, through the executable
    specification of the Standard Library.  Only the operations the detector
    uses are named. *)
From S2P Require Import Prelude GoText.
From Stdlib Require Import SpecFloat.
#[local] Open Scope Z_scope.

Definition float64 : Type := spec_float.

Definition f_prec : Z := 53.
Definition f_emax : Z := 1024.

(** [float64(v)] of an integer. *)
Definition f_of_int (z : Z) : float64 := binary_normalize f_prec f_emax z 0 false.

Definition f_zero : float64 := S754_zero false.
Definition f_one : float64 := f_of_int 1.
Definition f_1e9 : float64 := f_of_int 1000000000.

Definition f_add (x y : float64) : float64 := SFadd f_prec f_emax x y.
Definition f_sub (x y : float64) : float64 := SFsub f_prec f_emax x y.
Definition f_mul (x y : float64) : float64 := SFmul f_prec f_emax x y.
Definition f_div (x y : float64) : float64 := SFdiv f_prec f_emax x y.
Definition f_neg (x : float64) : float64 := SFopp x.

(** Comparisons; false when an operand is NaN. *)
Definition f_lt (x y : float64) : bool := SFltb x y.
Definition f_le (x y : float64) : bool := SFleb x y.
Definition f_eq (x y : float64) : bool := SFeqb x y.

Definition Second : Z := 1000000000.

(** [strconv.FormatFloat(v, 'f', 0, 64)]: the nearest integer, halves to even. *)
Definition round_even (m e : Z) : Z :=
  if 0 <=? e then m * 2 ^ e
  else
    let d := 2 ^ (- e) in
    let q := m / d in
    match 2 * (m mod d) ?= d with
    | Lt => q
    | Gt => q + 1
    | Eq => if Z.even q then q else q + 1
    end.

Definition FormatFloat (x : float64) : string :=
  let sign (s : bool) := if s then "-" else "" in
  match x with
  | S754_nan => "NaN"
  | S754_infinity s => if s then "-Inf" else "+Inf"
  | S754_zero s => sign s +:+ "0"
  | S754_finite s m e => sign s +:+ itoa (round_even (Z.pos m) e)
  end.

(** [Duration.Seconds] *)
Definition Seconds (d : Z) : float64 :=
  f_add (f_of_int (Z.quot d Second)) (f_div (f_of_int (Z.rem d Second)) f_1e9).

Lemma compare_cont_swap x y : Pos.compare_cont Eq y x = CompOpp (Pos.compare_cont Eq x y).
Proof. by rewrite Pos.compare_cont_antisym. Qed.

(** A comparison that holds excludes the converse one. *)
Lemma f_lt_asym x y : f_lt x y = true -> f_le y x = false.
Proof.
  unfold f_lt, f_le, SFltb, SFleb.
  destruct x as [[]|[]| |[] mx ex], y as [[]|[]| |[] my ey]; simpl; try done;
    rewrite (Z.compare_antisym ex ey), (compare_cont_swap mx my);
    destruct (ex ?= ey)%Z; simpl; try done; by destruct (Pos.compare_cont _ mx my).
Qed.

Lemma f_lt_irrefl x : f_lt x x = false.
Proof.
  unfold f_lt, SFltb. destruct x as [[]|[]| |[] mx ex]; simpl; try done;
    by rewrite Z.compare_refl, Pos.compare_cont_refl.
Qed.

Lemma f_lt_pos mx ex my ey :
  f_lt (S754_finite false mx ex) (S754_finite false my ey) = true <-> ex < ey \/ (ex = ey /\ Z.pos mx < Z.pos my).
Proof.
  unfold f_lt, SFltb. simpl. change (Pos.compare_cont Eq mx my) with (mx ?= my)%positive.
  destruct (Z.compare_spec ex ey); [destruct (Pos.compare_spec mx my)|..]; split; intros; try done; lia.
Qed.

Lemma f_lt_negs mx ex my ey :
  f_lt (S754_finite true mx ex) (S754_finite true my ey) = true <-> ey < ex \/ (ex = ey /\ Z.pos my < Z.pos mx).
Proof.
  unfold f_lt, SFltb. simpl. change (Pos.compare_cont Eq mx my) with (mx ?= my)%positive.
  destruct (Z.compare_spec ex ey); [destruct (Pos.compare_spec mx my)|..]; split; intros; try done; lia.
Qed.

Lemma f_lt_trans x y z : f_lt x y = true -> f_lt y z = true -> f_lt x z = true.
Proof.
  destruct x as [[]|[]| |[] mx ex], y as [[]|[]| |[] my ey], z as [[]|[]| |[] mz ez]; try done;
    rewrite ?f_lt_pos, ?f_lt_negs; lia.
Qed.

(** Not NaN. *)
Definition f_num (x : float64) : bool := f_eq x x.

Lemma f_le_pos mx ex my ey :
  f_le (S754_finite false mx ex) (S754_finite false my ey) = true <-> ex < ey \/ (ex = ey /\ Z.pos mx <= Z.pos my).
Proof.
  unfold f_le, SFleb. simpl. change (Pos.compare_cont Eq mx my) with (mx ?= my)%positive.
  destruct (Z.compare_spec ex ey); [destruct (Pos.compare_spec mx my)|..]; split; intros; try done; lia.
Qed.

Lemma f_le_negs mx ex my ey :
  f_le (S754_finite true mx ex) (S754_finite true my ey) = true <-> ey < ex \/ (ex = ey /\ Z.pos my <= Z.pos mx).
Proof.
  unfold f_le, SFleb. simpl. change (Pos.compare_cont Eq mx my) with (mx ?= my)%positive.
  destruct (Z.compare_spec ex ey); [destruct (Pos.compare_spec mx my)|..]; split; intros; try done; lia.
Qed.

Lemma f_le_trans x y z : f_le x y = true -> f_le y z = true -> f_le x z = true.
Proof.
  destruct x as [[]|[]| |[] mx ex], y as [[]|[]| |[] my ey], z as [[]|[]| |[] mz ez]; try done;
    rewrite ?f_le_pos, ?f_le_negs; lia.
Qed.

Lemma f_lt_le x y : f_lt x y = true -> f_le x y = true.
Proof.
  destruct x as [[]|[]| |[] mx ex], y as [[]|[]| |[] my ey]; try done;
    rewrite ?f_le_pos, ?f_le_negs, ?f_lt_pos, ?f_lt_negs; lia.
Qed.

(** Numbers are totally ordered. *)
Lemma f_not_lt_le x y : f_num x = true -> f_num y = true -> f_lt x y = false -> f_le y x = true.
Proof.
  intros Hx Hy. rewrite <-not_true_iff_false.
  destruct x as [[]|[]| |[] mx ex], y as [[]|[]| |[] my ey]; try done;
    rewrite ?f_le_pos, ?f_le_negs, ?f_lt_pos, ?f_lt_negs; lia.
Qed.

Lemma f_le_refl x : f_num x = true -> f_le x x = true.
Proof. intros Hx. apply f_not_lt_le; [done|done|apply f_lt_irrefl]. Qed.

Lemma f_lt_num x y : f_lt x y = true -> f_num x = true /\ f_num y = true.
Proof.
  assert (forall z, z <> S754_nan -> f_num z = true) as H.
  { intros [[]|[]| |[] m e]; try done; intros _; unfold f_num, f_eq, SFeqb; simpl;
      rewrite Z.compare_refl, Pos.compare_cont_refl; done. }
  intros Hlt. split; apply H; intros ->; [done|]. by destruct x as [[]|[]| |[] mx ex].
Qed.
