(* ===== verification/Float64Facts.v ===== *)
(** * Exact floating-point arithmetic on integers

    A binary64 value holds every integer with at most 53 significant bits, and the
    product of two such values is exact when it has at most 53 significant bits. *)
From S2P Require Import Prelude GoText Float64.
From Stdlib Require Import SpecFloat.
#[local] Open Scope Z_scope.

Definition bits (q : Z) : Z := Z.log2 q + 1.

Lemma digits2_bits p : Z.pos (digits2_pos p) = bits (Z.pos p).
Proof.
  unfold bits. induction p as [p IH|p IH|]; cbn [digits2_pos]; [..|done];
    rewrite Pos2Z.inj_succ, IH; [rewrite (Pos2Z.inj_xI p), Z.log2_succ_double|rewrite (Pos2Z.inj_xO p), Z.log2_double]; lia.
Qed.

Lemma Zdigits2_bits q : 0 < q -> Zdigits2 q = bits q.
Proof. destruct q as [|p|p]; [lia| |lia]. intros _. apply digits2_bits. Qed.

Lemma bits_shift q k : 0 < q -> 0 <= k -> bits (q * 2 ^ k) = bits q + k.
Proof. intros Hq Hk. unfold bits. rewrite Z.log2_mul_pow2 by lia. lia. Qed.

Lemma bits_pos q : 0 < q -> 0 < bits q.
Proof. intros Hq. unfold bits. pose proof (Z.log2_nonneg q). lia. Qed.

Lemma bits_le q k : 0 < q -> q < 2 ^ k -> bits q <= k.
Proof. intros Hq Hk. unfold bits. apply Z.log2_lt_pow2 in Hk; lia. Qed.

Lemma bits_mul a b : 0 < a -> 0 < b -> bits a + bits b - 1 <= bits (a * b).
Proof. intros Ha Hb. unfold bits. pose proof (Z.log2_mul_below a b). lia. Qed.

(** ** Rounding a value that needs none *)
Definition exact (m : Z) : shr_record := {| shr_m := m; shr_r := false; shr_s := false |}.

Lemma shr_1_double m : 0 < m -> shr_1 (exact (2 * m)) = exact m.
Proof. destruct m as [|p|p]; [lia|done|lia]. Qed.

Lemma iter_shr p m : 0 < m -> iter_pos shr_1 p (exact (m * 2 ^ Z.pos p)) = exact m.
Proof.
  revert m. induction p as [p IH|p IH|]; intros m Hm; cbn [iter_pos].
  - rewrite (Pos2Z.inj_xI p). replace (m * 2 ^ (2 * Z.pos p + 1)) with (2 * ((m * 2 ^ Z.pos p) * 2 ^ Z.pos p))
      by (rewrite Z.pow_add_r, Z.pow_mul_r by lia; change (2 ^ 2) with (2 * 2); rewrite Z.pow_mul_l; ring).
    rewrite shr_1_double by (apply Z.mul_pos_pos; [apply Z.mul_pos_pos|]; lia).
    rewrite IH by (apply Z.mul_pos_pos; lia). by apply IH.
  - rewrite (Pos2Z.inj_xO p). replace (m * 2 ^ (2 * Z.pos p)) with ((m * 2 ^ Z.pos p) * 2 ^ Z.pos p)
      by (rewrite Z.pow_mul_r by lia; change (2 ^ 2) with (2 * 2); rewrite Z.pow_mul_l; ring).
    rewrite IH by (apply Z.mul_pos_pos; lia). by apply IH.
  - change (2 ^ 1) with 2. rewrite (Z.mul_comm m 2). by apply shr_1_double.
Qed.

Lemma shr_fexp_exact q k e :
  0 < q -> bits q = 53 -> 0 <= k -> -1074 <= e + k -> shr_fexp f_prec f_emax (q * 2 ^ k) e loc_Exact = (exact q, e + k).
Proof.
  intros Hq Hb Hk He. unfold shr_fexp. rewrite Zdigits2_bits by (apply Z.mul_pos_pos; lia). rewrite bits_shift, Hb by lia.
  assert (fexp f_prec f_emax (53 + k + e) - e = k) as ->.
  { unfold fexp, emin, f_prec, f_emax. lia. }
  cbn [shr_record_of_loc]. destruct k as [|p|p]; [|..|lia].
  - cbn [shr]. change (2 ^ 0) with 1. rewrite Z.mul_1_r, Z.add_0_r. done.
  - cbn [shr]. change {| shr_m := ?x; shr_r := false; shr_s := false |} with (exact x). by rewrite iter_shr.
Qed.

Lemma round_aux_exact q k e :
  0 < q -> bits q = 53 -> 0 <= k -> -1074 <= e + k <= 971 ->
  binary_round_aux f_prec f_emax false (q * 2 ^ k) e loc_Exact = S754_finite false (Z.to_pos q) (e + k).
Proof.
  intros Hq Hb Hk He. unfold binary_round_aux. rewrite shr_fexp_exact by lia. cbn [exact shr_m loc_of_shr_record round_nearest_even].
  pose proof (shr_fexp_exact q 0 (e + k) Hq Hb) as E. change (2 ^ 0) with 1 in E. rewrite Z.mul_1_r, Z.add_0_r in E.
  rewrite E by lia. cbn [exact shr_m]. destruct q as [|p|p]; [lia| |lia]. cbn [Z.to_pos].
  rewrite (proj2 (Z.leb_le _ _)) by (unfold f_emax, f_prec; lia). done.
Qed.

(** ** Integers *)

(** The value [q * 2 ^ j], for [q] of at most 53 bits. *)
Definition f_int (q j : Z) : float64 := S754_finite false (Z.to_pos (q * 2 ^ (53 - bits q))) (bits q - 53 + j).

Lemma f_int_mantissa q : 0 < q -> bits q <= 53 -> 0 < q * 2 ^ (53 - bits q) /\ bits (q * 2 ^ (53 - bits q)) = 53.
Proof. intros Hq Hb. split; [apply Z.mul_pos_pos; lia|]. rewrite bits_shift by lia. lia. Qed.

Lemma iter_xO p d : Z.pos (Pos.iter xO p d) = Z.pos p * 2 ^ Z.pos d.
Proof.
  rewrite <-Pos2Z.inj_pow, <-Pos2Z.inj_mul. f_equal. rewrite Pos.mul_comm.
  induction d as [|d IH] using Pos.peano_ind; [done|]. rewrite Pos.iter_succ, IH, Pos.pow_succ_r. lia.
Qed.

Lemma f_of_int_exact n : 0 < n < 2 ^ 53 -> f_of_int n = f_int n 0.
Proof.
  intros Hn. pose proof (bits_le n 53 ltac:(lia) ltac:(lia)) as Hb. pose proof (bits_pos n ltac:(lia)) as Hp.
  destruct (f_int_mantissa n ltac:(lia) Hb) as [Hm Hm53].
  unfold f_of_int, f_int. destruct n as [|p|p]; [lia| |lia]. cbn [binary_normalize]. unfold binary_round.
  rewrite digits2_bits, Z.add_0_r.
  assert (fexp f_prec f_emax (bits (Z.pos p)) = bits (Z.pos p) - 53) as -> by (unfold fexp, emin, f_prec, f_emax; lia).
  pose proof (round_aux_exact _ 0 (bits (Z.pos p) - 53) Hm Hm53) as E. change (2 ^ 0) with 1 in E.
  rewrite Z.mul_1_r, Z.add_0_r in E. rewrite Z.add_0_r. unfold shl_align. rewrite Z.sub_0_r.
  destruct (bits (Z.pos p) - 53) as [|d|d] eqn:Ed; [|lia|].
  - rewrite <-E by lia. replace (53 - bits (Z.pos p)) with 0 by lia. change (2 ^ 0) with 1. by rewrite Z.mul_1_r.
  - rewrite <-E by lia. rewrite iter_xO. do 2 f_equal. f_equal. lia.
Qed.

Lemma f_mul_exact a i b j :
  0 < a -> 0 < b -> a * b < 2 ^ 53 -> -1000 <= i + j <= 900 -> f_mul (f_int a i) (f_int b j) = f_int (a * b) (i + j).
Proof.
  intros Ha Hb Hab Hij. assert (a < 2 ^ 53 /\ b < 2 ^ 53) as [Ha' Hb'] by nia.
  pose proof (bits_le a 53 Ha Ha'). pose proof (bits_le b 53 Hb Hb'). pose proof (bits_le (a * b) 53 ltac:(nia) Hab).
  pose proof (bits_mul a b Ha Hb) as Hk. pose proof (bits_pos a Ha). pose proof (bits_pos b Hb).
  destruct (f_int_mantissa a Ha) as [Ma _]; [lia|]. destruct (f_int_mantissa b Hb) as [Mb _]; [lia|].
  destruct (f_int_mantissa (a * b)) as [Mab Bab]; [nia|lia|].
  unfold f_mul, f_int at 1 2. cbn [SFmul xorb]. rewrite Pos2Z.inj_mul, !Z2Pos.id by done.
  set (k := 53 - bits a - bits b + bits (a * b)).
  replace (a * 2 ^ (53 - bits a) * (b * 2 ^ (53 - bits b))) with (a * b * 2 ^ (53 - bits (a * b)) * 2 ^ k).
  2:{ rewrite <-(Z.mul_assoc (a * b)), <-Z.pow_add_r by (unfold k; lia).
      replace (53 - bits (a * b) + k) with ((53 - bits a) + (53 - bits b)) by (unfold k; lia).
      rewrite Z.pow_add_r by lia. ring. }
  rewrite round_aux_exact; [|done|done|unfold k; lia..]. unfold f_int. f_equal. unfold k. lia.
Qed.

(** The nearest integer value of an exact one. *)
Lemma f_int_value q j :
  0 < q -> bits q <= 53 -> 0 <= j ->
  (let e := bits q - 53 + j in
   let m := Z.pos (Z.to_pos (q * 2 ^ (53 - bits q))) in if 0 <=? e then m * 2 ^ e else m / 2 ^ (- e)) = q * 2 ^ j.
Proof.
  intros Hq Hb Hj. cbn zeta. destruct (f_int_mantissa q Hq Hb) as [Hm _]. rewrite Z2Pos.id by done.
  destruct (Z.leb_spec 0 (bits q - 53 + j)).
  - rewrite <-Z.mul_assoc, <-Z.pow_add_r by lia. do 2 f_equal. lia.
  - replace (53 - bits q) with (j + - (bits q - 53 + j)) by lia. rewrite Z.pow_add_r, Z.mul_assoc by lia.
    apply Z.div_mul. lia.
Qed.
