(* ===== verification/DetTypes.v ===== *)
(** * Detector data (internal/detector: types.go, and the compiled forms of compile.go)

    The identity of an instance, its hash, the signals a trigger term reads, and
    the compiled shapes of history, terms, port aggregation and emission.
    [time.Time] and [time.Duration] are nanosecond counts (a time since the Unix
    epoch); a stored time that the code tests with [IsZero] is an [option],
    [None] being the zero time. *)
From S2P Require Import Prelude GoText Netip Flowspec Packet Spread Float64.
#[local] Open Scope Z_scope.

(** Wrap-around of [int64]. *)
Definition i64 (z : Z) : Z := (z + 2 ^ 63) mod 2 ^ 64 - 2 ^ 63.

Lemma i64_small z : - 2 ^ 63 <= z < 2 ^ 63 -> i64 z = z.
Proof. intros Hz. unfold i64. rewrite Z.mod_small; lia. Qed.

(** ** types.go: descriptor *)
Record descriptor := {
  d_family : Family;
  d_proto : Z;
  d_protoWild : bool;
  d_src : Addr;
  d_dst : Addr;
  d_srcPortLo : Z;
  d_srcPortHi : Z;
  d_dstPortLo : Z;
  d_dstPortHi : Z;
  d_icmpType : Z;
  d_icmpCode : Z;
  d_icmpTypeWild : bool;
  d_icmpCodeWild : bool
}.

#[global] Instance descriptor_eq_dec : EqDecision descriptor.
Proof. solve_decision. Defined.

Definition boolByte (b : bool) : Z := if b then 1 else 0.

Definition family_byte (f : Family) : Z := match f with FamilyIPv4 => 0 | FamilyIPv6 => 1 end.

(** Descriptors as map keys: a flat list of numbers identifies one. *)
Definition addr_tag (a : Addr) : Z := match a with AddrNone => 0 | Addr4 _ => 1 | Addr6 _ => 2 end.
Definition addr_of (tag v : Z) : Addr := if tag =? 0 then AddrNone else if tag =? 1 then Addr4 v else Addr6 v.

Definition descriptor_code (d : descriptor) : list Z :=
  [family_byte (d_family d); d_proto d; boolByte (d_protoWild d); addr_tag (d_src d); addr_val (d_src d);
   addr_tag (d_dst d); addr_val (d_dst d); d_srcPortLo d; d_srcPortHi d; d_dstPortLo d; d_dstPortHi d;
   d_icmpType d; d_icmpCode d; boolByte (d_icmpTypeWild d); boolByte (d_icmpCodeWild d)].

Definition descriptor_decode (l : list Z) : option descriptor :=
  match l with
  | [fam; proto; pw; st; sv; dt; dv; slo; shi; dlo; dhi; it; ic; itw; icw] =>
      Some {| d_family := if fam =? 0 then FamilyIPv4 else FamilyIPv6; d_proto := proto; d_protoWild := pw =? 1;
              d_src := addr_of st sv; d_dst := addr_of dt dv; d_srcPortLo := slo; d_srcPortHi := shi;
              d_dstPortLo := dlo; d_dstPortHi := dhi; d_icmpType := it; d_icmpCode := ic;
              d_icmpTypeWild := itw =? 1; d_icmpCodeWild := icw =? 1 |}
  | _ => None
  end.

Lemma addr_of_code a : addr_of (addr_tag a) (addr_val a) = a.
Proof. by destruct a. Qed.

Lemma boolByte_code b : (boolByte b =? 1) = b.
Proof. by destruct b. Qed.

#[global] Instance descriptor_countable : Countable descriptor.
Proof.
  refine (inj_countable descriptor_code descriptor_decode _). intros [f p pw s d a b c e i j iw jw].
  cbn. rewrite !addr_of_code, !boolByte_code. by destruct f.
Defined.

(** The [n] bytes of a value, most significant first. *)
Fixpoint bytes_be (n : nat) (v : Z) : list Z :=
  match n with
  | O => []
  | S n' => bytes_be n' (v / 256) ++ [v mod 256]
  end.

(** The bytes [descriptor.hash] folds, in order. *)
Definition hash_bytes (d : descriptor) : list Z :=
  [family_byte (d_family d); d_proto d; boolByte (d_protoWild d)] ++
  bytes_be 16 (As16 (d_src d)) ++ bytes_be 16 (As16 (d_dst d)) ++
  concat (map (fun p => [u8 p; u8 (Z.shiftr p 8)]) [d_srcPortLo d; d_srcPortHi d; d_dstPortLo d; d_dstPortHi d]) ++
  [d_icmpType d; d_icmpCode d; boolByte (d_icmpTypeWild d); boolByte (d_icmpCodeWild d)].

Definition fnv_offset : Z := 1469598103934665603.
Definition fnv_prime : Z := 1099511628211.

Definition mix (h b : Z) : Z := u64 (Z.lxor h b * fnv_prime).

Definition hash (d : descriptor) : Z := foldl mix fnv_offset (hash_bytes d).
#[global] Arguments hash : simpl never.

(** ** types.go: metrics *)
Inductive metricKind :=
  | metricPPS | metricBPS
  | metricIfaceRXPPS | metricIfaceTXPPS | metricIfaceRXBPS | metricIfaceTXBPS
  | metricIfaceSWDropPPS | metricIfaceHWDropPPS
  | metricTotalRXPPS | metricTotalTXPPS | metricTotalRXBPS | metricTotalTXBPS
  | metricTotalSWDropPPS | metricTotalHWDropPPS.

#[global] Instance metricKind_eq_dec : EqDecision metricKind.
Proof. solve_decision. Defined.

Definition metric_iota (m : metricKind) : Z :=
  match m with
  | metricPPS => 0 | metricBPS => 1
  | metricIfaceRXPPS => 2 | metricIfaceTXPPS => 3 | metricIfaceRXBPS => 4 | metricIfaceTXBPS => 5
  | metricIfaceSWDropPPS => 6 | metricIfaceHWDropPPS => 7
  | metricTotalRXPPS => 8 | metricTotalTXPPS => 9 | metricTotalRXBPS => 10 | metricTotalTXBPS => 11
  | metricTotalSWDropPPS => 12 | metricTotalHWDropPPS => 13
  end.

Definition isStats (m : metricKind) : bool := metric_iota metricIfaceRXPPS <=? metric_iota m.
Definition isTotal (m : metricKind) : bool := metric_iota metricTotalRXPPS <=? metric_iota m.

Record Rates := {
  RXPPS : float64; TXPPS : float64; RXBPS : float64; TXBPS : float64; SWDropPPS : float64; HWDropPPS : float64
}.

Definition selectRate (m : metricKind) (r : Rates) : float64 :=
  match m with
  | metricIfaceRXPPS | metricTotalRXPPS => RXPPS r
  | metricIfaceTXPPS | metricTotalTXPPS => TXPPS r
  | metricIfaceRXBPS | metricTotalRXBPS => RXBPS r
  | metricIfaceTXBPS | metricTotalTXBPS => TXBPS r
  | metricIfaceSWDropPPS | metricTotalSWDropPPS => SWDropPPS r
  | metricIfaceHWDropPPS | metricTotalHWDropPPS => HWDropPPS r
  | metricPPS | metricBPS => f_zero
  end.

Inductive aggKind := aggAvg | aggMax | aggSum.
Inductive ringKind := ringFine | ringMedium | ringCoarse.

#[global] Instance aggKind_eq_dec : EqDecision aggKind.
Proof. solve_decision. Defined.
#[global] Instance ringKind_eq_dec : EqDecision ringKind.
Proof. solve_decision. Defined.

(** [StatsView]: the counters of the stats package, read through an interface;
    every method is a read. *)
Record StatsView := {
  InterfaceRates : string -> option Rates;
  TotalRates : Rates;
  InterfaceWindow : string -> Z -> Z -> Z -> bool -> option Rates;
  TotalWindow : Z -> Z -> Z -> bool -> option Rates
}.

(** ** compile.go: compiled forms *)
Record historySpec := {
  maxInstances : Z;
  fineResolution : Z;
  fineSlots : Z;
  mediumResolution : Z;
  mediumSlots : Z;
  coarseResolution : Z;
  coarseSlots : Z
}.

Record term := {
  t_name : string;
  t_metric : metricKind;
  t_agg : aggKind;
  t_window : Z;
  t_offset : Z;
  t_ring : ringKind;
  t_ringRes : Z;
  t_slots : Z
}.

Inductive portAggMode := portExact | portAll | portRange | portBucket.

#[global] Instance portAggMode_eq_dec : EqDecision portAggMode.
Proof. solve_decision. Defined.

Record portAgg := { pa_mode : portAggMode; pa_lo : Z; pa_hi : Z; pa_step : Z }.

Definition wildcard (p : portAgg) : bool := bool_decide (pa_mode p = portAll).

(** [portAgg.reduce]; a zero step divides by zero ([None]). *)
Definition reduce (p : portAgg) (port : Z) : option (Z * Z) :=
  match pa_mode p with
  | portAll => Some (0, 65535)
  | portRange => Some (pa_lo p, pa_hi p)
  | portBucket =>
      if pa_step p =? 0 then None
      else
        let base := u32 (port / pa_step p * pa_step p) in
        let end_ := u32 (base + pa_step p - 1) in
        let end_ := if 65535 <? end_ then 65535 else end_ in
        Some (u16 base, u16 end_)
  | portExact => Some (port, port)
  end.
