(* ===== verification/HeavyKeeper.v ===== *)
(** * The admission sketch (internal/detector/heavykeeper.go)

    A HeavyKeeper sketch over [float64] weights.  [math.Pow] is a parameter: its
    rounding is specific to the platform.  [None] is a run-time panic. *)
From S2P Require Import Prelude Packet Spread Float64 DetTypes.
#[local] Open Scope Z_scope.

Definition sketchDepth : Z := 4.
(** 1.08, the nearest binary64. *)
Definition heavyKeeperDecay : float64 := f_div (f_of_int 108) (f_of_int 100).
Definition sketchHalfLife : Z := 30 * Second.

Definition sketchWidth (maxInstances : Z) : Z :=
  let w := i64 (16 * maxInstances) in
  if w <? 1024 then 1024 else w.

Record hkBucket := { hb_fp : Z; hb_count : float64 }.

Definition emptyBucket : hkBucket := {| hb_fp := 0; hb_count := f_zero |}.

Record heavyKeeper := {
  hk_depth : Z;
  hk_width : Z;
  hk_decay : float64;
  hk_buckets : list (list hkBucket);
  hk_rng : Z
}.

Definition pruneBelow : float64 := f_one.

Definition newHeavyKeeper (width depth : Z) (decay : float64) : heavyKeeper :=
  let width := if width <? 1 then 1 else width in
  let depth := if depth <? 1 then 1 else depth in
  {| hk_depth := depth; hk_width := width; hk_decay := decay;
     hk_buckets := replicate (Z.to_nat depth) (replicate (Z.to_nat width) emptyBucket);
     hk_rng := 0x2545F4914F6CDD1D |}.

Definition set_bucket (h : heavyKeeper) (i j : Z) (b : hkBucket) : heavyKeeper :=
  {| hk_depth := hk_depth h; hk_width := hk_width h; hk_decay := hk_decay h;
     hk_buckets := alter (<[Z.to_nat j := b]>) (Z.to_nat i) (hk_buckets h); hk_rng := hk_rng h |}.

Definition set_rng (h : heavyKeeper) (x : Z) : heavyKeeper :=
  {| hk_depth := hk_depth h; hk_width := hk_width h; hk_decay := hk_decay h; hk_buckets := hk_buckets h; hk_rng := x |}.

(** [heavyKeeper.index] *)
Definition hk_index (h : heavyKeeper) (key i : Z) : option Z :=
  let x := Z.lxor key (u64 (u64 (i + 1) * 0x9E3779B97F4A7C15)) in
  let x := Z.lxor x (Z.shiftr x 33) in
  let x := u64 (x * 0xFF51AFD7ED558CCD) in
  let x := Z.lxor x (Z.shiftr x 33) in
  if u64 (hk_width h) =? 0 then None else Some (x mod u64 (hk_width h)).

(** [h.buckets[i][h.index(key, i)]], with the index *)
Definition bucket_at (h : heavyKeeper) (key i : Z) : option (Z * hkBucket) :=
  j ← hk_index h key i;
  row ← index (hk_buckets h) i;
  b ← index row j;
  Some (j, b).

Definition rngFloat (h : heavyKeeper) : heavyKeeper * float64 :=
  let x := hk_rng h in
  let x := Z.lxor x (u64 (Z.shiftl x 13)) in
  let x := Z.lxor x (Z.shiftr x 7) in
  let x := Z.lxor x (u64 (Z.shiftl x 17)) in
  (set_rng h x, f_div (f_of_int (Z.shiftr x 11)) (f_of_int (2 ^ 53))).

Section Sketch.
Context (Pow : float64 -> float64 -> float64).

Definition decayHits (h : heavyKeeper) (count : float64) : heavyKeeper * bool :=
  let p := Pow (hk_decay h) (f_neg count) in
  if f_le p f_zero then (h, false)
  else if f_le f_one p then (h, true)
  else let '(h, x) := rngFloat h in (h, f_lt x p).

(** One iteration of the loop of [add]. *)
Definition add_row (key : Z) (weight : float64) (h : heavyKeeper) (i : Z) : option heavyKeeper :=
  '(j, b) ← bucket_at h key i;
  if (f_le (hb_count b) f_zero : bool) then Some (set_bucket h i j {| hb_fp := key; hb_count := weight |})
  else if hb_fp b =? key then Some (set_bucket h i j {| hb_fp := hb_fp b; hb_count := f_add (hb_count b) weight |})
  else
    let '(h, hit) := decayHits h (hb_count b) in
    if hit then
      let count := f_sub (hb_count b) weight in
      if f_lt count f_zero then Some (set_bucket h i j {| hb_fp := key; hb_count := f_neg count |})
      else if f_eq count f_zero then Some (set_bucket h i j emptyBucket)
      else Some (set_bucket h i j {| hb_fp := hb_fp b; hb_count := count |})
    else Some h.

Fixpoint add_rows (key : Z) (weight : float64) (h : heavyKeeper) (i : Z) (n : nat) : option heavyKeeper :=
  match n with
  | O => Some h
  | S n' => h ← add_row key weight h i; add_rows key weight h (i + 1) n'
  end.

(** [heavyKeeper.add] *)
Definition hk_add (h : heavyKeeper) (key : Z) (weight : float64) : option heavyKeeper :=
  add_rows key weight h 0 (Z.to_nat (hk_depth h)).
End Sketch.

Fixpoint estimate_rows (h : heavyKeeper) (key : Z) (best : float64) (i : Z) (n : nat) : option float64 :=
  match n with
  | O => Some best
  | S n' =>
      '(_, b) ← bucket_at h key i;
      estimate_rows h key (if (hb_fp b =? key) && f_lt best (hb_count b) then hb_count b else best) (i + 1) n'
  end.

Definition estimate (h : heavyKeeper) (key : Z) : option float64 :=
  estimate_rows h key f_zero 0 (Z.to_nat (hk_depth h)).

Definition decay_bucket (factor : float64) (b : hkBucket) : hkBucket :=
  if f_eq (hb_count b) f_zero then b
  else
    let count := f_mul (hb_count b) factor in
    if f_lt count pruneBelow then emptyBucket else {| hb_fp := hb_fp b; hb_count := count |}.

Definition decayAll (h : heavyKeeper) (factor : float64) : heavyKeeper :=
  if f_le factor f_zero || f_le f_one factor then h
  else {| hk_depth := hk_depth h; hk_width := hk_width h; hk_decay := hk_decay h;
          hk_buckets := map (map (decay_bucket factor)) (hk_buckets h); hk_rng := hk_rng h |}.
