(* ===== verification/HeavyKeeperFacts.v ===== *)
(** * The admission sketch never leaves its arrays *)
From S2P Require Import Prelude Packet Spread SpreadFacts Float64 DetTypes HeavyKeeper.
#[local] Open Scope Z_scope.

(** The shape [newHeavyKeeper] allocates. *)
Record hk_ok (h : heavyKeeper) : Prop := {
  hk_width_pos : 0 < hk_width h < 2 ^ 63;
  hk_rows : len (hk_buckets h) = hk_depth h;
  hk_cols : Forall (fun row => len row = hk_width h) (hk_buckets h)
}.

Lemma newHeavyKeeper_ok width depth decay : width < 2 ^ 63 -> hk_ok (newHeavyKeeper width depth decay).
Proof.
  intros Hw. unfold newHeavyKeeper. split; cbn [hk_width hk_buckets hk_depth].
  - destruct (Z.ltb_spec width 1); lia.
  - unfold len. rewrite length_replicate. destruct (Z.ltb_spec depth 1); lia.
  - apply Forall_replicate. unfold len. rewrite length_replicate. destruct (Z.ltb_spec width 1); lia.
Qed.

Lemma hk_index_range h key i : hk_ok h -> exists j, hk_index h key i = Some j /\ 0 <= j < hk_width h.
Proof.
  intros [Hw _ _]. unfold hk_index. rewrite u64_small by (unfold in_width; lia).
  rewrite (proj2 (Z.eqb_neq _ _)) by lia. eexists. split; [reflexivity|]. apply Z.mod_pos_bound. lia.
Qed.

Lemma bucket_at_in h key i :
  hk_ok h -> 0 <= i < hk_depth h -> exists j b, bucket_at h key i = Some (j, b).
Proof.
  intros Hok Hi. destruct (hk_index_range h key i Hok) as (j & Hj & Hjr). destruct Hok as [Hw Hr Hc].
  unfold bucket_at. rewrite Hj. cbn [mbind option_bind]. rewrite index_lookup by lia. unfold len in *.
  destruct (lookup_lt_is_Some_2 (hk_buckets h) (Z.to_nat i)) as [row Hrow]; [lia|]. rewrite Hrow. cbn [mbind option_bind].
  pose proof (Forall_lookup_1 _ _ _ _ Hc Hrow) as Hrl. simpl in Hrl. rewrite index_lookup by lia.
  destruct (lookup_lt_is_Some_2 row (Z.to_nat j)) as [b Hb]; [lia|]. rewrite Hb. cbn [mbind option_bind]. eauto.
Qed.

Lemma set_bucket_ok h i j b : hk_ok h -> hk_ok (set_bucket h i j b).
Proof.
  intros [Hw Hr Hc]. split; cbn [set_bucket hk_width hk_buckets hk_depth]; [done| |].
  - unfold len in *. by rewrite length_alter.
  - apply Forall_alter; [done|]. intros row _ Hrow. unfold len in *. by rewrite length_insert.
Qed.

Lemma set_rng_ok h x : hk_ok h -> hk_ok (set_rng h x).
Proof. by intros []. Qed.

Lemma decayHits_ok Pow h c : hk_ok h -> hk_ok (decayHits Pow h c).1 /\ hk_depth (decayHits Pow h c).1 = hk_depth h.
Proof.
  intros Hok. unfold decayHits. repeat case_bool; simpl; try done. split; [by apply set_rng_ok|done].
Qed.

Lemma add_row_ok Pow key w h i :
  hk_ok h -> 0 <= i < hk_depth h ->
  exists h', add_row Pow key w h i = Some h' /\ hk_ok h' /\ hk_depth h' = hk_depth h.
Proof.
  intros Hok Hi. destruct (bucket_at_in h key i Hok Hi) as (j & b & Hb). unfold add_row. rewrite Hb. cbn [mbind option_bind].
  pose proof (decayHits_ok Pow h (hb_count b) Hok) as [Hok' Hd]. destruct (decayHits Pow h (hb_count b)) as [h2 hit].
  simpl in Hok', Hd. repeat case_bool; eexists; (split; [reflexivity|]);
    (split; [repeat apply set_bucket_ok; done|done]).
Qed.

Lemma add_rows_ok Pow key w h i n :
  hk_ok h -> 0 <= i -> i + Z.of_nat n <= hk_depth h ->
  exists h', add_rows Pow key w h i n = Some h' /\ hk_ok h' /\ hk_depth h' = hk_depth h.
Proof.
  revert h i. induction n as [|n IH]; intros h i Hok Hi Hn; simpl; [eauto|].
  destruct (add_row_ok Pow key w h i Hok) as (h1 & -> & Hok1 & Hd1); [lia|]. cbn [mbind option_bind].
  destruct (IH h1 (i + 1) Hok1) as (h2 & -> & Hok2 & Hd2); [lia|lia|]. exists h2. split_and!; [done|done|congruence].
Qed.

Lemma hk_depth_nonneg h : hk_ok h -> 0 <= hk_depth h.
Proof. intros [_ Hr _]. unfold len in Hr. lia. Qed.

Lemma hk_add_ok Pow h key w :
  hk_ok h -> exists h', hk_add Pow h key w = Some h' /\ hk_ok h' /\ hk_depth h' = hk_depth h.
Proof. intros Hok. pose proof (hk_depth_nonneg h Hok). apply add_rows_ok; [done|lia|lia]. Qed.

Lemma estimate_rows_ok h key best i n :
  hk_ok h -> 0 <= i -> i + Z.of_nat n <= hk_depth h -> is_Some (estimate_rows h key best i n).
Proof.
  intros Hok. revert best i. induction n as [|n IH]; intros best i Hi Hn; simpl; [eauto|].
  destruct (bucket_at_in h key i Hok) as (j & b & ->); [lia|]. cbn [mbind option_bind]. apply IH; lia.
Qed.

Lemma estimate_ok h key : hk_ok h -> exists x, estimate h key = Some x.
Proof. intros Hok. pose proof (hk_depth_nonneg h Hok). apply estimate_rows_ok; [done|lia|lia]. Qed.

Lemma decayAll_ok h f : hk_ok h -> hk_ok (decayAll h f).
Proof.
  intros Hok. unfold decayAll. case_bool; [done|]. destruct Hok as [Hw Hr Hc].
  split; cbn [hk_width hk_buckets hk_depth]; [done| |].
  - unfold len in *. by rewrite length_map.
  - apply Forall_map. eapply Forall_impl; [exact Hc|]. intros row Hrow. unfold len in *. simpl. by rewrite length_map.
Qed.

(** An estimate is a number, never NaN: it starts at zero and only moves to a
    count that is greater than it. *)
Lemma estimate_num h key x : estimate h key = Some x -> f_num x = true.
Proof.
  unfold estimate. assert (f_num f_zero = true) as Hb by done. revert Hb.
  generalize f_zero as best. generalize 0 as i. generalize (Z.to_nat (hk_depth h)) as n.
  intros n. induction n as [|n IH]; intros i best Hb; simpl; [congruence|].
  destruct (bucket_at h key i) as [[j b]|]; cbn [mbind option_bind]; [|done]. apply IH.
  case_bool; [|done]. apply andb_true_iff in E as [_ E]. by apply f_lt_num in E as [_ E].
Qed.
