(* ===== verification/Store.v ===== *)
(** * Instances and their history (internal/detector/store.go)

    Time-bucketed rings with their 64-bit counters, the per-identity instance
    and the bounded pool of instances.  The pool is a map to pointers: an
    instance is reachable only through its entry, so the entry holds the
    instance itself and an update writes it back.  [None] is a run-time panic. *)
From S2P Require Import Prelude Netip Flowspec Packet Spread Float64 DetTypes HeavyKeeper.
#[local] Open Scope Z_scope.

(** ** Rings *)
Record slot := { sl_epoch : Z; sl_packets : Z; sl_bytes : Z }.

Definition zero_slot : slot := {| sl_epoch := 0; sl_packets := 0; sl_bytes := 0 |}.

(** [epoch % n] keeps the sign of the dividend; [n = 0] divides by zero. *)
Definition slotIndex (epoch n : Z) : option Z :=
  if n =? 0 then None
  else
    let idx := Z.rem epoch n in
    Some (if idx <? 0 then idx + n else idx).

Record sampleRing := { r_slots : list slot; r_resolution : Z }.

Definition newSampleRing (slots resolution : Z) : sampleRing :=
  {| r_slots := replicate (Z.to_nat slots) zero_slot; r_resolution := resolution |}.

Definition newOptionalSampleRing (slots resolution : Z) : option sampleRing :=
  if (slots <=? 0) || (resolution <=? 0) then None else Some (newSampleRing slots resolution).

(** [at.UnixNano() / resolution] *)
Definition epoch (r : sampleRing) (at_ : Z) : option Z :=
  if r_resolution r =? 0 then None else Some (Z.quot (i64 at_) (r_resolution r)).

(** [r.slots[slotIndex(epoch, len(r.slots))]], with the index *)
Definition slot_at (r : sampleRing) (e : Z) : option (Z * slot) :=
  idx ← slotIndex e (len (r_slots r));
  s ← index (r_slots r) idx;
  Some (idx, s).

(** [sampleRing.add] *)
Definition ring_add (r : sampleRing) (at_ packetLen weight : Z) : option sampleRing :=
  e ← epoch r at_;
  '(idx, s) ← slot_at r e;
  let s := if negb (sl_epoch s =? e) then {| sl_epoch := e; sl_packets := 0; sl_bytes := 0 |} else s in
  let s := {| sl_epoch := sl_epoch s; sl_packets := u64 (sl_packets s + weight);
              sl_bytes := u64 (sl_bytes s + u64 (packetLen * weight)) |} in
  Some {| r_slots := <[Z.to_nat idx := s]> (r_slots r); r_resolution := r_resolution r |}.

(** What the loop of [aggregate] accumulates. *)
Record window_acc := { wa_packets : Z; wa_bytes : Z; wa_maxPackets : Z; wa_maxBytes : Z }.

Definition zero_acc : window_acc := {| wa_packets := 0; wa_bytes := 0; wa_maxPackets := 0; wa_maxBytes := 0 |}.

Definition acc_slot (a : window_acc) (s : slot) : window_acc :=
  let p := sl_packets s in
  let b := sl_bytes s in
  {| wa_packets := u64 (wa_packets a + p);
     wa_bytes := u64 (wa_bytes a + b);
     wa_maxPackets := if wa_maxPackets a <? p then p else wa_maxPackets a;
     wa_maxBytes := if wa_maxBytes a <? b then b else wa_maxBytes a |}.

(** [n] iterations of the loop, from [epoch] upwards. *)
Fixpoint window_loop (r : sampleRing) (e : Z) (n : nat) (a : window_acc) : option window_acc :=
  match n with
  | O => Some a
  | S n' =>
      '(_, s) ← slot_at r e;
      window_loop r (e + 1) n' (if negb (sl_epoch s =? e) then a else acc_slot a s)
  end.

(** The last part of [aggregate]: the value the term asks for. *)
Definition window_value (resolution : Z) (t : term) (a : window_acc) : float64 :=
  let bps := bool_decide (t_metric t = metricBPS) in
  let bits v := f_of_int (if bps then u64 (v * 8) else v) in
  match t_agg t with
  | aggSum => if bps then f_of_int (u64 (wa_bytes a * 8)) else f_of_int (wa_packets a)
  | aggMax =>
      let secs := Seconds resolution in
      if f_le secs f_zero then f_zero
      else if bps then f_div (bits (wa_maxBytes a)) secs
      else f_div (bits (wa_maxPackets a)) secs
  | aggAvg =>
      let secs := Seconds (t_window t) in
      if f_le secs f_zero then f_zero
      else if bps then f_div (bits (wa_bytes a)) secs
      else f_div (bits (wa_packets a)) secs
  end.

Definition aggregate (r : sampleRing) (now : Z) (t : term) : option float64 :=
  if t_slots t <=? 0 then Some f_zero
  else
    endEpoch ← epoch r (now + i64 (- t_offset t));
    let startEpoch := i64 (i64 (endEpoch - t_slots t) + 1) in
    a ← window_loop r startEpoch (Z.to_nat (endEpoch - startEpoch + 1)) zero_acc;
    Some (window_value (r_resolution r) t a).

(** The loop of [rate], from the newest slot backwards. *)
Fixpoint rate_loop (r : sampleRing) (e : Z) (n : nat) (packets bytes : Z) : option (Z * Z) :=
  match n with
  | O => Some (packets, bytes)
  | S n' =>
      '(_, s) ← slot_at r e;
      if negb (sl_epoch s =? e) then rate_loop r (e - 1) n' packets bytes
      else rate_loop r (e - 1) n' (u64 (packets + sl_packets s)) (u64 (bytes + sl_bytes s))
  end.

Definition rate (r : sampleRing) (now slots : Z) (metric : metricKind) : option float64 :=
  if slots <=? 0 then Some f_zero
  else
    nowEpoch ← epoch r now;
    '(packets, bytes) ← rate_loop r nowEpoch (Z.to_nat slots) 0 0;
    let seconds := f_mul (Seconds (r_resolution r)) (f_of_int slots) in
    Some (if bool_decide (metric = metricBPS) then f_div (f_of_int (u64 (bytes * 8))) seconds
          else f_div (f_of_int packets) seconds).

(** ** Instances *)
Record instance := {
  i_key : descriptor;
  i_keyHash : Z;
  i_fine : sampleRing;
  i_medium : option sampleRing;
  i_coarse : option sampleRing;
  i_lastSeen : Z;
  i_lastEvent : option Z;
  i_trueSince : option Z;
  i_lastIngressIf : string;
  i_spread : option (list spreadEstimator)
}.

Definition newInstance (key : descriptor) (h : historySpec) (now : Z) : instance :=
  {| i_key := key; i_keyHash := hash key;
     i_fine := newSampleRing (fineSlots h) (fineResolution h);
     i_medium := newOptionalSampleRing (mediumSlots h) (mediumResolution h);
     i_coarse := newOptionalSampleRing (coarseSlots h) (coarseResolution h);
     i_lastSeen := now; i_lastEvent := None; i_trueSince := None; i_lastIngressIf := ""; i_spread := None |}.

Definition set_rings (i : instance) (fine : sampleRing) (medium coarse : option sampleRing) (seen : Z) : instance :=
  {| i_key := i_key i; i_keyHash := i_keyHash i; i_fine := fine; i_medium := medium; i_coarse := coarse;
     i_lastSeen := seen; i_lastEvent := i_lastEvent i; i_trueSince := i_trueSince i;
     i_lastIngressIf := i_lastIngressIf i; i_spread := i_spread i |}.

Definition set_seen (i : instance) (seen : Z) (ingress : string) : instance :=
  {| i_key := i_key i; i_keyHash := i_keyHash i; i_fine := i_fine i; i_medium := i_medium i; i_coarse := i_coarse i;
     i_lastSeen := seen; i_lastEvent := i_lastEvent i; i_trueSince := i_trueSince i;
     i_lastIngressIf := ingress; i_spread := i_spread i |}.

Definition set_spread (i : instance) (sp : list spreadEstimator) : instance :=
  {| i_key := i_key i; i_keyHash := i_keyHash i; i_fine := i_fine i; i_medium := i_medium i; i_coarse := i_coarse i;
     i_lastSeen := i_lastSeen i; i_lastEvent := i_lastEvent i; i_trueSince := i_trueSince i;
     i_lastIngressIf := i_lastIngressIf i; i_spread := Some sp |}.

Definition set_trigger (i : instance) (trueSince lastEvent : option Z) : instance :=
  {| i_key := i_key i; i_keyHash := i_keyHash i; i_fine := i_fine i; i_medium := i_medium i; i_coarse := i_coarse i;
     i_lastSeen := i_lastSeen i; i_lastEvent := lastEvent; i_trueSince := trueSince;
     i_lastIngressIf := i_lastIngressIf i; i_spread := i_spread i |}.

(** [if ring != nil { ring.add(...) }] *)
Definition add_optional (r : option sampleRing) (at_ packetLen weight : Z) : option (option sampleRing) :=
  match r with
  | None => Some None
  | Some r => Some <$> ring_add r at_ packetLen weight
  end.

(** [instance.add] *)
Definition instance_add (i : instance) (at_ packetLen weight : Z) : option instance :=
  fine ← ring_add (i_fine i) at_ packetLen weight;
  medium ← add_optional (i_medium i) at_ packetLen weight;
  coarse ← add_optional (i_coarse i) at_ packetLen weight;
  Some (set_rings i fine medium coarse at_).

Definition ringFor (i : instance) (k : ringKind) : option sampleRing :=
  match k with
  | ringMedium => i_medium i
  | ringCoarse => i_coarse i
  | ringFine => Some (i_fine i)
  end.

(** [Time.Sub] saturates at the range of [Duration]. *)
Definition Sub (t u : Z) : Z := Z.max (- 2 ^ 63) (Z.min (2 ^ 63 - 1) (t - u)).

Definition shouldEmit (i : instance) (now interval : Z) : instance * bool :=
  match i_lastEvent i with
  | Some last => if interval <=? Sub now last then (set_trigger i (i_trueSince i) (Some now), true) else (i, false)
  | None => (set_trigger i (i_trueSince i) (Some now), true)
  end.

(** ** The pool *)
Definition admitSampleSize : Z := 16.

Record instanceStore := { st_max : Z; st_history : historySpec; st_items : gmap descriptor instance }.

Definition newInstanceStore (h : historySpec) : instanceStore :=
  {| st_max := maxInstances h; st_history := h; st_items := ∅ |}.

Definition store_len (s : instanceStore) : Z := Z.of_nat (size (st_items s)).

Definition set_items (s : instanceStore) (m : gmap descriptor instance) : instanceStore :=
  {| st_max := st_max s; st_history := st_history s; st_items := m |}.

(** The loop of [weakestOfSample]: [cur] is the victim so far, with [n] entries
    seen; it stops once [n] reaches the sample size. *)
Fixpoint weakest_loop (sketch : heavyKeeper) (l : list (descriptor * instance)) (n : Z)
    (cur : option (descriptor * float64)) : option (option (descriptor * float64)) :=
  match l with
  | [] => Some cur
  | (k, inst) :: l' =>
      est ← estimate sketch (i_keyHash inst);
      let cur := match cur with
                 | None => Some (k, est)
                 | Some (vk, min) => if f_lt est min then Some (k, est) else Some (vk, min)
                 end in
      let n := n + 1 in
      if admitSampleSize <=? n then Some cur else weakest_loop sketch l' n cur
  end.

Definition weakestOfSample (o : RangeOrder) (s : instanceStore) (sketch : heavyKeeper)
  : option (option (descriptor * float64)) :=
  weakest_loop sketch (range_list o (map_to_list (st_items s))) 0 None.

(** [admit]: the pool afterwards, and whether [items[key]] is the instance to use. *)
Definition store_admit (o : RangeOrder) (s : instanceStore) (key : descriptor) (sketch : heavyKeeper) (now : Z)
  : option (instanceStore * option instance) :=
  match st_items s !! key with
  | Some inst => Some (s, Some inst)
  | None =>
      if store_len s <? st_max s then
        let inst := newInstance key (st_history s) now in
        Some (set_items s (<[key := inst]> (st_items s)), Some inst)
      else
        victim ← weakestOfSample o s sketch;
        match victim with
        | None => Some (s, None)
        | Some (victimKey, victimEst) =>
            est ← estimate sketch (hash key);
            if (f_le est victimEst : bool) then Some (s, None)
            else
              let inst := newInstance key (st_history s) now in
              Some (set_items s (<[key := inst]> (delete victimKey (st_items s))), Some inst)
        end
  end.
