(* ===== verification/StoreFacts.v ===== *)
(** * Correctness of rings and of the bounded pool

    A window read from a ring is the exact total of the samples of that window,
    whatever else the ring was fed with; admission keeps the pool within its
    capacity and only ever evicts a weaker member. *)
From S2P Require Import Prelude Netip Flowspec Packet PacketFacts Spread SpreadFacts Float64 DetTypes HeavyKeeper HeavyKeeperFacts Store.
#[local] Open Scope Z_scope.

(** ** Samples of a ring: arrival time, packet length, weight *)
Record sample := { sm_at : Z; sm_len : Z; sm_weight : Z }.

(** The epoch of an arrival time, at a resolution. *)
Definition ep (res at_ : Z) : Z := Z.quot (i64 at_) res.

Definition sum_of {A} (f : A -> Z) (l : list A) : Z := foldr (fun x acc => f x + acc) 0 l.

Lemma sum_of_app {A} (f : A -> Z) l l' : sum_of f (l ++ l') = sum_of f l + sum_of f l'.
Proof. induction l as [|x l IH]; simpl; [done|]. rewrite IH. lia. Qed.

(** Samples whose epoch is in [lo, hi]. *)
Definition in_epochs (res lo hi : Z) (hs : list sample) : list sample :=
  filter (fun s => lo <= ep res (sm_at s) <= hi) hs.

Definition sum_in (f : sample -> Z) (res lo hi : Z) (hs : list sample) : Z := sum_of f (in_epochs res lo hi hs).

Lemma sum_in_snoc f res lo hi hs x :
  sum_in f res lo hi (hs ++ [x]) = sum_in f res lo hi hs + (if decide (lo <= ep res (sm_at x) <= hi) then f x else 0).
Proof.
  unfold sum_in, in_epochs. rewrite filter_app, sum_of_app. f_equal. rewrite filter_cons, filter_nil.
  case_decide; simpl; lia.
Qed.

Lemma sum_in_split f res lo mid hi hs :
  lo <= mid + 1 -> mid <= hi -> sum_in f res lo hi hs = sum_in f res lo mid hs + sum_in f res (mid + 1) hi hs.
Proof.
  intros H1 H2. induction hs as [|x hs IH] using rev_ind; [done|]. rewrite !sum_in_snoc, IH.
  repeat case_decide; lia.
Qed.

Lemma sum_in_none f res lo hi hs :
  Forall (fun x => ~ (lo <= ep res (sm_at x) <= hi)) hs -> sum_in f res lo hi hs = 0.
Proof.
  induction hs as [|x hs IH] using rev_ind; [done|]. intros [H Hx%Forall_inv]%Forall_app.
  rewrite sum_in_snoc, IH, decide_False by done. done.
Qed.

Lemma sum_in_empty f res lo hi hs : hi < lo -> sum_in f res lo hi hs = 0.
Proof. intros H. apply sum_in_none. apply Forall_true. lia. Qed.

(** ** Slots *)
Lemma slotIndex_mod e n : 0 < n -> slotIndex e n = Some (e mod n).
Proof.
  intros Hn. unfold slotIndex. rewrite (proj2 (Z.eqb_neq _ _)) by lia. f_equal.
  pose proof (Z.quot_rem' e n) as Hq. destruct (Z.ltb_spec (Z.rem e n) 0) as [Hr|Hr].
  - pose proof (Z.rem_bound_abs e n ltac:(lia)). apply (Z.mod_unique_pos _ _ (Z.quot e n - 1)); lia.
  - pose proof (Z.rem_bound_abs e n ltac:(lia)). apply (Z.mod_unique_pos _ _ (Z.quot e n)); lia.
Qed.

Lemma slot_at_mod r e :
  0 < len (r_slots r) -> exists s, slot_at r e = Some (e mod len (r_slots r), s) /\
    r_slots r !! Z.to_nat (e mod len (r_slots r)) = Some s.
Proof.
  intros Hn. pose proof (Z.mod_pos_bound e (len (r_slots r)) Hn) as Hm. unfold slot_at. rewrite slotIndex_mod by done.
  cbn [mbind option_bind]. rewrite index_lookup by lia.
  destruct (lookup_lt_is_Some_2 (r_slots r) (Z.to_nat (e mod len (r_slots r)))) as [s Hs]; [unfold len in *; lia|].
  exists s. by rewrite Hs.
Qed.

(** What the ring holds for an epoch. *)
Definition held (r : sampleRing) (e : Z) : Z * Z :=
  match slot_at r e with
  | Some (_, s) => if sl_epoch s =? e then (sl_packets s, sl_bytes s) else (0, 0)
  | None => (0, 0)
  end.

(** The ring of [n] slots holds the samples [hs], of which the newest is not
    after epoch [top]. *)
Record ring_ok (n res top : Z) (hs : list sample) (r : sampleRing) : Prop := {
  ro_len : len (r_slots r) = n;
  ro_res : r_resolution r = res;
  ro_past : Forall (fun x => ep res (sm_at x) <= top) hs;
  ro_slots : Forall (fun s => sl_epoch s <= top \/ (sl_packets s = 0 /\ sl_bytes s = 0)) (r_slots r);
  ro_held : forall e, top - n < e <= top ->
    held r e = (u64 (sum_in sm_weight res e e hs), u64 (sum_in (fun s => sm_len s * sm_weight s) res e e hs))
}.

Lemma newSampleRing_ok n res top : 0 < n -> ring_ok n res top [] (newSampleRing n res).
Proof.
  intros Hn. assert (len (r_slots (newSampleRing n res)) = n) as Hl.
  { unfold newSampleRing, len. simpl. rewrite length_replicate. lia. }
  split; [done|done|apply Forall_nil_2| |].
  - apply Forall_replicate. by right.
  - intros e _. unfold held. destruct (slot_at_mod (newSampleRing n res) e) as (s & -> & Hs); [lia|].
    apply lookup_replicate in Hs as [-> _]. simpl. by case_bool.
Qed.

(** Time passing without samples. *)
Lemma ring_ok_later n res top top' hs r : ring_ok n res top hs r -> top <= top' -> ring_ok n res top' hs r.
Proof.
  intros [Hl Hr Hp Hs Hh] Ht. split; [done|done| | |].
  - eapply Forall_impl; [exact Hp|]. simpl. lia.
  - eapply Forall_impl; [exact Hs|]. simpl. intros s [?|?]; [left; lia|by right].
  - intros e He. destruct (decide (e <= top)) as [Hle|Hgt]; [apply Hh; lia|].
    rewrite !sum_in_none by (eapply Forall_impl; [exact Hp|]; simpl; lia). unfold held, slot_at.
    destruct (slotIndex _ _) as [idx|]; [|done]. cbn [mbind option_bind].
    destruct (index _ idx) as [s|] eqn:Ei; [|done]. cbn [mbind option_bind]. case_bool; [|done].
    unfold index in Ei. destruct (0 <=? idx); [|done]. eapply Forall_lookup_1 in Hs; [|exact Ei].
    apply Z.eqb_eq in E. destruct Hs as [?|[-> ->]]; [lia|done].
Qed.

Lemma mod_same_epoch n e e' : 0 < n -> e mod n = e' mod n -> Z.abs (e - e') < n -> e = e'.
Proof.
  intros Hn Hm Ha. pose proof (Z.div_mod e n ltac:(lia)). pose proof (Z.div_mod e' n ltac:(lia)).
  assert (e / n = e' / n) by nia. nia.
Qed.

Lemma u64_add_l a b : u64 (u64 a + b) = u64 (a + b).
Proof. unfold u64. by rewrite Zplus_mod_idemp_l. Qed.

Lemma u64_add_r a b : u64 (a + u64 b) = u64 (a + b).
Proof. unfold u64. by rewrite Zplus_mod_idemp_r. Qed.

(** A sample of an epoch the ring still covers. *)
Lemma ring_add_ok n res top hs r x :
  0 < n -> res <> 0 -> ring_ok n res top hs r -> top - n < ep res (sm_at x) <= top ->
  exists r', ring_add r (sm_at x) (sm_len x) (sm_weight x) = Some r' /\ ring_ok n res top (hs ++ [x]) r'.
Proof.
  intros Hn Hres [Hl Hr Hp Hs Hh] Hx. set (e := ep res (sm_at x)) in *. unfold ring_add, epoch.
  rewrite Hr, (proj2 (Z.eqb_neq _ _)) by done. cbn [mbind option_bind]. change (Z.quot _ res) with e.
  destruct (slot_at_mod r e) as (s & Hat & Hlk); [lia|]. rewrite Hat. cbn [mbind option_bind].
  eexists. split; [reflexivity|]. set (s' := {| sl_epoch := _; sl_packets := _; sl_bytes := _ |}).
  set (r' := {| r_slots := _; r_resolution := _ |}).
  pose proof (Hh e Hx) as Hhe. unfold held in Hhe. rewrite Hat in Hhe.
  assert (sl_epoch s' = e /\ sl_packets s' = u64 (sum_in sm_weight res e e (hs ++ [x])) /\
          sl_bytes s' = u64 (sum_in (fun s => sm_len s * sm_weight s) res e e (hs ++ [x]))) as (He' & Hp' & Hb').
  { rewrite !sum_in_snoc, !decide_True by (fold e; lia). subst s'. cbn [sl_epoch sl_packets sl_bytes].
    rewrite u64_add_r, <-(u64_add_l (sum_in sm_weight _ _ _ hs)), <-(u64_add_l (sum_in (fun s => _) _ _ _ hs)).
    destruct (Z.eqb_spec (sl_epoch s) e) as [E|E]; injection Hhe as <- <-; done. }
  assert (len (r_slots r') = n) as Hl' by (subst r'; unfold len in *; simpl; by rewrite length_insert).
  split; [done|done| | |].
  - apply Forall_app_2; [done|]. apply Forall_singleton. fold e. lia.
  - apply Forall_insert; [done|]. left. lia.
  - intros e' Hw. unfold held. destruct (slot_at_mod r' e') as (s2 & -> & Hs2); [lia|].
    rewrite Hl' in Hs2. subst r'. simpl in Hs2. rewrite Hl in Hs2.
    pose proof (Z.mod_pos_bound e n Hn). pose proof (Z.mod_pos_bound e' n Hn).
    destruct (decide (e' = e)) as [->|Hne].
    + rewrite list_lookup_insert_eq in Hs2 by (unfold len in *; lia). injection Hs2 as <-.
      by rewrite He', Z.eqb_refl, Hp', Hb'.
    + assert (Z.to_nat (e mod n) <> Z.to_nat (e' mod n)).
      { intros Heq. apply Hne. symmetry. apply (mod_same_epoch n); lia. }
      rewrite list_lookup_insert_ne in Hs2 by done.
      rewrite !sum_in_snoc, !decide_False, !Z.add_0_r, <-(Hh e' Hw) by (fold e; lia).
      unfold held. destruct (slot_at_mod r e') as (s3 & -> & Hs3); [lia|]. rewrite Hl in Hs3. rewrite Hs2 in Hs3. by injection Hs3 as ->.
Qed.

(** ** Feeding a ring *)
Definition ring_feed (r : sampleRing) (hs : list sample) : option sampleRing :=
  foldl (fun acc x => r ← acc; ring_add r (sm_at x) (sm_len x) (sm_weight x)) (Some r) hs.

(** No sample is older than the ring's span when it arrives. *)
Definition fresh (n res : Z) (hs : list sample) : Prop :=
  forall i j x y, (i < j)%nat -> hs !! i = Some x -> hs !! j = Some y -> ep res (sm_at x) - n < ep res (sm_at y).

Lemma fresh_snoc n res hs x :
  fresh n res (hs ++ [x]) -> fresh n res hs /\ Forall (fun y => ep res (sm_at y) - n < ep res (sm_at x)) hs.
Proof.
  intros Hf. split.
  - intros i j y z Hij Hy Hz. apply (Hf i j); [done| |]; apply lookup_app_l_Some; done.
  - apply Forall_lookup_2. intros i y Hy. apply (Hf i (length hs)).
    + by apply lookup_lt_Some in Hy.
    + by apply lookup_app_l_Some.
    + by rewrite lookup_app_r, Nat.sub_diag by lia.
Qed.

Lemma max_epoch_exists res hs x :
  exists top, ep res (sm_at x) <= top /\ Forall (fun y => ep res (sm_at y) <= top) hs /\
    (top = ep res (sm_at x) \/ exists y, y ∈ hs /\ top = ep res (sm_at y)).
Proof.
  induction hs as [|y hs (top & Hx & Hall & Hin)].
  - exists (ep res (sm_at x)). split; [lia|]. split; [apply Forall_nil_2|by left].
  - exists (Z.max top (ep res (sm_at y))). split; [lia|]. split.
    + apply Forall_cons_2; [lia|]. eapply Forall_impl; [exact Hall|]. simpl. lia.
    + destruct (decide (top < ep res (sm_at y))).
      * right. exists y. split; [by left|lia].
      * destruct Hin as [->|(z & Hz & ->)]; [left; lia|]. right. exists z. split; [by right|lia].
Qed.

Lemma ring_feed_ok n res hs :
  0 < n -> res <> 0 -> fresh n res hs ->
  exists r, ring_feed (newSampleRing n res) hs = Some r /\
    forall top, Forall (fun x => ep res (sm_at x) <= top) hs -> ring_ok n res top hs r.
Proof.
  intros Hn Hres. induction hs as [|x hs IH] using rev_ind; intros Hf.
  - exists (newSampleRing n res). split; [done|]. intros top _. by apply newSampleRing_ok.
  - apply fresh_snoc in Hf as [Hf Hx]. destruct (IH Hf) as (r & Hr & Hok).
    destruct (max_epoch_exists res hs x) as (top & Hxt & Hall & Hin).
    assert (top - n < ep res (sm_at x) <= top) as Hw.
    { destruct Hin as [->|(y & Hy & ->)]; [lia|]. split; [|done]. by eapply Forall_forall in Hx. }
    destruct (ring_add_ok n res top hs r x Hn Hres (Hok top Hall) Hw) as (r' & Hadd & Hok').
    exists r'. split; [unfold ring_feed in *; rewrite foldl_app, Hr; exact Hadd|].
    intros top' Htop'. apply Forall_app in Htop' as [Ha Hb%Forall_inv].
    apply (ring_ok_later _ _ top); [done|]. destruct Hin as [->|(y & Hy & ->)]; [done|]. by eapply Forall_forall in Ha.
Qed.

(** ** Reading a window *)

(** The largest per-epoch total of [k] epochs from [lo]. *)
Fixpoint peak_in (f : sample -> Z) (res lo : Z) (k : nat) (hs : list sample) : Z :=
  match k with
  | O => 0
  | S k' => Z.max (u64 (sum_in f res lo lo hs)) (peak_in f res (lo + 1) k' hs)
  end.

Definition sample_bytes (s : sample) : Z := sm_len s * sm_weight s.

Definition acc_total (a : window_acc) (res lo : Z) (k : nat) (hs : list sample) : window_acc :=
  {| wa_packets := u64 (wa_packets a + sum_in sm_weight res lo (lo + Z.of_nat k - 1) hs);
     wa_bytes := u64 (wa_bytes a + sum_in sample_bytes res lo (lo + Z.of_nat k - 1) hs);
     wa_maxPackets := Z.max (wa_maxPackets a) (peak_in sm_weight res lo k hs);
     wa_maxBytes := Z.max (wa_maxBytes a) (peak_in sample_bytes res lo k hs) |}.

Definition acc_wf (a : window_acc) : Prop :=
  in_width 64 (wa_packets a) /\ in_width 64 (wa_bytes a) /\ 0 <= wa_maxPackets a /\ 0 <= wa_maxBytes a.

(** A slot of another epoch counts as an empty one. *)
Lemma window_step a e s p b :
  acc_wf a -> (if sl_epoch s =? e then (sl_packets s, sl_bytes s) else (0, 0)) = (u64 p, u64 b) ->
  (if negb (sl_epoch s =? e) then a else acc_slot a s) =
    {| wa_packets := u64 (wa_packets a + p); wa_bytes := u64 (wa_bytes a + b);
       wa_maxPackets := Z.max (wa_maxPackets a) (u64 p); wa_maxBytes := Z.max (wa_maxBytes a) (u64 b) |}.
Proof.
  intros (Hp & Hb & Hmp & Hmb) Hs. rewrite <-(u64_add_r _ p), <-(u64_add_r _ b).
  destruct (sl_epoch s =? e); injection Hs as <- <-; simpl.
  - unfold acc_slot. f_equal; case_bool; lia.
  - rewrite !Z.add_0_r, !u64_small, !Z.max_l by done. by destruct a.
Qed.

Lemma acc_wf_step a p b :
  acc_wf a -> acc_wf {| wa_packets := u64 (wa_packets a + p); wa_bytes := u64 (wa_bytes a + b);
       wa_maxPackets := Z.max (wa_maxPackets a) (u64 p); wa_maxBytes := Z.max (wa_maxBytes a) (u64 b) |}.
Proof. intros (? & ? & ? & ?). split_and!; simpl; try apply u64_width; lia. Qed.

Lemma window_loop_total n res top hs r lo k a :
  0 < n -> ring_ok n res top hs r -> top - n < lo -> lo + Z.of_nat k - 1 <= top -> acc_wf a ->
  window_loop r lo k a = Some (acc_total a res lo k hs).
Proof.
  intros Hn Hok. revert lo a. induction k as [|k IH]; intros lo a Hlo Hhi Ha.
  - simpl. unfold acc_total. simpl. rewrite !sum_in_empty, !Z.add_0_r by lia. destruct Ha as (? & ? & ? & ?).
    rewrite !u64_small, !Z.max_l by done. by destruct a.
  - cbn [window_loop]. pose proof (ro_held _ _ _ _ _ Hok lo ltac:(lia)) as Hh. unfold held in Hh.
    destruct (slot_at_mod r lo) as (s & Hs & _); [by rewrite (ro_len _ _ _ _ _ Hok)|]. rewrite Hs in *.
    cbn [mbind option_bind]. rewrite (window_step _ _ _ _ _ Ha Hh), IH by (lia || by apply acc_wf_step).
    f_equal. unfold acc_total. cbn [wa_packets wa_bytes wa_maxPackets wa_maxBytes peak_in].
    rewrite !u64_add_l, <-!Z.add_assoc, <-!Z.max_assoc, !(sum_in_split _ res lo lo (lo + Z.of_nat (S k) - 1)) by lia.
    repeat f_equal; lia.
Qed.

Lemma zero_acc_wf : acc_wf zero_acc.
Proof. repeat split; simpl; lia. Qed.

(** The reference value of a term: totals of the samples whose epoch is in the
    window of [slots] epochs that ends at [end_]. *)
Definition term_reference (res end_ : Z) (t : term) (hs : list sample) : float64 :=
  let lo := end_ - t_slots t + 1 in
  window_value res t
    {| wa_packets := u64 (sum_in sm_weight res lo end_ hs); wa_bytes := u64 (sum_in sample_bytes res lo end_ hs);
       wa_maxPackets := peak_in sm_weight res lo (Z.to_nat (t_slots t)) hs;
       wa_maxBytes := peak_in sample_bytes res lo (Z.to_nat (t_slots t)) hs |}.

Lemma peak_in_nonneg f res lo k hs : 0 <= peak_in f res lo k hs.
Proof. revert lo. induction k as [|k IH]; intros lo; simpl; [lia|]. specialize (IH (lo + 1)). lia. Qed.

Lemma ep_range res t : 0 < res -> - 2 ^ 63 <= ep res t < 2 ^ 63.
Proof.
  intros Hres. unfold ep, i64. pose proof (Z.mod_pos_bound (t + 2 ^ 63) (2 ^ 64) ltac:(lia)).
  set (x := (t + 2 ^ 63) mod 2 ^ 64 - 2 ^ 63) in *. assert (- 2 ^ 63 <= x < 2 ^ 63) as Hx by lia. clearbody x.
  destruct (decide (0 <= x)).
  - rewrite Z.quot_div_nonneg by lia. pose proof (Z.div_pos x res). pose proof (Z.div_le_upper_bound x res x). nia.
  - replace x with (- (- x)) by lia. rewrite Z.quot_opp_l, Z.quot_div_nonneg by lia.
    pose proof (Z.div_pos (- x) res). pose proof (Z.div_le_upper_bound (- x) res (- x)). nia.
Qed.

Lemma aggregate_total n res top hs r now t :
  0 < n -> 0 < res -> ring_ok n res top hs r -> 0 < t_slots t -> 0 <= t_offset t < 2 ^ 63 ->
  let end_ := ep res (now - t_offset t) in
  top - n < end_ - t_slots t + 1 -> end_ <= top -> - 2 ^ 63 <= end_ - t_slots t ->
  aggregate r now t = Some (term_reference res end_ t hs).
Proof.
  intros Hn Hres Hok Hs Ho end_ Hlo Hhi Hmin. unfold aggregate. rewrite (proj2 (Z.leb_gt _ _)) by done.
  unfold epoch. rewrite (ro_res _ _ _ _ _ Hok), (proj2 (Z.eqb_neq _ _)) by lia. cbn [mbind option_bind].
  rewrite (i64_small (- t_offset t)) by lia. change (Z.quot _ res) with end_.
  pose proof (ep_range res (now - t_offset t) Hres) as He. fold end_ in He.
  rewrite (i64_small (end_ - t_slots t)), (i64_small (_ + 1)) by lia.
  replace (end_ - (end_ - t_slots t + 1) + 1) with (t_slots t) by lia.
  rewrite (window_loop_total n res top hs) by (done || lia || apply zero_acc_wf). cbn [mbind option_bind]. f_equal.
  unfold term_reference, acc_total, zero_acc. cbn [wa_packets wa_bytes wa_maxPackets wa_maxBytes].
  replace (end_ - t_slots t + 1 + Z.of_nat (Z.to_nat (t_slots t)) - 1) with end_ by lia.
  by rewrite !Z.add_0_l, !Z.max_r by apply peak_in_nonneg.
Qed.

(** ** The bounded pool *)
Record store_ok (s : instanceStore) : Prop := {
  so_bound : store_len s <= st_max s;
  so_max : 0 < st_max s;
  so_keys : map_Forall (fun k i => i_key i = k /\ i_keyHash i = hash k) (st_items s)
}.

Lemma newInstanceStore_ok h : 0 < maxInstances h -> store_ok (newInstanceStore h).
Proof.
  intros Hm. split; [|done|apply map_Forall_empty]. unfold store_len, newInstanceStore. simpl. rewrite map_size_empty. lia.
Qed.

(** The victim is a member of the sample and nothing sampled is lighter. *)
Lemma weakest_loop_spec sketch l n cur :
  hk_ok sketch -> (forall k i, (k, i) ∈ l -> i_keyHash i = hash k) ->
  (forall v m, cur = Some (v, m) -> f_num m = true) ->
  exists res, weakest_loop sketch l n cur = Some res /\
    (l <> [] \/ cur <> None -> res <> None) /\
    forall v m, res = Some (v, m) ->
      (cur = Some (v, m) \/ (exists i, (v, i) ∈ l /\ estimate sketch (hash v) = Some m)) /\
      (forall v0 m0, cur = Some (v0, m0) -> f_le m m0 = true) /\
      (n + Z.of_nat (length l) <= admitSampleSize ->
       forall k i x, (k, i) ∈ l -> estimate sketch (hash k) = Some x -> f_le m x = true).
Proof.
  intros Hok. revert n cur. induction l as [|[k i] l IH]; intros n cur Hkeys Hnum; cbn [weakest_loop].
  - exists cur. split; [done|]. split; [tauto|]. intros v m ->. split; [by left|]. split.
    + intros ? ? [= -> ->]. apply f_le_refl. eauto.
    + intros _ ? ? ? []%elem_of_nil.
  - destruct (estimate_ok sketch (i_keyHash i) Hok) as [est Hest]. rewrite Hest. cbn [mbind option_bind].
    rewrite (Hkeys k i) in Hest by left. pose proof (estimate_num _ _ _ Hest) as Hen.
    set (cur' := match cur with None => _ | Some _ => _ end).
    assert (exists v m, cur' = Some (v, m) /\ f_num m = true /\ f_le m est = true /\
              (cur = Some (v, m) \/ v = k /\ m = est) /\ (forall v0 m0, cur = Some (v0, m0) -> f_le m m0 = true))
      as (v1 & m1 & Hc1 & Hn1 & Hle1 & Hor1 & Hold1).
    { subst cur'. destruct cur as [[v0 m0]|]; [case_bool|].
      - exists k, est. split_and!; [done|done|by apply f_le_refl|by right|]. intros ? ? [= <- <-]. by apply f_lt_le.
      - exists v0, m0. assert (f_num m0 = true) by eauto.
        split_and!; [done|done|by apply f_not_lt_le|by left|]. intros ? ? [= <- <-]. by apply f_le_refl.
      - exists k, est. split_and!; [done|done|by apply f_le_refl|by right|done]. }
    assert (cur = Some (v1, m1) \/ (exists i0, (v1, i0) ∈ (k, i) :: l /\ estimate sketch (hash v1) = Some m1)) as Hsrc1.
    { destruct Hor1 as [->|[-> ->]]; [by left|right]. exists i. split; [left|done]. }
    rewrite Hc1. case_bool.
    + eexists. split; [reflexivity|]. split; [done|]. intros v m [= <- <-]. split; [done|]. split; [done|].
      intros Hn k' i' x Hin Hx. simpl in Hn. assert (l = []) as -> by (destruct l; simpl in *; [done|lia]).
      apply list_elem_of_singleton in Hin. injection Hin as -> ->. congruence.
    + destruct (IH (n + 1) (Some (v1, m1))) as (res & Hres & Hne & Hsp); [intros; apply Hkeys; by right|naive_solver|].
      exists res. split; [done|]. split; [intros _; apply Hne; by right|]. intros v m Hvm.
      destruct (Hsp v m Hvm) as (Hsrc & Hold & Hmin). specialize (Hold _ _ eq_refl). split; [|split].
      * destruct Hsrc as [[= <- <-]|(i' & Hin & He)]; [done|right; exists i'; split; [by right|done]].
      * intros v0 m0 H0. by apply (f_le_trans _ m1); [|eapply Hold1].
      * intros Hn k' i' x [[= -> ->]|Hin]%elem_of_cons Hx; simpl in Hn.
        -- rewrite Hest in Hx. injection Hx as <-. by apply (f_le_trans _ m1).
        -- eapply Hmin; [lia|done|done].
Qed.

(** What a returning [admit] guarantees, branch by branch. *)
Inductive admitted (s : instanceStore) (key : descriptor) (sketch : heavyKeeper) (now : Z)
  : instanceStore -> option instance -> Prop :=
  | admitted_resident inst :
      st_items s !! key = Some inst -> admitted s key sketch now s (Some inst)
  | admitted_room :
      st_items s !! key = None -> store_len s < st_max s ->
      admitted s key sketch now (set_items s (<[key := newInstance key (st_history s) now]> (st_items s)))
        (Some (newInstance key (st_history s) now))
  | admitted_refused victim est vest :
      st_items s !! key = None -> store_len s = st_max s -> is_Some (st_items s !! victim) ->
      estimate sketch (hash key) = Some est -> estimate sketch (hash victim) = Some vest -> f_le est vest = true ->
      admitted s key sketch now s None
  | admitted_evict victim est vest :
      st_items s !! key = None -> store_len s = st_max s -> is_Some (st_items s !! victim) ->
      estimate sketch (hash key) = Some est -> estimate sketch (hash victim) = Some vest -> f_lt vest est = true ->
      (st_max s <= admitSampleSize -> forall k x, is_Some (st_items s !! k) -> estimate sketch (hash k) = Some x -> f_le vest x = true) ->
      admitted s key sketch now (set_items s (<[key := newInstance key (st_history s) now]> (delete victim (st_items s))))
        (Some (newInstance key (st_history s) now)).

Lemma admit_spec o s key sketch now :
  hk_ok sketch -> store_ok s -> exists s' r, store_admit o s key sketch now = Some (s', r) /\ admitted s key sketch now s' r.
Proof.
  intros Hok [Hb Hm Hk]. unfold store_admit. destruct (st_items s !! key) as [inst|] eqn:Ek.
  { exists s, (Some inst). split; [done|]. by constructor. }
  case_bool. { eexists _, _. split; [reflexivity|]. constructor; [done|lia]. }
  destruct (weakest_loop_spec sketch (range_list o (map_to_list (st_items s))) 0 None Hok) as (res & Hres & Hne & Hsp); [|done|].
  { intros k i Hin%range_elem%elem_of_map_to_list. by apply Hk in Hin as [_ ?]. }
  assert (store_len s = st_max s) as Hfull by lia. unfold weakestOfSample. rewrite Hres. cbn [mbind option_bind].
  destruct res as [[victim vest]|].
  2:{ exfalso. apply Hne; [left|done]. intros Hnil. pose proof (range_perm o (map_to_list (st_items s))) as Hp. rewrite Hnil in Hp.
      apply Permutation_nil_l in Hp. symmetry in Hp. apply map_to_list_empty_iff in Hp. unfold store_len in *. rewrite Hp, map_size_empty in *. lia. }
  destruct (Hsp _ _ eq_refl) as ([[=]|(iv & Hin & Hve)] & _ & Hmin). apply range_elem, elem_of_map_to_list in Hin.
  destruct (estimate_ok sketch (hash key) Hok) as [est Hest]. rewrite Hest. cbn [mbind option_bind]. case_bool.
  - eexists _, _. split; [reflexivity|]. eapply admitted_refused; eauto.
  - eexists _, _. split; [reflexivity|]. eapply admitted_evict; eauto.
    + destruct (f_lt vest est) eqn:E2; [done|].
      by rewrite (f_not_lt_le vest est) in E0 by (by eapply estimate_num || done).
    + intros Hsmall k x [i Hi] Hx. eapply Hmin; [|by apply range_elem, elem_of_map_to_list|exact Hx].
      rewrite (range_perm o), length_map_to_list. unfold store_len in Hfull. lia.
Qed.

Lemma admitted_ok s key sketch now s' r : store_ok s -> admitted s key sketch now s' r -> store_ok s'.
Proof.
  intros [Hb Hm Hk] Ha. destruct Ha as [| Hn Hroom| |victim est vest Hn Hfull [iv Hv]]; try done; split; try done; unfold store_len in *;
    cbn [set_items st_items st_max].
  - rewrite map_size_insert_None by done. lia.
  - by apply map_Forall_insert_2.
  - rewrite map_size_insert_None, map_size_delete_Some by (rewrite ?lookup_delete_None; eauto). lia.
  - apply map_Forall_insert_2; [done|]. by apply map_Forall_delete.
Qed.

(** ** Properties *)

(** C38: admission is bounded and fair.  Admitting a key always returns, keeps the
    pool within its capacity, leaves it alone when the key is refused, and only
    ever removes a resident from a full pool whose sketch estimate is below the
    candidate's; with at most 16 residents the removed one is the lightest. *)
Theorem admission_fair o s key sketch now :
  hk_ok sketch -> store_ok s ->
  exists s' res, store_admit o s key sketch now = Some (s', res) /\ store_ok s' /\
    (forall i, res = Some i -> st_items s' !! key = Some i) /\ (res = None -> s' = s) /\
    forall k, is_Some (st_items s !! k) -> st_items s' !! k = None ->
      store_len s = st_max s /\ exists est vest,
        estimate sketch (hash key) = Some est /\ estimate sketch (hash k) = Some vest /\ f_lt vest est = true /\
        (st_max s <= admitSampleSize -> forall k' x, is_Some (st_items s !! k') -> estimate sketch (hash k') = Some x -> f_le vest x = true).
Proof.
  intros Hok Hs. destruct (admit_spec o s key sketch now Hok Hs) as (s' & res & Ha & Had). exists s', res.
  split; [done|]. split; [by eapply admitted_ok|]. destruct Had as [inst Hi|Hn Hroom|victim est vest Hn Hf Hv He Hve Hle|victim est vest Hn Hf Hv He Hve Hlt Hmin].
  - split_and!; [by intros ? [= <-]|done|]. intros k [x Hx] Hk. congruence.
  - cbn. split_and!; [by intros ? [= <-]; apply lookup_insert_eq|done|]. intros k [x Hx] Hk.
    destruct (decide (k = key)) as [->|Hne]; [congruence|]. rewrite lookup_insert_ne in Hk by done. congruence.
  - split_and!; [done|done|]. intros k [x Hx] Hk. congruence.
  - cbn. split_and!; [by intros ? [= <-]; apply lookup_insert_eq|done|]. intros k [x Hx] Hk.
    destruct (decide (k = key)) as [->|Hne]; [congruence|]. rewrite lookup_insert_ne in Hk by done.
    destruct (decide (k = victim)) as [->|Hne']; [|rewrite lookup_delete_ne in Hk by done; congruence].
    split; [done|]. exists est, vest. by split_and!.
Qed.

Lemma admission_fair_witness :
  exists s' res, store_admit range_id (newInstanceStore {| maxInstances := 1; fineResolution := 1; fineSlots := 1; mediumResolution := 0;
      mediumSlots := 0; coarseResolution := 0; coarseSlots := 0 |})
      (Build_descriptor FamilyIPv4 17 false (Addr4 1) (Addr4 2) 1 1 2 2 0 0 true true) (newHeavyKeeper 4 2 heavyKeeperDecay) 5 = Some (s', res) /\
    store_ok s'.
Proof.
  destruct (admission_fair range_id (newInstanceStore {| maxInstances := 1; fineResolution := 1; fineSlots := 1; mediumResolution := 0;
      mediumSlots := 0; coarseResolution := 0; coarseSlots := 0 |})
      (Build_descriptor FamilyIPv4 17 false (Addr4 1) (Addr4 2) 1 1 2 2 0 0 true true) (newHeavyKeeper 4 2 heavyKeeperDecay) 5)
    as (s' & res & H1 & H2 & _).
  - apply newHeavyKeeper_ok. lia.
  - apply newInstanceStore_ok. reflexivity.
  - exists s', res. split; [exact H1|exact H2].
Defined.
