(* ===== verification/GoParse.v ===== *)
(** * Text parsing of the Go standard library

    The [strings], [strconv] and [net/netip] parsers the agent uses on
    configuration text, on rendered templates and on NLRI text.  Case and white
    space are those of ASCII text.  A failing parser returns [None]; the callers
    only test for failure or wrap the text in a message of their own. *)
From S2P Require Import Prelude GoText Netip.
From Stdlib Require Import Ascii.
#[local] Open Scope Z_scope.

Definition code (c : ascii) : Z := Z.of_N (N_of_ascii c).

(** ** strings *)
Definition lower (c : ascii) : ascii :=
  if (65 <=? code c) && (code c <=? 90) then ascii_of_N (Z.to_N (code c + 32)) else c.

Fixpoint ToLower (s : string) : string :=
  match s with
  | EmptyString => EmptyString
  | String c s' => String (lower c) (ToLower s')
  end.

Definition is_space (c : ascii) : bool := (code c =? 32) || ((9 <=? code c) && (code c <=? 13)).

Fixpoint TrimLeft (s : string) : string :=
  match s with
  | String c s' => if is_space c then TrimLeft s' else s
  | EmptyString => EmptyString
  end.

(** Trailing white space: dropped unless something else follows it. *)
Fixpoint TrimRight (s : string) : string :=
  match s with
  | EmptyString => EmptyString
  | String c s' =>
      match TrimRight s' with
      | EmptyString => if is_space c then EmptyString else String c EmptyString
      | t => String c t
      end
  end.

Definition TrimSpace (s : string) : string := TrimRight (TrimLeft s).

Definition EqualFold (s t : string) : bool := String.eqb (ToLower s) (ToLower t).

Fixpoint HasPrefix (s p : string) : bool :=
  match p, s with
  | EmptyString, _ => true
  | String c p', String d s' => Ascii.eqb c d && HasPrefix s' p'
  | String _ _, EmptyString => false
  end.

Fixpoint drop_str (n : nat) (s : string) : string :=
  match n, s with
  | S n', String _ s' => drop_str n' s'
  | _, _ => s
  end.

Definition TrimPrefix (s p : string) : string := if HasPrefix s p then drop_str (String.length p) s else s.

Fixpoint HasSuffix (s suf : string) : bool :=
  if String.eqb s suf then true else match s with EmptyString => false | String _ s' => HasSuffix s' suf end.

(** [TrimSuffix]: the suffix is dropped where the rest of the text is equal to it. *)
Fixpoint TrimSuffix (s suf : string) : string :=
  if String.eqb s suf then EmptyString else match s with EmptyString => EmptyString | String c s' => String c (TrimSuffix s' suf) end.

(** The text before the first occurrence of [sep], and the text after it. *)
Fixpoint cut (sep s : string) : option (string * string) :=
  if HasPrefix s sep then Some (EmptyString, drop_str (String.length sep) s)
  else match s with
       | EmptyString => None
       | String c s' => '(b, a) ← cut sep s'; Some (String c b, a)
       end.

(** The text before and after the last occurrence of a character. *)
Fixpoint cut_last (ch : ascii) (s : string) : option (string * string) :=
  match s with
  | EmptyString => None
  | String c s' =>
      match cut_last ch s' with
      | Some (b, a) => Some (String c b, a)
      | None => if Ascii.eqb c ch then Some (EmptyString, s') else None
      end
  end.

(** ** strconv *)
Definition digit (c : ascii) : option Z := if is_digit c then Some (code c - 48) else None.

Fixpoint digits_value (acc : Z) (s : string) : option Z :=
  match s with
  | EmptyString => Some acc
  | String c s' => d ← digit c; digits_value (acc * 10 + d) s'
  end.

(** A non-empty string of decimal digits. *)
Definition decimal (s : string) : option Z :=
  match s with EmptyString => None | _ => digits_value 0 s end.

(** [strconv.ParseUint(s, 10, bitSize)] *)
Definition ParseUint (s : string) (bitSize : Z) : option Z :=
  v ← decimal s;
  if v <? 2 ^ bitSize then Some v else None.

(** [strconv.Atoi] on a 64-bit platform *)
Definition Atoi (s : string) : option Z :=
  match s with
  | String "-"%char s' => v ← decimal s'; if v <=? 2 ^ 63 then Some (- v) else None
  | String "+"%char s' => v ← decimal s'; if v <? 2 ^ 63 then Some v else None
  | _ => v ← decimal s; if v <? 2 ^ 63 then Some v else None
  end.

(** ** net/netip *)

(** [parseIPv4Fields]: the loop over the text, with the value and number of
    digits of the current octet and the octets read; [prev] is the previous
    character. *)
Fixpoint ipv4_fields (s : string) (val : Z) (digLen : nat) (fields : list Z) (first : bool) (prev_dot : bool)
  : option (list Z) :=
  match s with
  | EmptyString => if bool_decide (length fields < 3)%nat then None else Some (fields ++ [val])
  | String c s' =>
      match digit c with
      | Some d =>
          if bool_decide (digLen = 1%nat) && (val =? 0) then None
          else
            let val := val * 10 + d in
            if 255 <? val then None else ipv4_fields s' val (S digLen) fields false false
      | None =>
          if Ascii.eqb c "." then
            if first || prev_dot || match s' with EmptyString => true | _ => false end then None
            else if bool_decide (length fields = 3%nat) then None
            else ipv4_fields s' 0 0 (fields ++ [val]) false true
          else None
      end
  end.

Definition value_of_octets (fs : list Z) : Z := foldl (fun acc x => acc * 256 + x) 0 fs.

Definition parseIPv4 (s : string) : option Addr :=
  fs ← ipv4_fields s 0 0 [] true false; Some (Addr4 (value_of_octets fs)).

Definition hex_digit (c : ascii) : option Z :=
  if is_digit c then Some (code c - 48)
  else if (97 <=? code c) && (code c <=? 102) then Some (code c - 97 + 10)
  else if (65 <=? code c) && (code c <=? 70) then Some (code c - 65 + 10)
  else None.

(** A hexadecimal group: its value, its number of digits and the rest; [None]
    when it has more than four digits. *)
Fixpoint hex_group (s : string) (acc : Z) (off : nat) : option (Z * nat * string) :=
  match s with
  | EmptyString => Some (acc, off, s)
  | String c s' =>
      match hex_digit c with
      | None => Some (acc, off, s)
      | Some d => if bool_decide (3 < off)%nat then None else hex_group s' (acc * 16 + d) (S off)
      end
  end.

(** The loop of [parseIPv6] over the 16-bit groups read so far; [ell] is the
    position of "::" among them.  Returns the groups, the position and what is
    left of the text. *)
Fixpoint ipv6_groups (fuel : nat) (s : string) (gs : list Z) (ell : option nat) : option (list Z * option nat * string) :=
  match fuel with
  | O => Some (gs, ell, s)
  | S fuel' =>
      '(acc, off, rest) ← hex_group s 0 0;
      if (bool_decide (off = 0%nat) : bool) then None
      else match rest with
           | String "."%char _ =>
               if bool_decide (ell = None) && negb (bool_decide (length gs = 6%nat)) then None
               else if bool_decide (8 < length gs + 2)%nat then None
               else
                 fs ← ipv4_fields s 0 0 [] true false;
                 match fs with
                 | [a; b; c; d] => Some (gs ++ [a * 256 + b; c * 256 + d], ell, EmptyString)
                 | _ => None
                 end
           | EmptyString => Some (gs ++ [acc], ell, EmptyString)
           | String ch rest' =>
               if negb (Ascii.eqb ch ":") then None
               else match rest' with
                    | EmptyString => None
                    | String ":"%char rest2 =>
                        match ell with
                        | Some _ => None
                        | None =>
                            match rest2 with
                            | EmptyString => Some (gs ++ [acc], Some (length gs + 1)%nat, EmptyString)
                            | _ => ipv6_groups fuel' rest2 (gs ++ [acc]) (Some (length gs + 1)%nat)
                            end
                        end
                    | _ => ipv6_groups fuel' rest' (gs ++ [acc]) ell
                    end
           end
  end.

Definition value_of_groups (gs : list Z) : Z := foldl (fun acc x => acc * 65536 + x) 0 gs.

(** The part of [parseIPv6] after the groups. *)
Definition expand_groups (gs : list Z) (ell : option nat) (rest : string) : option Z :=
  match rest with
  | String _ _ => None
  | EmptyString =>
      if bool_decide (length gs < 8)%nat then
        e ← ell; Some (value_of_groups (take e gs ++ replicate (8 - length gs) 0 ++ drop e gs))
      else match ell with Some _ => None | None => Some (value_of_groups gs) end
  end.

(** [parseIPv6] without a zone; the loop runs once per 16-bit group. *)
Definition parseIPv6 (s : string) : option Addr :=
  if HasPrefix s "::" then
    match drop_str 2 s with
    | EmptyString => Some IPv6Unspecified
    | s' => '(gs, ell, rest) ← ipv6_groups 8 s' [] (Some 0%nat); Addr6 <$> expand_groups gs ell rest
    end
  else '(gs, ell, rest) ← ipv6_groups 8 s [] None; Addr6 <$> expand_groups gs ell rest.

(** [ParseAddr]: the first of the characters '.', ':' and '%' decides.  The
    callers reject zones, so a text with a zone is a failure here. *)
Fixpoint addr_kind (s : string) : option ascii :=
  match s with
  | EmptyString => None
  | String c s' => if Ascii.eqb c "." || Ascii.eqb c ":" || Ascii.eqb c "%" then Some c else addr_kind s'
  end.

Definition ParseAddr (s : string) : option Addr :=
  match addr_kind s with
  | Some "."%char => parseIPv4 s
  | Some ":"%char => if str_has "%" s then None else parseIPv6 s
  | _ => None
  end.

(** [ParsePrefix] *)
Definition ParsePrefix (s : string) : option Prefix :=
  '(a, bitsStr) ← cut_last "/" s;
  ip ← ParseAddr a;
  let bad := match bitsStr with
             | String c (String _ _) => (code c <? 49) || (57 <? code c)
             | _ => false
             end in
  if (bad : bool) then None
  else
    bits ← Atoi bitsStr;
    if (bits <? 0) || (BitLen ip <? bits) then None else Some (PrefixFrom ip bits).
