(* ===== verification/GoParseFacts.v ===== *)
(** * Reading back the text of addresses, prefixes and numbers

    The parsers of [GoParse] invert the renderings of [GoText] and [Netip]:
    [netip.ParseAddr(a.String()) == a] and [netip.ParsePrefix(p.String()) == p]
    for every well-formed value, IPv6 zero compression and IPv4-mapped addresses
    included.  Session identities ([bgp.normalizeAddr]), the conversion of NLRIs
    and the emitted prefixes of the detector rely on it. *)
From S2P Require Import Prelude GoText Netip GoParse.
From Stdlib Require Import Ascii.
#[local] Open Scope Z_scope.

Create HintDb parse_db.

(** ** Bounded decimals, by enumeration *)

(** [a], [a + 1], ..., [a + n - 1]. *)
Fixpoint upto (a : Z) (n : nat) : list Z :=
  match n with O => [] | S n' => a :: upto (a + 1) n' end.

Lemma upto_elem n a z : a <= z < a + Z.of_nat n -> z ∈ upto a n.
Proof.
  revert a. induction n as [|n IH]; intros a Hz; [lia|]. cbn [upto].
  destruct (decide (z = a)) as [->|]; [by left|]. right. apply IH. lia.
Qed.

Lemma forallb_upto P n a z : forallb P (upto a n) = true -> a <= z < a + Z.of_nat n -> P z = true.
Proof. rewrite forallb_forall. intros H Hz. apply H, list_elem_of_In, upto_elem, Hz. Qed.

(** What the address parsers need of the text of an octet. *)
Definition octet_text_ok (z : Z) : bool :=
  let s := itoa z in
  bool_decide (digits_value 0 s = Some z) && (String.length s <=? 3)%nat &&
  match s with
  | EmptyString => false
  | String c s' => bool_decide (s' = "") || negb (Ascii.eqb c "0")
  end.

Lemma octet_text z : 0 <= z < 256 -> octet_text_ok z = true.
Proof. intros. apply (forallb_upto _ 256 0); [by vm_compute|lia]. Qed.

(** ** Dotted quads *)
Lemma digit_bound c d : digit c = Some d -> 0 <= d <= 9.
Proof.
  unfold digit, is_digit, code. case_bool; [|done]. intros [= <-]. bool_hyps.
  lia.
Qed.

Lemma digits_value_grows s acc v : 0 <= acc -> digits_value acc s = Some v -> acc <= v.
Proof.
  revert acc. induction s as [|c s IH]; intros acc Ha; cbn [digits_value]; [intros [= ->]; lia|].
  destruct (digit c) as [d|] eqn:Ed; cbn [mbind option_bind]; [|done].
  apply digit_bound in Ed. intros H%IH; lia.
Qed.

(** Once an octet does not start with a superfluous zero, its digits are read
    one by one. *)
Lemma ipv4_fields_digits s rest val n fs b1 b2 v :
  0 <= val -> (n = 1%nat -> val <> 0) -> s <> "" \/ (b1 = false /\ b2 = false) -> (n = 0%nat -> False) ->
  digits_value val s = Some v -> v <= 255 ->
  exists n', n' <> 0%nat /\ ipv4_fields (s +:+ rest) val n fs b1 b2 = ipv4_fields rest v n' fs false false.
Proof.
  revert val n b1 b2. induction s as [|c s IH]; intros val n b1 b2 Hv Hn Hs Hn0 Hd Hle.
  - injection Hd as ->. destruct Hs as [?|[-> ->]]; [done|]. exists n. split; [lia|done].
  - cbn [digits_value] in Hd. destruct (digit c) as [d|] eqn:Ed; cbn [mbind option_bind] in Hd; [|done].
    pose proof (digit_bound _ _ Ed). cbn [String.append ipv4_fields]. rewrite Ed.
    assert (bool_decide (n = 1%nat) && (val =? 0) = false) as ->.
    { destruct (decide (n = 1%nat)); [|by rewrite bool_decide_false].
      specialize (Hn ltac:(done)). apply andb_false_iff. right. by apply Z.eqb_neq. }
    pose proof (digits_value_grows s (val * 10 + d) v ltac:(lia) Hd).
    cbv zeta. destruct (Z.ltb_spec 255 (val * 10 + d)); [lia|].
    apply IH; [lia|lia|by right|lia|done|done].
Qed.

Lemma ipv4_fields_octet z rest fs b1 b2 :
  0 <= z < 256 -> exists n', n' <> 0%nat /\ ipv4_fields (itoa z +:+ rest) 0 0 fs b1 b2 = ipv4_fields rest z n' fs false false.
Proof.
  intros Hz. pose proof (octet_text z Hz) as H. unfold octet_text_ok in H. cbv zeta in H.
  apply andb_true_iff in H as [[Hd%bool_decide_eq_true Hl]%andb_true_iff H0].
  destruct (itoa z) as [|c s]; [done|]. cbn [digits_value] in Hd.
  destruct (digit c) as [d|] eqn:Ed; cbn [mbind option_bind] in Hd; [|done].
  pose proof (digit_bound _ _ Ed). cbn [String.append ipv4_fields]. rewrite Ed.
  rewrite bool_decide_false by done. cbn [andb]. cbv zeta.
  pose proof (digits_value_grows s (0 * 10 + d) z ltac:(lia) Hd).
  destruct (Z.ltb_spec 255 (0 * 10 + d)); [lia|].
  destruct (decide (s = "")) as [->|Hs].
  - injection Hd as <-. by exists 1%nat.
  - rewrite bool_decide_false in H0 by done. cbn [orb] in H0. apply negb_true_iff in H0.
    apply ipv4_fields_digits; [lia| |by left|lia|done|lia].
    intros _ Hd0. assert (d = 0) by lia. subst d. unfold digit, code in Ed.
    destruct (is_digit c); [|done]. injection Ed as Ed.
    assert (c = "0"%char) as ->; [|done].
    rewrite <-(ascii_N_embedding c), <-(ascii_N_embedding "0"). f_equal.
    change (N_of_ascii "0") with 48%N. lia.
Qed.

Lemma itoa_nonempty_head z : exists c s, itoa z = String c s /\ is_digit c = true.
Proof.
  pose proof (itoa_digits z) as H. destruct (itoa z) as [|c s] eqn:E.
  - exfalso. unfold itoa in E.
    assert (pretty.pretty (Z.to_N z) <> "") as Hn; [|done].
    unfold pretty.pretty, pretty.pretty_N. case_decide; [done|].
    assert (forall x s, s <> "" -> pretty.pretty_N_go x s <> "") as Hg.
    { intros x. induction (N.lt_wf_0 x) as [x _ IH]. intros s Hs.
      destruct (decide (x = 0)%N) as [->|]; [done|]. rewrite pretty.pretty_N_go_step by lia.
      apply IH; [apply N.div_lt; lia|done]. }
    rewrite pretty.pretty_N_go_step by lia. by apply Hg.
  - exists c, s. split; [done|]. cbn [str_forall] in H. by bool_hyps.
Qed.

Lemma ipv4_fields_dot z rest n fs :
  rest <> "" -> length fs <> 3%nat ->
  ipv4_fields ("." +:+ rest) z n fs false false = ipv4_fields rest 0 0 (fs ++ [z]) false true.
Proof.
  intros Hr Hl. cbn [String.append ipv4_fields]. change (digit ".") with (@None Z).
  change (Ascii.eqb "." ".") with true. cbv iota. cbn [orb]. destruct rest; [done|].
  by rewrite bool_decide_false.
Qed.

Lemma ipv4_fields_string4 v :
  in_width 32 v ->
  ipv4_fields (string4 v) 0 0 [] true false =
    Some [v / 2 ^ 24 mod 256; v / 2 ^ 16 mod 256; v / 2 ^ 8 mod 256; v mod 256].
Proof.
  intros Hv. unfold string4.
  assert (forall x, 0 <= x mod 256 < 256) as Hm by (intros; apply Z.mod_pos_bound; lia).
  assert (forall z s, itoa z +:+ s <> "") as Hne
    by (intros z s; destruct (itoa_nonempty_head z) as (c & s' & -> & _); done).
  edestruct ipv4_fields_octet as (n1 & _ & ->); [apply Hm|].
  rewrite ipv4_fields_dot by (done || apply Hne).
  edestruct ipv4_fields_octet as (n2 & _ & ->); [apply Hm|].
  rewrite ipv4_fields_dot by (done || apply Hne).
  edestruct ipv4_fields_octet as (n3 & _ & ->); [apply Hm|].
  rewrite <-(str_app_nil_r (itoa (v mod 256))).
  rewrite ipv4_fields_dot by (done || apply Hne).
  edestruct ipv4_fields_octet as (n4 & _ & ->); [apply Hm|]. done.
Qed.

Lemma parseIPv4_string4 v : in_width 32 v -> parseIPv4 (string4 v) = Some (Addr4 v).
Proof.
  intros Hv. unfold parseIPv4. rewrite ipv4_fields_string4 by done. cbn [mbind option_bind].
  do 2 f_equal. unfold value_of_octets, in_width in *. cbn [foldl].
  Z.div_mod_to_equations. lia.
Qed.

(** ** Hexadecimal groups *)

(** The text continues with something that is not part of a group. *)
Definition group_ends (rest : string) : Prop :=
  match rest with EmptyString => True | String c _ => hex_digit c = None end.

Lemma hex_digit_hexdigit z : 0 <= z < 16 -> hex_digit (hexdigit z) = Some z.
Proof.
  intros Hz. set (P := fun z => bool_decide (hex_digit (hexdigit z) = Some z)).
  assert (P z = true) as H%bool_decide_eq_true; [|done].
  apply (forallb_upto P 16 0); [by vm_compute|lia].
Qed.

Lemma hex_group_stop acc off rest : group_ends rest -> hex_group rest acc off = Some (acc, off, rest).
Proof. destruct rest as [|c rest]; cbn; [done|]. by intros ->. Qed.

Lemma hex_group_digit z s acc off :
  0 <= z < 16 -> (off < 4)%nat ->
  hex_group (String (hexdigit z) s) acc off = hex_group s (acc * 16 + z) (S off).
Proof.
  intros Hz Ho. cbn [hex_group]. rewrite hex_digit_hexdigit by done.
  by rewrite bool_decide_false by lia.
Qed.

Lemma hex_group_appendHex g rest :
  in_width 16 g -> group_ends rest -> exists n, n <> 0%nat /\ hex_group (appendHex g +:+ rest) 0 0 = Some (g, n, rest).
Proof.
  unfold in_width, appendHex. intros Hg Hr. cbv zeta.
  assert (forall i, 0 <= (g / 16 ^ i) mod 16 < 16) as Hd by (intros; apply Z.mod_pos_bound; lia).
  destruct (Z.leb_spec 4096 g); destruct (Z.leb_spec 256 g); destruct (Z.leb_spec 16 g); try lia;
    cbn [String.append]; rewrite !hex_group_digit by (apply Hd || lia); rewrite hex_group_stop by done;
    eexists; (split; [|do 3 f_equal]); try done;
    change (16 ^ 0) with 1; change (16 ^ 1) with 16; change (16 ^ 2) with 256; change (16 ^ 3) with 4096;
    Z.div_mod_to_equations; lia.
Qed.

Lemma appendHex_app_nonempty g s : in_width 16 g -> exists c t, appendHex g +:+ s = String c t /\ c <> ":"%char.
Proof.
  intros Hg. destruct (appendHex_shape g Hg) as (_ & Hh & Hne).
  destruct (appendHex g) as [|c t]; [done|]. exists c, (t +:+ s). split; [done|].
  intros ->. by vm_compute in Hh.
Qed.

(** The text of a list of groups that continues with [rest]. *)
Definition group_text (gs : list Z) : string := join ":" (appendHex <$> gs).

Lemma group_text_cons g h gs rest :
  group_text (g :: h :: gs) +:+ rest = appendHex g +:+ String ":" (group_text (h :: gs) +:+ rest).
Proof.
  unfold group_text.
  change (join ":" (appendHex <$> g :: h :: gs))
    with (appendHex g +:+ String ":" (join ":" (appendHex <$> h :: gs))).
  by rewrite str_app_assoc.
Qed.

Lemma group_text_head g gs rest :
  in_width 16 g -> exists c t, group_text (g :: gs) +:+ rest = String c t /\ c <> ":"%char.
Proof.
  intros Hg. destruct gs as [|h gs].
  - by apply appendHex_app_nonempty.
  - rewrite group_text_cons. by apply appendHex_app_nonempty.
Qed.

(** A group followed by a single colon. *)
Lemma ipv6_groups_colon fuel g rest gs ell :
  in_width 16 g -> (exists c t, rest = String c t /\ c <> ":"%char) ->
  ipv6_groups (S fuel) (appendHex g +:+ String ":" rest) gs ell = ipv6_groups fuel rest (gs ++ [g]) ell.
Proof.
  intros Hg (c & t & -> & Hc). cbn [ipv6_groups].
  destruct (hex_group_appendHex g (String ":" (String c t)) Hg) as (n & Hn & ->); [done|].
  cbn [mbind option_bind]. rewrite bool_decide_false by done. cbn [negb Ascii.eqb]. change (Ascii.eqb ":" ":") with true. cbn [negb].
  destruct c as [[] [] [] [] [] [] [] []]; try reflexivity. by destruct Hc.
Qed.

(** The last group of the text. *)
Lemma ipv6_groups_last fuel g gs ell :
  in_width 16 g -> ipv6_groups (S fuel) (appendHex g) gs ell = Some (gs ++ [g], ell, "").
Proof.
  intros Hg. rewrite <-(str_app_nil_r (appendHex g)). cbn [ipv6_groups].
  destruct (hex_group_appendHex g "" Hg) as (n & Hn & ->); [done|].
  cbn [mbind option_bind]. by rewrite bool_decide_false.
Qed.

(** A group followed by the gap. *)
Lemma ipv6_groups_gap fuel g rest gs :
  in_width 16 g ->
  ipv6_groups (S fuel) (appendHex g +:+ String ":" (String ":" rest)) gs None =
    match rest with
    | EmptyString => Some (gs ++ [g], Some (length gs + 1)%nat, EmptyString)
    | _ => ipv6_groups fuel rest (gs ++ [g]) (Some (length gs + 1)%nat)
    end.
Proof.
  intros Hg. cbn [ipv6_groups].
  destruct (hex_group_appendHex g (String ":" (String ":" rest)) Hg) as (n & Hn & ->); [done|].
  cbn [mbind option_bind]. by rewrite bool_decide_false.
Qed.

Lemma ipv6_groups_plain fuel l gs ell :
  Forall (in_width 16) l -> l <> [] -> (length l <= fuel)%nat ->
  ipv6_groups fuel (group_text l) gs ell = Some (gs ++ l, ell, "").
Proof.
  intros Hl. revert fuel gs. induction Hl as [|g l Hg Hl IH]; intros fuel gs Hne Hf; [done|].
  destruct fuel as [|fuel]; [simpl in Hf; lia|]. destruct l as [|h l].
  - by apply ipv6_groups_last.
  - rewrite <-(str_app_nil_r (group_text _)), group_text_cons.
    inversion Hl; subst. rewrite ipv6_groups_colon by (done || by apply group_text_head).
    rewrite str_app_nil_r, IH by (done || simpl in *; lia). by rewrite <-app_assoc.
Qed.

Lemma ipv6_groups_split fuel l rest gs :
  Forall (in_width 16) l -> l <> [] -> (length l <= fuel)%nat ->
  ipv6_groups fuel (group_text l +:+ "::" +:+ rest) gs None =
    match rest with
    | EmptyString => Some (gs ++ l, Some (length (gs ++ l)), EmptyString)
    | _ => ipv6_groups (fuel - length l) rest (gs ++ l) (Some (length (gs ++ l)))
    end.
Proof.
  intros Hl. revert fuel gs. induction Hl as [|g l Hg Hl IH]; intros fuel gs Hne Hf; [done|].
  destruct fuel as [|fuel]; [simpl in Hf; lia|]. destruct l as [|h l].
  - change (group_text [g]) with (appendHex g). change ("::" +:+ rest) with (String ":" (String ":" rest)).
    rewrite ipv6_groups_gap by done. rewrite length_app. simpl length. simpl Nat.sub. by rewrite Nat.sub_0_r.
  - rewrite group_text_cons. inversion Hl; subst.
    rewrite ipv6_groups_colon by (done || by apply group_text_head).
    rewrite IH by (done || simpl in *; lia). rewrite <-!app_assoc. done.
Qed.

(** ** IPv6 addresses *)
Lemma value_of_groups_app gs g : value_of_groups (gs ++ [g]) = value_of_groups gs * 65536 + g.
Proof. unfold value_of_groups. by rewrite foldl_app. Qed.

Lemma value_of_groups_groups n v :
  0 <= v < 65536 ^ Z.of_nat n -> value_of_groups (groups n v) = v.
Proof.
  revert v. induction n as [|n IH]; intros v Hv.
  - change (65536 ^ Z.of_nat 0) with 1 in Hv. cbn. lia.
  - rewrite Nat2Z.inj_succ, Z.pow_succ_r in Hv by lia. cbn [groups].
    rewrite value_of_groups_app, IH; [Z.div_mod_to_equations; lia|].
    split; [apply Z.div_pos; lia|apply Z.div_lt_upper_bound; lia].
Qed.

Lemma HasPrefix_gap s : HasPrefix (String ":" (String ":" s)) "::" = true.
Proof. by destruct s. Qed.

(** Reading a compressed text. *)
Lemma parse_gap A B :
  Forall (in_width 16) A -> Forall (in_width 16) B -> (length A + length B < 8)%nat ->
  parseIPv6 (group_text A +:+ "::" +:+ group_text B) =
    Some (Addr6 (value_of_groups (A ++ replicate (8 - (length A + length B)) 0 ++ B))).
Proof.
  intros HA HB Hlen. unfold parseIPv6.
  assert (expand_groups (A ++ B) (Some (length A)) "" =
            Some (value_of_groups (A ++ replicate (8 - (length A + length B)) 0 ++ B))) as Hexp.
  { unfold expand_groups. rewrite length_app. rewrite bool_decide_true by lia.
    cbn [mbind option_bind]. by rewrite take_app_length, drop_app_length. }
  destruct A as [|a A].
  - change (group_text [] +:+ "::" +:+ group_text B) with (String ":" (String ":" (group_text B))).
    rewrite HasPrefix_gap.
    change (drop_str 2 (String ":" (String ":" (group_text B)))) with (group_text B).
    destruct B as [|b B]; [done|].
    destruct (group_text_head b B "") as (c & t & E & _); [by inversion HB|].
    rewrite str_app_nil_r in E. rewrite E. rewrite <-E.
    rewrite ipv6_groups_plain by (done || simpl in *; lia).
    cbn [mbind option_bind fmap]. rewrite app_nil_l. cbn [length app] in Hexp. by rewrite Hexp.
  - assert (HasPrefix (group_text (a :: A) +:+ "::" +:+ group_text B) "::" = false) as ->.
    { destruct (group_text_head a A ("::" +:+ group_text B)) as (c & t & -> & Hc); [by inversion HA|].
      cbn [HasPrefix]. destruct (Ascii.eqb_spec ":" c) as [<-|]; done. }
    rewrite ipv6_groups_split by (done || simpl in *; lia). rewrite app_nil_l.
    destruct B as [|b B].
    + change (group_text []) with "". cbv iota. cbn [mbind option_bind fmap].
      rewrite app_nil_r in Hexp. by rewrite Hexp.
    + destruct (group_text_head b B "") as (c & t & E & _); [by inversion HB|].
      rewrite str_app_nil_r in E. rewrite E. rewrite <-E.
      rewrite ipv6_groups_plain by (done || simpl in *; lia).
      cbn [mbind option_bind fmap]. by rewrite Hexp.
Qed.

Lemma parse_plain gs :
  Forall (in_width 16) gs -> length gs = 8%nat -> parseIPv6 (group_text gs) = Some (Addr6 (value_of_groups gs)).
Proof.
  intros Hg Hl. unfold parseIPv6. destruct gs as [|g gs]; [done|].
  assert (HasPrefix (group_text (g :: gs)) "::" = false) as ->.
  { destruct (group_text_head g gs "") as (c & t & E & Hc); [by inversion Hg|].
    rewrite str_app_nil_r in E. rewrite E. cbn [HasPrefix]. destruct (Ascii.eqb_spec ":" c) as [<-|]; done. }
  rewrite ipv6_groups_plain by (done || lia). cbn [mbind option_bind]. rewrite app_nil_l.
  unfold expand_groups. by rewrite bool_decide_false by lia.
Qed.

Lemma parseIPv6_string6 v : in_width 128 v -> parseIPv6 (string6 v) = Some (Addr6 v).
Proof.
  intros Hv. unfold string6.
  assert (take 0 (drop 0 ([] ++ groups 8 v)) = replicate 0 0) as R by done.
  apply (zero_run_spec [] _ (0%nat, 0%nat)) in R. cbv zeta in R. simpl length in R. rewrite app_nil_l in R.
  destruct (zero_run 0 (groups 8 v) _) as [zs zl]. cbn [fst snd] in R. apply run_decompose in R.
  pose proof (groups_width 8 v) as W. pose proof (groups_length 8 v) as L.
  assert (value_of_groups (groups 8 v) = v) as Hval by (by apply value_of_groups_groups).
  destruct (Nat.eqb_spec zl 0) as [->|Hz]; fold (group_text (groups 8 v)).
  - rewrite parse_plain by done. by rewrite Hval.
  - fold (group_text (take zs (groups 8 v))). fold (group_text (drop (zs + zl) (groups 8 v))).
    assert (length (groups 8 v) = (length (take zs (groups 8 v)) + (zl + length (drop (zs + zl) (groups 8 v))))%nat) as Hlen
      by (rewrite R at 1; rewrite !length_app, length_replicate; lia).
    rewrite parse_gap; [|auto using Forall_take, Forall_drop..|lia].
    do 2 f_equal. replace (8 - _)%nat with zl by lia. by rewrite <-R.
Qed.

(** ** IPv4-mapped addresses *)
Lemma is_digit_hex c : is_digit c = true -> exists d, hex_digit c = Some d.
Proof. unfold hex_digit. intros ->. eauto. Qed.

Lemma hex_group_digits s rest acc off :
  str_forall is_digit s = true -> (off + String.length s <= 4)%nat -> group_ends rest ->
  exists acc', hex_group (s +:+ rest) acc off = Some (acc', (off + String.length s)%nat, rest).
Proof.
  revert acc off. induction s as [|c s IH]; intros acc off Hs Hl Hr.
  - exists acc. rewrite hex_group_stop by done. simpl. do 3 f_equal. lia.
  - cbn [str_forall] in Hs. apply andb_true_iff in Hs as [Hc Hs].
    destruct (is_digit_hex c Hc) as (d & Hd). cbn [String.append hex_group String.length] in *.
    rewrite Hd, bool_decide_false by lia.
    destruct (IH (acc * 16 + d) (S off)) as (acc' & ->); [done|lia|done|]. exists acc'. do 3 f_equal. lia.
Qed.

Lemma hex_group_string4 v : exists acc n rest, n <> 0%nat /\ hex_group (string4 v) 0 0 = Some (acc, n, String "." rest).
Proof.
  unfold string4. set (o := v / 2 ^ 24 mod 256).
  assert (0 <= o < 256) as Ho by (apply Z.mod_pos_bound; lia).
  pose proof (octet_text o Ho) as H. unfold octet_text_ok in H. cbv zeta in H.
  apply andb_true_iff in H as [[_ Hl%Nat.leb_le]%andb_true_iff H0].
  generalize (itoa (v / 2 ^ 16 mod 256) +:+ "." +:+ itoa (v / 2 ^ 8 mod 256) +:+ "." +:+ itoa (v mod 256)).
  intros rest. destruct (hex_group_digits (itoa o) (String "." rest) 0 0) as (acc & E);
    [apply itoa_digits|lia|done|].
  exists acc, (0 + String.length (itoa o))%nat, rest. split; [|exact E].
  destruct (itoa o); [done|]. simpl. lia.
Qed.

(** The quad at the end of a text with a gap. *)
Lemma ipv6_groups_quad fuel v gs e :
  in_width 32 v -> (length gs + 2 <= 8)%nat ->
  ipv6_groups (S fuel) (string4 v) gs (Some e) = Some (gs ++ [v / 2 ^ 16; v mod 2 ^ 16], Some e, "").
Proof.
  intros Hv Hl. cbn [ipv6_groups]. destruct (hex_group_string4 v) as (acc & n & rest & Hn & ->).
  cbn [mbind option_bind]. rewrite bool_decide_false by done. rewrite bool_decide_false by done. cbn [andb].
  rewrite bool_decide_false by lia. rewrite ipv4_fields_string4 by done. cbn [mbind option_bind].
  unfold in_width in Hv.
  replace (v / 2 ^ 24 mod 256 * 256 + v / 2 ^ 16 mod 256) with (v / 2 ^ 16) by (Z.div_mod_to_equations; lia).
  by replace (v / 2 ^ 8 mod 256 * 256 + v mod 256) with (v mod 2 ^ 16)
    by (change (2 ^ 16) with (256 * 256); rewrite Z.rem_mul_r by lia; change (2 ^ 8) with 256; lia).
Qed.

Lemma parse_mapped v :
  in_width 32 v -> parseIPv6 ("::ffff:" +:+ string4 v) = Some (Addr6 (65535 * 2 ^ 32 + v)).
Proof.
  intros Hv. unfold parseIPv6.
  change ("::ffff:" +:+ string4 v) with (String ":" (String ":" ("ffff:" +:+ string4 v))).
  rewrite HasPrefix_gap.
  change (drop_str 2 (String ":" (String ":" ("ffff:" +:+ string4 v)))) with (String "f" ("fff:" +:+ string4 v)).
  cbv iota.
  change (String "f" ("fff:" +:+ string4 v)) with (appendHex 65535 +:+ String ":" (string4 v)).
  rewrite ipv6_groups_colon; [|done|].
  2:{ unfold string4. destruct (itoa_nonempty_head (v / 2 ^ 24 mod 256)) as (c & t & E & Hc). rewrite E.
      eexists _, _. split; [done|]. by intros ->. }
  rewrite ipv6_groups_quad by (done || simpl; lia). cbn [mbind option_bind app fmap].
  unfold expand_groups. rewrite bool_decide_true by (simpl; lia). cbn [mbind option_bind].
  cbn [take drop length Nat.sub replicate app option_fmap option_map]. do 2 f_equal.
  unfold value_of_groups, in_width in *. cbn [foldl].
  cbn [fmap option_fmap option_map]. do 2 f_equal. Z.div_mod_to_equations. lia.
Qed.

(** ** Addresses and prefixes *)
Lemma addr_kind_hex s t : str_forall is_hex s = true -> addr_kind (s +:+ t) = addr_kind t.
Proof.
  induction s as [|c s IH]; intros Hs; [done|]. cbn [str_forall] in Hs. apply andb_true_iff in Hs as [Hc Hs].
  cbn [String.append addr_kind].
  assert (Ascii.eqb c "." || Ascii.eqb c ":" || Ascii.eqb c "%" = false) as ->; [|by apply IH].
  destruct c as [[] [] [] [] [] [] [] []]; by vm_compute in Hc |- *.
Qed.

Lemma digits_hex s : str_forall is_digit s = true -> str_forall is_hex s = true.
Proof. apply str_forall_weaken. unfold is_digit, is_hex. cbv zeta. by intros c ->. Qed.

Lemma addr_kind_string4 v : addr_kind (string4 v) = Some "."%char.
Proof. unfold string4. by rewrite addr_kind_hex by apply digits_hex, itoa_digits. Qed.

Lemma group_text_kind g gs t :
  Forall (in_width 16) (g :: gs) -> addr_kind (group_text (g :: gs) +:+ String ":" t) = Some ":"%char.
Proof.
  intros [Hg Hgs]%Forall_cons. destruct (appendHex_shape g Hg) as (_ & Hh & _). destruct gs as [|h gs].
  - by rewrite addr_kind_hex.
  - rewrite group_text_cons. by rewrite addr_kind_hex.
Qed.

Lemma addr_kind_string6 v : addr_kind (string6 v) = Some ":"%char.
Proof.
  unfold string6. destruct (zero_run _ _ _) as [zs zl]. pose proof (groups_width 8 v) as W.
  destruct (zl =? 0)%nat.
  - pose proof (groups_length 8 v) as L. destruct (groups 8 v) as [|g [|h gs]]; try done.
    fold (group_text (g :: h :: gs)). rewrite <-(str_app_nil_r (group_text _)), group_text_cons.
    apply Forall_cons in W as [Hg _]. by rewrite addr_kind_hex by apply (appendHex_shape g Hg).
  - fold (group_text (take zs (groups 8 v))).
    pose proof (Forall_take _ zs _ W) as Wt. destruct (take zs (groups 8 v)) as [|g gs]; [done|].
    by apply group_text_kind.
Qed.

Lemma addr_char_percent : addr_char "%" = false.
Proof. done. Qed.

Lemma ParseAddr_String a : addr_wf a -> a <> AddrNone -> ParseAddr (addr_String a) = Some a.
Proof.
  intros Ha Hn. unfold ParseAddr.
  assert (str_has "%" (addr_String a) = false) as Hp.
  { eapply str_has_forall; [apply addr_char_percent|by apply addr_String_chars]. }
  destruct a as [|v|v]; [done| |]; unfold addr_wf in Ha; cbn [BitLen addr_val addr_String] in *.
  - rewrite addr_kind_string4. by apply parseIPv4_string4.
  - unfold Is4In6 in *. destruct (Z.eqb_spec (v / 2 ^ 32) 65535) as [Hm|_].
    + change (addr_kind ("::ffff:" +:+ string4 (v mod 2 ^ 32))) with (Some ":"%char). cbv iota.
      rewrite Hp, parse_mapped by (apply Z.mod_pos_bound; lia).
      do 2 f_equal. rewrite (Z.div_mod v (2 ^ 32)) at 2 by lia. rewrite Hm. lia.
    + rewrite addr_kind_string6, Hp. by apply parseIPv6_string6.
Qed.

Lemma cut_last_app ch s t : str_without ch t -> cut_last ch (s +:+ String ch t) = Some (s, t).
Proof.
  intros Ht. assert (cut_last ch t = None) as Hnone.
  { unfold str_without in Ht. induction t as [|c t IH]; [done|]. cbn [str_forall] in Ht.
    apply andb_true_iff in Ht as [Hc%negb_true_iff Ht]. cbn [cut_last]. by rewrite IH, Hc. }
  induction s as [|c s IH]; cbn [String.append cut_last].
  - by rewrite Hnone, Ascii.eqb_refl.
  - by rewrite IH.
Qed.

(** What [ParsePrefix] needs of the text of a prefix length. *)
Definition bits_text_ok (z : Z) : bool :=
  bool_decide (Atoi (itoa z) = Some z) &&
  match itoa z with
  | String c (String _ _) => negb ((code c <? 49) || (57 <? code c))
  | _ => true
  end.

Lemma bits_text z : 0 <= z <= 128 -> bits_text_ok z = true.
Proof. intros. apply (forallb_upto _ 129 0); [by vm_compute|lia]. Qed.

Lemma ParsePrefix_text a bits :
  addr_wf a -> a <> AddrNone -> 0 <= bits <= BitLen a ->
  ParsePrefix (addr_String a +:+ "/" +:+ itoa bits) = Some (PrefixFrom a bits).
Proof.
  intros Ha Hn Hb. unfold ParsePrefix. change ("/" +:+ itoa bits) with (String "/" (itoa bits)).
  rewrite cut_last_app by (by apply itoa_without). cbn [mbind option_bind].
  rewrite ParseAddr_String by done. cbn [mbind option_bind].
  assert (0 <= bits <= 128) as Hb' by (destruct a; simpl in *; lia).
  pose proof (bits_text bits Hb') as H. unfold bits_text_ok in H.
  apply andb_true_iff in H as [Hat%bool_decide_eq_true Hbad].
  assert (match itoa bits with
          | String c (String _ _) => (code c <? 49) || (57 <? code c)
          | _ => false
          end = false) as ->.
  { destruct (itoa bits) as [|c [|d t]]; try done. by apply negb_true_iff. }
  rewrite Hat. cbn [mbind option_bind].
  destruct (Z.ltb_spec bits 0); [lia|]. destruct (Z.ltb_spec (BitLen a) bits); [lia|]. done.
Qed.

Lemma ParsePrefix_String p :
  prefix_wf p -> prefix_IsValid p = true -> ParsePrefix (prefix_String p) = Some p.
Proof.
  intros (Ha & Hb & Hn) Hv. unfold prefix_String. rewrite Hv. unfold prefix_IsValid in Hv.
  apply Z.leb_le in Hv.
  assert (p_addr p <> AddrNone) as Hnone by (intros E; specialize (Hn E); lia).
  rewrite ParsePrefix_text by (done || lia). destruct p as [a bits]; cbn [p_addr p_bits] in *.
  unfold PrefixFrom. do 2 f_equal.
  destruct a; [done| |]; cbn [addr_IsValid andb];
    by rewrite (proj2 (Z.leb_le 0 bits)), (proj2 (Z.leb_le bits _)) by lia.
Qed.
#[export] Hint Resolve ParseAddr_String ParsePrefix_String : parse_db.

(** ** Parsed addresses and prefixes are well formed *)
Lemma octets_value fs acc n :
  Forall (fun x => 0 <= x < 256) fs -> 0 <= acc < 256 ^ Z.of_nat n ->
  0 <= foldl (fun acc x => acc * 256 + x) acc fs < 256 ^ Z.of_nat (n + length fs).
Proof.
  intros Hf. revert acc n. induction Hf as [|x fs Hx Hf IH]; intros acc n Ha; cbn [foldl length].
  - by rewrite Nat.add_0_r.
  - rewrite <-Nat.add_succ_comm. apply IH. rewrite Nat2Z.inj_succ, Z.pow_succ_r by lia. lia.
Qed.

Lemma groups_value gs acc n :
  Forall (in_width 16) gs -> 0 <= acc < 65536 ^ Z.of_nat n ->
  0 <= foldl (fun acc x => acc * 65536 + x) acc gs < 65536 ^ Z.of_nat (n + length gs).
Proof.
  intros Hf. revert acc n. induction Hf as [|x fs Hx Hf IH]; intros acc n Ha; cbn [foldl length].
  - by rewrite Nat.add_0_r.
  - rewrite <-Nat.add_succ_comm. apply IH. rewrite Nat2Z.inj_succ, Z.pow_succ_r by lia.
    unfold in_width in Hx. lia.
Qed.

Lemma ipv4_fields_wf s val n fs b1 b2 out :
  0 <= val < 256 -> Forall (fun x => 0 <= x < 256) fs -> (length fs <= 3)%nat ->
  ipv4_fields s val n fs b1 b2 = Some out -> Forall (fun x => 0 <= x < 256) out /\ length out = 4%nat.
Proof.
  revert val n fs b1 b2. induction s as [|c s IH]; intros val n fs b1 b2 Hv Hf Hl; cbn [ipv4_fields].
  - case_bool_decide; [done|]. intros [= <-]. rewrite length_app. simpl. split; [|lia].
    apply Forall_app. by split; [|constructor].
  - destruct (digit c) as [d|] eqn:Ed.
    + apply digit_bound in Ed. case_match; [done|]. cbv zeta.
      destruct (Z.ltb_spec 255 (val * 10 + d)); [done|]. apply IH; [lia|done|done].
    + case_match; [|done]. case_match; [done|]. case_bool_decide; [done|]. apply IH; [lia| |].
      * apply Forall_app. by split; [|constructor].
      * rewrite length_app. simpl. lia.
Qed.

Lemma parseIPv4_wf s a : parseIPv4 s = Some a -> addr_wf a /\ Is4 a = true.
Proof.
  unfold parseIPv4. destruct (ipv4_fields _ _ _ _ _ _) as [fs|] eqn:E; [|done]. cbn [mbind option_bind].
  intros [= <-]. apply ipv4_fields_wf in E as [Hf Hl]; [|lia|done|simpl; lia].
  split; [|done]. pose proof (octets_value fs 0 0 Hf ltac:(simpl; lia)) as H. rewrite Hl in H. exact H.
Qed.

Lemma hex_digit_bound c d : hex_digit c = Some d -> 0 <= d < 16.
Proof.
  unfold hex_digit, is_digit, code. repeat case_bool; try done; intros [= <-]; bool_hyps; lia.
Qed.

Lemma hex_group_bound s acc off g n rest :
  0 <= acc < 16 ^ Z.of_nat off -> (off <= 4)%nat -> hex_group s acc off = Some (g, n, rest) -> in_width 16 g.
Proof.
  revert acc off. induction s as [|c s IH]; intros acc off Ha Ho; cbn [hex_group].
  1: intros [= <- _ _]; unfold in_width; assert (16 ^ Z.of_nat off <= 16 ^ 4) by (apply Z.pow_le_mono_r; lia); lia.
  destruct (hex_digit c) as [d|] eqn:Ed.
  - apply hex_digit_bound in Ed. case_bool_decide; [done|]. apply IH; [|lia].
    rewrite Nat2Z.inj_succ, Z.pow_succ_r by lia. lia.
  - intros [= <- _ _]; unfold in_width; assert (16 ^ Z.of_nat off <= 16 ^ 4) by (apply Z.pow_le_mono_r; lia); lia.
Qed.

Definition gap_ok (ell : option nat) (gs : list Z) : Prop := from_option (fun e => (e <= length gs)%nat) True ell.

(** The loop with its character tests as boolean comparisons. *)
Lemma ipv6_groups_step fuel s gs ell :
  ipv6_groups (S fuel) s gs ell =
    ('(acc, off, rest) ← hex_group s 0 0;
     if (bool_decide (off = 0%nat) : bool) then None
     else match rest with
          | EmptyString => Some (gs ++ [acc], ell, EmptyString)
          | String ch rest' =>
              if Ascii.eqb ch "." then
                if bool_decide (ell = None) && negb (bool_decide (length gs = 6%nat)) then None
                else if bool_decide (8 < length gs + 2)%nat then None
                else
                  fs ← ipv4_fields s 0 0 [] true false;
                  match fs with
                  | [a; b; c; d] => Some (gs ++ [a * 256 + b; c * 256 + d], ell, EmptyString)
                  | _ => None
                  end
              else if negb (Ascii.eqb ch ":") then None
              else match rest' with
                   | EmptyString => None
                   | String c2 rest2 =>
                       if Ascii.eqb c2 ":" then
                         match ell with
                         | Some _ => None
                         | None =>
                             match rest2 with
                             | EmptyString => Some (gs ++ [acc], Some (length gs + 1)%nat, EmptyString)
                             | _ => ipv6_groups fuel rest2 (gs ++ [acc]) (Some (length gs + 1)%nat)
                             end
                         end
                       else ipv6_groups fuel rest' (gs ++ [acc]) ell
                   end
          end).
Proof.
  cbn [ipv6_groups]. destruct (hex_group s 0 0) as [[[acc off] r]|]; [|done]. cbn [mbind option_bind].
  destruct (bool_decide _); [done|]. destruct r as [|ch r]; [done|].
  destruct (Ascii.eqb_spec ch ":") as [->|Hc].
  - change (Ascii.eqb ":" ".") with false. cbn [negb]. destruct r as [|c2 r]; [done|].
    destruct (Ascii.eqb_spec c2 ":") as [->|Hc2]; [done|].
    destruct c2 as [[] [] [] [] [] [] [] []]; done.
  - destruct ch as [[] [] [] [] [] [] [] []]; done.
Qed.

Lemma ipv6_groups_wf fuel s gs ell out ell' rest :
  Forall (in_width 16) gs -> (length gs + fuel <= 8)%nat -> gap_ok ell gs ->
  ipv6_groups fuel s gs ell = Some (out, ell', rest) ->
  Forall (in_width 16) out /\ (length out <= 8)%nat /\ gap_ok ell' out.
Proof.
  revert s gs ell. induction fuel as [|fuel IH]; intros s gs ell Hg Hl He.
  { intros [= <- <- <-]. split; [done|]. split; [lia|done]. }
  rewrite ipv6_groups_step.
  destruct (hex_group s 0 0) as [[[acc off] r]|] eqn:Eg; cbn [mbind option_bind]; [|done].
  apply hex_group_bound in Eg; [|simpl; lia|lia].
  assert (Forall (in_width 16) (gs ++ [acc])) as Hg' by (apply Forall_app; by split; [|constructor]).
  assert (length (gs ++ [acc]) = S (length gs)) as Hl' by (rewrite length_app; simpl; lia).
  assert (gap_ok ell (gs ++ [acc])) as He' by (destruct ell; unfold gap_ok in *; simpl in *; lia).
  assert (gap_ok (Some (length gs + 1)%nat) (gs ++ [acc])) as He2 by (unfold gap_ok; simpl; lia).
  case_bool_decide; [done|].
  destruct r as [|ch r]; [intros [= <- <- <-]; split; [done|]; split; [lia|done]|].
  destruct (Ascii.eqb ch ".").
  - destruct (_ && _); [done|]. case_bool_decide; [done|].
    destruct (ipv4_fields s 0 0 [] true false) as [fs|] eqn:Ef; cbn [mbind option_bind]; [|done].
    apply ipv4_fields_wf in Ef as [Hf Hlf]; [|lia|done|simpl; lia].
    destruct fs as [|f1 [|f2 [|f3 [|f4 [|??]]]]]; try done. intros [= <- <- <-].
    rewrite length_app. simpl length. rewrite !Forall_cons in Hf. destruct Hf as (? & ? & ? & ? & _).
    split; [|split; [lia|destruct ell; unfold gap_ok in *; simpl in *; rewrite ?length_app; simpl; lia]].
    apply Forall_app. split; [done|]. repeat constructor; unfold in_width; lia.
  - destruct (negb _); [done|]. destruct r as [|c2 r]; [done|]. destruct (Ascii.eqb c2 ":").
    + destruct ell; [done|]. destruct r; [intros [= <- <- <-]; split; [done|]; split; [lia|done]|].
      apply IH; [done|lia|done].
    + apply IH; [done|lia|done].
Qed.

Lemma expand_groups_wf gs ell rest v :
  Forall (in_width 16) gs -> (length gs <= 8)%nat -> gap_ok ell gs -> expand_groups gs ell rest = Some v -> in_width 128 v.
Proof.
  intros Hg Hl He. unfold expand_groups. destruct rest; [|done].
  assert (forall l, Forall (in_width 16) l -> length l = 8%nat -> in_width 128 (value_of_groups l)) as Hv.
  { intros l Wl Ll. pose proof (groups_value l 0 0 Wl ltac:(simpl; lia)) as H. rewrite Ll in H. exact H. }
  case_bool_decide.
  - destruct ell as [e|]; cbn [mbind option_bind]; [|done]. intros [= <-]. unfold gap_ok in He. simpl in He.
    apply Hv.
    + rewrite !Forall_app. repeat split; auto using Forall_take, Forall_drop.
      apply Forall_replicate. unfold in_width. lia.
    + rewrite !length_app, length_take, length_replicate, length_drop. lia.
  - destruct ell; [done|]. intros [= <-]. apply Hv; [done|lia].
Qed.

Lemma parseIPv6_wf s a : parseIPv6 s = Some a -> addr_wf a /\ Is6 a = true.
Proof.
  assert (forall t ell, gap_ok ell [] ->
    ('(gs, ell, rest) ← ipv6_groups 8 t [] ell; Addr6 <$> expand_groups gs ell rest) = Some a ->
    addr_wf a /\ Is6 a = true) as Hgen.
  { intros t ell He. destruct (ipv6_groups 8 t [] ell) as [[[gs ell'] rest]|] eqn:E; cbn [mbind option_bind]; [|done].
    apply ipv6_groups_wf in E as (Hg & Hl & He'); [|done|simpl; lia|done].
    destruct (expand_groups gs ell' rest) as [v|] eqn:Ex; [|done]. intros [= <-].
    split; [|done]. unfold addr_wf. cbn [BitLen addr_val]. by eapply expand_groups_wf. }
  unfold parseIPv6. destruct (HasPrefix s "::"); [|by apply Hgen].
  destruct (drop_str 2 s); [by intros [= <-]|]. apply Hgen. unfold gap_ok. simpl. lia.
Qed.

Lemma ParseAddr_wf s a : ParseAddr s = Some a -> addr_wf a /\ a <> AddrNone.
Proof.
  unfold ParseAddr. destruct (addr_kind s) as [c|]; [|done]. intros E.
  assert (parseIPv4 s = Some a \/ parseIPv6 s = Some a) as [[H1 H2]%parseIPv4_wf|[H1 H2]%parseIPv6_wf];
    [|by split; [|intros ->]..].
  destruct c as [[] [] [] [] [] [] [] []]; try done; try (by left);
    destruct (str_has "%" s); [done|by right].
Qed.

Lemma PrefixFrom_wf a bits : addr_wf a -> a <> AddrNone -> 0 <= bits <= BitLen a ->
  prefix_wf (PrefixFrom a bits) /\ prefix_IsValid (PrefixFrom a bits) = true.
Proof.
  intros Ha Hn Hb. unfold PrefixFrom.
  assert (addr_IsValid a && (0 <=? bits) && (bits <=? BitLen a) = true) as ->.
  { rewrite !andb_true_iff, !Z.leb_le. split; [split; [by destruct a|lia]|lia]. }
  unfold prefix_wf, prefix_IsValid; cbn [p_addr p_bits]. rewrite Z.leb_le.
  split; [|lia]. split; [done|]. split; [lia|done].
Qed.

Lemma ParsePrefix_wf s p : ParsePrefix s = Some p -> prefix_wf p /\ prefix_IsValid p = true.
Proof.
  unfold ParsePrefix. destruct (cut_last "/" s) as [[a b]|]; cbn [mbind option_bind]; [|done].
  destruct (ParseAddr a) as [ip|] eqn:Ea; cbn [mbind option_bind]; [|done].
  apply ParseAddr_wf in Ea as [Hw Hn]. destruct (match b with EmptyString => _ | String _ _ => _ end); [done|].
  destruct (Atoi b) as [bits|]; cbn [mbind option_bind]; [|done].
  destruct (Z.ltb_spec bits 0); [done|]. destruct (Z.ltb_spec (BitLen ip) bits); [done|].
  intros [= <-]. by apply PrefixFrom_wf.
Qed.
#[export] Hint Resolve ParseAddr_wf ParsePrefix_wf PrefixFrom_wf : parse_db.
