(* ===== verification/Duration.v ===== *)
(** * Duration texts (internal/config/duration.go, internal/detector/duration.go)

    The two YAML duration types and the parsers of the Standard Library they use:
    [time.ParseDuration] and [strconv.ParseFloat], whose result is the correctly
    rounded binary64 value of the text.  A duration is a count of nanoseconds in 64
    bits.  Converting a [float64] outside the range of [int64] gives a value the
    language leaves to the implementation: the parameter [wild]. *)
From S2P Require Import Prelude GoText Netip GoParse Float64.
From Stdlib Require Import Ascii SpecFloat.
#[local] Open Scope Z_scope.

(** ** strconv.ParseFloat *)

(** Digits with at most one dot: the value without the dot, the number of digits
    after the dot, whether a digit and an underscore occurred, and the rest. *)
Record digit_scan := { ds_value : Z; ds_frac : Z; ds_dot : bool; ds_digit : bool; ds_under : bool }.
Definition no_digits : digit_scan := {| ds_value := 0; ds_frac := 0; ds_dot := false; ds_digit := false; ds_under := false |}.

Definition float_digit (hex : bool) (c : ascii) : option Z := if hex then hex_digit c else digit c.

Fixpoint scan_digits (hex : bool) (s : string) (a : digit_scan) : digit_scan * string :=
  match s with
  | EmptyString => (a, s)
  | String c s' =>
      if Ascii.eqb c "_" then
        scan_digits hex s' {| ds_value := ds_value a; ds_frac := ds_frac a; ds_dot := ds_dot a; ds_digit := ds_digit a; ds_under := true |}
      else if Ascii.eqb c "." then
        if ds_dot a then (a, s)
        else scan_digits hex s' {| ds_value := ds_value a; ds_frac := ds_frac a; ds_dot := true; ds_digit := ds_digit a; ds_under := ds_under a |}
      else
        match float_digit hex c with
        | None => (a, s)
        | Some d =>
            scan_digits hex s' {| ds_value := ds_value a * (if hex then 16 else 10) + d;
                                  ds_frac := if ds_dot a then ds_frac a + 1 else ds_frac a;
                                  ds_dot := ds_dot a; ds_digit := true; ds_under := ds_under a |}
        end
  end.

(** The digits of an exponent: values from ten thousand on are not extended. *)
Fixpoint scan_exp (s : string) (e : Z) (under : bool) : Z * bool * string :=
  match s with
  | EmptyString => (e, under, s)
  | String c s' =>
      if Ascii.eqb c "_" then scan_exp s' e true
      else match digit c with
           | None => (e, under, s)
           | Some d => scan_exp s' (if e <? 10000 then e * 10 + d else e) under
           end
  end.

(** [underscoreOK]: an underscore separates digits; a base prefix counts as one. *)
Inductive seen := SawStart | SawDigit | SawUnder | SawOther.

Fixpoint under_loop (hex : bool) (s : string) (saw : seen) : bool :=
  match s with
  | EmptyString => match saw with SawUnder => false | _ => true end
  | String c s' =>
      match float_digit hex c with
      | Some _ => under_loop hex s' SawDigit
      | None =>
          if Ascii.eqb c "_" then match saw with SawDigit => under_loop hex s' SawUnder | _ => false end
          else match saw with SawUnder => false | _ => under_loop hex s' SawOther end
      end
  end.

Definition trim_sign (s : string) : bool * string :=
  match s with
  | String "+"%char s' => (false, s')
  | String "-"%char s' => (true, s')
  | _ => (false, s)
  end.

Definition underscoreOK (s : string) : bool :=
  match (trim_sign s).2 with
  | String "0"%char (String c s') =>
      let c := lower c in
      if Ascii.eqb c "x" then under_loop true s' SawDigit
      else if Ascii.eqb c "b" || Ascii.eqb c "o" then under_loop false s' SawDigit
      else under_loop false (trim_sign s).2 SawStart
  | t => under_loop false t SawStart
  end.

(** [special]: the texts of infinities and not-a-numbers. *)
Definition special (s : string) : option float64 :=
  let '(neg, t) := trim_sign s in
  if EqualFold t "inf" || EqualFold t "infinity" then Some (S754_infinity neg)
  else if EqualFold s "nan" then Some S754_nan
  else None.

(** The nearest binary64 value of [m * 10 ^ e] and of [m * 2 ^ e]. *)
Definition of_decimal (neg : bool) (m e : Z) : float64 :=
  let x :=
    if m =? 0 then S754_zero false
    else if 0 <=? e then binary_normalize f_prec f_emax (m * 10 ^ e) 0 false
    else let '(q, e', l) := SFdiv_core_binary f_prec f_emax m 0 (10 ^ (- e)) 0 in binary_round_aux f_prec f_emax false q e' l in
  if neg then f_neg x else x.

Definition of_binary (neg : bool) (m e : Z) : float64 :=
  let x := binary_normalize f_prec f_emax m e false in if neg then f_neg x else x.

(** The exponent after the digits: its value and the rest; [None] is malformed. *)
Definition read_exp (hex : bool) (s : string) : option (Z * bool * string) :=
  match s with
  | String c s' =>
      if Ascii.eqb (lower c) (if hex then "p" else "e") then
        let '(neg, t) := match s' with
                         | String "+"%char t => (false, t)
                         | String "-"%char t => (true, t)
                         | _ => (false, s')
                         end in
        match t with
        | String d _ => if is_digit d then let '(e, u, r) := scan_exp t 0 false in Some (if neg then - e else e, u, r) else None
        | EmptyString => None
        end
      else if hex then None else Some (0, false, s)
  | EmptyString => if hex then None else Some (0, false, s)
  end.

(** [strconv.ParseFloat(s, 64)]; [None] is an error, a syntax error or a value out
    of range. *)
Definition ParseFloat (s : string) : option float64 :=
  match special s with
  | Some x => Some x
  | None =>
      let '(neg, t) := trim_sign s in
      let '(hex, t) := match t with
                       | String "0"%char (String x (String _ _ as t')) => if Ascii.eqb (lower x) "x" then (true, drop_str 2 t) else (false, t)
                       | _ => (false, t)
                       end in
      let '(ds, rest) := scan_digits hex t no_digits in
      if negb (ds_digit ds) then None
      else
        '(e, under, rest) ← read_exp hex rest;
        if (ds_under ds || under) && negb (underscoreOK s) then None
        else if negb (String.eqb rest "") then None
        else
          let x := if hex then of_binary neg (ds_value ds) (e - 4 * ds_frac ds) else of_decimal neg (ds_value ds) (e - ds_frac ds) in
          match x with S754_infinity _ => None | _ => Some x end
  end.

(** ** time.ParseDuration *)
Definition unitMap (u : string) : option Z :=
  if String.eqb u "ns" then Some 1
  else if String.eqb u "us" || String.eqb u (String (ascii_of_N 194) (String (ascii_of_N 181) "s"))
          || String.eqb u (String (ascii_of_N 206) (String (ascii_of_N 188) "s")) then Some 1000
  else if String.eqb u "ms" then Some 1000000
  else if String.eqb u "s" then Some 1000000000
  else if String.eqb u "m" then Some (60 * 1000000000)
  else if String.eqb u "h" then Some (3600 * 1000000000)
  else None.

(** [leadingInt]; [None] is an overflow. *)
Fixpoint leadingInt (s : string) (x : Z) : option (Z * string) :=
  match s with
  | EmptyString => Some (x, s)
  | String c s' =>
      match digit c with
      | None => Some (x, s)
      | Some d =>
          if 2 ^ 63 / 10 <? x then None
          else let x := x * 10 + d in if 2 ^ 63 <? x then None else leadingInt s' x
      end
  end.

Fixpoint leadingFraction (s : string) (x : Z) (scale : float64) (overflow : bool) : Z * float64 * string :=
  match s with
  | EmptyString => (x, scale, s)
  | String c s' =>
      match digit c with
      | None => (x, scale, s)
      | Some d =>
          if overflow then leadingFraction s' x scale true
          else if (2 ^ 63 - 1) / 10 <? x then leadingFraction s' x scale true
          else let y := x * 10 + d in
               if 2 ^ 63 <? y then leadingFraction s' x scale true
               else leadingFraction s' y (f_mul scale (f_of_int 10)) false
      end
  end.

(** The unit: the characters up to the next digit or dot. *)
Fixpoint read_unit (s : string) : string * string :=
  match s with
  | EmptyString => (EmptyString, s)
  | String c s' => if is_digit c || Ascii.eqb c "." then (EmptyString, s) else let '(u, r) := read_unit s' in (String c u, r)
  end.

(** Truncation of a finite value towards zero. *)
Definition trunc (x : float64) : option Z :=
  match x with
  | S754_zero _ => Some 0
  | S754_finite s m e =>
      let v := if 0 <=? e then Z.pos m * 2 ^ e else Z.pos m / 2 ^ (- e) in Some (if s then - v else v)
  | _ => None
  end.

(** One quantity with its unit: its nanoseconds and the rest of the text. *)
Definition read_quantity (s : string) : option (Z * string) :=
  match s with
  | EmptyString => None
  | String c _ =>
      if negb (Ascii.eqb c "." || is_digit c) then None
      else
        '(v, s1) ← leadingInt s 0;
        let pre := negb (String.length s1 =? String.length s)%nat in
        let '(f, scale, post, s2) :=
          match s1 with
          | String "."%char t => let '(f, scale, t') := leadingFraction t 0 f_one false in
                                 (f, scale, negb (String.length t' =? String.length t)%nat, t')
          | _ => (0, f_one, false, s1)
          end in
        if negb pre && negb post then None
        else
          let '(u, s3) := read_unit s2 in
          unit ← (if String.eqb u "" then None else unitMap u);
          if 2 ^ 63 / unit <? v then None
          else
            let v := v * unit in
            if 0 <? f then
              let v := u64 (v + default 0 (trunc (f_mul (f_of_int f) (f_div (f_of_int unit) scale)))) in
              if 2 ^ 63 <? v then None else Some (v, s3)
            else Some (v, s3)
  end.

(** The loop over the quantities; every turn consumes a character. *)
Fixpoint quantities (fuel : nat) (s : string) (d : Z) : option Z :=
  match s, fuel with
  | EmptyString, _ => Some d
  | _, O => None
  | _, S fuel' => '(v, s') ← read_quantity s; let d := u64 (d + v) in if 2 ^ 63 <? d then None else quantities fuel' s' d
  end.

Definition ParseDuration (s : string) : option Z :=
  let '(neg, t) := trim_sign s in
  if String.eqb t "0" then Some 0
  else if String.eqb t "" then None
  else
    d ← quantities (String.length t) t 0;
    if neg then Some (- d) else if 2 ^ 63 - 1 <? d then None else Some d.

(** ** The agent's durations *)
Section Duration.
Context (wild : float64 -> Z).

(** [time.Duration(x)] of a [float64]. *)
Definition to_int64 (x : float64) : Z :=
  match trunc x with
  | Some v => if (- 2 ^ 63 <=? v) && (v <? 2 ^ 63) then v else wild x
  | None => wild x
  end.

Definition Day : Z := 24 * 3600 * 1000000000.

Definition day_or_week (s : string) : Z := if HasSuffix s "w" then 7 * Day else Day.

Definition count_text (s : string) : string := TrimSuffix (TrimSuffix s "d") "w".

Definition IsInf (x : float64) : bool := match x with S754_infinity _ => true | _ => false end.

(** config/duration.go: [parseDurationValue] and [parseDuration].  The constant
    [math.MaxInt64] is rounded to a [float64] for the comparison. *)
Definition parseDurationValue (s : string) : result gotext Z :=
  if negb (HasSuffix s "d") && negb (HasSuffix s "w") then
    match ParseDuration s with Some d => Ok d | None => Err (Text "time: invalid duration %q" [AStr s]) end
  else
    match ParseFloat (count_text s) with
    | None => Err (Text "invalid duration %q" [AStr s])
    | Some n =>
        if negb (f_num n) || IsInf n then Err (Text "invalid duration %q" [AStr s])
        else
          let ns := f_mul n (f_of_int (day_or_week s)) in
          if f_lt (f_of_int (2 ^ 63 - 1)) ns || f_lt ns (f_of_int (- 2 ^ 63)) then Err (Text "duration %q out of range" [AStr s])
          else Ok (to_int64 ns)
    end.

Definition config_parseDuration (s : string) : result gotext Z :=
  let s := TrimSpace s in
  if String.eqb s "" then Err (plain "duration must not be empty")
  else
    match parseDurationValue s with
    | Err e => Err e
    | Ok d => if d <? 0 then Err (Text "duration %q must not be negative" [AStr s]) else Ok d
    end.

(** detector/duration.go: [parseDuration] *)
Definition detector_parseDuration (s : string) : result gotext Z :=
  let s := TrimSpace s in
  if String.eqb s "" then Err (plain "duration must not be empty")
  else if HasSuffix s "d" || HasSuffix s "w" then
    match ParseFloat (count_text s) with
    | None => Err (Text "invalid duration %q" [AStr s])
    | Some n => Ok (to_int64 (f_mul n (f_of_int (day_or_week s))))
    end
  else match ParseDuration s with Some d => Ok d | None => Err (Text "time: invalid duration %q" [AStr s]) end.

(** The [UnmarshalYAML] hooks, on what the library decodes the node to. *)
Definition config_Unmarshal (node : result gotext string) : result gotext Z :=
  match node with Ok s => config_parseDuration s | Err e => Err e end.

Definition detector_Unmarshal (node : result gotext string) : result gotext Z :=
  match node with Ok s => detector_parseDuration s | Err e => Err e end.
End Duration.
