(* ===== verification/DurationFacts.v ===== *)
(** * Durations mean what they say

    Whole numbers of a unit parse to exactly that many nanoseconds, through the
    floating-point path of days and weeks as well; no accepted duration of the
    agent's configuration is negative or out of range. *)
From S2P Require Import Prelude GoText Netip GoParse GoParseFacts Float64 Float64Facts Duration.
From Stdlib Require Import Ascii SpecFloat.
From stdpp Require Import pretty.
#[local] Open Scope Z_scope.

(** ** Decimal numbers *)
Lemma pretty_char_digit (x : N) : (x < 10)%N -> digit (pretty_N_char x) = Some (Z.of_N x).
Proof.
  intros Hx. assert (x = 0 \/ x = 1 \/ x = 2 \/ x = 3 \/ x = 4 \/ x = 5 \/ x = 6 \/ x = 7 \/ x = 8 \/ x = 9)%N as Hc by lia.
  repeat (destruct Hc as [->|Hc]; [done|]). by subst.
Qed.

Lemma digits_value_pretty (x : N) s : digits_value 0 (pretty_N_go x s) = digits_value (Z.of_N x) s.
Proof.
  revert s. induction (N.lt_wf_0 x) as [x _ IH]; intros s. destruct (decide (x = 0)%N) as [->|]; [done|].
  rewrite pretty_N_go_step by lia. rewrite IH by (apply N.div_lt; lia). cbn [digits_value].
  rewrite pretty_char_digit by (apply N.mod_lt; lia). cbn [mbind option_bind]. f_equal.
  rewrite N2Z.inj_div, N2Z.inj_mod. change (Z.of_N 10) with 10. Z.div_mod_to_equations. lia.
Qed.

Lemma digits_value_itoa n : 0 <= n -> digits_value 0 (itoa n) = Some n.
Proof.
  intros Hn. unfold itoa, pretty, pretty_N. case_decide as E; [assert (n = 0) as -> by lia; done|].
  rewrite digits_value_pretty. simpl. f_equal. lia.
Qed.

Lemma digit_range c d : digit c = Some d -> 0 <= d <= 9.
Proof.
  unfold digit, is_digit, code. destruct (_ && _) eqn:E; [|done]. apply andb_true_iff in E as [?%Z.leb_le ?%Z.leb_le].
  intros [= <-]. lia.
Qed.

Lemma digits_value_ge x s n : 0 <= x -> digits_value x s = Some n -> x <= n.
Proof.
  revert x. induction s as [|c s IH]; intros x Hx; cbn [digits_value]; [intros [= ->]; lia|].
  destruct (digit c) as [d|] eqn:Ed; [|done]. apply digit_range in Ed. cbn [mbind option_bind]. intros H%IH; lia.
Qed.

(** ** time.ParseDuration *)
Definition stops (s : string) : Prop := match s with EmptyString => True | String c _ => is_digit c = false end.

Lemma leadingInt_digits s rest x n :
  0 <= x <= 2 ^ 63 -> digits_value x s = Some n -> stops rest ->
  leadingInt (s +:+ rest) x = if n <=? 2 ^ 63 then Some (n, rest) else None.
Proof.
  intros Hx Hs Hr. revert x Hx Hs. induction s as [|c s IH]; intros x Hx Hs.
  { injection Hs as <-. change ("" +:+ rest) with rest. rewrite (proj2 (Z.leb_le x _)) by lia.
    destruct rest as [|c rest]; [done|]. cbn in Hr. cbn [leadingInt]. unfold digit. by rewrite Hr. }
  cbn [digits_value] in Hs. destruct (digit c) as [d|] eqn:Ed; [|done]. cbn [mbind option_bind] in Hs.
  pose proof (digit_range _ _ Ed) as Hd. assert (x * 10 + d <= n) as Hn by (eapply digits_value_ge; [|exact Hs]; lia).
  change (String c s +:+ rest) with (String c (s +:+ rest)). cbn [leadingInt]. rewrite Ed.
  destruct (Z.ltb_spec (2 ^ 63 / 10) x) as [Hlt|].
  { rewrite (proj2 (Z.leb_gt n _)); [done|]. change (2 ^ 63) with 9223372036854775808 in *. Z.div_mod_to_equations. lia. }
  cbn zeta. destruct (Z.ltb_spec (2 ^ 63) (x * 10 + d)); [by rewrite (proj2 (Z.leb_gt n _)) by lia|].
  apply IH; [lia|done].
Qed.

(** The units, and what makes a text one. *)
Definition unit_char (c : ascii) : bool := negb (is_digit c || Ascii.eqb c "." || is_space c || Ascii.eqb c "d" || Ascii.eqb c "w").

Lemma unitMap_text u unit : unitMap u = Some unit -> str_forall unit_char u = true /\ u <> "" /\ 0 < unit.
Proof.
  unfold unitMap. repeat match goal with |- context [String.eqb u ?t] => destruct (String.eqb_spec u t) as [->|]; cbn [orb] end;
    intros [= <-]; by vm_compute.
Qed.

Lemma read_unit_all u : str_forall unit_char u = true -> read_unit u = (u, "").
Proof.
  induction u as [|c u IH]; [done|]. cbn [str_forall read_unit]. rewrite andb_true_iff. intros [Hc Hu].
  unfold unit_char in Hc. destruct (is_digit c); [done|]. destruct (Ascii.eqb c "."); [done|]. cbn [orb]. by rewrite IH.
Qed.

Lemma unit_stops u : str_forall unit_char u = true -> stops u.
Proof.
  destruct u as [|c u]; [done|]. cbn. rewrite andb_true_iff. intros [Hc _]. unfold unit_char in Hc. by destruct (is_digit c).
Qed.

Lemma digit_unsigned c s : is_digit c = true -> trim_sign (String c s) = (false, String c s).
Proof. destruct c as [[] [] [] [] [] [] [] []]; done. Qed.

Lemma length_str_app s t : String.length (s +:+ t) = (String.length s + String.length t)%nat.
Proof. induction s as [|c s IH]; simpl; [done|]. by rewrite IH. Qed.

Lemma read_quantity_unit n u unit :
  0 <= n -> unitMap u = Some unit ->
  read_quantity (itoa n +:+ u) = if n * unit <=? 2 ^ 63 then Some (n * unit, "") else None.
Proof.
  intros Hn Hu. destruct (unitMap_text u unit Hu) as (Hchars & Hne & Hpos).
  destruct (itoa_nonempty_head n) as (c & s & Es & Hc).
  assert (leadingInt (itoa n +:+ u) 0 = if n <=? 2 ^ 63 then Some (n, u) else None) as Hint.
  { rewrite (leadingInt_digits _ _ _ n); [done|lia|by apply digits_value_itoa|by apply unit_stops]. }
  assert ((String.length u =? String.length (itoa n +:+ u))%nat = false) as Hlen.
  { apply Nat.eqb_neq. rewrite length_str_app, Es. simpl. lia. }
  rewrite Es in *. cbn [read_quantity] in *. change (String c s +:+ u) with (String c (s +:+ u)) in *. cbn [read_quantity].
  rewrite Hc, orb_true_r. cbn [negb]. rewrite Hint. destruct (Z.leb_spec n (2 ^ 63)) as [Hle|Hgt].
  2:{ rewrite (proj2 (Z.leb_gt _ _)); [done|nia]. }
  cbn [mbind option_bind]. rewrite Hlen. cbn [negb].
  assert (match u with String "."%char t => let '(f, scale, t') := leadingFraction t 0 f_one false in
            (f, scale, negb (String.length t' =? String.length t)%nat, t') | _ => (0, f_one, false, u) end = (0, f_one, false, u)) as ->.
  { destruct u as [|a u']; [done|]. cbn [str_forall] in Hchars. apply andb_true_iff in Hchars as [Ha _].
    by destruct a as [[] [] [] [] [] [] [] []]. }
  cbn [negb andb]. rewrite (read_unit_all u Hchars). apply String.eqb_neq in Hne. rewrite Hne, Hu. cbn [mbind option_bind].
  change (0 <? 0) with false. cbn [andb].
  destruct (Z.ltb_spec (2 ^ 63 / unit) n) as [Hlt|Hge].
  - rewrite (proj2 (Z.leb_gt _ _)); [done|].
    destruct (Z.lt_ge_cases (2 ^ 63) (n * unit)) as [|Hge]; [done|]. exfalso.
    assert (n <= 2 ^ 63 / unit) by (apply Z.div_le_lower_bound; lia). lia.
  - rewrite (proj2 (Z.leb_le _ _)); [done|]. pose proof (Z.mul_div_le (2 ^ 63) unit Hpos). nia.
Qed.

Lemma ParseDuration_unit n u unit :
  0 <= n -> unitMap u = Some unit -> ParseDuration (itoa n +:+ u) = if n * unit <? 2 ^ 63 then Some (n * unit) else None.
Proof.
  intros Hn Hu. destruct (unitMap_text u unit Hu) as (_ & Hne & Hpos). pose proof (read_quantity_unit n u unit Hn Hu) as Hq.
  destruct (itoa_nonempty_head n) as (c & s & Es & Hc). rewrite Es in *. change (String c s +:+ u) with (String c (s +:+ u)) in *.
  unfold ParseDuration. rewrite digit_unsigned by done.
  assert (String.eqb (String c (s +:+ u)) "0" = false) as ->.
  { apply String.eqb_neq. intros [= _ E]. apply (f_equal String.length) in E. rewrite length_str_app in E. destruct u; [done|]. simpl in E. lia. }
  change (String.eqb (String c (s +:+ u)) "") with false. cbn [String.length quantities]. rewrite Hq.
  destruct (Z.leb_spec (n * unit) (2 ^ 63)) as [Hle|Hgt]; cbn [mbind option_bind].
  2:{ by rewrite (proj2 (Z.ltb_ge _ _)) by lia. }
  rewrite Z.add_0_l, u64_small by (unfold in_width; nia). cbn zeta. rewrite (proj2 (Z.ltb_ge (2 ^ 63) _)) by lia.
  assert (forall k d, quantities k "" d = Some d) as -> by (by intros []). cbn [mbind option_bind].
  destruct (Z.ltb_spec (2 ^ 63 - 1) (n * unit)), (Z.ltb_spec (n * unit) (2 ^ 63)); (done || lia).
Qed.

(** ** Suffixes and white space *)
Definition plain_char (c : ascii) : bool := negb (is_space c || Ascii.eqb c "d" || Ascii.eqb c "w").

Lemma TrimRight_id s : str_forall (fun c => negb (is_space c)) s = true -> TrimRight s = s.
Proof.
  induction s as [|c s IH]; [done|]. cbn [str_forall TrimRight]. rewrite andb_true_iff. intros [Hc Hs]. rewrite IH by done.
  destruct s; [by destruct (is_space c)|done].
Qed.

Lemma TrimSpace_id s : str_forall (fun c => negb (is_space c)) s = true -> TrimSpace s = s.
Proof.
  intros Hs. unfold TrimSpace. assert (TrimLeft s = s) as ->; [|by apply TrimRight_id].
  destruct s as [|c s]; [done|]. cbn in *. apply andb_true_iff in Hs as [Hc _]. by destruct (is_space c).
Qed.

Lemma HasSuffix_app a b : HasSuffix (a +:+ b) b = true.
Proof.
  induction a as [|c a IH]; [change ("" +:+ b) with b; destruct b; cbn; by rewrite ?Ascii.eqb_refl, ?String.eqb_refl|].
  change (String c a +:+ b) with (String c (a +:+ b)). cbn [HasSuffix]. by destruct (String.eqb _ b).
Qed.

Lemma HasSuffix_without c s : str_without c s -> HasSuffix s (String c "") = false.
Proof.
  unfold str_without. induction s as [|a s IH]; [done|]. cbn [str_forall HasSuffix]. rewrite andb_true_iff. intros [Ha Hs].
  destruct (String.eqb_spec (String a s) (String c "")) as [[= -> ->]|]; [by rewrite Ascii.eqb_refl in Ha|by apply IH].
Qed.

Lemma TrimSuffix_app a c : TrimSuffix (a +:+ String c "") (String c "") = a.
Proof.
  induction a as [|x a IH].
  - change ("" +:+ String c "") with (String c ""). cbn [TrimSuffix]. by rewrite String.eqb_refl.
  - change (String x a +:+ String c "") with (String x (a +:+ String c "")). cbn [TrimSuffix].
    destruct (String.eqb_spec (String x (a +:+ String c "")) (String c "")) as [[= _ E]|]; [|by rewrite IH].
    apply (f_equal String.length) in E. rewrite length_str_app in E. simpl in E. lia.
Qed.

Lemma TrimSuffix_without a c : str_without c a -> TrimSuffix a (String c "") = a.
Proof.
  unfold str_without. induction a as [|x a IH]; [done|]. cbn [str_forall TrimSuffix]. rewrite andb_true_iff. intros [Hx Ha].
  destruct (String.eqb_spec (String x a) (String c "")) as [[= -> ->]|]; [by rewrite Ascii.eqb_refl in Hx|by rewrite IH].
Qed.

Lemma itoa_nospace n : str_forall (fun c => negb (is_space c)) (itoa n) = true.
Proof.
  eapply str_forall_weaken; [|apply itoa_digits]. intros c. by destruct c as [[] [] [] [] [] [] [] []].
Qed.

(** ** strconv.ParseFloat of a decimal integer *)
Lemma scan_decimal s a n :
  str_forall is_digit s = true -> digits_value (ds_value a) s = Some n -> ds_dot a = false -> ds_under a = false ->
  scan_digits false s a =
    ({| ds_value := n; ds_frac := ds_frac a; ds_dot := false; ds_digit := ds_digit a || negb (String.eqb s ""); ds_under := false |}, "").
Proof.
  revert a. induction s as [|c s IH]; intros a Hs Hn Hd Hu.
  { injection Hn as <-. cbn. rewrite orb_false_r. destruct a; cbn in *; by subst. }
  cbn [str_forall] in Hs. apply andb_true_iff in Hs as [Hc Hs]. cbn [digits_value] in Hn. cbn [scan_digits float_digit].
  assert (Ascii.eqb c "_" = false /\ Ascii.eqb c "." = false) as [-> ->] by (by destruct c as [[] [] [] [] [] [] [] []]).
  destruct (digit c) as [d|]; [|done]. cbn [mbind option_bind] in Hn. rewrite IH; cbn [ds_value ds_dot ds_under ds_frac ds_digit]; try done.
  rewrite Hd. cbn [String.eqb negb]. by rewrite orb_true_r.
Qed.

Lemma digit_not_special c s : is_digit c = true -> special (String c s) = None.
Proof. intros Hc. unfold special. rewrite digit_unsigned by done. by destruct c as [[] [] [] [] [] [] [] []]. Qed.

Lemma ParseFloat_itoa n : 0 <= n -> ParseFloat (itoa n) = match f_of_int n with S754_infinity _ => None | x => Some x end.
Proof.
  intros Hn. pose proof (itoa_digits n) as Hdig. pose proof (digits_value_itoa n Hn) as Hval.
  destruct (itoa_nonempty_head n) as (c & s & Es & Hc). unfold ParseFloat. rewrite Es in *.
  rewrite digit_not_special, digit_unsigned by done.
  assert (match String c s with
          | String "0"%char (String x (String _ _ as t')) => if Ascii.eqb (lower x) "x" then (true, drop_str 2 (String c s)) else (false, String c s)
          | _ => (false, String c s)
          end = (false, String c s)) as ->.
  { destruct s as [|x [|y s]]; [by destruct c as [[] [] [] [] [] [] [] []]..|].
    cbn [str_forall] in Hdig. apply andb_true_iff in Hdig as [_ [Hx _]%andb_true_iff].
    assert (Ascii.eqb (lower x) "x" = false) as Hlx by (by destruct x as [[] [] [] [] [] [] [] []]).
    rewrite Hlx. by destruct c as [[] [] [] [] [] [] [] []]. }
  rewrite (scan_decimal _ no_digits n Hdig Hval eq_refl eq_refl). cbn [ds_digit ds_under ds_value ds_frac no_digits String.eqb negb orb read_exp mbind option_bind andb].
  change (negb (String.eqb "" "")) with false. cbn iota.
  assert (of_decimal false n (0 - 0) = f_of_int n) as ->; [|by destruct (f_of_int n)].
  unfold of_decimal, f_of_int. change (0 - 0) with 0. replace (n * 10 ^ 0) with n by lia. cbn [Z.leb Z.compare].
  destruct (Z.eqb_spec n 0) as [->|]; done.
Qed.

(** ** Days and weeks *)
Lemma f_int_guards q :
  0 < q < 2 ^ 47 ->
  f_num (f_int q 16) = true /\ IsInf (f_int q 16) = false /\
  f_lt (f_of_int (2 ^ 63 - 1)) (f_int q 16) = false /\ f_lt (f_int q 16) (f_of_int (- 2 ^ 63)) = false /\
  trunc (f_int q 16) = Some (q * 2 ^ 16).
Proof.
  intros Hq. pose proof (bits_le q 47 ltac:(lia) ltac:(lia)) as Hb.
  split; [apply (f_lt_num (f_of_int (- 2 ^ 63)) (f_int q 16)); done|]. split; [done|]. split; [|split; [done|]].
  - change (f_of_int (2 ^ 63 - 1)) with (S754_finite false 4503599627370496 11). unfold f_int.
    apply not_true_iff_false. rewrite f_lt_pos. lia.
  - unfold f_int, trunc. f_equal. apply (f_int_value q 16); lia.
Qed.

Lemma whole_days_exact wild n unit q :
  0 <= n -> 0 < q -> unit = q * 2 ^ 16 -> f_of_int unit = f_int q 16 -> n * unit < 2 ^ 63 ->
  exists x, ParseFloat (itoa n) = Some x /\ f_num x = true /\ IsInf x = false /\
    let ns := f_mul x (f_of_int unit) in
    f_lt (f_of_int (2 ^ 63 - 1)) ns || f_lt ns (f_of_int (- 2 ^ 63)) = false /\ to_int64 wild ns = n * unit.
Proof.
  intros Hn Hq -> Hu Hlt. exists (f_of_int n). rewrite ParseFloat_itoa, Hu by done.
  destruct (decide (n = 0)) as [->|Hne]; [done|]. assert (0 < n * q < 2 ^ 47) as Hnq by nia.
  rewrite f_of_int_exact by nia. split; [done|]. split.
  { apply (f_lt_num (f_of_int (- 2 ^ 63)) (f_int n 0)). done. }
  split; [done|]. cbn zeta. rewrite f_mul_exact by nia. change (0 + 16) with 16.
  destruct (f_int_guards (n * q) Hnq) as (_ & _ & -> & -> & Ht). split; [done|].
  unfold to_int64. rewrite Ht. replace (n * (q * 2 ^ 16)) with (n * q * 2 ^ 16) by lia.
  rewrite (proj2 (Z.leb_le _ _)), (proj2 (Z.ltb_lt _ _)) by lia. done.
Qed.

(** The units a configuration may use, with their nanoseconds. *)
Definition duration_unit (u : string) (unit : Z) : Prop :=
  unitMap u = Some unit \/ u = "d" /\ unit = Day \/ u = "w" /\ unit = 7 * Day.

Lemma unit_texts wild n u unit :
  0 <= n -> unitMap u = Some unit ->
  let r := if n * unit <? 2 ^ 63 then Ok (n * unit) else Err (Text "time: invalid duration %q" [AStr (itoa n +:+ u)]) in
  config_parseDuration wild (itoa n +:+ u) = r /\ detector_parseDuration wild (itoa n +:+ u) = r.
Proof.
  intros Hn Hu. destruct (unitMap_text u unit Hu) as (Hchars & Hne & Hpos).
  assert (forall P, (forall c, unit_char c = true -> P c = true) -> (forall c, is_digit c = true -> P c = true) ->
            str_forall P (itoa n +:+ u) = true) as Hall.
  { intros P H1 H2. rewrite str_forall_app, (str_forall_weaken _ _ _ H2 (itoa_digits n)), (str_forall_weaken _ _ _ H1 Hchars). done. }
  assert (forall c, c = "d"%char \/ c = "w"%char -> str_without c (itoa n +:+ u)) as Hwo.
  { intros c Hc. apply Hall; intros x; destruct Hc as [-> | ->]; by destruct x as [[] [] [] [] [] [] [] []]. }
  assert (String.eqb (itoa n +:+ u) "" = false) as Hempty.
  { destruct (itoa_nonempty_head n) as (c & s & -> & _). done. }
  unfold config_parseDuration, detector_parseDuration, parseDurationValue.
  rewrite TrimSpace_id by (apply Hall; intros x; by destruct x as [[] [] [] [] [] [] [] []]).
  rewrite Hempty, !HasSuffix_without by auto. cbn [negb andb orb]. rewrite (ParseDuration_unit n u unit Hn Hu).
  destruct (Z.ltb_spec (n * unit) (2 ^ 63)); [|done]. by rewrite (proj2 (Z.ltb_ge _ _)) by nia.
Qed.

Lemma day_texts wild n c q :
  c = "d"%char /\ q = 1318359375 \/ c = "w"%char /\ q = 9228515625 -> 0 <= n -> n * (q * 2 ^ 16) < 2 ^ 63 ->
  let s := itoa n +:+ String c "" in
  config_parseDuration wild s = Ok (n * (q * 2 ^ 16)) /\ detector_parseDuration wild s = Ok (n * (q * 2 ^ 16)).
Proof.
  intros Hc Hn Hlt s.
  assert (count_text s = itoa n) as Hcount.
  { unfold count_text, s. destruct Hc as [[-> _]|[-> _]].
    - rewrite TrimSuffix_app. by apply TrimSuffix_without, itoa_without.
    - rewrite (TrimSuffix_without _ "d"); [by rewrite TrimSuffix_app|].
      unfold str_without. rewrite str_forall_app. rewrite (itoa_without "d" n eq_refl : str_forall _ _ = true). done. }
  assert (day_or_week s = q * 2 ^ 16) as Hunit.
  { unfold day_or_week, s. destruct Hc as [[-> ->]|[-> ->]]; [|by rewrite HasSuffix_app].
    rewrite HasSuffix_without; [done|]. unfold str_without. rewrite str_forall_app.
    rewrite (itoa_without "w" n eq_refl : str_forall _ _ = true). done. }
  assert (HasSuffix s "d" || HasSuffix s "w" = true) as Hsuf.
  { unfold s. destruct Hc as [[-> _]|[-> _]]; rewrite HasSuffix_app; [done|apply orb_true_r]. }
  assert (TrimSpace s = s) as Htrim.
  { apply TrimSpace_id. unfold s. rewrite str_forall_app, itoa_nospace. by destruct Hc as [[-> _]|[-> _]]. }
  assert (String.eqb s "" = false) as Hempty.
  { unfold s. by destruct (itoa_nonempty_head n) as (x & t & -> & _). }
  destruct (whole_days_exact wild n (q * 2 ^ 16) q) as (x & Hx & Hnum & Hinf & Hg & Hv);
    [done|destruct Hc as [[_ ->]|[_ ->]]; lia|done|by destruct Hc as [[_ ->]|[_ ->]]|done|].
  unfold config_parseDuration, detector_parseDuration, parseDurationValue.
  rewrite Htrim, Hempty, <-negb_orb, Hsuf. cbn [negb]. rewrite Hcount, Hx, Hnum, Hinf, Hunit. cbn [negb orb]. cbn zeta in Hg |- *.
  rewrite Hg, Hv. split; [|done]. rewrite (proj2 (Z.ltb_ge _ _)); [done|]. destruct Hc as [[_ ->]|[_ ->]]; lia.
Qed.

(** ** Ranges *)
Lemma quantities_range fuel s d r : 0 <= d <= 2 ^ 63 -> quantities fuel s d = Some r -> 0 <= r <= 2 ^ 63.
Proof.
  revert s d. induction fuel as [|fuel IH]; intros [|c s] d Hd; cbn [quantities]; [by intros [= <-]|done|by intros [= <-]|].
  destruct (read_quantity _) as [[v s']|]; [|done]. cbn [mbind option_bind]. cbn zeta.
  pose proof (u64_width (d + v)) as [H0 _]. destruct (Z.ltb_spec (2 ^ 63) (u64 (d + v))); [done|]. apply IH. lia.
Qed.

Lemma ParseDuration_range s d : ParseDuration s = Some d -> - 2 ^ 63 <= d < 2 ^ 63.
Proof.
  unfold ParseDuration. destruct (trim_sign s) as [neg t]. destruct (String.eqb t "0"); [intros [= <-]; lia|].
  destruct (String.eqb t ""); [done|]. destruct (quantities _ t 0) as [r|] eqn:E; [|done]. cbn [mbind option_bind].
  apply quantities_range in E; [|lia]. destruct neg; [intros [= <-]; lia|].
  destruct (Z.ltb_spec (2 ^ 63 - 1) r); [done|]. intros [= <-]. lia.
Qed.

Lemma to_int64_range wild x : (forall y, - 2 ^ 63 <= wild y < 2 ^ 63) -> - 2 ^ 63 <= to_int64 wild x < 2 ^ 63.
Proof.
  intros Hw. unfold to_int64. destruct (trunc x) as [v|]; [|done].
  destruct (Z.leb_spec (- 2 ^ 63) v), (Z.ltb_spec v (2 ^ 63)); cbn [andb]; (done || lia).
Qed.

Lemma config_detector_agree wild s d :
  config_parseDuration wild s = Ok d ->
  detector_parseDuration wild s = Ok d /\ 0 <= d /\
  (ParseDuration (TrimSpace s) = Some d \/ exists x, d = to_int64 wild x).
Proof.
  unfold config_parseDuration, detector_parseDuration, parseDurationValue. destruct (String.eqb (TrimSpace s) ""); [done|].
  rewrite <-negb_orb. destruct (HasSuffix (TrimSpace s) "d" || HasSuffix (TrimSpace s) "w"); cbn [negb].
  - destruct (ParseFloat _) as [n|]; [|done]. destruct (negb (f_num n) || IsInf n); [done|]. cbn zeta.
    set (x := f_mul n _). destruct (f_lt _ x || f_lt x _); [done|]. destruct (Z.ltb_spec (to_int64 wild x) 0); [done|].
    intros [= <-]. eauto.
  - destruct (ParseDuration _) as [n|]; [|done]. destruct (Z.ltb_spec n 0); [done|]. intros [= <-]. auto.
Qed.

(** ** Properties *)

(** C20: Durations mean what they say.  A whole number of any unit, from
    nanoseconds to weeks, parses in both parsers to exactly that many nanoseconds
    whenever they fit in 64 bits, although days and weeks go through floating
    point, and a number of hours or less that does not fit is refused.  Every
    duration the agent's configuration accepts is between zero and the largest
    64-bit value, and the rule parser reads the same text as the same duration. *)
Theorem durations_exact (wild : float64 -> Z) :
  (forall y, - 2 ^ 63 <= wild y < 2 ^ 63) ->
  (forall n u unit, 0 <= n -> duration_unit u unit -> n * unit < 2 ^ 63 ->
     config_parseDuration wild (itoa n +:+ u) = Ok (n * unit) /\ detector_parseDuration wild (itoa n +:+ u) = Ok (n * unit)) /\
  (forall n u unit, 0 <= n -> unitMap u = Some unit -> 2 ^ 63 <= n * unit ->
     is_ok (config_parseDuration wild (itoa n +:+ u)) = false /\ is_ok (detector_parseDuration wild (itoa n +:+ u)) = false) /\
  (forall s d, config_parseDuration wild s = Ok d -> 0 <= d < 2 ^ 63 /\ detector_parseDuration wild s = Ok d).
Proof.
  intros Hw. split; [|split].
  - intros n u unit Hn Hu Hlt. destruct Hu as [Hu|[[-> ->]|[-> ->]]].
    + destruct (unit_texts wild n u unit Hn Hu) as [-> ->]. by rewrite (proj2 (Z.ltb_lt _ _)).
    + apply (day_texts wild n "d" 1318359375); auto.
    + apply (day_texts wild n "w" 9228515625); auto.
  - intros n u unit Hn Hu Hge. destruct (unit_texts wild n u unit Hn Hu) as [-> ->]. by rewrite (proj2 (Z.ltb_ge _ _)).
  - intros s d E. destruct (config_detector_agree wild s d E) as (Hd & H0 & Hr). split; [|done]. split; [done|].
    destruct Hr as [Hr%ParseDuration_range|[x ->]]; [lia|by apply to_int64_range].
Qed.

(** The conversion of amd64: out of range gives the smallest value. *)
Definition wild_amd64 (x : float64) : Z := - 2 ^ 63.

Lemma durations_exact_witness :
  config_parseDuration wild_amd64 "106751d" = Ok (106751 * Day) /\ detector_parseDuration wild_amd64 "2w" = Ok (2 * (7 * Day)) /\
  config_parseDuration wild_amd64 "90m" = Ok (90 * 60000000000).
Proof.
  assert (forall y, - 2 ^ 63 <= wild_amd64 y < 2 ^ 63) as Hw by (unfold wild_amd64; lia).
  destruct (durations_exact wild_amd64 Hw) as (H & _ & _).
  split; [apply (H 106751 "d" Day); [lia|right; left; done|done]|].
  split; [apply (H 2 "w" (7 * Day)); [lia|right; right; done|done]|].
  apply (H 90 "m" 60000000000); [lia|left; done|done].
Defined.

(** The rule parser has none of the guards of the configuration's parser: it
    accepts a negative sustained period or window, and a number of days out of
    range, or none at all, becomes whatever the processor makes of it. *)
Theorem rule_durations_unguarded (wild : float64 -> Z) :
  detector_parseDuration wild "-1d" = Ok (- Day) /\ is_ok (config_parseDuration wild "-1d") = false /\
  detector_parseDuration wild "nand" = Ok (wild S754_nan) /\ is_ok (config_parseDuration wild "nand") = false /\
  detector_parseDuration wild "1e9d" = Ok (wild (f_of_int (1000000000 * Day))) /\ is_ok (config_parseDuration wild "1e9d") = false.
Proof. repeat split; by vm_compute. Qed.

(** The range check of the configuration's parser compares with the rounded
    constant: a duration of exactly 2^63 nanoseconds passes it and is converted
    out of range. *)
Theorem config_range_check_rounds (wild : float64 -> Z) :
  parseDurationValue wild "106751.99116730064591d" = Ok (wild (f_of_int (2 ^ 63))).
Proof. by vm_compute. Qed.
