(* ===== verification/Template.v ===== *)
(** * Precompiled "{{var}}" templates (internal/detector/template.go) *)
From S2P Require Import Prelude GoText Netip GoParse.
From Stdlib Require Import Ascii.
#[local] Open Scope Z_scope.

(** [name = ""] is a literal segment. *)
Record seg := { sg_lit : string; sg_name : string }.

Record template := { tm_raw : string; tm_segs : list seg }.

Definition lit (s : string) : seg := {| sg_lit := s; sg_name := "" |}.
Definition var (n : string) : seg := {| sg_lit := ""; sg_name := n |}.

(** The loop of [compileTemplate] over the rest of the text.  Every round with
    a placeholder consumes its four brace characters, so the length of the text
    is enough fuel. *)
Fixpoint template_loop (fuel : nat) (raw s : string) (segs : list seg) : result gotext (list seg) :=
  match fuel, s with
  | _, EmptyString => Ok segs
  | O, _ => Ok segs
  | S fuel', _ =>
      match cut "{{" s with
      | None => Ok (segs ++ [lit s])
      | Some (before, after) =>
          let segs := if String.eqb before "" then segs else segs ++ [lit before] in
          match cut "}}" after with
          | None => Err (Text "unterminated %q in template %q" [AStr "{{"; AStr raw])
          | Some (inside, rest) =>
              let name := TrimSpace inside in
              if String.eqb name "" then Err (Text "empty placeholder in template %q" [AStr raw])
              else template_loop fuel' raw rest (segs ++ [var name])
          end
      end
  end.

Definition compileTemplate (s : string) : result gotext template :=
  segs ← template_loop (String.length s) s s [];
  Ok {| tm_raw := s; tm_segs := segs |}.

(** [template.vars]: the distinct names, in order of first use. *)
Fixpoint vars_loop (segs : list seg) (seen : list string) : list string :=
  match segs with
  | [] => []
  | sg :: segs' =>
      if String.eqb (sg_name sg) "" then vars_loop segs' seen
      else if bool_decide (sg_name sg ∈ seen) then vars_loop segs' seen
      else sg_name sg :: vars_loop segs' (sg_name sg :: seen)
  end.

Definition vars (t : template) : list string := vars_loop (tm_segs t) [].

Definition render_seg (resolve : string -> option string) (sg : seg) : string :=
  if String.eqb (sg_name sg) "" then sg_lit sg else default "" (resolve (sg_name sg)).

Definition render (t : template) (resolve : string -> option string) : string :=
  foldr (fun sg acc => render_seg resolve sg +:+ acc) "" (tm_segs t).
