(* ===== verification/DetRule.v ===== *)
(** * A compiled detection rule (internal/detector/rule.go)

    Matching, reduction to an identity, accounting, trigger evaluation and the
    synthetic FlowSpec rule.  The trigger expression is run by the expr-lang
    virtual machine, a parameter [run]; [math.Pow] is a parameter too.  [None]
    is a run-time panic. *)
From S2P Require Import Prelude GoText Netip Flowspec Packet Spread Float64 DetTypes HeavyKeeper Store GoParse Template.
From Stdlib Require Import Ascii.
#[local] Open Scope Z_scope.

(** ** Compiled forms *)
Inductive emitMode := emitDefault | emitWildcard | emitTemplate.

#[global] Instance emitMode_eq_dec : EqDecision emitMode.
Proof. solve_decision. Defined.

Record emitField := { ef_mode : emitMode; ef_tmpl : template }.

Record flowSpecAction := {
  fa_ttl : Z;
  fa_refresh : bool;
  fa_family : emitField;
  fa_proto : emitField;
  fa_src : emitField;
  fa_dst : emitField;
  fa_srcPort : emitField;
  fa_dstPort : emitField;
  fa_icmpType : emitField;
  fa_icmpCode : emitField
}.

Record tcpEmitSpec := { te_mode : emitMode; te_care : Z; te_want : Z }.

Record CompareUint := { cu_LT : Z; cu_LTE : Z; cu_GT : Z; cu_GTE : Z }.

Section Expr.
Context {Program : Type}.

Record Rule := {
  r_name : string;
  r_fingerprint : string;
  r_description : option template;
  r_family : Family;
  r_familySet : bool;
  r_protoFilter : list Z;
  r_srcFilter : Prefix;
  r_dstFilter : Prefix;
  r_srcPortFilter : list Z;
  r_dstPortFilter : list Z;
  r_packetLen : CompareUint;
  r_tcpCare : Z;
  r_tcpWant : Z;
  r_icmpTypeFilter : list Z;
  r_icmpCodeFilter : list Z;
  r_protoWild : bool;
  r_srcMaskBits : Z;
  r_dstMaskBits : Z;
  r_srcPortAgg : portAgg;
  r_dstPortAgg : portAgg;
  r_icmpTypeAggAll : bool;
  r_icmpCodeAggAll : bool;
  r_spreadFields : list spreadField;
  r_terms : list term;
  r_expr : Program;
  r_sustained : Z;
  r_action : flowSpecAction;
  r_tcpEmit : tcpEmitSpec;
  r_emitInterval : Z;
  r_history : historySpec;
  r_store : instanceStore;
  r_evalEnv : gmap string float64;
  r_sketch : heavyKeeper;
  r_rankBytes : bool;
  r_halfLife : Z;
  r_lastDecay : option Z
}.

(** The mutable part of a rule: everything else is fixed at compile time. *)
Definition set_state (r : Rule) (store : instanceStore) (env : gmap string float64) (sketch : heavyKeeper)
    (lastDecay : option Z) : Rule :=
  {| r_name := r_name r; r_fingerprint := r_fingerprint r; r_description := r_description r; r_family := r_family r; r_familySet := r_familySet r;
     r_protoFilter := r_protoFilter r; r_srcFilter := r_srcFilter r; r_dstFilter := r_dstFilter r;
     r_srcPortFilter := r_srcPortFilter r; r_dstPortFilter := r_dstPortFilter r; r_packetLen := r_packetLen r;
     r_tcpCare := r_tcpCare r; r_tcpWant := r_tcpWant r; r_icmpTypeFilter := r_icmpTypeFilter r;
     r_icmpCodeFilter := r_icmpCodeFilter r; r_protoWild := r_protoWild r; r_srcMaskBits := r_srcMaskBits r;
     r_dstMaskBits := r_dstMaskBits r; r_srcPortAgg := r_srcPortAgg r; r_dstPortAgg := r_dstPortAgg r;
     r_icmpTypeAggAll := r_icmpTypeAggAll r; r_icmpCodeAggAll := r_icmpCodeAggAll r;
     r_spreadFields := r_spreadFields r; r_terms := r_terms r; r_expr := r_expr r; r_sustained := r_sustained r;
     r_action := r_action r; r_tcpEmit := r_tcpEmit r; r_emitInterval := r_emitInterval r; r_history := r_history r;
     r_store := store; r_evalEnv := env; r_sketch := sketch; r_rankBytes := r_rankBytes r; r_halfLife := r_halfLife r;
     r_lastDecay := lastDecay |}.

Definition InstanceCount (r : Rule) : Z := store_len (r_store r).
Definition MaxInstances (r : Rule) : Z := st_max (r_store r).

Definition UsesVPPStats (r : Rule) : bool := existsb (fun t => isStats (t_metric t)) (r_terms r).

(** The (window, offset) pairs [StatsWindows] returns. *)
Definition StatsWindows (r : Rule) : list (Z * Z) :=
  map (fun t => (t_window t, t_offset t)) (filter (fun t => isStats (t_metric t) && (0 <? t_window t) = true) (r_terms r)).

(** ** Matching *)
Fixpoint contains (s : list Z) (v : Z) : bool :=
  match s with
  | [] => false
  | x :: s' => if x =? v then true else contains s' v
  end.

Definition nonempty {A} (l : list A) : bool := match l with [] => false | _ => true end.

Definition matches (r : Rule) (s : Sample) : bool :=
  if r_familySet r && negb (bool_decide (s_Family s = r_family r)) then false
  else if nonempty (r_protoFilter r) && negb (contains (r_protoFilter r) (s_Proto s)) then false
  else if prefix_IsValid (r_srcFilter r) && negb (Contains (r_srcFilter r) (s_Src s)) then false
  else if prefix_IsValid (r_dstFilter r) && negb (Contains (r_dstFilter r) (s_Dst s)) then false
  else if nonempty (r_srcPortFilter r) && negb (contains (r_srcPortFilter r) (s_SrcPort s)) then false
  else if nonempty (r_dstPortFilter r) && negb (contains (r_dstPortFilter r) (s_DstPort s)) then false
  else if negb (r_tcpCare r =? 0) && negb (Z.land (s_TCPFlags s) (r_tcpCare r) =? r_tcpWant r) then false
  else if (nonempty (r_icmpTypeFilter r) || nonempty (r_icmpCodeFilter r)) &&
          ((negb (s_Proto s =? protoICMP) && negb (s_Proto s =? protoICMPv6)) ||
           (nonempty (r_icmpTypeFilter r) && negb (contains (r_icmpTypeFilter r) (s_ICMPType s))) ||
           (nonempty (r_icmpCodeFilter r) && negb (contains (r_icmpCodeFilter r) (s_ICMPCode s)))) then false
  else
    let pl := s_PacketLen s in
    let c := r_packetLen r in
    if negb (cu_LT c =? 0) && (cu_LT c <=? pl) then false
    else if negb (cu_LTE c =? 0) && (cu_LTE c <? pl) then false
    else if negb (cu_GT c =? 0) && (pl <=? cu_GT c) then false
    else if negb (cu_GTE c =? 0) && (pl <? cu_GTE c) then false
    else true.

(** ** Identity *)
Definition maskAddr (a : Addr) (bits : Z) : Addr :=
  if negb (addr_IsValid a) then a
  else
    let max := BitLen a in
    let bits := if (bits <? 0) || (max <? bits) then max else bits in
    match addr_Prefix a bits with
    | None => a
    | Some p => p_addr p
    end.

Definition prefixOf (a : Addr) (bits : Z) : Prefix :=
  let max := BitLen a in
  let bits := if (bits <? 0) || (max <? bits) then max else bits in
  PrefixFrom a bits.

Definition descriptorFor (r : Rule) (s : Sample) : option descriptor :=
  let tcpudp := negb (r_protoWild r) && ((s_Proto s =? protoTCP) || (s_Proto s =? protoUDP)) in
  let icmp := negb (r_protoWild r) && ((s_Proto s =? protoICMP) || (s_Proto s =? protoICMPv6)) in
  '(slo, shi) ← (if tcpudp then reduce (r_srcPortAgg r) (s_SrcPort s) else Some (0, 65535));
  '(dlo, dhi) ← (if tcpudp then reduce (r_dstPortAgg r) (s_DstPort s) else Some (0, 65535));
  Some {| d_family := s_Family s;
          d_proto := if r_protoWild r then 0 else s_Proto s;
          d_protoWild := r_protoWild r;
          d_src := maskAddr (s_Src s) (r_srcMaskBits r);
          d_dst := maskAddr (s_Dst s) (r_dstMaskBits r);
          d_srcPortLo := slo; d_srcPortHi := shi; d_dstPortLo := dlo; d_dstPortHi := dhi;
          d_icmpType := if icmp && negb (r_icmpTypeAggAll r) then s_ICMPType s else 0;
          d_icmpCode := if icmp && negb (r_icmpCodeAggAll r) then s_ICMPCode s else 0;
          d_icmpTypeWild := if icmp then r_icmpTypeAggAll r else true;
          d_icmpCodeWild := if icmp then r_icmpCodeAggAll r else true |}.

(** ** Accounting *)
Fixpoint spread_loop (fields : list spreadField) (es : list spreadEstimator) (s : Sample) (ok : bool)
  : option (list spreadEstimator * bool) :=
  match fields, es with
  | [], _ => Some (es, ok)
  | f :: fields', e :: es' =>
      region ← bucket f s;
      '(e, pct) ← observe e region;
      '(es', ok) ← spread_loop fields' es' s (if (pct <? sf_minRatio f : bool) then false else ok);
      Some (e :: es', ok)
  | _ :: _, [] => None
  end.

Definition spreadOK (r : Rule) (inst : instance) (s : Sample) : option (instance * bool) :=
  let es := match i_spread inst with
            | Some es => es
            | None => map (fun f => newSpreadEstimator (sf_buckets f)) (r_spreadFields r)
            end in
  '(es, ok) ← spread_loop (r_spreadFields r) es s true;
  Some (set_spread inst es, ok).

Definition put_instance (s : instanceStore) (d : descriptor) (i : instance) : instanceStore :=
  set_items s (<[d := i]> (st_items s)).

Section Observe.
Context (Pow : float64 -> float64 -> float64).

(** The last part of [Observe], on the admitted instance. *)
Definition account (r : Rule) (inst : instance) (s : Sample) (weight : Z) : option instance :=
  '(inst, ok) ← (if nonempty (r_spreadFields r) then spreadOK r inst s else Some (inst, true));
  if negb (ok : bool) then Some (set_seen inst (s_At s) (s_IngressIf s))
  else
    inst ← instance_add inst (s_At s) (s_PacketLen s) weight;
    Some (set_seen inst (i_lastSeen inst) (s_IngressIf s)).

Definition sample_weight (s : Sample) : Z := if s_SampleRate s =? 0 then 1 else s_SampleRate s.

Definition sketch_weight (r : Rule) (s : Sample) : float64 :=
  let w := f_of_int (sample_weight s) in
  if r_rankBytes r then f_mul w (f_of_int (s_PacketLen s)) else w.

Definition Observe (o : RangeOrder) (r : Rule) (s : Sample) : option Rule :=
  if negb (matches r s) then Some r
  else
    d ← descriptorFor r s;
    sketch ← hk_add Pow (r_sketch r) (hash d) (sketch_weight r s);
    '(store, admitted) ← store_admit o (r_store r) d sketch (s_At s);
    match admitted with
    | None => Some (set_state r store (r_evalEnv r) sketch (r_lastDecay r))
    | Some inst =>
        inst ← account r inst s (sample_weight s);
        Some (set_state r (put_instance store d inst) (r_evalEnv r) sketch (r_lastDecay r))
    end.

Definition ageSketch (r : Rule) (now : Z) : Rule :=
  let sketch :=
    match r_lastDecay r with
    | Some last =>
        let dt := Sub now last in
        if (0 <? r_halfLife r) && (0 <? dt) then
          decayAll (r_sketch r)
            (Pow (f_div (f_of_int 1) (f_of_int 2)) (f_div (Seconds dt) (Seconds (r_halfLife r))))
        else r_sketch r
    | None => r_sketch r
    end in
  set_state r (r_store r) (r_evalEnv r) sketch (Some now).
End Observe.
End Expr.

Arguments Rule : clear implicits.
