(* ===== verification/DetEmit.v ===== *)
(** * Trigger evaluation and emission (internal/detector/rule.go)

    The synthetic FlowSpec rule of an identity, the trigger state machine of an
    instance and the periodic [Tick]. *)
From S2P Require Import Prelude GoText Netip Flowspec Packet Spread Float64 DetTypes HeavyKeeper Store GoParse Template DetRule.
From Stdlib Require Import Ascii.
#[local] Open Scope Z_scope.

(** ** compile.go: parsers used at emission time *)
Definition parseFamily (s : string) : result gotext (Family * bool) :=
  let t := ToLower s in
  if String.eqb t "" then Ok (FamilyIPv4, false)
  else if String.eqb t "ipv4" || String.eqb t "ip4" then Ok (FamilyIPv4, true)
  else if String.eqb t "ipv6" || String.eqb t "ip6" then Ok (FamilyIPv6, true)
  else Err (Text "unknown family %q" [AStr s]).

Definition parseProtoName (s : string) : result gotext Z :=
  let t := ToLower (TrimSpace s) in
  if String.eqb t "icmp" then Ok protoICMP
  else if String.eqb t "tcp" then Ok protoTCP
  else if String.eqb t "udp" then Ok protoUDP
  else if String.eqb t "icmpv6" then Ok protoICMPv6
  else match ParseUint (TrimSpace s) 8 with
       | None => Err (Text "unknown proto %q" [AStr s])
       | Some v => Ok (u8 v)
       end.

(** ** Operator lists *)
Definition eq_op (v : Z) : NumericOp :=
  {| n_And := false; n_LT := false; n_GT := false; n_EQ := true; n_Value := v |}.

Definition portRangeOps (lo hi : Z) : list NumericOp :=
  if lo =? hi then [eq_op lo]
  else [{| n_And := false; n_LT := false; n_GT := true; n_EQ := true; n_Value := lo |};
        {| n_And := true; n_LT := true; n_GT := false; n_EQ := true; n_Value := hi |}].

(** [care &^ want] on bytes *)
Definition and_not (care want : Z) : Z := Z.ldiff care want.

Definition tcpFlagOps (care want : Z) : list BitmaskOp :=
  let set := want in
  let clear := and_not care want in
  let ops := if negb (set =? 0) then [{| b_And := false; b_Not := false; b_Match := true; b_Value := set |}] else [] in
  if negb (clear =? 0) then
    ops ++ [{| b_And := nonempty ops; b_Not := true; b_Match := false; b_Value := clear |}]
  else ops.

(** [tcpEmitSpec.resolve]: the (care, want) to emit. *)
Definition resolve (e : tcpEmitSpec) (matchCare matchWant : Z) : option (Z * Z) :=
  match te_mode e with
  | emitWildcard => None
  | emitTemplate => if negb (te_care e =? 0) then Some (te_care e, te_want e) else None
  | emitDefault => if negb (matchCare =? 0) then Some (matchCare, matchWant) else None
  end.

Definition portString (lo hi : Z) : string :=
  if lo =? hi then itoa lo else itoa lo +:+ "-" +:+ itoa hi.

Section Emit.
Context {Program : Type}.
Implicit Types r : @Rule Program.

Definition resolveDescriptorVar r (d : descriptor) (name : string) : option string :=
  if String.eqb name "family" then Some (Family_String (d_family d))
  else if String.eqb name "proto" then Some (if d_protoWild d then "any" else itoa (d_proto d))
  else if String.eqb name "src" then
    Some (if r_srcMaskBits r =? 0 then "any" else prefix_String (prefixOf (d_src d) (r_srcMaskBits r)))
  else if String.eqb name "dst" then
    Some (if r_dstMaskBits r =? 0 then "any" else prefix_String (prefixOf (d_dst d) (r_dstMaskBits r)))
  else if String.eqb name "src_port" then
    Some (if (d_srcPortLo d =? 0) && (d_srcPortHi d =? 65535) then "any" else portString (d_srcPortLo d) (d_srcPortHi d))
  else if String.eqb name "dst_port" then
    Some (if (d_dstPortLo d =? 0) && (d_dstPortHi d =? 65535) then "any" else portString (d_dstPortLo d) (d_dstPortHi d))
  else if String.eqb name "icmp_type" then Some (if d_icmpTypeWild d then "any" else itoa (d_icmpType d))
  else if String.eqb name "icmp_code" then Some (if d_icmpCodeWild d then "any" else itoa (d_icmpCode d))
  else None.

Definition renderField r (f : emitField) (d : descriptor) : string :=
  render (ef_tmpl f) (resolveDescriptorVar r d).

Definition descriptorString r (d : descriptor) : string :=
  "family=" +:+ Family_String (d_family d) +:+
  "|proto=" +:+ (if d_protoWild d then "any" else itoa (d_proto d)) +:+
  "|src=" +:+ prefix_String (prefixOf (d_src d) (r_srcMaskBits r)) +:+
  "|dst=" +:+ prefix_String (prefixOf (d_dst d) (r_dstMaskBits r)) +:+
  "|src_port=" +:+ portString (d_srcPortLo d) (d_srcPortHi d) +:+
  "|dst_port=" +:+ portString (d_dstPortLo d) (d_dstPortHi d) +:+
  (if d_icmpTypeWild d then "" else "|icmp_type=" +:+ itoa (d_icmpType d)) +:+
  (if d_icmpCodeWild d then "" else "|icmp_code=" +:+ itoa (d_icmpCode d)).

Definition emitPrefix r (f : emitField) (d : descriptor) (isSrc : bool) : result gotext (option Prefix) :=
  let addr := if isSrc then d_src d else d_dst d in
  let bits := if isSrc then r_srcMaskBits r else r_dstMaskBits r in
  match ef_mode f with
  | emitWildcard => Ok None
  | emitTemplate =>
      match ParsePrefix (renderField r f d) with
      | None => Err (plain "netip.ParsePrefix")
      | Some p => Ok (Some p)
      end
  | emitDefault => if bits =? 0 then Ok None else Ok (Some (prefixOf addr bits))
  end.

Definition emitPort r (f : emitField) (d : descriptor) (isSrc : bool) : result gotext (list NumericOp) :=
  let lo := if isSrc then d_srcPortLo d else d_dstPortLo d in
  let hi := if isSrc then d_srcPortHi d else d_dstPortHi d in
  match ef_mode f with
  | emitWildcard => Ok []
  | emitTemplate =>
      match ParseUint (TrimSpace (renderField r f d)) 16 with
      | None => Err (plain "strconv.ParseUint")
      | Some v => Ok [eq_op v]
      end
  | emitDefault => if (lo =? 0) && (hi =? 65535) then Ok [] else Ok (portRangeOps lo hi)
  end.

Definition emitICMP r (f : emitField) (val : Z) (wild : bool) (d : descriptor) : result gotext (list NumericOp) :=
  match ef_mode f with
  | emitWildcard => Ok []
  | emitTemplate =>
      match ParseUint (TrimSpace (renderField r f d)) 8 with
      | None => Err (plain "strconv.ParseUint")
      | Some v => Ok [eq_op v]
      end
  | emitDefault => if wild then Ok [] else Ok [eq_op val]
  end.

Definition emitProto r (d : descriptor) : result gotext (list NumericOp) :=
  match ef_mode (fa_proto (r_action r)) with
  | emitDefault => Ok (if d_protoWild d then [] else [eq_op (d_proto d)])
  | emitTemplate => n ← parseProtoName (renderField r (fa_proto (r_action r)) d); Ok [eq_op n]
  | emitWildcard => Ok []
  end.

Definition emitFamily r (d : descriptor) : Family :=
  match ef_mode (fa_family (r_action r)) with
  | emitTemplate =>
      match parseFamily (renderField r (fa_family (r_action r)) d) with
      | Ok (f, _) => f
      | Err _ => d_family d
      end
  | _ => d_family d
  end.

Definition buildFlowSpec r (d : descriptor) : result gotext Flowspec.Rule :=
  let fam := emitFamily r d in
  proto ← emitProto r d;
  src ← emitPrefix r (fa_src (r_action r)) d true;
  dst ← emitPrefix r (fa_dst (r_action r)) d false;
  srcPort ← emitPort r (fa_srcPort (r_action r)) d true;
  dstPort ← emitPort r (fa_dstPort (r_action r)) d false;
  let flags := match resolve (r_tcpEmit r) (r_tcpCare r) (r_tcpWant r) with
               | Some (care, want) => tcpFlagOps care want
               | None => []
               end in
  icmpType ← emitICMP r (fa_icmpType (r_action r)) (d_icmpType d) (d_icmpTypeWild d) d;
  icmpCode ← emitICMP r (fa_icmpCode (r_action r)) (d_icmpCode d) (d_icmpCodeWild d) d;
  Ok {| r_Family := fam;
        r_Match := {|
          HasDst := match dst with Some _ => true | None => false end;
          Dst := default zeroPrefix dst; DstOffset := 0;
          HasSrc := match src with Some _ => true | None => false end;
          Src := default zeroPrefix src; SrcOffset := 0;
          Proto := proto; DstPort := dstPort; SrcPort := srcPort; ICMPType := icmpType; ICMPCode := icmpCode;
          TCPFlags := flags; Fragment := [];
          HasGenericPort := false; HasPacketLen := false; HasDSCP := false; HasFlowLabel := false; HasLabel := false;
          HasUnknownComponent := false |};
        r_Action := {| Kind := ActionDrop; Desc := "detector:" +:+ r_name r |};
        r_Raw := "detector:" +:+ r_name r +:+ ":" +:+ descriptorString r d |}.

(** ** Terms *)
Definition statsValue (t : term) (ingressIf : string) (now : Z) (stats : option StatsView) : float64 :=
  match stats with
  | None => f_zero
  | Some sv =>
      let m := t_metric t in
      if t_window t <=? 0 then
        if isTotal m then selectRate m (TotalRates sv)
        else if String.eqb ingressIf "" then f_zero
        else match InterfaceRates sv ingressIf with
             | None => f_zero
             | Some rates => selectRate m rates
             end
      else
        let peak := bool_decide (t_agg t = aggMax) in
        if isTotal m then
          match TotalWindow sv now (t_window t) (t_offset t) peak with
          | None => f_zero
          | Some rates => selectRate m rates
          end
        else if String.eqb ingressIf "" then f_zero
        else match InterfaceWindow sv ingressIf now (t_window t) (t_offset t) peak with
             | None => f_zero
             | Some rates => selectRate m rates
             end
  end.

Definition termValue (t : term) (inst : instance) (now : Z) (stats : option StatsView) : option float64 :=
  if isStats (t_metric t) then Some (statsValue t (i_lastIngressIf inst) now stats)
  else match ringFor inst (t_ring t) with
       | None => Some f_zero
       | Some ring => aggregate ring now t
       end.

(** The loop that refills the shared scratch environment. *)
Fixpoint fill_env (terms : list term) (inst : instance) (now : Z) (stats : option StatsView) (env : gmap string float64)
  : option (gmap string float64) :=
  match terms with
  | [] => Some env
  | t :: terms' => v ← termValue t inst now stats; fill_env terms' inst now stats (<[t_name t := v]> env)
  end.

(** [maxValue] over the entries of the map in the order of its [range]. *)
Fixpoint max_loop (l : list (string * float64)) (cur : option float64) : float64 :=
  match l with
  | [] => default f_zero cur
  | (_, v) :: l' =>
      max_loop l' (match cur with
                   | None => Some v
                   | Some out => if f_lt out v then Some v else Some out
                   end)
  end.

Definition maxValue (o : RangeOrder) (m : gmap string float64) : float64 :=
  max_loop (range_list o (map_to_list m)) None.

Record Event := {
  e_ID : string;
  e_RuleName : string;
  e_InstanceKey : string;
  e_Description : string;
  e_TTL : Z;
  e_Refresh : bool;
  e_ObservedPPS : float64;
  e_Rule : Flowspec.Rule
}.

(** What the expression machine returns: an error, a boolean, or another value. *)
Inductive exprResult := ExprError | ExprBool (b : bool) | ExprOther.

Section Trigger.
Context (run : Program -> gmap string float64 -> exprResult).

Definition renderDescription r (inst : instance) (values : gmap string float64) : string :=
  match r_description r with
  | None => ""
  | Some t =>
      render t (fun name =>
        match values !! name with
        | Some v => Some (FormatFloat v)
        | None => if String.eqb name "ingress_if" then Some (i_lastIngressIf inst)
                  else resolveDescriptorVar r (i_key inst) name
        end)
  end.

(** The values of the terms, read back from the environment ([None]: a term is
    missing, the type assertion panics). *)
Fixpoint read_values (terms : list term) (env values : gmap string float64) : option (gmap string float64) :=
  match terms with
  | [] => Some values
  | t :: terms' => v ← env !! t_name t; read_values terms' env (<[t_name t := v]> values)
  end.

(** [evalInstance]: the environment and the instance afterwards, and the event. *)
Definition evalInstance (o : RangeOrder) r (inst : instance) (now : Z) (stats : option StatsView)
  : option (gmap string float64 * instance * option Event) :=
  env ← fill_env (r_terms r) inst now stats (r_evalEnv r);
  match run (r_expr r) env with
  | ExprError => Some (env, inst, None)
  | ExprOther | ExprBool false => Some (env, set_trigger inst None (i_lastEvent inst), None)
  | ExprBool true =>
      let since := default now (i_trueSince inst) in
      let inst := set_trigger inst (Some since) (i_lastEvent inst) in
      if Sub now since <? r_sustained r then Some (env, inst, None)
      else
        let '(inst, emit) := shouldEmit inst now (r_emitInterval r) in
        if negb emit then Some (env, inst, None)
        else match buildFlowSpec r (i_key inst) with
             | Err _ => Some (env, inst, None)
             | Ok rule =>
                 values ← read_values (r_terms r) env ∅;
                 let keyStr := descriptorString r (i_key inst) in
                 Some (env, inst, Some {|
                   e_ID := r_name r +:+ "/" +:+ keyStr;
                   e_RuleName := r_name r;
                   e_InstanceKey := keyStr;
                   e_Description := renderDescription r inst values;
                   e_TTL := fa_ttl (r_action r);
                   e_Refresh := fa_refresh (r_action r);
                   e_ObservedPPS := maxValue o values;
                   e_Rule := rule |})
             end
  end.

(** The loop of [Tick] over the instances, in the order of its [range]; every
    instance is updated in place. *)
Fixpoint tick_loop (o : RangeOrder) (keys : list descriptor) r (now : Z) (stats : option StatsView) (out : list Event)
  : option (Rule Program * list Event) :=
  match keys with
  | [] => Some (r, out)
  | k :: keys' =>
      inst ← st_items (r_store r) !! k;
      '(env, inst, ev) ← evalInstance o r inst now stats;
      let r := set_state r (put_instance (r_store r) k inst) env (r_sketch r) (r_lastDecay r) in
      tick_loop o keys' r now stats (out ++ option_list ev)
  end.

Definition Tick (Pow : float64 -> float64 -> float64) (o : RangeOrder) r (now : Z) (stats : option StatsView)
  : option (Rule Program * list Event) :=
  let r := ageSketch Pow r now in
  tick_loop o (map fst (range_list o (map_to_list (st_items (r_store r))))) r now stats [].
End Trigger.
End Emit.
