(* ===== verification/DetEngine.v ===== *)
(** * The detection engine and its run loop (internal/detector: engine.go, runtime.go)

    The engine's three indexes hold pointers to the same rules: here they hold
    positions in one list of rules, and an operation on a rule updates the list. *)
From S2P Require Import Prelude Flowspec Packet Float64 DetTypes HeavyKeeper Store DetRule DetEmit.
#[local] Open Scope Z_scope.

Section Engine.
Context {Program : Type}.
Context (Pow : float64 -> float64 -> float64) (run : Program -> gmap string float64 -> exprResult).
Implicit Types r : @Rule Program.

Record Engine := {
  en_rules : list (@Rule Program);
  en_anyProto : list nat;
  en_byProto : gmap Z (list nat);
  en_all : list nat
}.

(** [e.byProto[p] = append(e.byProto[p], r)] *)
Definition push_proto (i : nat) (m : gmap Z (list nat)) (p : Z) : gmap Z (list nat) :=
  <[p := default [] (m !! p) ++ [i]]> m.

(** One iteration of the loop of [NewEngine]. *)
Definition add_rule (e : Engine) r : Engine :=
  let i := length (en_rules e) in
  if nonempty (r_protoFilter r) then
    {| en_rules := en_rules e ++ [r]; en_anyProto := en_anyProto e;
       en_byProto := foldl (push_proto i) (en_byProto e) (r_protoFilter r); en_all := en_all e ++ [i] |}
  else
    {| en_rules := en_rules e ++ [r]; en_anyProto := en_anyProto e ++ [i];
       en_byProto := en_byProto e; en_all := en_all e ++ [i] |}.

Definition NewEngine (rules : list (@Rule Program)) : Engine :=
  foldl add_rule {| en_rules := []; en_anyProto := []; en_byProto := ∅; en_all := [] |} rules.

Definition set_rules (e : Engine) (rs : list (@Rule Program)) : Engine :=
  {| en_rules := rs; en_anyProto := en_anyProto e; en_byProto := en_byProto e; en_all := en_all e |}.

(** [for _, r := range rules { r.Observe(s) }] over the rules at some positions;
    [os i] is the iteration order of the pool of rule [i]. *)
Fixpoint observe_at (os : nat -> RangeOrder) (is_ : list nat) (rs : list (@Rule Program)) (s : Sample)
  : option (list (@Rule Program)) :=
  match is_ with
  | [] => Some rs
  | i :: is' => r ← rs !! i; r ← Observe Pow (os i) r s; observe_at os is' (<[i := r]> rs) s
  end.

(** [Engine.Observe] *)
Definition engine_Observe (os : nat -> RangeOrder) (e : Engine) (s : Sample) : option Engine :=
  rs ← observe_at os (en_anyProto e) (en_rules e) s;
  rs ← observe_at os (default [] (en_byProto e !! s_Proto s)) rs s;
  Some (set_rules e rs).

Fixpoint tick_at (os : nat -> RangeOrder) (is_ : list nat) (rs : list (@Rule Program)) (now : Z) (stats : option StatsView)
    (out : list Event) : option (list (@Rule Program) * list Event) :=
  match is_ with
  | [] => Some (rs, out)
  | i :: is' =>
      r ← rs !! i;
      '(r, evs) ← Tick run Pow (os i) r now stats;
      tick_at os is' (<[i := r]> rs) now stats (out ++ evs)
  end.

(** [Engine.Tick] *)
Definition engine_Tick (os : nat -> RangeOrder) (e : Engine) (now : Z) (stats : option StatsView)
  : option (Engine * list Event) :=
  '(rs, out) ← tick_at os (en_all e) (en_rules e) now stats [];
  Some (set_rules e rs, out).

(** The loop of [TickInterval]. *)
Fixpoint interval_loop (rs : list (@Rule Program)) (best : Z) : Z :=
  match rs with
  | [] => best
  | r :: rs' =>
      let res := fineResolution (r_history r) in
      if res <=? 0 then interval_loop rs' best
      else interval_loop rs' (if (best =? 0) || (res <? best) then res else best)
  end.

Definition TickInterval (e : Engine) : Z :=
  let best := interval_loop (omap (fun i => en_rules e !! i) (en_all e)) 0 in
  if (0 <? best) && (best <? Second) then Second else best.

(** ** runtime.go: the run loop *)
Record Runner := {
  rn_engine : Engine;
  rn_queue : list Event;   (* what the events channel holds *)
  rn_cap : Z;              (* its capacity *)
  rn_stats : option StatsView;
  rn_interval : Z;
  rn_dropped : Z           (* droppedEvents, int64 *)
}.

Definition NewRunnerWithContext (e : Engine) (cap : Z) (stats : option StatsView) : Runner :=
  let interval := TickInterval e in
  {| rn_engine := e; rn_queue := []; rn_cap := cap; rn_stats := stats;
     rn_interval := if interval <=? 0 then Second else interval; rn_dropped := 0 |}.

(** [select { case r.events <- ev: default: droppedEvents++ }] *)
Definition send_event (st : list Event * Z) (cap : Z) (ev : Event) : list Event * Z :=
  let '(q, dropped) := st in
  if len q <? cap then (q ++ [ev], dropped) else (q, i64 (dropped + 1)).

(** What the loop of [Run] reacts to; [RTake] is the consumer taking one event. *)
Inductive runInput :=
  | RSample (s : Sample)
  | RTick (now : Z)
  | RTake
  | RStop.

Definition run_step (os : nat -> RangeOrder) (rn : Runner) (i : runInput) : option (Runner * bool) :=
  match i with
  | RStop => Some (rn, false)
  | RSample s =>
      e ← engine_Observe os (rn_engine rn) s;
      Some ({| rn_engine := e; rn_queue := rn_queue rn; rn_cap := rn_cap rn; rn_stats := rn_stats rn;
               rn_interval := rn_interval rn; rn_dropped := rn_dropped rn |}, true)
  | RTick now =>
      '(e, evs) ← engine_Tick os (rn_engine rn) now (rn_stats rn);
      let '(q, dropped) := foldl (fun st ev => send_event st (rn_cap rn) ev) (rn_queue rn, rn_dropped rn) evs in
      Some ({| rn_engine := e; rn_queue := q; rn_cap := rn_cap rn; rn_stats := rn_stats rn;
               rn_interval := rn_interval rn; rn_dropped := dropped |}, true)
  | RTake =>
      Some ({| rn_engine := rn_engine rn; rn_queue := drop 1 (rn_queue rn); rn_cap := rn_cap rn; rn_stats := rn_stats rn;
               rn_interval := rn_interval rn; rn_dropped := rn_dropped rn |}, true)
  end.

Fixpoint run_loop (os : nat -> RangeOrder) (rn : Runner) (is_ : list runInput) : option Runner :=
  match is_ with
  | [] => Some rn
  | i :: is' => '(rn, go) ← run_step os rn i; if (go : bool) then run_loop os rn is' else Some rn
  end.
End Engine.
