(* ===== verification/DetEmitFacts.v ===== *)
(** * What a finding's rule drops

    A finding's identity, its synthetic FlowSpec rule and the ACL entry that the
    rule is translated to describe the same packets. *)
From S2P Require Import Prelude GoText Netip Flowspec VppTypes Translate TranslateFacts Packet Spread Float64 DetTypes HeavyKeeper Store GoParse Template DetRule DetEmit.
#[local] Open Scope Z_scope.

(** ** Addresses *)
Definition clamp_bits (a : Addr) (bits : Z) : Z := if (bits <? 0) || (BitLen a <? bits) then BitLen a else bits.

Lemma clamp_bits_range a bits : a <> AddrNone -> 0 <= clamp_bits a bits <= BitLen a.
Proof. intros Ha. unfold clamp_bits. case_bool; destruct a; simpl in *; try done; lia. Qed.

Lemma BitLen_nonneg a : 0 <= BitLen a.
Proof. destruct a; simpl; lia. Qed.

Lemma maskAddr_and a bits : a <> AddrNone -> maskAddr a bits = and_mask a (clamp_bits a bits).
Proof.
  intros Ha. pose proof (clamp_bits_range a bits Ha) as Hb. unfold maskAddr, addr_Prefix. fold (clamp_bits a bits).
  destruct a; [done|..]; cbn [addr_IsValid negb]; rewrite (proj2 (Z.ltb_ge _ _)), (proj2 (Z.ltb_ge _ _)) by lia; done.
Qed.

Lemma land_mask_eq len b v w :
  0 <= b <= len -> in_width len v -> in_width len w ->
  Z.land v (mask len b) = Z.land w (mask len b) <-> Z.shiftr v (len - b) = Z.shiftr w (len - b).
Proof.
  intros Hb Hv Hw. rewrite <-(Z.lxor_eq_0_iff (Z.shiftr v _)), <-Z.shiftr_lxor, <-(masked_diff_zero len b) by done.
  rewrite <-(Z.lxor_eq_0_iff (Z.land v _)). replace (Z.lxor (Z.land v (mask len b)) (Z.land w (mask len b)))
    with (Z.land (Z.lxor v w) (mask len b)); [done|].
  apply Z.bits_inj'. intros i Hi. rewrite !Z.lxor_spec, !Z.land_spec, !Z.lxor_spec.
  by destruct (Z.testbit v i), (Z.testbit w i), (Z.testbit (mask len b) i).
Qed.

Lemma in_width_mask len b v : 0 <= b <= len -> in_width len v -> in_width len (Z.land v (mask len b)).
Proof.
  intros Hb Hv. apply testbit_in_width; [lia|apply Z.land_nonneg; left; unfold in_width in Hv; lia|].
  intros i Hi. by rewrite Z.land_spec, (in_width_testbit len v) by (done || lia).
Qed.

Lemma mask_idem len b v : Z.land (Z.land v (mask len b)) (mask len b) = Z.land v (mask len b).
Proof. by rewrite <-Z.land_assoc, Z.land_diag. Qed.

Definition same_kind (a b : Addr) : bool :=
  match a, b with Addr4 _, Addr4 _ | Addr6 _, Addr6 _ => true | _, _ => false end.

Lemma prefixOf_maskAddr_wf a bits : addr_wf a -> a <> AddrNone ->
  prefix_wf (prefixOf (maskAddr a bits) bits) /\ prefix_IsValid (prefixOf (maskAddr a bits) bits) = true.
Proof.
  intros Ha Hn. pose proof (clamp_bits_range a bits Hn) as Hb. rewrite maskAddr_and by done.
  assert (prefixOf (and_mask a (clamp_bits a bits)) bits = PrefixFrom (and_mask a (clamp_bits a bits)) (clamp_bits a bits)) as ->
    by (by destruct a).
  unfold PrefixFrom, prefix_wf, prefix_IsValid, addr_wf in *. destruct a; [done|..]; simpl in *;
    rewrite (proj2 (Z.leb_le _ _)), (proj2 (Z.leb_le _ _)) by lia; simpl; rewrite ?(proj2 (Z.leb_le _ _)) by lia;
    repeat split; try done; try lia; apply in_width_mask; done.
Qed.

(** The emitted prefix contains exactly the addresses with the same masked form. *)
Lemma prefixOf_Contains a b bits :
  addr_wf a -> addr_wf b -> same_kind a b = true ->
  Contains (prefixOf (maskAddr a bits) bits) b = bool_decide (maskAddr b bits = maskAddr a bits).
Proof.
  intros Ha Hb Hk. assert (a <> AddrNone /\ b <> AddrNone) as [Hna Hnb] by (by destruct a, b).
  destruct (prefixOf_maskAddr_wf a bits Ha Hna) as [Hwf Hv]. apply eq_bool_prop_intro.
  rewrite !Is_true_true, bool_decide_eq_true, Contains_spec by done. pose proof (clamp_bits_range a bits Hna) as Hc.
  rewrite !maskAddr_and by done. unfold prefixOf. fold (clamp_bits (and_mask a (clamp_bits a bits)) bits).
  assert (clamp_bits b bits = clamp_bits a bits) as -> by (by destruct a, b).
  assert (clamp_bits (and_mask a (clamp_bits a bits)) bits = clamp_bits a bits) as -> by (by destruct a).
  set (n := clamp_bits a bits) in *. unfold addr_wf in *.
  assert (p_bits (PrefixFrom (and_mask a n) n) = n) as ->.
  { unfold PrefixFrom. destruct a; [done|..]; simpl in *; by rewrite (proj2 (Z.leb_le _ _)), (proj2 (Z.leb_le _ _)) by lia. }
  destruct a as [|v|v], b as [|w|w]; try done; simpl in *;
    rewrite <-(land_mask_eq _ n w) by (done || lia || by apply in_width_mask); rewrite mask_idem; split; try congruence.
  - by intros (_ & _ & _ & ->).
  - intros [= ->]. repeat split; (lia || done).
  - by intros (_ & _ & _ & ->).
  - intros [= ->]. repeat split; (lia || done).
Qed.

(** ** Ports *)
Definition portAgg_wf (p : portAgg) : Prop :=
  match pa_mode p with
  | portRange => 0 <= pa_lo p <= pa_hi p /\ pa_hi p <= 65535
  | portBucket => 0 < pa_step p < 2 ^ 32
  | _ => True
  end.

Lemma reduce_bucket p port :
  portAgg_wf p -> pa_mode p = portBucket -> in_width 16 port ->
  reduce p port = Some (port / pa_step p * pa_step p, Z.min 65535 (port / pa_step p * pa_step p + pa_step p - 1)).
Proof.
  unfold portAgg_wf, in_width, reduce. intros Hwf Hm Hp. rewrite Hm in *. rewrite (proj2 (Z.eqb_neq _ _)) by lia. cbn zeta.
  pose proof (Z.div_mod port (pa_step p) ltac:(lia)) as Hd. pose proof (Z.mod_pos_bound port (pa_step p) ltac:(lia)) as Hb.
  set (base := port / pa_step p * pa_step p) in *. assert (0 <= port / pa_step p) by (apply Z.div_pos; lia).
  assert (0 <= base <= port) as Hbase by (subst base; nia).
  assert (base + pa_step p - 1 < 2 ^ 32) as Hend by (destruct (decide (pa_step p <= port)); [lia|];
    assert (port / pa_step p = 0) by (apply Z.div_small; lia); subst base; nia).
  rewrite (u32_small base) by (unfold in_width; lia). rewrite u32_small by (unfold in_width; lia).
  destruct (Z.ltb_spec 65535 (base + pa_step p - 1)); rewrite !u16_small by (unfold in_width; lia); do 2 f_equal; lia.
Qed.

Lemma reduce_range p port :
  portAgg_wf p -> in_width 16 port -> exists lo hi, reduce p port = Some (lo, hi) /\ 0 <= lo <= hi /\ hi <= 65535.
Proof.
  intros Hwf Hp. destruct (pa_mode p) eqn:Hm.
  - exists port, port. unfold reduce, in_width in *. rewrite Hm. split; [done|lia].
  - exists 0, 65535. unfold reduce. rewrite Hm. split; [done|lia].
  - exists (pa_lo p), (pa_hi p). unfold reduce, portAgg_wf in *. rewrite Hm in *. split; [done|lia].
  - eexists _, _. split; [by apply reduce_bucket|]. unfold portAgg_wf, in_width in *. rewrite Hm in *.
    pose proof (Z.div_mod port (pa_step p) ltac:(lia)) as Hd. pose proof (Z.mod_pos_bound port (pa_step p) ltac:(lia)) as Hb.
    assert (0 <= port / pa_step p) by (apply Z.div_pos; lia). nia.
Qed.

(** A port inside a reduced range reduces to that range. *)
Lemma reduce_within p port q lo hi :
  portAgg_wf p -> in_width 16 port -> in_width 16 q -> reduce p port = Some (lo, hi) -> lo <= q <= hi ->
  reduce p q = Some (lo, hi).
Proof.
  intros Hwf Hp Hq Hr Hin. destruct (pa_mode p) eqn:Hm.
  - unfold reduce in *. rewrite Hm in *. injection Hr as <- <-. by replace q with port by lia.
  - unfold reduce in *. by rewrite Hm in *.
  - unfold reduce in *. by rewrite Hm in *.
  - rewrite reduce_bucket in * by done. injection Hr as <- <-. unfold portAgg_wf in Hwf. rewrite Hm in Hwf.
    assert (q / pa_step p = port / pa_step p) as ->; [|done].
    symmetry. apply (Z.div_unique_pos _ _ _ (q - port / pa_step p * pa_step p)); lia.
Qed.

Definition within (lo hi v : Z) : bool := (lo <=? v) && (v <=? hi).

Lemma portRangeOps_hold lo hi v : lo <= hi -> nums_hold (portRangeOps lo hi) v = within lo hi v.
Proof.
  intros Hle. unfold portRangeOps, within. destruct (Z.eqb_spec lo hi); cbn; unfold num_holds; simpl; lia.
Qed.

(** ** TCP flags *)
Definition flags_wf (care want : Z) : Prop := in_width 8 care /\ in_width 8 want /\ Z.land want care = want.

Lemma ldiff_land_zero a b f : Z.land f (Z.ldiff a b) = 0 <-> Z.land (Z.land f a) (Z.lnot b) = 0.
Proof. by rewrite Z.ldiff_land, Z.land_assoc. Qed.

Lemma care_want_split care want f :
  flags_wf care want -> Z.land f care = want <-> Z.land f want = want /\ Z.land f (Z.ldiff care want) = 0.
Proof.
  intros (Hc & Hw & Hsub). rewrite <-!Z.bits_inj_iff'.
  assert (forall i, 0 <= i -> Z.testbit want i && Z.testbit care i = Z.testbit want i) as Hs
    by (intros i Hi; by rewrite <-Z.land_spec, Hsub).
  split.
  - intros H. split; intros i Hi; specialize (H i Hi); specialize (Hs i Hi); revert H Hs;
      rewrite ?Z.bits_0, !Z.land_spec, ?Z.ldiff_spec;
      destruct (Z.testbit f i), (Z.testbit care i), (Z.testbit want i); done.
  - intros [H1 H2] i Hi. specialize (H1 i Hi). specialize (H2 i Hi). specialize (Hs i Hi). revert H1 H2 Hs.
    rewrite Z.bits_0, !Z.land_spec, Z.ldiff_spec.
    destruct (Z.testbit f i), (Z.testbit care i), (Z.testbit want i); done.
Qed.

Lemma tcpFlagOps_hold care want f :
  flags_wf care want -> care <> 0 ->
  bits_hold (tcpFlagOps care want) f = (Z.land f care =? want) /\ present (tcpFlagOps care want) = true.
Proof.
  intros Hwf Hc. pose proof (care_want_split care want f Hwf) as Hsp. unfold tcpFlagOps, and_not.
  assert (want = 0 -> Z.ldiff care want = care) as Hz by (intros ->; apply Z.ldiff_0_r).
  destruct (Z.eqb_spec want 0) as [Hw|Hw], (Z.eqb_spec (Z.ldiff care want) 0) as [Hd|Hd]; cbn; unfold bit_holds; cbn.
  - rewrite Hz in Hd by done. done.
  - split; [|done]. apply eq_bool_prop_intro. rewrite !Is_true_true, negb_involutive, !Z.eqb_eq, Hsp, Hw, Z.land_0_r. tauto.
  - split; [|done]. apply eq_bool_prop_intro. rewrite !Is_true_true, !Z.eqb_eq, Hsp, Hd, Z.land_0_r. tauto.
  - split; [|done]. apply eq_bool_prop_intro. rewrite !Is_true_true, andb_true_iff, negb_involutive, !Z.eqb_eq, Hsp. tauto.
Qed.

(** ** The emitted rule *)
Definition default_action (a : flowSpecAction) : Prop :=
  Forall (fun f => ef_mode f = emitDefault)
    [fa_family a; fa_proto a; fa_src a; fa_dst a; fa_srcPort a; fa_dstPort a; fa_icmpType a; fa_icmpCode a].

(** What compilation guarantees of a rule that emits its identity unchanged. *)
Record emits_identity {Program} (r : Rule Program) : Prop := {
  em_action : default_action (r_action r);
  em_flags_default : te_mode (r_tcpEmit r) = emitDefault;
  em_sport : portAgg_wf (r_srcPortAgg r);
  em_dport : portAgg_wf (r_dstPortAgg r);
  em_flags : flags_wf (r_tcpCare r) (r_tcpWant r);
  em_tcp : r_tcpCare r <> 0 -> nonempty (r_protoFilter r) = true /\ Forall (eq protoTCP) (r_protoFilter r)
}.

(** The header fields a sample carries. *)
Definition packet_of (s : Sample) : packet :=
  {| pk_family := s_Family s; pk_src := s_Src s; pk_dst := s_Dst s; pk_proto := s_Proto s; pk_sport := s_SrcPort s;
     pk_dport := s_DstPort s; pk_flags := s_TCPFlags s; pk_itype := s_ICMPType s; pk_icode := s_ICMPCode s |}.

Definition port_ops (lo hi : Z) : list NumericOp := if (lo =? 0) && (hi =? 65535) then [] else portRangeOps lo hi.

Definition emitted_match {Program} (r : Rule Program) (d : descriptor) : Match :=
  let src := if r_srcMaskBits r =? 0 then None else Some (prefixOf (d_src d) (r_srcMaskBits r)) in
  let dst := if r_dstMaskBits r =? 0 then None else Some (prefixOf (d_dst d) (r_dstMaskBits r)) in
  {| HasDst := match dst with Some _ => true | None => false end;
     Dst := default zeroPrefix dst; DstOffset := 0;
     HasSrc := match src with Some _ => true | None => false end;
     Src := default zeroPrefix src; SrcOffset := 0;
     Proto := if d_protoWild d then [] else [eq_op (d_proto d)];
     DstPort := port_ops (d_dstPortLo d) (d_dstPortHi d); SrcPort := port_ops (d_srcPortLo d) (d_srcPortHi d);
     ICMPType := if d_icmpTypeWild d then [] else [eq_op (d_icmpType d)];
     ICMPCode := if d_icmpCodeWild d then [] else [eq_op (d_icmpCode d)];
     TCPFlags := if r_tcpCare r =? 0 then [] else tcpFlagOps (r_tcpCare r) (r_tcpWant r); Fragment := [];
     HasGenericPort := false; HasPacketLen := false; HasDSCP := false; HasFlowLabel := false; HasLabel := false;
     HasUnknownComponent := false |}.

Lemma buildFlowSpec_default {Program} (r : Rule Program) d :
  default_action (r_action r) -> te_mode (r_tcpEmit r) = emitDefault ->
  exists fr, buildFlowSpec r d = Ok fr /\ r_Family fr = d_family d /\ r_Match fr = emitted_match r d /\
    Kind (r_Action fr) = ActionDrop.
Proof.
  intros Ha Ht. unfold default_action in Ha. rewrite !Forall_cons in Ha.
  destruct Ha as (H1 & H2 & H3 & H4 & H5 & H6 & H7 & H8 & _).
  unfold buildFlowSpec, emitFamily, emitProto, emitPrefix, emitPort, emitICMP, resolve.
  rewrite H1, H2, H3, H4, H5, H6, H7, H8, Ht. cbn [mbind result_bind]. unfold emitted_match, port_ops.
  destruct (r_srcMaskBits r =? 0), (r_dstMaskBits r =? 0); cbn [mbind result_bind];
    destruct ((d_srcPortLo d =? 0) && (d_srcPortHi d =? 65535)), ((d_dstPortLo d =? 0) && (d_dstPortHi d =? 65535));
    cbn [mbind result_bind]; destruct (d_icmpTypeWild d), (d_icmpCodeWild d); cbn [mbind result_bind];
    (eexists; split; [reflexivity|]; cbn; split; [done|]; split; [|done]; by destruct (r_tcpCare r =? 0)).
Qed.

Section Identity.
Context {Program : Type} (r : Rule Program) (Hr : emits_identity r).
Context (s : Sample) (Hs : packet_wf (packet_of s)) (Hm : matches r s = true).

Definition carries_ports (x : Sample) : bool :=
  negb (r_protoWild r) && ((s_Proto x =? protoTCP) || (s_Proto x =? protoUDP)).
Definition carries_icmp (x : Sample) : bool :=
  negb (r_protoWild r) && ((s_Proto x =? protoICMP) || (s_Proto x =? protoICMPv6)).

(** The port range of an identity. *)
Definition port_identity (x : Sample) (a : portAgg) (port : Z) : option (Z * Z) :=
  if carries_ports x then reduce a port else Some (0, 65535).

Lemma port_identity_range x a port :
  portAgg_wf a -> in_width 16 port -> exists lo hi, port_identity x a port = Some (lo, hi) /\ 0 <= lo <= hi /\ hi <= 65535.
Proof.
  intros Ha Hp. unfold port_identity. destruct (carries_ports x); [by apply reduce_range|].
  exists 0, 65535. split; [done|lia].
Qed.

Lemma descriptorFor_eq x slo shi dlo dhi :
  port_identity x (r_srcPortAgg r) (s_SrcPort x) = Some (slo, shi) ->
  port_identity x (r_dstPortAgg r) (s_DstPort x) = Some (dlo, dhi) ->
  descriptorFor r x = Some {| d_family := s_Family x; d_proto := if r_protoWild r then 0 else s_Proto x;
    d_protoWild := r_protoWild r; d_src := maskAddr (s_Src x) (r_srcMaskBits r); d_dst := maskAddr (s_Dst x) (r_dstMaskBits r);
    d_srcPortLo := slo; d_srcPortHi := shi; d_dstPortLo := dlo; d_dstPortHi := dhi;
    d_icmpType := if carries_icmp x && negb (r_icmpTypeAggAll r) then s_ICMPType x else 0;
    d_icmpCode := if carries_icmp x && negb (r_icmpCodeAggAll r) then s_ICMPCode x else 0;
    d_icmpTypeWild := if carries_icmp x then r_icmpTypeAggAll r else true;
    d_icmpCodeWild := if carries_icmp x then r_icmpCodeAggAll r else true |}.
Proof.
  unfold port_identity, descriptorFor. fold (carries_ports x) (carries_icmp x). intros -> ->. done.
Qed.

(** A family's packets have addresses of one kind. *)
Lemma same_family_kind x :
  packet_wf (packet_of x) -> s_Family x = s_Family s ->
  same_kind (s_Src s) (s_Src x) = true /\ same_kind (s_Dst s) (s_Dst x) = true.
Proof using Hs.
  intros Hx Hf. destruct Hs as [_ _ F1 _ _ _ _ _ _], Hx as [_ _ F2 _ _ _ _ _ _]. cbn in F1, F2. rewrite Hf in F2.
  destruct (s_Family s); apply andb_true_iff in F1 as [? ?], F2 as [? ?];
    by destruct (s_Src s), (s_Src x), (s_Dst s), (s_Dst x).
Qed.

Lemma maskAddr_zero a b : same_kind a b = true -> maskAddr b 0 = maskAddr a 0.
Proof. destruct a as [|v|v], b as [|w|w]; try done; intros _; unfold maskAddr; simpl; unfold mask; by rewrite !Z.land_0_r. Qed.

(** The prefix component of the emitted rule. *)
Lemma emitted_prefix a b bits :
  addr_wf a -> addr_wf b -> same_kind a b = true ->
  (if match (if bits =? 0 then None else Some (prefixOf (maskAddr a bits) bits)) with Some _ => true | None => false end
   then Contains (default zeroPrefix (if bits =? 0 then None else Some (prefixOf (maskAddr a bits) bits))) b else true) =
  bool_decide (maskAddr b bits = maskAddr a bits).
Proof.
  intros Ha Hb Hk. destruct (Z.eqb_spec bits 0) as [->|Hne]; cbn [default].
  - by rewrite bool_decide_true by (by apply maskAddr_zero).
  - by apply prefixOf_Contains.
Qed.

(** The port component of the emitted rule. *)
Lemma emitted_port x lo hi port :
  in_width 16 port -> 0 <= lo <= hi -> hi <= 65535 ->
  (has_ports (packet_of x) = true \/ lo = 0 /\ hi = 65535) ->
  (if present (port_ops lo hi) then has_ports (packet_of x) && nums_hold (port_ops lo hi) port else true) = within lo hi port.
Proof.
  unfold in_width. intros Hp Hlo Hhi Hports. unfold port_ops.
  destruct (Z.eqb_spec lo 0), (Z.eqb_spec hi 65535); cbn [andb present];
    [symmetry; apply andb_true_iff; rewrite !Z.leb_le; lia|..];
    (destruct Hports as [->|?]; [|lia]); rewrite portRangeOps_hold by lia;
    assert (present (portRangeOps lo hi) = true) as -> by (unfold portRangeOps; by case_bool); done.
Qed.

(** An in-range port has the identity's range. *)
Lemma port_identity_within x a port q lo hi :
  portAgg_wf a -> in_width 16 port -> in_width 16 q -> carries_ports x = carries_ports s ->
  port_identity s a port = Some (lo, hi) -> within lo hi q = true -> port_identity x a q = Some (lo, hi).
Proof.
  unfold port_identity. intros Ha Hp Hq -> Hid Hw. destruct (carries_ports s); [|done].
  apply (reduce_within a port); [done..|]. unfold within in Hw. lia.
Qed.

(** The sample has the rule's TCP flags. *)
Definition flags_match (x : Sample) : bool :=
  (r_tcpCare r =? 0) || ((s_Proto x =? protoTCP) && (Z.land (s_TCPFlags x) (r_tcpCare r) =? r_tcpWant r)).

Lemma emitted_flags x :
  (if present (if r_tcpCare r =? 0 then [] else tcpFlagOps (r_tcpCare r) (r_tcpWant r))
   then (s_Proto x =? protoTCP) && bits_hold (if r_tcpCare r =? 0 then [] else tcpFlagOps (r_tcpCare r) (r_tcpWant r)) (s_TCPFlags x)
   else true) = flags_match x.
Proof using Hr.
  unfold flags_match. destruct (Z.eqb_spec (r_tcpCare r) 0) as [E|E]; [done|].
  destruct (tcpFlagOps_hold _ _ (s_TCPFlags x) (em_flags r Hr) E) as [-> ->]. done.
Qed.

(** The packets a finding of identity [d] is about. *)
Definition identity_covers (d : descriptor) (x : Sample) : bool :=
  bool_decide (descriptorFor r x = Some d) && within (d_srcPortLo d) (d_srcPortHi d) (s_SrcPort x) &&
  within (d_dstPortLo d) (d_dstPortHi d) (s_DstPort x) && flags_match x.

Lemma emitted_icmp x (wild all : bool) (v w : Z) :
  wild = (if carries_icmp s then all else true) -> (carries_icmp s = true -> has_icmp (packet_of x) = true) ->
  (if present (if wild then [] else [eq_op (if carries_icmp s && negb all then v else 0)])
   then has_icmp (packet_of x) && nums_hold (if wild then [] else [eq_op (if carries_icmp s && negb all then v else 0)]) w else true) =
  bool_decide ((if carries_icmp s && negb all then w else 0) = (if carries_icmp s && negb all then v else 0)).
Proof.
  intros -> Hi. destruct (carries_icmp s), all; cbn; try done. rewrite Hi by done. cbn.
  case_bool_decide as Hv; [subst; apply Z.eqb_refl|by apply Z.eqb_neq].
Qed.

(** The emitted rule matches exactly the packets of the identity. *)
Lemma emitted_rule_matches d fr x :
  (carries_icmp s = true -> s_Proto s = icmp_of (s_Family s)) ->
  descriptorFor r s = Some d -> r_Family fr = d_family d -> r_Match fr = emitted_match r d -> packet_wf (packet_of x) ->
  rule_matches fr (packet_of x) = identity_covers d x.
Proof using Hr Hs.
  intros Hic Hd Hfam Hmatch Hx. pose proof Hs as [A1 A2 _ _ A3 A4 _ _ _]. pose proof Hx as [B1 B2 _ _ B3 B4 _ _ _].
  destruct (port_identity_range s _ _ (em_sport r Hr) A3) as (slo & shi & Esp & Hsp1 & Hsp2).
  destruct (port_identity_range s _ _ (em_dport r Hr) A4) as (dlo & dhi & Edp & Hdp1 & Hdp2).
  destruct (port_identity_range x _ _ (em_sport r Hr) B3) as (xslo & xshi & Exs & _).
  destruct (port_identity_range x _ _ (em_dport r Hr) B4) as (xdlo & xdhi & Exd & _).
  rewrite (descriptorFor_eq s slo shi dlo dhi Esp Edp) in Hd. injection Hd as <-.
  unfold rule_matches, identity_covers. rewrite Hmatch, Hfam, (descriptorFor_eq x xslo xshi xdlo xdhi Exs Exd).
  unfold emitted_match. cbn [d_family d_proto d_protoWild d_src d_dst d_srcPortLo d_srcPortHi d_dstPortLo d_dstPortHi
    d_icmpType d_icmpCode d_icmpTypeWild d_icmpCodeWild HasDst Dst HasSrc Src Proto DstPort SrcPort ICMPType ICMPCode TCPFlags
    packet_of pk_family pk_src pk_dst pk_proto pk_sport pk_dport pk_flags pk_itype pk_icode].
  destruct (decide (s_Family x = s_Family s)) as [Ef|Ef].
  2:{ rewrite (bool_decide_false _ Ef). rewrite bool_decide_false; [done|congruence]. }
  rewrite (bool_decide_true _ Ef). destruct (same_family_kind x Hx Ef) as [K1 K2]. cbn [andb].
  rewrite !emitted_prefix by done.
  assert (nums_hold (if r_protoWild r then [] else [eq_op (if r_protoWild r then 0 else s_Proto s)]) (s_Proto x) =
          (r_protoWild r || (s_Proto x =? s_Proto s))) as -> by (by destruct (r_protoWild r)).
  destruct (r_protoWild r || (s_Proto x =? s_Proto s)) eqn:Ep.
  2:{ rewrite andb_false_r. cbn [andb]. rewrite bool_decide_false; [done|]. intros [= ? Hpr _ _ _ _ _ _ _ _ _ _].
      destruct (r_protoWild r); [done|]. cbn in Ep. lia. }
  assert (carries_ports x = carries_ports s /\ carries_icmp x = carries_icmp s) as [Ecp Eci].
  { unfold carries_ports, carries_icmp. destruct (r_protoWild r); [done|]. cbn in Ep. apply Z.eqb_eq in Ep. by rewrite Ep. }
  assert (forall lo hi a port, port_identity s a port = Some (lo, hi) -> has_ports (packet_of x) = true \/ lo = 0 /\ hi = 65535) as Hhp.
  { unfold port_identity. rewrite <-Ecp. unfold carries_ports, has_ports. cbn. intros lo hi a port.
    destruct (negb (r_protoWild r)); cbn [andb]; [|intros [= <- <-]; by right].
    destruct ((s_Proto x =? protoTCP) || (s_Proto x =? protoUDP)); [by left|intros [= <- <-]; by right]. }
  assert (carries_icmp s = true -> has_icmp (packet_of x) = true) as Hhi.
  { intros Hc. specialize (Hic Hc). unfold has_icmp. cbn. rewrite Ef, <-Hic. unfold carries_icmp in Hc.
    by destruct (r_protoWild r). }
  change {| pk_family := _; pk_src := _; pk_dst := _; pk_proto := _; pk_sport := _; pk_dport := _; pk_flags := _; pk_itype := _; pk_icode := _ |}
    with (packet_of x).
  rewrite !(emitted_port x) by (done || eauto). rewrite !(emitted_icmp x) by done. rewrite emitted_flags, !andb_true_r.
  destruct (flags_match x); [rewrite !andb_true_r|by rewrite !andb_false_r].
  apply eq_bool_prop_intro. rewrite !Is_true_true, !andb_true_iff, !bool_decide_eq_true. split.
  - intros (((((E1 & E2) & E3) & E4) & E5) & E6).
    rewrite (port_identity_within x _ (s_SrcPort s) _ slo shi) in Exs by (done || apply Hr).
    rewrite (port_identity_within x _ (s_DstPort s) _ dlo dhi) in Exd by (done || apply Hr).
    injection Exs as <- <-. injection Exd as <- <-. split; [split|]; try done. f_equal. rewrite Eci, Ef, E1, E2, E5, E6. f_equal.
    destruct (r_protoWild r); [done|]. cbn in Ep. by apply Z.eqb_eq in Ep.
  - rewrite Eci. intros [[Heq ?] ?]. injection Heq as _ _ E1 E2 _ _ _ _ E5 E6. split_and!; done.
Qed.

(** ** The emitted rule is mappable *)
Lemma reduceRange_ports lo hi what : 0 <= lo <= hi -> hi <= 65535 -> is_ok (reduceRange (port_ops lo hi) portMax what) = true.
Proof.
  intros Hlo Hhi. unfold port_ops. case_bool; [done|]. unfold portRangeOps.
  assert (forall o ops, Forall NumericOp_wf (o :: ops) -> forallb (operand_ok portMax) (o :: ops) = true ->
    (forall v, nums_hold (o :: ops) v = within lo hi v) -> is_ok (reduceRange (o :: ops) portMax what) = true) as H.
  { intros o ops Hw Hok Hh. enough (reduceRange (o :: ops) portMax what = Ok (lo, hi)) as -> by done.
    apply reduceRange_iff; [unfold portMax; lia|done|]. split; [done|]. split; [done|]. split; [done|]. intros v _. apply Hh. }
  pose proof (fun v => portRangeOps_hold lo hi v (proj2 Hlo)) as Hh. unfold portRangeOps in Hh.
  destruct (lo =? hi); apply H; try done; unfold operand_ok, portMax; cbn; try (repeat apply Forall_cons_2; try apply Forall_nil_2;
    unfold NumericOp_wf, in_width; cbn; lia); lia.
Qed.

Lemma flags_loop_set v ops :
  0 < v < 256 ->
  tcpflags_loop 0 ({| b_And := false; b_Not := false; b_Match := true; b_Value := v |} :: ops) 0 0 = tcpflags_loop 1 ops v 0.
Proof.
  intros Hv. cbn [tcpflags_loop b_And b_Not b_Match b_Value]. cbn. rewrite (proj2 (Z.ltb_ge 255 v)) by lia.
  rewrite u8_small, (proj2 (Z.eqb_neq v 0)), Z.land_0_r by (unfold in_width; lia). done.
Qed.

Lemma flags_loop_clear i (b : bool) v s0 :
  0 < v < 256 -> (i = 0%nat \/ b = true) -> Z.land s0 v = 0 ->
  tcpflags_loop i [{| b_And := b; b_Not := true; b_Match := false; b_Value := v |}] s0 0 = Ok (s0, v).
Proof.
  intros Hv Hi Hd. cbn [tcpflags_loop b_And b_Not b_Match b_Value].
  assert ((0 <? i)%nat && negb b = false) as -> by (destruct Hi as [-> | ->]; [done|by rewrite andb_false_r]).
  rewrite (proj2 (Z.ltb_ge 255 v)) by lia. rewrite u8_small, (proj2 (Z.eqb_neq v 0)) by (unfold in_width; lia).
  rewrite Z.lor_0_l. cbn [mbind result_bind]. by rewrite Hd.
Qed.

Lemma reduceTCPFlags_ops care want :
  flags_wf care want -> is_ok (reduceTCPFlags (tcpFlagOps care want)) = true.
Proof.
  intros (Hc & Hw & Hsub). unfold tcpFlagOps, and_not.
  assert (in_width 8 (Z.ldiff care want)) as Hd.
  { apply testbit_in_width; [lia|apply Z.ldiff_nonneg; unfold in_width in *; lia|].
    intros i Hi. by rewrite Z.ldiff_spec, (in_width_testbit 8 care). }
  assert (Z.land want (Z.ldiff care want) = 0) as Hdis.
  { apply Z.bits_inj'. intros i Hi. rewrite Z.land_spec, Z.ldiff_spec, Z.bits_0. by destruct (Z.testbit want i), (Z.testbit care i). }
  unfold in_width in *. unfold reduceTCPFlags.
  destruct (Z.eqb_spec want 0) as [E1|E1], (Z.eqb_spec (Z.ldiff care want) 0) as [E2|E2]; cbn [negb app nonempty]; [done|..].
  - by rewrite flags_loop_clear by (lia || (by left) || apply Z.land_0_l).
  - by rewrite flags_loop_set by lia.
  - by rewrite flags_loop_set, flags_loop_clear by (lia || (by right) || done).
Qed.

Lemma contains_elem l v : contains l v = true <-> v ∈ l.
Proof.
  induction l as [|x l IH]; simpl; [split; [done|by intros ?%elem_of_nil]|].
  rewrite elem_of_cons. destruct (Z.eqb_spec x v) as [->|Hne]; [tauto|]. rewrite IH. intuition congruence.
Qed.

Lemma matches_proto x : matches r x = true -> nonempty (r_protoFilter r) = true -> s_Proto x ∈ r_protoFilter r.
Proof.
  intros Hx Hn. apply contains_elem. revert Hx. unfold matches. rewrite Hn. cbn [andb].
  destruct (r_familySet r && _); [done|]. by destruct (contains _ _).
Qed.

Lemma tcp_flags_tcp : r_tcpCare r <> 0 -> s_Proto s = protoTCP.
Proof using Hr Hm.
  intros Hc. destruct (em_tcp r Hr Hc) as [Hn Hall]. rewrite Forall_forall in Hall. symmetry. apply Hall. by apply matches_proto.
Qed.

Lemma maskAddr_kind a bits : Is4 (maskAddr a bits) = Is4 a /\ Is6 (maskAddr a bits) = Is6 a.
Proof. destruct (decide (a = AddrNone)) as [->|Hn]; [done|]. rewrite maskAddr_and by done. by destruct a. Qed.

Lemma emitted_prefixes_ok fr d :
  descriptorFor r s = Some d -> r_Family fr = d_family d -> r_Match fr = emitted_match r d ->
  is_ok (check_prefixes (r_Family fr) (r_Match fr)) = true.
Proof using Hr Hs.
  intros Hd Hf Hmm. pose proof Hs as [_ _ F _ A3 A4 _ _ _]. cbn in F.
  destruct (port_identity_range s _ _ (em_sport r Hr) A3) as (slo & shi & Esp & _).
  destruct (port_identity_range s _ _ (em_dport r Hr) A4) as (dlo & dhi & Edp & _).
  rewrite (descriptorFor_eq s slo shi dlo dhi Esp Edp) in Hd. injection Hd as <-.
  rewrite Hf, Hmm. unfold check_prefixes, emitted_match, DstOrDefault, SrcOrDefault, checkFamily.
  cbn [d_family d_src d_dst HasDst HasSrc DstOffset SrcOffset Dst Src].
  destruct (maskAddr_kind (s_Src s) (r_srcMaskBits r)) as [S4 S6], (maskAddr_kind (s_Dst s) (r_dstMaskBits r)) as [D4 D6].
  destruct (r_dstMaskBits r =? 0), (r_srcMaskBits r =? 0); cbn [andb negb default]; cbn; try done;
    destruct (s_Family s); apply andb_true_iff in F as [F1 F2]; cbn; rewrite ?D4, ?D6, ?S4, ?S6, ?F1, ?F2; cbn;
    rewrite ?D4, ?D6, ?S4, ?S6, ?F1, ?F2; done.
Qed.

Lemma is_ok_inv {E A} (x : result E A) : is_ok x = true -> exists a, x = Ok a.
Proof. destruct x; [eauto|done]. Qed.

Lemma reduceExact_op v what : 0 <= v < 256 -> reduceExact [eq_op v] what = Ok (v, true).
Proof. intros Hv. cbn. rewrite (proj2 (Z.ltb_ge 255 v)) by lia. by rewrite u8_small by (unfold in_width; lia). Qed.

Lemma reduceProto_op v : 0 <= v < 256 -> reduceProto [eq_op v] = Ok (v, true).
Proof. intros Hv. cbn. rewrite (proj2 (Z.ltb_ge 255 v)) by lia. by rewrite u8_small by (unfold in_width; lia). Qed.

(** Which protocol the upper-layer components of the emitted rule imply. *)
Lemma emitted_protocol_ok d tv tm tp :
  (carries_icmp s = true -> s_Proto s = icmp_of (s_Family s)) ->
  descriptorFor r s = Some d ->
  reduceTCPFlags (TCPFlags (emitted_match r d)) = Ok (tv, tm, tp) ->
  exists p0 pp0 p1 pp1 it itp ic icp p2 pp2,
    reduceProto (Proto (emitted_match r d)) = Ok (p0, pp0) /\ infer_tcp (p0, pp0) tp = Ok (p1, pp1) /\
    reduceExact (ICMPType (emitted_match r d)) "icmp type" = Ok (it, itp) /\
    reduceExact (ICMPCode (emitted_match r d)) "icmp code" = Ok (ic, icp) /\
    infer_icmp (d_family d) (p1, pp1) (itp || icp) = Ok (p2, pp2) /\ check_ports (emitted_match r d) (p2, pp2) = Ok tt.
Proof using Hr Hs Hm.
  intros Hic Hd Ht. pose proof Hs as [_ _ _ Hpw A3 A4 _ I1 I2]. cbn in Hpw, I1, I2. unfold in_width in Hpw, I1, I2.
  destruct (port_identity_range s _ _ (em_sport r Hr) A3) as (slo & shi & Esp & _).
  destruct (port_identity_range s _ _ (em_dport r Hr) A4) as (dlo & dhi & Edp & _).
  rewrite (descriptorFor_eq s slo shi dlo dhi Esp Edp) in Hd. injection Hd as <-.
  assert (tp = negb (r_tcpCare r =? 0)) as ->.
  { cbn in Ht. destruct (Z.eqb_spec (r_tcpCare r) 0) as [Ez|Ez]; [by injection Ht as _ _ <-|].
    destruct (tcpFlagOps_hold _ _ 0 (em_flags r Hr) Ez) as [_ Hp]. destruct (tcpFlagOps _ _); [done|].
    unfold reduceTCPFlags in Ht. inv_ok Ht. destruct a as [? ?]. by injection Ht as _ _ <-. }
  pose proof tcp_flags_tcp as Htcp.
  unfold emitted_match. cbn [d_family d_proto d_protoWild d_icmpType d_icmpCode d_icmpTypeWild d_icmpCodeWild Proto ICMPType ICMPCode].
  unfold check_ports. cbn [SrcPort DstPort d_srcPortLo d_srcPortHi d_dstPortLo d_dstPortHi].
  unfold port_identity, carries_ports, carries_icmp in *. destruct (r_protoWild r).
  - cbn in Esp, Edp |- *. injection Esp as <- <-. injection Edp as <- <-.
    destruct (r_tcpCare r =? 0); cbn; repeat eexists.
  - cbn [negb andb] in *.
    exists (s_Proto s), true, (s_Proto s), true.
    assert (infer_tcp (s_Proto s, true) (negb (r_tcpCare r =? 0)) = Ok (s_Proto s, true)) as ->.
    { cbn. destruct (Z.eqb_spec (r_tcpCare r) 0); [done|]. cbn. by rewrite Htcp. }
    rewrite reduceProto_op by done.
    destruct ((s_Proto s =? protoICMP) || (s_Proto s =? protoICMPv6)) eqn:Ei; cbn [andb].
    + specialize (Hic eq_refl). assert ((s_Proto s =? protoTCP) || (s_Proto s =? protoUDP) = false) as Ep
        by (unfold protoICMP, protoICMPv6, protoTCP, protoUDP in *; lia).
      rewrite Ep in Esp, Edp. injection Esp as <- <-. injection Edp as <- <-.
      assert (forall b : bool, infer_icmp (s_Family s) (s_Proto s, true) b = Ok (s_Proto s, true)) as Hinf.
      { intros []; cbn; [|done]. by rewrite Hic, Z.eqb_refl. }
      destruct (r_icmpTypeAggAll r), (r_icmpCodeAggAll r); cbn [negb]; rewrite ?reduceExact_op by done;
        cbn [reduceExact]; do 6 eexists; rewrite Hinf; repeat split.
    + cbn [reduceExact orb infer_icmp]. do 6 eexists. repeat split.
      destruct ((s_Proto s =? protoTCP) || (s_Proto s =? protoUDP)) eqn:Ep.
      * case_bool; [|done]. cbn [negb]. rewrite <-negb_orb, Ep. done.
      * injection Esp as <- <-. injection Edp as <- <-. done.
Qed.

Lemma emitted_translates fr d :
  (carries_icmp s = true -> s_Proto s = icmp_of (s_Family s)) ->
  descriptorFor r s = Some d -> r_Family fr = d_family d -> r_Match fr = emitted_match r d ->
  Kind (r_Action fr) = ActionDrop -> exists a, Translate fr = Ok a.
Proof using Hr Hs Hm.
  intros Hic Hd Hf Hmm Hk. unfold Translate. rewrite Hk. cbn [bool_decide negb].
  rewrite bool_decide_true by done. cbn [negb].
  assert (check_components (r_Match fr) = Ok tt) as -> by (by rewrite Hmm). cbn [mbind result_bind].
  destruct (is_ok_inv _ (emitted_prefixes_ok fr d Hd Hf Hmm)) as [[src dst] ->]. cbn [mbind result_bind].
  assert (is_ok (reduceTCPFlags (TCPFlags (r_Match fr))) = true) as [[[tv tm] tp] Ht]%is_ok_inv.
  { rewrite Hmm. cbn. destruct (r_tcpCare r =? 0); [done|]. apply reduceTCPFlags_ops, Hr. }
  rewrite Ht. rewrite Hmm in Ht |- *. rewrite Hf.
  destruct (emitted_protocol_ok d tv tm tp Hic Hd Ht)
    as (p0 & pp0 & p1 & pp1 & it & itp & ic & icp & p2 & pp2 & -> & E1 & -> & -> & E2 & E3).
  cbn [mbind result_bind]. rewrite E1. cbn [mbind result_bind]. rewrite E2. cbn [mbind result_bind]. rewrite E3. cbn [mbind result_bind].
  pose proof Hs as [_ _ _ _ A3 A4 _ _ _].
  destruct (port_identity_range s _ _ (em_sport r Hr) A3) as (slo & shi & Esp & Hs1 & Hs2).
  destruct (port_identity_range s _ _ (em_dport r Hr) A4) as (dlo & dhi & Edp & Hd1 & Hd2).
  rewrite (descriptorFor_eq s slo shi dlo dhi Esp Edp) in Hd. injection Hd as <-.
  unfold emitted_match. cbn [SrcPort DstPort d_srcPortLo d_srcPortHi d_dstPortLo d_dstPortHi].
  destruct (itp || icp); cbn [mbind result_bind].
  - destruct (icmpRange it itp), (icmpRange ic icp). eauto.
  - destruct (is_ok_inv _ (reduceRange_ports slo shi "source port" Hs1 Hs2)) as [[? ?] ->]. cbn [mbind result_bind].
    destruct (is_ok_inv _ (reduceRange_ports dlo dhi "destination port" Hd1 Hd2)) as [[? ?] ->]. cbn [mbind result_bind].
    eauto.
Qed.

Lemma eq_op_wf v : 0 <= v < 2 ^ 64 -> NumericOp_wf (eq_op v).
Proof. done. Qed.

Lemma tcpFlagOps_wf care want : flags_wf care want -> Forall BitmaskOp_wf (tcpFlagOps care want).
Proof.
  intros (Hc & Hw & _). assert (in_width 8 (Z.ldiff care want)) as Hd.
  { apply testbit_in_width; [lia|apply Z.ldiff_nonneg; unfold in_width in *; lia|].
    intros i Hi. by rewrite Z.ldiff_spec, (in_width_testbit 8 care). }
  unfold tcpFlagOps, and_not, in_width in *.
  destruct (want =? 0), (Z.ldiff care want =? 0); cbn [negb app]; repeat (apply Forall_cons_2 || apply Forall_nil_2);
    unfold BitmaskOp_wf, in_width; cbn [b_Value]; lia.
Qed.

Lemma port_ops_wf lo hi : 0 <= lo <= hi -> hi <= 65535 -> Forall NumericOp_wf (port_ops lo hi).
Proof.
  intros ? ?. unfold port_ops, portRangeOps. repeat case_bool; repeat (apply Forall_cons_2 || apply Forall_nil_2);
    unfold NumericOp_wf, in_width; cbn [eq_op n_Value]; lia.
Qed.

Lemma zeroPrefix_wf : prefix_wf zeroPrefix.
Proof. repeat split; cbn; lia. Qed.

Lemma emitted_match_wf d : descriptorFor r s = Some d -> Match_wf (emitted_match r d).
Proof using Hr Hs.
  intros Hd. pose proof Hs as [W1 W2 F Hpw A3 A4 _ I1 I2]. cbn in W1, W2, F, Hpw, I1, I2. unfold in_width in Hpw, I1, I2.
  destruct (port_identity_range s _ _ (em_sport r Hr) A3) as (slo & shi & Esp & ? & ?).
  destruct (port_identity_range s _ _ (em_dport r Hr) A4) as (dlo & dhi & Edp & ? & ?).
  rewrite (descriptorFor_eq s slo shi dlo dhi Esp Edp) in Hd. injection Hd as <-.
  assert (s_Src s <> AddrNone /\ s_Dst s <> AddrNone) as [N1 N2].
  { destruct (s_Family s); apply andb_true_iff in F as [? ?]; by destruct (s_Src s), (s_Dst s). }
  unfold emitted_match. split; cbn [Dst Src Proto DstPort SrcPort ICMPType ICMPCode TCPFlags d_src d_dst d_proto d_protoWild
    d_srcPortLo d_srcPortHi d_dstPortLo d_dstPortHi d_icmpType d_icmpCode d_icmpTypeWild d_icmpCodeWild].
  - case_bool; [apply zeroPrefix_wf|]. by apply prefixOf_maskAddr_wf.
  - case_bool; [apply zeroPrefix_wf|]. by apply prefixOf_maskAddr_wf.
  - destruct (r_protoWild r); [apply Forall_nil_2|]. apply Forall_singleton, eq_op_wf. lia.
  - by apply port_ops_wf.
  - by apply port_ops_wf.
  - repeat case_bool; try apply Forall_nil_2; apply Forall_singleton, eq_op_wf; lia.
  - repeat case_bool; try apply Forall_nil_2; apply Forall_singleton, eq_op_wf; lia.
  - destruct (r_tcpCare r =? 0); [apply Forall_nil_2|]. apply tcpFlagOps_wf, Hr.
Qed.

Lemma emitted_no_proto0 fr d :
  s_Proto s <> 0 -> descriptorFor r s = Some d -> r_Match fr = emitted_match r d -> no_proto0 fr.
Proof using Hr Hs.
  intros Hp Hd Hmm. pose proof Hs as [_ _ _ _ A3 A4 _ _ _].
  destruct (port_identity_range s _ _ (em_sport r Hr) A3) as (slo & shi & Esp & ? & ?).
  destruct (port_identity_range s _ _ (em_dport r Hr) A4) as (dlo & dhi & Edp & ? & ?).
  rewrite (descriptorFor_eq s slo shi dlo dhi Esp Edp) in Hd. injection Hd as <-.
  unfold no_proto0. rewrite Hmm. cbn. destruct (r_protoWild r); [apply Forall_nil_2|]. by apply Forall_singleton.
Qed.

(** Except for a fixed range, which is copied verbatim, a port is in its own range. *)
Lemma port_identity_self a port lo hi :
  portAgg_wf a -> pa_mode a <> portRange -> in_width 16 port -> port_identity s a port = Some (lo, hi) -> within lo hi port = true.
Proof.
  intros Ha Hm' Hp. unfold port_identity, within. destruct (carries_ports s).
  - destruct (pa_mode a) eqn:Em; [| |done|].
    + unfold reduce. rewrite Em. intros [= <- <-]. lia.
    + unfold reduce, in_width in *. rewrite Em. intros [= <- <-]. lia.
    + rewrite reduce_bucket by done. intros [= <- <-]. unfold portAgg_wf, in_width in *. rewrite Em in Ha.
      pose proof (Z.div_mod port (pa_step a) ltac:(lia)). pose proof (Z.mod_pos_bound port (pa_step a) ltac:(lia)). nia.
  - intros [= <- <-]. unfold in_width in Hp. lia.
Qed.

Lemma matches_flags : flags_match s = true.
Proof using Hr Hm.
  unfold flags_match. destruct (Z.eqb_spec (r_tcpCare r) 0) as [E|E]; [done|]. rewrite tcp_flags_tcp by done. cbn [orb].
  rewrite Z.eqb_refl. cbn [andb]. revert Hm. unfold matches. rewrite (proj2 (Z.eqb_neq _ _) E). cbn [negb andb].
  repeat (match goal with |- (if ?b then false else _) = true -> _ => destruct b eqn:?; [done|] end).
  intros _. by apply negb_false_iff.
Qed.

Lemma identity_covers_self d :
  pa_mode (r_srcPortAgg r) <> portRange -> pa_mode (r_dstPortAgg r) <> portRange ->
  descriptorFor r s = Some d -> identity_covers d s = true.
Proof using Hr Hs Hm.
  intros H1 H2 Hd. pose proof Hs as [_ _ _ _ A3 A4 _ _ _]. cbn [packet_of pk_sport pk_dport] in A3, A4.
  unfold identity_covers. rewrite Hd.
  destruct (port_identity_range s _ _ (em_sport r Hr) A3) as (slo & shi & Esp & ? & ?).
  destruct (port_identity_range s _ _ (em_dport r Hr) A4) as (dlo & dhi & Edp & ? & ?).
  rewrite (descriptorFor_eq s slo shi dlo dhi Esp Edp) in Hd. injection Hd as <-.
  rewrite bool_decide_true, matches_flags by done. cbn.
  by rewrite (port_identity_self _ _ _ _ (em_sport r Hr) H1 A3 Esp), (port_identity_self _ _ _ _ (em_dport r Hr) H2 A4 Edp).
Qed.
End Identity.


(** ** A SYN-flood rule: TCP, SYN without ACK, per destination host and port *)
Definition no_template : template := {| tm_raw := ""; tm_segs := [] |}.
Definition default_field : emitField := {| ef_mode := emitDefault; ef_tmpl := no_template |}.

Definition history_example : historySpec :=
  {| maxInstances := 4; fineResolution := Second; fineSlots := 60; mediumResolution := 10 * Second; mediumSlots := 60;
     coarseResolution := 0; coarseSlots := 0 |}.

Definition rule_example : Rule unit :=
  {| r_name := "syn-flood"; r_fingerprint := ""; r_description := None; r_family := FamilyIPv4; r_familySet := true;
     r_protoFilter := [protoTCP]; r_srcFilter := zeroPrefix; r_dstFilter := zeroPrefix;
     r_srcPortFilter := []; r_dstPortFilter := []; r_packetLen := {| cu_LT := 0; cu_LTE := 0; cu_GT := 0; cu_GTE := 0 |};
     r_tcpCare := 18; r_tcpWant := 2; r_icmpTypeFilter := []; r_icmpCodeFilter := [];
     r_protoWild := false; r_srcMaskBits := 0; r_dstMaskBits := -1;
     r_srcPortAgg := {| pa_mode := portAll; pa_lo := 0; pa_hi := 0; pa_step := 0 |};
     r_dstPortAgg := {| pa_mode := portExact; pa_lo := 0; pa_hi := 0; pa_step := 0 |};
     r_icmpTypeAggAll := false; r_icmpCodeAggAll := false; r_spreadFields := [];
     r_terms := [{| t_name := "pps"; t_metric := metricPPS; t_agg := aggSum; t_window := 10 * Second; t_offset := 0;
                    t_ring := ringFine; t_ringRes := Second; t_slots := 10 |}];
     r_expr := tt; r_sustained := 0;
     r_action := {| fa_ttl := 60 * Second; fa_refresh := true; fa_family := default_field; fa_proto := default_field;
                    fa_src := default_field; fa_dst := default_field; fa_srcPort := default_field; fa_dstPort := default_field;
                    fa_icmpType := default_field; fa_icmpCode := default_field |};
     r_tcpEmit := {| te_mode := emitDefault; te_care := 0; te_want := 0 |};
     r_emitInterval := 30 * Second; r_history := history_example; r_store := newInstanceStore history_example;
     r_evalEnv := ∅; r_sketch := newHeavyKeeper 1024 4 heavyKeeperDecay; r_rankBytes := false;
     r_halfLife := 30 * Second; r_lastDecay := None |}.

Definition syn_example : Sample :=
  {| s_At := 1000 * Second; s_Family := FamilyIPv4; s_Src := Addr4 167772161; s_Dst := Addr4 3232235777; s_Proto := protoTCP;
     s_SrcPort := 40000; s_DstPort := 443; s_PacketLen := 60; s_TCPFlags := 2; s_ICMPType := 0; s_ICMPCode := 0;
     s_IngressIf := "eth0"; s_SampleRate := 100 |}.

Lemma rule_example_emits : emits_identity rule_example.
Proof.
  split; try done.
  - repeat (apply Forall_cons_2; [done|]). apply Forall_nil_2.
  - intros _. split; [done|]. by apply Forall_singleton.
Qed.

