(* ===== verification/SampleFacts.v ===== *)
(** * What the decoders hand to the detector

    Whatever bytes arrive, a sample that is decoded from them is a well-formed
    packet: its fields have their widths and its addresses are of its family.
    This is what the detector's theorems ask of their samples. *)
From S2P Require Import Prelude GoText Netip Flowspec Packet PacketFacts Sflow SflowFacts DetTypes DetEmitFacts.
#[local] Open Scope Z_scope.

(** ** Bytes *)
Definition bytes_wf (b : list Z) : Prop := Forall byte_wf b.

Lemma slice_wf b lo hi l : bytes_wf b -> slice b lo hi = Some l -> bytes_wf l /\ len l = hi - lo.
Proof.
  unfold slice. intros Hb. destruct ((0 <=? lo) && (lo <=? hi) && (hi <=? len b)) eqn:E; [|done]. intros [= <-].
  rewrite !andb_true_iff, !Z.leb_le in E. split; [by apply Forall_take, Forall_drop|].
  unfold len in *. rewrite length_take, length_drop. lia.
Qed.

Lemma slice_from_wf b lo l : bytes_wf b -> slice_from b lo = Some l -> bytes_wf l.
Proof. intros Hb Hl. by apply (slice_wf b lo (len b)). Qed.

Lemma index_wf b i x : bytes_wf b -> index b i = Some x -> in_width 8 x.
Proof. unfold index. intros Hb. case_bool; [|done]. intros Hx. exact (proj1 (Forall_lookup _ _) Hb _ _ Hx). Qed.

Lemma be_bound l : bytes_wf l -> 0 <= be l < 256 ^ len l.
Proof.
  induction 1 as [|x l Hx _ IH]; [done|]. rewrite be_cons, len_cons, Z.pow_add_r by (unfold len; lia).
  unfold byte_wf, in_width in Hx. nia.
Qed.

Lemma be_width l n : bytes_wf l -> len l = n -> in_width (8 * n) (be l).
Proof.
  intros Hl <-. pose proof (be_bound l Hl) as H. unfold in_width.
  by rewrite Z.pow_mul_r by (unfold len; lia).
Qed.

Lemma u16_at_wf b i v : bytes_wf b -> u16_at b i = Some v -> in_width 16 v.
Proof.
  unfold u16_at. intros Hb. destruct (slice b i (i + 2)) as [l|] eqn:E; [|done]. intros [= <-].
  destruct (slice_wf _ _ _ _ Hb E) as [Hl Hn]. apply (be_width l 2 Hl). lia.
Qed.

(** ** Packets *)
Definition sample_ok (s : Sample) : Prop := packet_wf (packet_of s).

#[local] Ltac next H := let E := fresh "E" in
  match type of H with
  | mbind _ ?x = Some _ => destruct x as [?|] eqn:E; cbn [mbind option_bind] in H; [|discriminate H]
  | (if ?b then _ else _) = Some _ => destruct b; try discriminate H
  end.

Lemma l3_sample_ok f src dst proto plen :
  addr_wf src -> addr_wf dst -> match f with FamilyIPv4 => Is4 src && Is4 dst | FamilyIPv6 => Is6 src && Is6 dst end = true ->
  in_width 8 proto -> sample_ok (l3_sample f src dst proto plen).
Proof. intros. split; cbn; try done; by unfold in_width. Qed.

Lemma set_ports_ok sp dp fl s : in_width 16 sp -> in_width 16 dp -> in_width 8 fl -> sample_ok s -> sample_ok (set_ports sp dp fl s).
Proof. intros ? ? ? [? ? ? ? ? ? ? ? ?]. by split. Qed.

Lemma set_icmp_ok ty code s : in_width 8 ty -> in_width 8 code -> sample_ok s -> sample_ok (set_icmp ty code s).
Proof. intros ? ? [? ? ? ? ? ? ? ? ?]. by split. Qed.

Lemma set_meta_ok at_ l rate ifn s : sample_ok s -> sample_ok (set_meta at_ l rate ifn s).
Proof. intros [? ? ? ? ? ? ? ? ?]. by split. Qed.

Lemma fillPorts_ok s payload s' : bytes_wf payload -> sample_ok s -> fillPorts s payload = Some s' -> sample_ok s'.
Proof.
  intros Hb Hs H. unfold fillPorts in H. repeat next H; injection H as <-; try done;
    (apply set_ports_ok || apply set_icmp_ok); eauto using u16_at_wf, index_wf. by apply (pwf_flags _ Hs).
Qed.

Lemma ext_header_ok next rest st :
  in_width 8 next -> bytes_wf rest -> ext_header next rest = Some st ->
  match st with ExtStop p l4 => in_width 8 p /\ bytes_wf l4 | ExtLen _ => True end.
Proof.
  intros Hn Hb H. unfold ext_header in H. repeat next H; injection H as <-; try done; (split; [|by try constructor]); try done.
  by eapply index_wf.
Qed.

Lemma skip_loop_ok n next rest p l4 :
  in_width 8 next -> bytes_wf rest -> skip_loop n next rest = Some (p, l4) -> in_width 8 p /\ bytes_wf l4.
Proof.
  revert next rest. induction n as [|n IH]; intros next rest Hn Hb H; cbn [skip_loop] in H; [by injection H as <- <-|].
  destruct (ext_header next rest) as [st|] eqn:E; cbn [mbind option_bind] in H; [|done].
  apply ext_header_ok in E; [|done..]. destruct st as [q l|hl]; [by injection H as <- <-|].
  next H; [injection H as <- <-; split; [done|constructor]|]. do 2 next H.
  eapply IH; [| |exact H]; eauto using index_wf, slice_from_wf.
Qed.

Lemma DecodeIPv4_ok b s : bytes_wf b -> DecodeIPv4 b = Some (Some s) -> sample_ok s.
Proof.
  intros Hb H. unfold DecodeIPv4 in H. do 8 next H.
  assert (forall lo hi x, hi - lo = 4 -> slice b lo hi = Some x -> addr_wf (Addr4 (be x))) as Haddr.
  { intros lo hi x Hd Ex. destruct (slice_wf _ _ _ _ Hb Ex) as [Hx Hn]. apply (be_width x 4 Hx). lia. }
  assert (forall plen, sample_ok (l3_sample FamilyIPv4 (Addr4 (be l)) (Addr4 (be l0)) z1 plen)) as Hl3.
  { intros plen. apply l3_sample_ok; [by eapply Haddr; [|eassumption]|by eapply Haddr; [|eassumption]|done|by eapply index_wf]. }
  next H. next H; [|by injection H as <-]. do 2 next H. injection H as <-.
  eapply fillPorts_ok; [| |eassumption]; [by eapply slice_from_wf|apply Hl3].
Qed.

Lemma DecodeIPv6_ok b s : bytes_wf b -> DecodeIPv6 b = Some (Some s) -> sample_ok s.
Proof.
  intros Hb H. unfold DecodeIPv6 in H. do 8 next H.
  assert (forall lo hi x, hi - lo = 16 -> slice b lo hi = Some x -> addr_wf (Addr6 (be x))) as Haddr.
  { intros lo hi x Hd Ex. destruct (slice_wf _ _ _ _ Hb Ex) as [Hx Hn]. apply (be_width x 16 Hx). lia. }
  next H. next H. injection H as <-.
  match goal with E : skipIPv6ExtHeaders _ _ = Some ?p |- _ => destruct p as [proto l4] end.
  match goal with E : skipIPv6ExtHeaders _ _ = Some _ |- _ =>
    apply skip_loop_ok in E as [Hp Hl4]; [|by eapply index_wf|by eapply slice_from_wf] end.
  eapply fillPorts_ok; [exact Hl4| |eassumption].
  apply l3_sample_ok; [by eapply Haddr; [|eassumption]|by eapply Haddr; [|eassumption]|done|done].
Qed.

Lemma DecodeEthernet_ok b s : bytes_wf b -> DecodeEthernet b = Some (Some s) -> sample_ok s.
Proof.
  intros Hb H. unfold DecodeEthernet in H. do 3 next H.
  match goal with E : vlan_loop _ _ _ _ = Some ?r |- _ => destruct r as [[typ off]|]; [|done] end.
  repeat next H; eauto using DecodeIPv4_ok, DecodeIPv6_ok, slice_from_wf.
Qed.

Lemma FromEthernet_ok b at_ rate ifn s : bytes_wf b -> FromEthernet b at_ rate ifn = Some (Some s) -> sample_ok s.
Proof.
  intros Hb H. unfold FromEthernet in H. next H. destruct o as [s0|]; [|done]. injection H as <-.
  apply set_meta_ok. by eapply DecodeEthernet_ok.
Qed.

(** ** sFlow *)
Lemma decodeRawHeader_ok data now rate ifn s :
  bytes_wf data -> decodeRawHeader data now rate ifn = Some (Some s) -> sample_ok s.
Proof.
  intros Hd (proto & fl & header & s0 & Hh & -> & Es)%decodeRawHeader_inv. apply set_meta_ok.
  assert (bytes_wf header) by (unfold bytes_wf in *; rewrite Forall_forall in Hd |- *; eauto).
  repeat next Es; eauto using DecodeEthernet_ok, DecodeIPv4_ok, DecodeIPv6_ok.
Qed.

Lemma Decode_ok data now : bytes_wf data -> Forall sample_ok (sflow_samples (data, now)).
Proof.
  intros Hd. unfold sflow_samples. cbn [fst snd]. destruct (Decode data now) as [[l|]|] eqn:E; [|constructor..].
  eapply (Decode_all byte_wf); [|exact Hd|exact E]. exact decodeRawHeader_ok.
Qed.

(** ** PSAMPLE *)
Definition attr_wf (a : attr) : Prop := match a with attrData b => bytes_wf b | _ => True end.
Definition message_wf (m : option (list attr) * Z) : Prop := match m.1 with Some l => Forall attr_wf l | None => True end.

Lemma ps_steps_wf l st : Forall attr_wf l -> bytes_wf (ps_data st) -> bytes_wf (ps_data (foldl ps_step st l)).
Proof. intros Hl. revert st. induction Hl as [|a l Ha _ IH]; intros st Hs; cbn [foldl]; [done|]. apply IH. by destruct a. Qed.

Lemma psample_decode_ok group m now s : message_wf m -> psample_decode group m.1 now = Some (Some s) -> sample_ok s.
Proof.
  destruct m as [[l|] t]; [|done]. unfold message_wf, psample_decode. cbn [fst]. intros Hl. cbv zeta. repeat (case_bool; [done|]).
  apply FromEthernet_ok. apply ps_steps_wf; [done|constructor].
Qed.

Lemma psample_samples_ok group msgs : Forall message_wf msgs -> Forall sample_ok (psample_samples group msgs).
Proof.
  induction 1 as [|m msgs Hm _ IH]; [constructor|]. unfold psample_samples in *. cbn [omap list_omap].
  destruct (psample_decode group m.1 m.2) as [[s|]|] eqn:E; [|done..]. constructor; [by eapply psample_decode_ok|done].
Qed.
