(* ===== verification/DetRuleFacts.v ===== *)
(** * A rule's run-time invariant

    Accounting a sample and evaluating the triggers never panic and keep the
    bounded state well-formed. *)
From S2P Require Import Prelude GoText Netip Flowspec Packet PacketFacts Spread SpreadFacts Float64 DetTypes HeavyKeeper HeavyKeeperFacts Store StoreFacts GoParse Template DetRule DetEmit DetEmitFacts.
#[local] Open Scope Z_scope.

(** ** Rings *)
Definition ring_wf (r : sampleRing) : Prop := 0 < len (r_slots r) /\ 0 < r_resolution r.

Lemma newSampleRing_wf n res : 0 < n -> 0 < res -> ring_wf (newSampleRing n res).
Proof. intros. unfold ring_wf, newSampleRing, len. cbn. rewrite length_replicate. lia. Qed.

Lemma ring_add_wf r at_ l w : ring_wf r -> exists r', ring_add r at_ l w = Some r' /\ ring_wf r'.
Proof.
  intros [Hl Hres]. unfold ring_add, epoch. rewrite (proj2 (Z.eqb_neq _ _)) by lia. cbn [mbind option_bind].
  destruct (slot_at_mod r (Z.quot (i64 at_) (r_resolution r)) Hl) as (s & -> & _). cbn [mbind option_bind].
  eexists. split; [reflexivity|]. unfold ring_wf, len in *. cbn. by rewrite length_insert.
Qed.

Lemma window_loop_total' r e n a : ring_wf r -> is_Some (window_loop r e n a).
Proof.
  intros [Hl _]. revert e a. induction n as [|n IH]; intros e a; cbn [window_loop]; [eauto|].
  destruct (slot_at_mod r e Hl) as (s & -> & _). cbn [mbind option_bind]. apply IH.
Qed.

Lemma aggregate_total' r now t : ring_wf r -> is_Some (aggregate r now t).
Proof.
  intros Hr. pose proof Hr as [_ Hres]. unfold aggregate. case_bool; [eauto|]. unfold epoch.
  rewrite (proj2 (Z.eqb_neq _ _)) by lia. cbn [mbind option_bind].
  match goal with |- context [window_loop ?r ?e ?n ?a] => destruct (window_loop_total' r e n a Hr) as [x ->] end.
  cbn. eauto.
Qed.

Definition opt_ring_wf (r : option sampleRing) : Prop := match r with Some r => ring_wf r | None => True end.

Lemma add_optional_wf r at_ l w : opt_ring_wf r -> exists r', add_optional r at_ l w = Some r' /\ opt_ring_wf r'.
Proof.
  destruct r as [r|]; cbn; [|by eauto]. intros Hr. destruct (ring_add_wf r at_ l w Hr) as (r' & -> & Hr'). cbn. by eauto.
Qed.

Section Rule.
Context {Program : Type}.
Implicit Types r : Rule Program.

(** ** Diversity gates *)

(** A gate the compiler produced: an address gate is of the rule's family. *)
Definition gate_ok r (f : spreadField) : Prop :=
  field_ok f = true /\
  match sf_kind f with
  | spreadSrc | spreadDst => r_familySet r = true /\ sf_ipv6 f = bool_decide (r_family r = FamilyIPv6)
  | _ => True
  end.

Definition estimators_ok (fs : list spreadField) (es : list spreadEstimator) : Prop :=
  Forall2 (fun f e => est_inv e /\ e_buckets e = sf_buckets f) fs es.

(** A matched sample falls in a region of every gate. *)
Lemma gate_bucket r f s :
  gate_ok r f -> matches r s = true -> packet_wf (packet_of s) -> exists x, bucket f s = Some x /\ 0 <= x < sf_buckets f.
Proof.
  intros [Hf Hk] Hm Hs. pose proof Hs as [W1 W2 F _ W3 W4 _ _ _]. cbn in W1, W2, F, W3, W4.
  assert (r_familySet r = true -> s_Family s = r_family r) as Hfam.
  { intros Hset. unfold matches in Hm. rewrite Hset in Hm. cbn [andb] in Hm. by case_bool_decide. }
  apply bucket_region; try done. intros H6.
  assert (s_Family s = FamilyIPv4) as Hf4.
  { destruct (sf_kind f); try done; destruct Hk as [Hset Hv]; rewrite (Hfam Hset); rewrite H6 in Hv;
      symmetry in Hv; apply bool_decide_eq_false in Hv; by destruct (r_family r). }
  rewrite Hf4 in F. apply andb_true_iff in F as [? ?]. split; by left.
Qed.

Lemma spread_loop_ok r fs es s ok :
  Forall (gate_ok r) fs -> matches r s = true -> packet_wf (packet_of s) -> estimators_ok fs es ->
  exists es' ok', spread_loop fs es s ok = Some (es', ok') /\ estimators_ok fs es'.
Proof.
  intros Hg Hm Hs He. revert ok. induction He as [|f e fs es [Hi Hb] He IH]; intros ok; cbn [spread_loop].
  { eexists _, _. split; [reflexivity|]. constructor. }
  apply Forall_cons in Hg as [Hg1 Hg2]. destruct (gate_bucket r f s Hg1 Hm Hs) as (x & -> & Hx). cbn [mbind option_bind].
  destruct (observe_spec e x Hi) as (e' & -> & Hi' & _ & Hb' & _); [by rewrite Hb|]. cbn [mbind option_bind].
  match goal with |- context [spread_loop fs es s ?b] => destruct (IH Hg2 b) as (es' & ok' & -> & He') end.
  cbn [mbind option_bind]. eexists _, _. split; [reflexivity|]. constructor; [split; congruence|done].
Qed.

Lemma new_estimators_ok r fs :
  Forall (gate_ok r) fs -> estimators_ok fs (map (fun f => newSpreadEstimator (sf_buckets f)) fs).
Proof.
  induction 1 as [|f fs [Hf _] _ IH]; [constructor|]. constructor; [|exact IH]. split; [|done].
  unfold field_ok, spreadMaxBuckets in Hf. bool_hyps. apply newSpreadEstimator_inv. lia.
Qed.

(** ** Instances *)
Record inst_ok (fs : list spreadField) (i : instance) : Prop := {
  io_fine : ring_wf (i_fine i);
  io_medium : opt_ring_wf (i_medium i);
  io_coarse : opt_ring_wf (i_coarse i);
  io_spread : forall es, i_spread i = Some es -> estimators_ok fs es
}.

Definition history_ok (h : historySpec) : Prop := 0 < maxInstances h /\ 0 < fineSlots h /\ 0 < fineResolution h.

Lemma newOptionalSampleRing_wf n res : opt_ring_wf (newOptionalSampleRing n res).
Proof. unfold newOptionalSampleRing. case_bool; [done|]. apply newSampleRing_wf; lia. Qed.

Lemma newInstance_ok fs d h now : history_ok h -> inst_ok fs (newInstance d h now).
Proof.
  intros (_ & ? & ?). split; cbn; [by apply newSampleRing_wf|apply newOptionalSampleRing_wf..|done].
Qed.

Lemma instance_add_ok fs i at_ l w :
  inst_ok fs i -> exists i', instance_add i at_ l w = Some i' /\ inst_ok fs i' /\ i_key i' = i_key i /\ i_keyHash i' = i_keyHash i.
Proof.
  intros [H1 H2 H3 H4]. unfold instance_add.
  destruct (ring_add_wf _ at_ l w H1) as (f' & -> & ?). cbn [mbind option_bind].
  destruct (add_optional_wf _ at_ l w H2) as (m' & -> & ?). cbn [mbind option_bind].
  destruct (add_optional_wf _ at_ l w H3) as (c' & -> & ?). cbn [mbind option_bind].
  eexists. split; [reflexivity|]. split; [by split|done].
Qed.

(** The run-time invariant of a rule. *)
Record rule_ok r : Prop := {
  ro_sketch : hk_ok (r_sketch r);
  ro_store : store_ok (r_store r);
  ro_history : history_ok (st_history (r_store r));
  ro_insts : map_Forall (fun _ i => inst_ok (r_spreadFields r) i) (st_items (r_store r));
  ro_gates : Forall (gate_ok r) (r_spreadFields r);
  ro_sport : portAgg_wf (r_srcPortAgg r);
  ro_dport : portAgg_wf (r_dstPortAgg r)
}.

Lemma account_ok r i s w :
  rule_ok r -> inst_ok (r_spreadFields r) i -> matches r s = true -> packet_wf (packet_of s) ->
  exists i', account r i s w = Some i' /\ inst_ok (r_spreadFields r) i' /\ i_key i' = i_key i /\ i_keyHash i' = i_keyHash i.
Proof.
  intros Hr Hi Hm Hs. unfold account.
  assert (exists i1 ok, (if nonempty (r_spreadFields r) then spreadOK r i s else Some (i, true)) = Some (i1, ok) /\
            inst_ok (r_spreadFields r) i1 /\ i_key i1 = i_key i /\ i_keyHash i1 = i_keyHash i) as (i1 & ok & -> & Hi1 & Hk1 & Hh1).
  { destruct (nonempty _); [|by eauto 10]. unfold spreadOK.
    match goal with |- context [spread_loop ?fs ?es s true] =>
      destruct (spread_loop_ok r fs es s true (ro_gates r Hr) Hm Hs) as (es' & ok & -> & He) end.
    { destruct (i_spread i) as [es|] eqn:E; [by apply (io_spread _ _ Hi)|]. eapply new_estimators_ok, Hr. }
    cbn [mbind option_bind]. eexists _, _. split; [reflexivity|]. split; [|done].
    destruct Hi as [? ? ? ?]. split; try done. cbn. by intros ? [= <-]. }
  cbn [mbind option_bind]. destruct ok; cbn [negb].
  - destruct (instance_add_ok _ i1 (s_At s) (s_PacketLen s) w Hi1) as (i2 & -> & [? ? ? ?] & ? & ?). cbn [mbind option_bind].
    eexists. split; [reflexivity|]. split; [by split|]. cbn. split; congruence.
  - eexists. split; [reflexivity|]. destruct Hi1. split; [by split|done].
Qed.

Lemma descriptorFor_returns r s :
  portAgg_wf (r_srcPortAgg r) -> portAgg_wf (r_dstPortAgg r) -> packet_wf (packet_of s) -> is_Some (descriptorFor r s).
Proof.
  intros H1 H2 [_ _ _ _ A3 A4 _ _ _]. cbn in A3, A4.
  destruct (port_identity_range r s _ _ H1 A3) as (slo & shi & Esp & _).
  destruct (port_identity_range r s _ _ H2 A4) as (dlo & dhi & Edp & _).
  rewrite (descriptorFor_eq r s slo shi dlo dhi Esp Edp). eauto.
Qed.

(** Everything but the mutable state is the same rule. *)
Definition same_config r r' : Prop :=
  exists store env sketch last, r' = set_state r store env sketch last.

Lemma same_config_refl r : same_config r r.
Proof. exists (r_store r), (r_evalEnv r), (r_sketch r), (r_lastDecay r). by destruct r. Qed.

Lemma set_state_ok r store env sketch last :
  rule_ok r -> hk_ok sketch -> store_ok store -> history_ok (st_history store) ->
  map_Forall (fun _ i => inst_ok (r_spreadFields r) i) (st_items store) -> rule_ok (set_state r store env sketch last).
Proof. by intros [? ? ? ? ? ? ?] ? ? ? ?; split. Qed.

Lemma put_instance_ok s d i :
  store_ok s -> is_Some (st_items s !! d) -> i_key i = d -> i_keyHash i = hash d -> store_ok (put_instance s d i).
Proof.
  intros [Hb Hm Hk] Hd Hi1 Hi2. split; unfold store_len, put_instance in *; cbn.
  - by rewrite map_size_insert_Some.
  - done.
  - apply map_Forall_insert_2; [split; [exact Hi1|exact Hi2]|exact Hk].
Qed.

Lemma admitted_insts fs s key sketch now s' res :
  history_ok (st_history s) -> map_Forall (fun _ i => inst_ok fs i) (st_items s) -> admitted s key sketch now s' res ->
  map_Forall (fun _ i => inst_ok fs i) (st_items s') /\ st_history s' = st_history s /\ st_max s' = st_max s /\
  (forall i, res = Some i -> st_items s' !! key = Some i).
Proof.
  intros Hh Hall Ha. destruct Ha; cbn; split_and!; try done; try congruence.
  - apply map_Forall_insert_2; [by apply newInstance_ok|done].
  - intros i [= <-]. apply lookup_insert_eq.
  - apply map_Forall_insert_2; [by apply newInstance_ok|]. by apply map_Forall_delete.
  - intros i [= <-]. apply lookup_insert_eq.
Qed.

Lemma Observe_ok Pow o r s :
  rule_ok r -> packet_wf (packet_of s) ->
  exists r', Observe Pow o r s = Some r' /\ rule_ok r' /\ same_config r r' /\ MaxInstances r' = MaxInstances r.
Proof.
  intros Hr Hs. unfold Observe. destruct (matches r s) eqn:Hm; cbn [negb].
  2:{ exists r. split_and!; try done. apply same_config_refl. }
  pose proof Hr as [Hsk Hst Hh Hin _ Hp1 Hp2].
  destruct (descriptorFor_returns r s Hp1 Hp2 Hs) as [d ->]. cbn [mbind option_bind].
  destruct (hk_add_ok Pow (r_sketch r) (hash d) (sketch_weight r s) Hsk) as (sk & -> & Hsk' & _). cbn [mbind option_bind].
  destruct (admit_spec o (r_store r) d sk (s_At s) Hsk' Hst) as (st' & res & -> & Ha). cbn [mbind option_bind].
  destruct (admitted_insts _ _ _ _ _ _ _ Hh Hin Ha) as (Hin' & Hh' & Hmax & Hlk).
  pose proof (admitted_ok _ _ _ _ _ _ Hst Ha) as Hst'. destruct res as [i|].
  - specialize (Hlk i eq_refl). destruct (account_ok r i s (sample_weight s) Hr) as (i' & -> & Hi' & Hk' & Hkh'); [|done|done|].
    { exact (Hin' _ _ Hlk). }
    cbn [mbind option_bind]. eexists. split; [reflexivity|]. destruct (so_keys _ Hst' _ _ Hlk) as [Hk1 Hk2].
    split; [|split; [by repeat eexists|done]].
    apply set_state_ok; cbn; [done|done|apply put_instance_ok; [done|by eauto|congruence|congruence]|by rewrite Hh'|].
    by apply map_Forall_insert_2.
  - eexists. split; [reflexivity|]. split; [|split; [by repeat eexists|done]]. apply set_state_ok; try done. by rewrite Hh'.
Qed.

(** ** Evaluation *)
Lemma termValue_returns fs t i now stats : inst_ok fs i -> is_Some (termValue t i now stats).
Proof.
  intros [H1 H2 H3 _]. unfold termValue. case_bool; [eauto|].
  assert (opt_ring_wf (ringFor i (t_ring t))) as Hr by (by destruct (t_ring t)).
  destruct (ringFor i (t_ring t)) as [rg|]; [|eauto]. by apply aggregate_total'.
Qed.

(** After the refill, every term has a value. *)
Lemma fill_env_ok fs ts i now stats env :
  inst_ok fs i -> exists env', fill_env ts i now stats env = Some env' /\
    (forall k, is_Some (env !! k) -> is_Some (env' !! k)) /\ Forall (fun t => is_Some (env' !! t_name t)) ts.
Proof.
  intros Hi. revert env. induction ts as [|t ts IH]; intros env; cbn [fill_env].
  { exists env. split_and!; [done|done|apply Forall_nil_2]. }
  destruct (termValue_returns fs t i now stats Hi) as [v ->]. cbn [mbind option_bind].
  destruct (IH (<[t_name t := v]> env)) as (env' & -> & Hmono & Hall). exists env'. split; [done|].
  assert (is_Some (env' !! t_name t)) by (apply Hmono; rewrite lookup_insert_eq; eauto).
  split; [|by apply Forall_cons_2]. intros k Hk. apply Hmono. rewrite lookup_insert_is_Some'. by right.
Qed.

Lemma read_values_returns ts env vals :
  Forall (fun t => is_Some (env !! t_name t)) ts -> is_Some (read_values ts env vals).
Proof.
  intros H. revert vals. induction H as [|t ts [v Hv] _ IH]; intros vals; cbn [read_values]; [eauto|].
  rewrite Hv. apply IH.
Qed.

Lemma set_trigger_ok fs i a b : inst_ok fs i -> inst_ok fs (set_trigger i a b).
Proof. by intros [? ? ? ?]; split. Qed.

Lemma shouldEmit_ok fs i now iv :
  inst_ok fs i -> inst_ok fs (shouldEmit i now iv).1 /\ i_key (shouldEmit i now iv).1 = i_key i /\
    i_keyHash (shouldEmit i now iv).1 = i_keyHash i.
Proof. intros Hi. unfold shouldEmit. destruct (i_lastEvent i); [case_bool|]; (split; [|done]); by try apply set_trigger_ok. Qed.

Lemma evalInstance_ok run o r fs i now stats :
  inst_ok fs i -> exists env i' ev, evalInstance run o r i now stats = Some (env, i', ev) /\ inst_ok fs i' /\
    i_key i' = i_key i /\ i_keyHash i' = i_keyHash i.
Proof.
  intros Hi. unfold evalInstance. destruct (fill_env_ok fs (r_terms r) i now stats (r_evalEnv r) Hi) as (env & -> & _ & Hall).
  cbn [mbind option_bind]. destruct (run (r_expr r) env) as [|[]|]; try (by eexists _, _, _; split; [reflexivity|]; split; [by try apply set_trigger_ok|]).
  cbn zeta. set (i1 := set_trigger i _ _). assert (inst_ok fs i1) as Hi1 by (by apply set_trigger_ok).
  case_bool; [by eexists _, _, _; split; [reflexivity|]; split|].
  destruct (shouldEmit_ok fs i1 now (r_emitInterval r) Hi1) as (Hi2 & Hk2 & Hh2).
  destruct (shouldEmit i1 now (r_emitInterval r)) as [i2 em]. cbn [fst] in Hi2, Hk2, Hh2.
  destruct em; cbn [negb]; [|by eexists _, _, _; split; [reflexivity|]; split].
  destruct (buildFlowSpec r (i_key i2)) as [rule|]; [|by eexists _, _, _; split; [reflexivity|]; split].
  destruct (read_values_returns (r_terms r) env ∅ Hall) as [vals ->]. cbn [mbind option_bind].
  by eexists _, _, _; split; [reflexivity|]; split.
Qed.

Lemma same_config_trans r r1 r2 : same_config r r1 -> same_config r1 r2 -> same_config r r2.
Proof. intros (? & ? & ? & ? & ->) (a & b & c & d & ->). by exists a, b, c, d. Qed.

Lemma tick_loop_ok run o keys r now stats out :
  rule_ok r -> Forall (fun k => is_Some (st_items (r_store r) !! k)) keys ->
  exists r' evs, tick_loop run o keys r now stats out = Some (r', evs) /\ rule_ok r' /\ same_config r r' /\
    MaxInstances r' = MaxInstances r.
Proof.
  revert r out. induction keys as [|k keys IH]; intros r out Hr Hk; cbn [tick_loop].
  { eexists _, _. split; [reflexivity|]. split_and!; try done. apply same_config_refl. }
  apply Forall_cons in Hk as [[i Hi] Hk]. rewrite Hi. cbn [mbind option_bind].
  pose proof Hr as [Hsk Hst Hh Hin _ _ _]. destruct (so_keys _ Hst _ _ Hi) as [Hk1 Hk2].
  destruct (evalInstance_ok run o r _ i now stats (Hin _ _ Hi)) as (env & i' & ev & -> & Hi' & Hk' & Hh'). cbn [mbind option_bind].
  set (r1 := set_state r _ _ _ _).
  assert (rule_ok r1) as Hr1.
  { apply set_state_ok; [done|done| |done|].
    - apply put_instance_ok; [done|by eauto|congruence|congruence].
    - by apply map_Forall_insert_2. }
  destruct (IH r1 (out ++ option_list ev) Hr1) as (r2 & evs & -> & Hr2 & Hc2 & Hm2).
  { eapply Forall_impl; [exact Hk|]. intros k' Hk''. subst r1. cbn. rewrite lookup_insert_is_Some'. by right. }
  eexists _, _. split; [reflexivity|]. split; [done|]. split; [|done].
  eapply same_config_trans; [|exact Hc2]. by repeat eexists.
Qed.

Lemma ageSketch_ok Pow r now : rule_ok r -> rule_ok (ageSketch Pow r now).
Proof.
  intros Hr. pose proof Hr as [? ? ? ? _ _ _]. apply set_state_ok; try done.
  destruct (r_lastDecay r); [|done]. cbn zeta. destruct (_ && _); [|done]. by apply decayAll_ok.
Qed.

Lemma Tick_ok run Pow o r now stats :
  rule_ok r -> exists r' evs, Tick run Pow o r now stats = Some (r', evs) /\ rule_ok r' /\ same_config r r' /\
    MaxInstances r' = MaxInstances r.
Proof.
  intros Hr%(ageSketch_ok Pow r now). unfold Tick.
  destruct (tick_loop_ok run o (map fst (range_list o (map_to_list (st_items (r_store (ageSketch Pow r now))))))
    (ageSketch Pow r now) now stats [] Hr) as (r' & evs & -> & Hr' & Hc & Hm).
  { apply Forall_map, Forall_forall. intros [k i] Hin%range_elem%elem_of_map_to_list. cbn. eauto. }
  eexists _, _. split; [reflexivity|]. split; [done|]. split; [|done].
  eapply same_config_trans; [|exact Hc]. by repeat eexists.
Qed.
End Rule.
