(* ===== verification/DetTriggerFacts.v ===== *)
(** * The trigger of an instance over time

    An instance is accounted samples and evaluated on ticks.  Its trigger state
    refines a small machine over the verdicts of the expression; from the
    machine follow debouncing, throttling and the steady refresh of a lasting
    finding. *)
From S2P Require Import Prelude GoText Netip Flowspec Packet Spread Float64 DetTypes HeavyKeeper Store GoParse Template DetRule DetEmit DetEmitFacts DetRuleFacts.
#[local] Open Scope Z_scope.

Inductive verdict := Fired | Quiet | Failed.

#[global] Instance verdict_eq_dec : EqDecision verdict.
Proof. solve_decision. Defined.

Definition verdict_of (x : exprResult) : verdict :=
  match x with
  | ExprBool true => Fired
  | ExprError => Failed
  | ExprBool false | ExprOther => Quiet
  end.

(** A tick: its time, the verdict and whether an event was emitted. *)
Record tick := { tk_time : Z; tk_verdict : verdict; tk_emitted : bool }.

(** ** The abstract machine: (true since, last event) *)
Definition trig_step (sustained interval : Z) (st : option Z * option Z) (now : Z) (v : verdict)
  : (option Z * option Z) * bool :=
  let '(since, last) := st in
  match v with
  | Failed => ((since, last), false)
  | Quiet => ((None, last), false)
  | Fired =>
      let s := default now since in
      if now - s <? sustained then ((Some s, last), false)
      else match last with
           | Some l => if interval <=? now - l then ((Some s, Some now), true) else ((Some s, last), false)
           | None => ((Some s, Some now), true)
           end
  end.

Section Machine.
Context (sustained interval : Z).

Inductive trig_trace : list tick -> option Z * option Z -> Prop :=
  | trig_start : trig_trace [] (None, None)
  | trig_tick tr st now v st' b :
      trig_trace tr st -> Forall (fun x => tk_time x < now) tr -> trig_step sustained interval st now v = (st', b) ->
      trig_trace (tr ++ [{| tk_time := now; tk_verdict := v; tk_emitted := b |}]) st'.

(** Since the trigger became true, no tick found it false. *)
Lemma trace_since tr st s :
  trig_trace tr st -> st.1 = Some s -> Forall (fun x => s <= tk_time x -> tk_verdict x <> Quiet) tr.
Proof.
  intros Ht. revert s. induction Ht as [|tr [ts le] now v st' b Ht IH Hlt Hst]; intros s Hs; [done|]. cbn [fst] in IH.
  apply Forall_app_2.
  - destruct v; cbn in Hst.
    + assert (s = default now ts) as ->.
      { destruct (now - default now ts <? sustained); [injection Hst as <- <-; by injection Hs|].
        destruct le as [l|]; [destruct (interval <=? now - l)|]; injection Hst as <- <-; by injection Hs. }
      destruct ts as [s0|]; cbn [default]; [by apply IH|]. eapply Forall_impl; [exact Hlt|]. cbn. lia.
    + injection Hst as <- <-. discriminate Hs.
    + injection Hst as <- <-. by apply IH.
  - apply Forall_singleton. cbn. intros _ ->. cbn in Hst. injection Hst as <- <-. discriminate Hs.
Qed.

(** The trigger became true at a tick. *)
Lemma trace_since_tick tr st s : trig_trace tr st -> st.1 = Some s -> exists x, x ∈ tr /\ tk_time x = s.
Proof.
  intros Ht. revert s. induction Ht as [|tr [ts le] now v st' b Ht IH Hlt Hst]; intros s Hs; [discriminate Hs|]. cbn [fst] in IH.
  assert (ts = Some s \/ s = now) as [->| ->].
  { destruct v; cbn in Hst; [|injection Hst as <- <-; discriminate Hs|injection Hst as <- <-; by left].
    assert (st'.1 = Some (default now ts)) as Hd.
    { destruct (now - default now ts <? sustained); [by injection Hst as <- <-|].
      destruct le as [l|]; [destruct (interval <=? now - l)|]; by injection Hst as <- <-. }
    rewrite Hd in Hs. injection Hs as <-. destruct ts; [by left|by right]. }
  - destruct (IH s eq_refl) as (x & Hx & Hs'). exists x. split; [apply elem_of_app; by left|done].
  - eexists. split; [apply elem_of_app; right; by left|done].
Qed.

(** The recorded last event is the last emission. *)
Lemma trace_last tr st :
  trig_trace tr st ->
  match st.2 with
  | None => Forall (fun x => tk_emitted x = false) tr
  | Some l => Forall (fun x => tk_emitted x = true -> tk_time x <= l) tr /\ exists x, x ∈ tr /\ tk_emitted x = true /\ tk_time x = l
  end.
Proof.
  induction 1 as [|tr [ts le] now v st' b Ht IH Hlt Hst]; [apply Forall_nil_2|]. cbn [snd] in IH.
  assert ((st'.2 = Some now /\ b = true) \/ (st'.2 = le /\ b = false)) as [[-> ->]|[-> ->]].
  { destruct v; cbn in Hst; try (injection Hst as <- <-; by right).
    destruct (now - default now ts <? sustained); [injection Hst as <- <-; by right|].
    destruct le as [l|]; [destruct (interval <=? now - l)|]; injection Hst as <- <-; auto. }
  - split.
    + apply Forall_app_2; [|by apply Forall_singleton]. eapply Forall_impl; [exact Hlt|]. cbn. lia.
    + eexists. split; [apply elem_of_app; right; by left|]. done.
  - destruct le as [l|].
    + destruct IH as (IH & x & Hx & He & Hl). split; [apply Forall_app_2; [done|by apply Forall_singleton]|].
      exists x. split; [apply elem_of_app; by left|done].
    + apply Forall_app_2; [done|]. by apply Forall_singleton.
Qed.

(** The tick that emits. *)
Lemma emission_tick tr ts le now v st' :
  trig_trace tr (ts, le) -> Forall (fun x => tk_time x < now) tr -> trig_step sustained interval (ts, le) now v = (st', true) ->
  v = Fired /\ Forall (fun x => now - sustained <= tk_time x -> tk_verdict x <> Quiet) tr /\
  Forall (fun x => tk_emitted x = true -> interval <= now - tk_time x) tr.
Proof.
  intros Ht Hlt Hst. destruct v; cbn in Hst; [|done..]. split; [done|].
  destruct (Z.ltb_spec (now - default now ts) sustained); [done|]. split.
  - destruct ts as [s|]; simpl in *.
    + eapply Forall_impl; [exact (trace_since tr _ s Ht eq_refl)|]. cbn. intros x Hx ?. apply Hx. lia.
    + eapply Forall_impl; [exact Hlt|]. cbn. lia.
  - pose proof (trace_last tr _ Ht) as Hl. cbn [snd] in Hl. destruct le as [l|].
    + destruct (Z.leb_spec interval (now - l)); [|done]. destruct Hl as [Hl _]. eapply Forall_impl; [exact Hl|]. cbn.
      intros x Hx He. specialize (Hx He). lia.
    + eapply Forall_impl; [exact Hl|]. cbn. congruence.
Qed.

Lemma trace_app_inv tr1 x tr2 st :
  trig_trace (tr1 ++ x :: tr2) st -> exists st1 st2,
    trig_trace tr1 st1 /\ Forall (fun y => tk_time y < tk_time x) tr1 /\
    trig_step sustained interval st1 (tk_time x) (tk_verdict x) = (st2, tk_emitted x).
Proof.
  remember (tr1 ++ x :: tr2) as tr eqn:E. intros Ht. revert tr2 E.
  induction Ht as [|tr st now v st' b Ht IH Hlt Hst]; intros tr2 E.
  - by destruct tr1.
  - destruct tr2 as [|y tr2 _] using rev_ind.
    + apply app_inj_tail in E as [-> <-]. cbn. eauto.
    + rewrite app_comm_cons, app_assoc in E. apply app_inj_tail in E as [-> _]. by eapply IH.
Qed.

(** While every verdict is positive, the trigger has been true since the first
    of them at the latest. *)
Lemma fired_since tr1 x tr2 st :
  trig_trace (tr1 ++ x :: tr2) st -> Forall (fun y => tk_verdict y = Fired) (x :: tr2) ->
  exists s, st.1 = Some s /\ s <= tk_time x.
Proof.
  remember (tr1 ++ x :: tr2) as tr eqn:E. intros Ht. revert tr2 E.
  induction Ht as [|tr [ts le] now v st' b Ht IH Hlt Hst]; intros tr2 E Hf.
  - by destruct tr1.
  - assert (v = Fired -> st'.1 = Some (default now ts)) as Hs.
    { intros ->. cbn in Hst. destruct (now - default now ts <? sustained); [by injection Hst as <- <-|].
      destruct le as [l|]; [destruct (interval <=? now - l)|]; by injection Hst as <- <-. }
    destruct tr2 as [|y tr2 _] using rev_ind.
    + apply app_inj_tail in E as [-> <-]. apply Forall_inv in Hf. cbn in Hf. rewrite (Hs Hf). eexists. split; [done|]. cbn.
      destruct ts as [s|]; simpl; [|lia].
      destruct (trace_since_tick _ _ s Ht eq_refl) as (y & Hy & <-). rewrite Forall_forall in Hlt. specialize (Hlt y Hy). lia.
    + rewrite app_comm_cons, app_assoc in E. apply app_inj_tail in E as [-> <-]. rewrite app_comm_cons in Hf.
      apply Forall_app in Hf as [Hf1 Hf2%Forall_inv]. cbn in Hf2. rewrite (Hs Hf2). destruct (IH tr2 eq_refl Hf1) as (s & Hts & Hle).
      cbn in Hts. subst ts. cbn [default]. by exists s.
Qed.

(** At a tick where the trigger has held long enough, the newest event is
    recent: it is of this tick or less than an interval old. *)
Lemma recent_emission tr0 x mid y st :
  trig_trace (tr0 ++ x :: mid ++ [y]) st -> Forall (fun z => tk_verdict z = Fired) (x :: mid ++ [y]) ->
  sustained <= tk_time y - tk_time x ->
  exists z, z ∈ tr0 ++ x :: mid ++ [y] /\ tk_emitted z = true /\ (tk_time z = tk_time y \/ tk_time y - tk_time z < interval).
Proof.
  intros Ht Hf Hs. rewrite app_comm_cons, app_assoc in Ht |- *. rewrite app_comm_cons in Hf.
  apply Forall_app in Hf as [Hf1 Hf2%Forall_inv].
  destruct (trace_app_inv (tr0 ++ x :: mid) y [] st Ht) as ([ts le] & st2 & Ht1 & _ & Hst).
  destruct (fired_since tr0 x mid _ Ht1 Hf1) as (s & Hts & Hle). cbn in Hts. subst ts. rewrite Hf2 in Hst. cbn in Hst.
  destruct (Z.ltb_spec (tk_time y - s) sustained); [lia|].
  pose proof (trace_last _ _ Ht1) as Hl. cbn [snd] in Hl. destruct le as [l|].
  - destruct (Z.leb_spec interval (tk_time y - l)) as [Hle'|Hgt].
    + injection Hst as _ He. exists y. split; [apply elem_of_app; right; by left|]. auto.
    + destruct Hl as (_ & z & Hz & He & <-). exists z. split; [apply elem_of_app; by left|]. auto.
  - injection Hst as _ He. exists y. split; [apply elem_of_app; right; by left|]. auto.
Qed.
End Machine.

(** ** The instance refines the machine *)
Definition duration_ok (d : Z) : Prop := - 2 ^ 63 < d < 2 ^ 63.

Lemma Sub_lt a b d : duration_ok d -> (Sub a b <? d) = (a - b <? d).
Proof. unfold duration_ok, Sub. intros Hd. destruct (Z.ltb_spec (a - b) d); lia. Qed.

Lemma Sub_ge a b d : duration_ok d -> (d <=? Sub a b) = (d <=? a - b).
Proof. unfold duration_ok, Sub. intros Hd. destruct (Z.leb_spec d (a - b)); lia. Qed.

Section Life.
Context {Program : Type} (run : Program -> gmap string float64 -> exprResult).
Implicit Types r : Rule Program.

(** The life of a tracked instance of a rule: created, accounted samples, and
    evaluated on ticks at increasing times, while the rule's other state moves. *)
Inductive inst_trace r (d : descriptor) : list tick -> instance -> Prop :=
  | life_new h now : inst_trace r d [] (newInstance d h now)
  | life_account tr i r' s w i' :
      inst_trace r d tr i -> same_config r r' -> account r' i s w = Some i' -> inst_trace r d tr i'
  | life_eval tr i r' o now stats env i' ev :
      inst_trace r d tr i -> same_config r r' -> Forall (fun x => tk_time x < now) tr ->
      evalInstance run o r' i now stats = Some (env, i', ev) ->
      inst_trace r d (tr ++ [{| tk_time := now; tk_verdict := verdict_of (run (r_expr r') env);
                                tk_emitted := match ev with Some _ => true | None => false end |}]) i'.

(** Accounting leaves the trigger state alone. *)
Lemma account_trigger r i s w i' :
  account r i s w = Some i' -> i_trueSince i' = i_trueSince i /\ i_lastEvent i' = i_lastEvent i /\ i_key i' = i_key i.
Proof.
  unfold account. intros H.
  destruct (if nonempty (r_spreadFields r) then spreadOK r i s else Some (i, true)) as [[i1 ok]|] eqn:E1; [|done].
  assert (i_trueSince i1 = i_trueSince i /\ i_lastEvent i1 = i_lastEvent i /\ i_key i1 = i_key i) as (H1 & H2 & H3).
  { destruct (nonempty _); [|by injection E1 as <- _]. unfold spreadOK in E1.
    destruct (spread_loop _ _ _ _) as [[es b]|]; [|done]. by injection E1 as <- _. }
  cbn [mbind option_bind] in H. destruct ok; cbn [negb] in H.
  - unfold instance_add in H. destruct (ring_add _ _ _ _); [|done]. cbn [mbind option_bind] in H.
    destruct (add_optional (i_medium i1) _ _ _); [|done]. cbn [mbind option_bind] in H.
    destruct (add_optional (i_coarse i1) _ _ _); [|done]. cbn [mbind option_bind] in H. by injection H as <-.
  - by injection H as <-.
Qed.

Lemma same_config_build r r' d : same_config r r' -> buildFlowSpec r' d = buildFlowSpec r d.
Proof. by intros (? & ? & ? & ? & ->). Qed.

(** One evaluation is one step of the machine. *)
Lemma evalInstance_step r o i now stats env i' ev :
  duration_ok (r_sustained r) -> duration_ok (r_emitInterval r) -> is_ok (buildFlowSpec r (i_key i)) = true ->
  evalInstance run o r i now stats = Some (env, i', ev) ->
  trig_step (r_sustained r) (r_emitInterval r) (i_trueSince i, i_lastEvent i) now (verdict_of (run (r_expr r) env)) =
    ((i_trueSince i', i_lastEvent i'), match ev with Some _ => true | None => false end) /\ i_key i' = i_key i.
Proof.
  intros Hs Hi Hb H. unfold evalInstance in H. destruct (fill_env _ _ _ _ _) as [env0|]; [|done]. cbn [mbind option_bind] in H.
  destruct (run (r_expr r) env0) as [|[]|] eqn:Erun; try (injection H as <- <- <-; rewrite Erun; done).
  unfold shouldEmit in H. cbn [set_trigger i_lastEvent i_trueSince i_key] in H. rewrite Sub_lt in H by done.
  assert (trig_step (r_sustained r) (r_emitInterval r) (i_trueSince i, i_lastEvent i) now Fired =
    (let s := default now (i_trueSince i) in
     if now - s <? r_sustained r then ((Some s, i_lastEvent i), false)
     else match i_lastEvent i with
          | Some l => if r_emitInterval r <=? now - l then ((Some s, Some now), true) else ((Some s, i_lastEvent i), false)
          | None => ((Some s, Some now), true) end)) as Hstep by done.
  cbn zeta in Hstep. destruct (now - default now (i_trueSince i) <? r_sustained r).
  { injection H as <- <- <-. rewrite Erun. cbn [verdict_of]. by rewrite Hstep. }
  destruct (i_lastEvent i) as [l|] eqn:El.
  - rewrite Sub_ge in H by done. destruct (r_emitInterval r <=? now - l); cbn [negb] in H.
    + cbn [set_trigger i_key] in H. destruct (buildFlowSpec r (i_key i)) as [rule|]; [|done].
      destruct (read_values _ _ _); [|done]. cbn [mbind option_bind] in H. injection H as <- <- <-.
      rewrite Erun. cbn [verdict_of]. by rewrite Hstep.
    + injection H as <- <- <-. rewrite Erun. cbn [verdict_of]. rewrite Hstep. by rewrite <-El.
  - cbn [negb set_trigger i_key] in H. destruct (buildFlowSpec r (i_key i)) as [rule|]; [|done].
    destruct (read_values _ _ _); [|done]. cbn [mbind option_bind] in H. injection H as <- <- <-.
    rewrite Erun. cbn [verdict_of]. by rewrite Hstep.
Qed.

Lemma inst_trace_refines r d tr i :
  duration_ok (r_sustained r) -> duration_ok (r_emitInterval r) -> is_ok (buildFlowSpec r d) = true ->
  inst_trace r d tr i -> trig_trace (r_sustained r) (r_emitInterval r) tr (i_trueSince i, i_lastEvent i) /\ i_key i = d.
Proof.
  intros Hs Hi Hb. induction 1 as [h now|tr i r' s w i' Ht [IH Hk] Hc Ha|tr i r' o now stats env i' ev Ht [IH Hk] Hc Hlt He].
  - split; [constructor|done].
  - destruct (account_trigger _ _ _ _ _ Ha) as (-> & -> & ->). done.
  - pose proof Hc as (? & ? & ? & ? & Hr'). apply (evalInstance_step r') in He as [He Hk'].
    + rewrite Hk', Hk. split; [|done]. eapply trig_tick; [exact IH|done|]. rewrite Hr' in He |- *. exact He.
    + by rewrite Hr'.
    + by rewrite Hr'.
    + by rewrite (same_config_build r r'), Hk.
Qed.
End Life.

(** C36: events are debounced and throttled, for an instance whose rule can be built.  When an instance emits at some
    tick, the expression held at that tick, no tick of the last [sustained] found
    it false, and every earlier event of the instance is at least the emission
    interval old. *)
Theorem emissions_debounced {Program} (run : Program -> gmap string float64 -> exprResult) (r : Rule Program) d tr1 x tr2 i :
  duration_ok (r_sustained r) -> duration_ok (r_emitInterval r) -> is_ok (buildFlowSpec r d) = true ->
  inst_trace run r d (tr1 ++ x :: tr2) i -> tk_emitted x = true ->
  tk_verdict x = Fired /\
  Forall (fun y => tk_time x - r_sustained r <= tk_time y -> tk_verdict y <> Quiet) tr1 /\
  Forall (fun y => tk_emitted y = true -> r_emitInterval r <= tk_time x - tk_time y) tr1.
Proof.
  intros Hs Hi Hb Ht Hx. destruct (inst_trace_refines run r d _ i Hs Hi Hb Ht) as [Htr _].
  destruct (trace_app_inv _ _ _ _ _ _ Htr) as ([ts le] & st2 & Ht1 & Hlt & Hst). rewrite Hx in Hst. by eapply emission_tick.
Qed.

(** C37: a lasting finding whose rule can be built is refreshed.  Once the expression has held at every
    tick for [sustained], every further tick finds an event of the instance that
    is of this tick or less than the emission interval old; with an interval of
    half the TTL, a lease therefore never runs out while its cause lasts. *)
Theorem lasting_finding_refreshed {Program} (run : Program -> gmap string float64 -> exprResult) (r : Rule Program) d tr0 x mid y i :
  duration_ok (r_sustained r) -> duration_ok (r_emitInterval r) -> is_ok (buildFlowSpec r d) = true ->
  inst_trace run r d (tr0 ++ x :: mid ++ [y]) i -> Forall (fun z => tk_verdict z = Fired) (x :: mid ++ [y]) ->
  r_sustained r <= tk_time y - tk_time x ->
  exists z, z ∈ tr0 ++ x :: mid ++ [y] /\ tk_emitted z = true /\
    (tk_time z = tk_time y \/ tk_time y - tk_time z < r_emitInterval r).
Proof.
  intros Hs Hi Hb Ht Hf Hsus. destruct (inst_trace_refines run r d _ i Hs Hi Hb Ht) as [Htr _].
  by eapply recent_emission.
Qed.

(** ** A life of the SYN-flood rule whose expression always holds *)
Definition always_fires (_ : unit) (_ : gmap string float64) : exprResult := ExprBool true.

Definition syn_descriptor : descriptor :=
  default (Build_descriptor FamilyIPv4 0 false AddrNone AddrNone 0 0 0 0 0 0 false false) (descriptorFor rule_example syn_example).

Definition fired_at (t : Z) (b : bool) : tick := {| tk_time := t * Second; tk_verdict := Fired; tk_emitted := b |}.

Definition trace_example : list tick := [fired_at 1000 true; fired_at 1010 false; fired_at 1040 true].

Lemma trace_example_life : exists i, inst_trace always_fires rule_example syn_descriptor trace_example i.
Proof.
  assert (forall tr i now i' ev, inst_trace always_fires rule_example syn_descriptor tr i ->
    Forall (fun x => tk_time x < now) tr ->
    (exists env, evalInstance always_fires range_id rule_example i now None = Some (env, i', ev)) ->
    inst_trace always_fires rule_example syn_descriptor
      (tr ++ [{| tk_time := now; tk_verdict := Fired; tk_emitted := match ev with Some _ => true | None => false end |}]) i') as Hstep.
  { intros tr i now i' ev Ht Hlt [env He]. exact (life_eval _ _ _ _ _ _ _ _ _ _ _ _ Ht (same_config_refl _) Hlt He). }
  eexists. unfold trace_example, fired_at.
  change [?a; ?b; ?c] with (([] ++ [a]) ++ [b] ++ [c]). rewrite app_assoc.
  eapply (Hstep _ _ (1040 * Second) _ (Some _)).
  - eapply (Hstep _ _ (1010 * Second) _ None).
    + eapply (Hstep [] _ (1000 * Second) _ (Some _)).
      * apply (life_new _ _ _ history_example 0).
      * apply Forall_nil_2.
      * eexists. vm_compute. reflexivity.
    + repeat (apply Forall_cons_2; [cbn; unfold Second; lia|]). apply Forall_nil_2.
    + eexists. vm_compute. reflexivity.
  - repeat (apply Forall_cons_2; [cbn; unfold Second; lia|]). apply Forall_nil_2.
  - eexists. vm_compute. reflexivity.
Qed.

Lemma emissions_debounced_witness :
  exists i, inst_trace always_fires rule_example syn_descriptor trace_example i /\ Fired = Fired /\
    Forall (fun y => 1040 * Second - 0 <= tk_time y -> tk_verdict y <> Quiet) [fired_at 1000 true; fired_at 1010 false] /\
    Forall (fun y => tk_emitted y = true -> 30 * Second <= 1040 * Second - tk_time y) [fired_at 1000 true; fired_at 1010 false].
Proof.
  destruct trace_example_life as [i Hi]. exists i. split; [exact Hi|].
  apply (emissions_debounced always_fires rule_example syn_descriptor [fired_at 1000 true; fired_at 1010 false] (fired_at 1040 true) [] i);
    [split; reflexivity|split; reflexivity|vm_compute; reflexivity|exact Hi|reflexivity].
Defined.

Lemma lasting_finding_refreshed_witness :
  exists i, inst_trace always_fires rule_example syn_descriptor trace_example i /\
    exists z, z ∈ trace_example /\ tk_emitted z = true /\
      (tk_time z = 1040 * Second \/ 1040 * Second - tk_time z < 30 * Second).
Proof.
  destruct trace_example_life as [i Hi]. exists i. split; [exact Hi|].
  apply (lasting_finding_refreshed always_fires rule_example syn_descriptor [] (fired_at 1000 true) [fired_at 1010 false] (fired_at 1040 true) i);
    [split; reflexivity|split; reflexivity|vm_compute; reflexivity|exact Hi| |unfold fired_at, Second; cbn; lia].
  repeat (apply Forall_cons_2; [reflexivity|]). apply Forall_nil_2.
Defined.
