(* ===== verification/DetEngineFacts.v ===== *)
(** * Correctness of the engine and its run loop

    The protocol index is an optimisation: it selects for every sample exactly
    the rules that can match it.  The run loop never panics, keeps every pool
    within its capacity and accounts for every event. *)
From S2P Require Import Prelude GoText Netip Flowspec Packet PacketFacts Spread SpreadFacts Float64 DetTypes HeavyKeeper HeavyKeeperFacts Store StoreFacts GoParse Template DetRule DetEmit DetEmitFacts DetRuleFacts DetEngine.
#[local] Open Scope Z_scope.

Section Engine.
Context {Program : Type} (Pow : float64 -> float64 -> float64) (run : Program -> gmap string float64 -> exprResult).
Implicit Types rs : list (Rule Program).

(** ** The index *)
Definition bucket_of (m : gmap Z (list nat)) (p : Z) : list nat := default [] (m !! p).

Lemma bucket_push i m p q : bucket_of (push_proto i m p) q = bucket_of m q ++ (if decide (p = q) then [i] else []).
Proof.
  unfold bucket_of, push_proto. destruct (decide (p = q)) as [->|Hne].
  - by rewrite lookup_insert_eq.
  - by rewrite lookup_insert_ne, app_nil_r by done.
Qed.

(** A rule is pushed once per occurrence of the protocol in its filter. *)
Lemma bucket_push_all i ps m q :
  bucket_of (foldl (push_proto i) m ps) q = bucket_of m q ++ replicate (length (filter (fun p => p = q) ps)) i.
Proof.
  revert m. induction ps as [|p ps IH]; intros m; cbn [foldl]; [by rewrite app_nil_r|].
  rewrite IH, bucket_push, filter_cons, <-app_assoc. by case_decide.
Qed.

Record index_ok (rs : list (Rule Program)) (e : @Engine Program) : Prop := {
  ix_all : en_all e = seq 0 (length rs);
  ix_any : forall i, i ∈ en_anyProto e <-> exists r, rs !! i = Some r /\ nonempty (r_protoFilter r) = false;
  ix_any_nodup : NoDup (en_anyProto e);
  ix_proto : forall p i, i ∈ bucket_of (en_byProto e) p <-> exists r, rs !! i = Some r /\ p ∈ r_protoFilter r;
  ix_proto_nodup : Forall (fun r => NoDup (r_protoFilter r)) rs -> forall p, NoDup (bucket_of (en_byProto e) p)
}.

Lemma lookup_snoc_exists rs r i (P : Rule Program -> Prop) :
  (exists x, (rs ++ [r]) !! i = Some x /\ P x) <-> (exists x, rs !! i = Some x /\ P x) \/ (i = length rs /\ P r).
Proof.
  split.
  - intros (x & Hx & HP). apply lookup_app_Some in Hx as [Hx|[Hl Hx]]; [left; eauto|].
    apply list_lookup_singleton_Some in Hx as [Hi ->]. right. split; [lia|done].
  - intros [(x & Hx & HP)|[-> HP]].
    + exists x. split; [by apply lookup_app_l_Some|done].
    + exists r. by rewrite lookup_app_r, Nat.sub_diag by lia.
Qed.

Lemma filter_count_elem (p : Z) ps : (0 < length (filter (fun x => x = p) ps))%nat <-> p ∈ ps.
Proof.
  induction ps as [|x ps IH]; [cbn; split; [lia|by intros ?%elem_of_nil]|].
  rewrite filter_cons, elem_of_cons. case_decide; cbn [length]; split; intros; [left; congruence|lia|right; tauto|].
  apply IH. intuition congruence.
Qed.

Lemma filter_count_nodup (p : Z) ps : NoDup ps -> (length (filter (fun x => x = p) ps) <= 1)%nat.
Proof.
  induction 1 as [|x ps Hx _ IH]; [cbn; lia|]. rewrite filter_cons. case_decide as Hp; [|done]. subst.
  cbn [length]. destruct (length (filter _ ps)) as [|n] eqn:E; [lia|]. exfalso. apply Hx, filter_count_elem. lia.
Qed.

Lemma add_rule_index rs e r :
  en_rules e = rs -> index_ok rs e -> en_rules (add_rule e r) = rs ++ [r] /\ index_ok (rs ++ [r]) (add_rule e r).
Proof.
  intros He [H1 H2 H3 H4 H5]. split; [unfold add_rule; rewrite He; by case_bool|].
  assert (forall i, i ∈ en_anyProto e -> (i < length rs)%nat) as Hlt
    by (intros i (x & Hx & _)%H2; by apply lookup_lt_Some in Hx).
  assert (forall p i, i ∈ bucket_of (en_byProto e) p -> (i < length rs)%nat) as Hltp
    by (intros p i (x & Hx & _)%H4; by apply lookup_lt_Some in Hx).
  unfold add_rule. rewrite He. destruct (nonempty (r_protoFilter r)) eqn:En; split; cbn [en_all en_anyProto en_byProto].
  - by rewrite H1, length_app, seq_app.
  - intros i. rewrite H2, lookup_snoc_exists. rewrite En. intuition done.
  - done.
  - intros p i. rewrite bucket_push_all, elem_of_app, elem_of_replicate, H4, lookup_snoc_exists, <-filter_count_elem.
    intuition lia.
  - intros [Hnd Hr%Forall_inv]%Forall_app p. rewrite bucket_push_all. apply NoDup_app. split; [by apply H5|]. split.
    + intros i Hi [-> _]%elem_of_replicate. apply Hltp in Hi. lia.
    + pose proof (filter_count_nodup p _ Hr) as Hc. destruct (length (filter _ _)) as [|[|n]]; [constructor| |lia].
      apply NoDup_singleton.
  - by rewrite H1, length_app, seq_app.
  - intros i. rewrite elem_of_app, list_elem_of_singleton, H2, lookup_snoc_exists. rewrite En. tauto.
  - apply NoDup_app. split; [done|]. split; [|apply NoDup_singleton].
    intros i Hi ->%list_elem_of_singleton. apply Hlt in Hi. lia.
  - intros p i. rewrite H4, lookup_snoc_exists. destruct (r_protoFilter r); [|done]. rewrite elem_of_nil. tauto.
  - intros [Hnd _]%Forall_app. by apply H5.
Qed.

Lemma NewEngine_index rs : en_rules (NewEngine rs) = rs /\ index_ok rs (NewEngine rs).
Proof.
  unfold NewEngine. induction rs as [|r rs [IH1 IH2]] using rev_ind.
  - split; [done|]. split; cbn; try done.
    + intros i. split; [by intros ?%elem_of_nil|by intros (? & ? & _)].
    + constructor.
    + intros p i. unfold bucket_of. rewrite lookup_empty. cbn. split; [by intros ?%elem_of_nil|by intros (? & ? & _)].
    + intros _ p. unfold bucket_of. rewrite lookup_empty. constructor.
  - rewrite foldl_app. by apply add_rule_index.
Qed.

(** ** Accounting a sample

    The reference: every rule observes the sample once. *)
Fixpoint observe_every (os : nat -> RangeOrder) (k : nat) rs (s : Sample) : option (list (Rule Program)) :=
  match rs with
  | [] => Some []
  | r :: rs' => r ← Observe Pow (os k) r s; rs' ← observe_every os (S k) rs' s; Some (r :: rs')
  end.

Lemma observe_every_lookup os k rs s rs' :
  observe_every os k rs s = Some rs' <->
  length rs' = length rs /\ forall i r, rs !! i = Some r -> exists r', rs' !! i = Some r' /\ Observe Pow (os (k + i)%nat) r s = Some r'.
Proof.
  revert k rs'. induction rs as [|r rs IH]; intros k rs'; cbn [observe_every].
  - split; [intros [= <-]; done|]. intros [Hl _]. destruct rs'; done.
  - split.
    + destruct (Observe Pow (os k) r s) as [r'|] eqn:E1; cbn [mbind option_bind]; [|done].
      destruct (observe_every os (S k) rs s) as [rs2|] eqn:E2; cbn [mbind option_bind]; [|done]. intros [= <-].
      apply IH in E2 as [Hl Hall]. split; [cbn; lia|]. intros [|i] x Hx; cbn in *.
      * injection Hx as <-. exists r'. by rewrite Nat.add_0_r.
      * destruct (Hall i x Hx) as (x' & Hx' & Ho). exists x'. split; [done|]. by rewrite Nat.add_succ_r.
    + intros [Hl Hall]. destruct rs' as [|r' rs']; [done|]. cbn in Hl.
      destruct (Hall 0%nat r eq_refl) as (x & [= <-] & Ho). rewrite Nat.add_0_r in Ho. rewrite Ho. cbn [mbind option_bind].
      destruct (IH (S k) rs') as [_ Hb]. rewrite Hb; [done|]. split; [lia|]. intros i x Hx.
      destruct (Hall (S i) x Hx) as (x' & Hx' & Ho'). exists x'. split; [done|]. by rewrite Nat.add_succ_r in Ho'.
Qed.

(** Observing at distinct positions touches exactly those rules. *)
Lemma observe_at_spec os is_ rs s :
  NoDup is_ -> Forall rule_ok rs -> packet_wf (packet_of s) -> Forall (fun i => (i < length rs)%nat) is_ ->
  exists rs', observe_at Pow os is_ rs s = Some rs' /\ length rs' = length rs /\
    forall i r, rs !! i = Some r -> exists r', rs' !! i = Some r' /\ rule_ok r' /\ same_config r r' /\ MaxInstances r' = MaxInstances r /\
      (if decide (i ∈ is_) then Observe Pow (os i) r s = Some r' else r' = r).
Proof.
  intros Hnd. revert rs. induction Hnd as [|i is' Hi Hnd IH]; intros rs Hok Hs Hlt; cbn [observe_at].
  - exists rs. split; [done|]. split; [done|]. intros i r Hr. exists r. split; [done|].
    rewrite Forall_lookup in Hok. split; [by eapply Hok|]. split; [apply same_config_refl|]. split; [done|].
    by rewrite decide_False by apply not_elem_of_nil.
  - apply Forall_cons in Hlt as [Hil Hlt]. destruct (lookup_lt_is_Some_2 rs i Hil) as [r Hr]. rewrite Hr. cbn [mbind option_bind].
    pose proof (proj1 (Forall_lookup _ _) Hok _ _ Hr) as Hrok.
    destruct (Observe_ok Pow (os i) r s Hrok Hs) as (r1 & Ho & Hr1 & Hc1 & Hm1). rewrite Ho. cbn [mbind option_bind].
    destruct (IH (<[i := r1]> rs)) as (rs' & -> & Hl' & Hall); [by apply Forall_insert|done|by rewrite length_insert|].
    exists rs'. split; [done|]. split; [by rewrite Hl', length_insert|]. intros j x Hx. destruct (decide (j = i)) as [->|Hne].
    + rewrite Hr in Hx. injection Hx as <-. destruct (Hall i r1) as (r' & Hr' & Hok' & Hc' & Hm' & Hd); [by rewrite list_lookup_insert_eq|].
      rewrite decide_False in Hd by done. subst r'. exists r1. rewrite decide_True by left. by split_and!.
    + destruct (Hall j x) as (r' & Hr' & Hok' & Hc' & Hm' & Hd); [by rewrite list_lookup_insert_ne|]. exists r'. split_and!; try done.
      rewrite (decide_ext _ (j ∈ is')); [done|]. rewrite elem_of_cons. intuition done.
Qed.

Lemma not_candidate_unmatched rs e s i r :
  index_ok rs e -> rs !! i = Some r -> i ∉ en_anyProto e -> i ∉ bucket_of (en_byProto e) (s_Proto s) ->
  matches r s = false.
Proof.
  intros Hix Hr Ha Hb. destruct (matches r s) eqn:Hm; [|done]. exfalso. destruct (nonempty (r_protoFilter r)) eqn:En.
  - apply Hb, (ix_proto _ _ Hix). exists r. split; [done|]. by apply matches_proto.
  - apply Ha, (ix_any _ _ Hix). by exists r.
Qed.

(** The invariant of a running engine. *)
Record engine_ok (e : @Engine Program) : Prop := {
  eo_rules : Forall rule_ok (en_rules e);
  eo_index : index_ok (en_rules e) e;
  eo_filters : Forall (fun r => NoDup (r_protoFilter r)) (en_rules e)
}.

(** Two lists of rules that differ in run-time state only. *)
Definition same_rules rs rs' : Prop :=
  length rs' = length rs /\ forall i r, rs !! i = Some r -> exists r', rs' !! i = Some r' /\ same_config r r' /\ MaxInstances r' = MaxInstances r.

Lemma same_config_filter r r' : same_config r r' -> r_protoFilter (Program:=Program) r' = r_protoFilter r.
Proof. by intros (? & ? & ? & ? & ->). Qed.

Lemma same_rules_exists rs rs' i (P : list Z -> Prop) :
  same_rules rs rs' -> (exists r, rs' !! i = Some r /\ P (r_protoFilter r)) <-> (exists r, rs !! i = Some r /\ P (r_protoFilter r)).
Proof.
  intros [Hl Hall]. split.
  - intros (r' & Hr' & HP). destruct (lookup_lt_is_Some_2 rs i) as [r Hr]; [rewrite <-Hl; by eapply lookup_lt_Some|].
    destruct (Hall i r Hr) as (r2 & Hr2 & Hc & _). assert (r2 = r') as -> by congruence. exists r. split; [done|].
    by rewrite <-(same_config_filter r r').
  - intros (r & Hr & HP). destruct (Hall i r Hr) as (r' & Hr' & Hc & _). exists r'. split; [done|]. by rewrite (same_config_filter r r').
Qed.

Lemma engine_ok_step e rs' :
  engine_ok e -> same_rules (en_rules e) rs' -> Forall rule_ok rs' -> engine_ok (set_rules e rs').
Proof.
  intros [H1 [I1 I2 I3 I4 I5] H3] Hs Hok.
  assert (Forall (fun r => NoDup (r_protoFilter r)) rs') as Hf.
  { apply Forall_lookup. intros i r' Hr'. destruct (proj1 (same_rules_exists _ _ i (fun l => l = r_protoFilter r') Hs)) as (r & Hr & <-); [by exists r'|].
    exact (proj1 (Forall_lookup _ _) H3 _ _ Hr). }
  split; [done| |done]. split; cbn; try done.
  - by rewrite I1, (proj1 Hs).
  - intros i. by rewrite I2, <-(same_rules_exists _ _ i (fun l => nonempty l = false) Hs).
  - intros p i. by rewrite I4, <-(same_rules_exists _ _ i (fun l => p ∈ l) Hs).
  - intros _. by apply I5.
Qed.

Lemma engine_Observe_spec os e s :
  engine_ok e -> packet_wf (packet_of s) ->
  exists rs', observe_every os 0 (en_rules e) s = Some rs' /\ engine_Observe Pow os e s = Some (set_rules e rs') /\
    engine_ok (set_rules e rs') /\ same_rules (en_rules e) rs'.
Proof.
  intros He Hs. pose proof He as [Hok Hix Hnd]. unfold engine_Observe.
  destruct (observe_at_spec os (en_anyProto e) (en_rules e) s) as (rs1 & E1 & Hl1 & Hall1); try done.
  { apply (ix_any_nodup _ _ Hix). }
  { apply Forall_forall. intros i (r & Hr & _)%(ix_any _ _ Hix). by eapply lookup_lt_Some. }
  rewrite E1. cbn [mbind option_bind]. fold (bucket_of (en_byProto e) (s_Proto s)).
  destruct (observe_at_spec os (bucket_of (en_byProto e) (s_Proto s)) rs1 s) as (rs2 & E2 & Hl2 & Hall2); try done.
  { by apply (ix_proto_nodup _ _ Hix). }
  { apply Forall_lookup. intros i r1 Hr1. destruct (lookup_lt_is_Some_2 (en_rules e) i) as [r Hr]; [rewrite <-Hl1; by eapply lookup_lt_Some|].
    destruct (Hall1 i r Hr) as (? & Hr' & ? & _). congruence. }
  { apply Forall_forall. intros i (r & Hr & _)%(ix_proto _ _ Hix). rewrite Hl1. by eapply lookup_lt_Some. }
  rewrite E2. cbn [mbind option_bind].
  assert (forall i r, en_rules e !! i = Some r -> exists r', rs2 !! i = Some r' /\ rule_ok r' /\ same_config r r' /\
            MaxInstances r' = MaxInstances r /\ Observe Pow (os i) r s = Some r') as Hfin.
  { intros i r Hr. destruct (Hall1 i r Hr) as (r1 & Hr1 & Ho1 & Hc1 & Hm1 & Hd1).
    destruct (Hall2 i r1 Hr1) as (r2 & Hr2 & Ho2 & Hc2 & Hm2 & Hd2). exists r2. split; [done|]. split; [done|].
    split; [by eapply same_config_trans|]. split; [congruence|]. destruct (decide (i ∈ en_anyProto e)) as [Ha|Ha].
    - destruct (proj1 (ix_any _ _ Hix i) Ha) as (x & Hx & Hne). rewrite decide_False in Hd2; [congruence|].
      intros (y & Hy & Hp)%(ix_proto _ _ Hix). assert (y = x) as -> by congruence. destruct (r_protoFilter x); [|done].
      by apply elem_of_nil in Hp.
    - subst r1. case_decide as Hb; [done|]. subst r2. unfold Observe.
      by rewrite (not_candidate_unmatched _ _ _ _ _ Hix Hr Ha Hb). }
  assert (same_rules (en_rules e) rs2) as Hsame.
  { split; [congruence|]. intros i r Hr. destruct (Hfin i r Hr) as (r' & ? & ? & ? & ? & _). eauto. }
  exists rs2. split; [|split; [done|split; [|done]]].
  - apply observe_every_lookup. split; [congruence|]. intros i r Hr. destruct (Hfin i r Hr) as (r' & ? & _ & _ & _ & Ho). by exists r'.
  - apply engine_ok_step; [done|done|]. apply Forall_lookup. intros i r' Hr'.
    destruct (lookup_lt_is_Some_2 (en_rules e) i) as [r Hr]; [rewrite <-(proj1 Hsame); by eapply lookup_lt_Some|].
    destruct (Hfin i r Hr) as (r2 & Hr2 & ? & _). congruence.
Qed.

(** ** Evaluation *)
Lemma same_rules_refl rs : same_rules rs rs.
Proof. split; [done|]. intros i r Hr. exists r. split_and!; try done. apply same_config_refl. Qed.

Lemma same_rules_trans rs1 rs2 rs3 : same_rules rs1 rs2 -> same_rules rs2 rs3 -> same_rules rs1 rs3.
Proof.
  intros [L1 H1] [L2 H2]. split; [congruence|]. intros i r Hr. destruct (H1 i r Hr) as (r1 & Hr1 & Hc1 & Hm1).
  destruct (H2 i r1 Hr1) as (r2 & Hr2 & Hc2 & Hm2). exists r2. split_and!; [done| |congruence]. by eapply same_config_trans.
Qed.

Lemma same_rules_insert rs i r r' :
  rs !! i = Some r -> same_config r r' -> MaxInstances r' = MaxInstances r -> same_rules rs (<[i := r']> rs).
Proof.
  intros Hr Hc Hm. split; [apply length_insert|]. intros j x Hx. destruct (decide (j = i)) as [->|Hne].
  - assert (x = r) as -> by congruence. exists r'. rewrite list_lookup_insert_eq by (by eapply lookup_lt_Some). done.
  - exists x. rewrite list_lookup_insert_ne by done. split_and!; try done. apply same_config_refl.
Qed.

Lemma tick_at_ok os is_ rs now stats out :
  Forall rule_ok rs -> Forall (fun i => (i < length rs)%nat) is_ ->
  exists rs' evs, tick_at Pow run os is_ rs now stats out = Some (rs', evs) /\ Forall rule_ok rs' /\ same_rules rs rs'.
Proof.
  revert rs out. induction is_ as [|i is' IH]; intros rs out Hok Hlt; cbn [tick_at].
  { eexists _, _. split; [reflexivity|]. split; [done|apply same_rules_refl]. }
  apply Forall_cons in Hlt as [Hil Hlt]. destruct (lookup_lt_is_Some_2 rs i Hil) as [r Hr]. rewrite Hr. cbn [mbind option_bind].
  pose proof (proj1 (Forall_lookup _ _) Hok _ _ Hr) as Hrok.
  destruct (Tick_ok run Pow (os i) r now stats Hrok) as (r1 & evs1 & -> & Hr1 & Hc1 & Hm1). cbn [mbind option_bind].
  destruct (IH (<[i := r1]> rs) (out ++ evs1)) as (rs' & evs & -> & Hok' & Hs'); [by apply Forall_insert|by rewrite length_insert|].
  eexists _, _. split; [reflexivity|]. split; [done|]. eapply same_rules_trans; [|exact Hs']. by eapply same_rules_insert.
Qed.

Lemma engine_Tick_ok os e now stats :
  engine_ok e -> exists rs' evs, engine_Tick Pow run os e now stats = Some (set_rules e rs', evs) /\
    engine_ok (set_rules e rs') /\ same_rules (en_rules e) rs'.
Proof.
  intros He. pose proof He as [Hok Hix _]. unfold engine_Tick.
  destruct (tick_at_ok os (en_all e) (en_rules e) now stats [] Hok) as (rs' & evs & -> & Hok' & Hs').
  { rewrite (ix_all _ _ Hix). apply Forall_forall. intros i Hi%elem_of_seq. lia. }
  cbn [mbind option_bind]. eexists _, _. split; [reflexivity|]. split; [by apply engine_ok_step|done].
Qed.

(** ** The run loop *)

(** Sending a batch to the queue: what fits is queued in order, the rest is
    counted as dropped. *)
Lemma send_events_spec cap evs q (dropped : Z) :
  len q <= cap -> - 2 ^ 63 <= dropped -> dropped + len evs < 2 ^ 63 ->
  foldl (fun st ev => send_event st cap ev) (q, dropped) evs =
    (q ++ take (Z.to_nat (cap - len q)) evs, dropped + Z.max 0 (len evs - (cap - len q))).
Proof.
  revert q dropped. induction evs as [|ev evs IH]; intros q dropped Hq Hd1 Hd2.
  - cbn [foldl]. rewrite take_nil, app_nil_r. f_equal. unfold len in *. cbn [length]. lia.
  - cbn [foldl]. unfold send_event at 2. unfold len in *. cbn [length] in *. destruct (Z.ltb_spec (Z.of_nat (length q)) cap).
    + rewrite IH by (rewrite ?length_app; cbn [length]; lia). rewrite length_app. cbn [length]. rewrite <-app_assoc.
      replace (Z.to_nat (cap - Z.of_nat (length q))) with (S (Z.to_nat (cap - Z.of_nat (length q + 1)))) by lia.
      cbn [take app]. f_equal. lia.
    + rewrite i64_small by lia. rewrite IH by lia.
      replace (Z.to_nat (cap - Z.of_nat (length q))) with 0%nat by lia. cbn [take]. f_equal. lia.
Qed.

Lemma send_events_bound cap evs q dropped :
  len q <= cap -> len (foldl (fun st ev => send_event st cap ev) (q, dropped) evs).1 <= cap.
Proof.
  revert q dropped. induction evs as [|ev evs IH]; intros q dropped Hq; cbn [foldl]; [done|].
  unfold send_event at 2. destruct (Z.ltb_spec (len q) cap); apply IH; [|done]. unfold len in *. rewrite length_app. cbn. lia.
Qed.

(** The invariant of the run loop. *)
Definition runner_ok (rn : @Runner Program) : Prop := engine_ok (rn_engine rn) /\ len (rn_queue rn) <= rn_cap rn.

Definition input_ok (i : runInput) : Prop :=
  match i with RSample s => packet_wf (packet_of s) | _ => True end.

Lemma run_step_ok os rn i :
  runner_ok rn -> input_ok i ->
  exists rn' go, run_step Pow run os rn i = Some (rn', go) /\ runner_ok rn' /\
    same_rules (en_rules (rn_engine rn)) (en_rules (rn_engine rn')) /\ rn_cap rn' = rn_cap rn.
Proof.
  intros [He Hq] Hi. destruct i as [s|now| |]; cbn [run_step].
  - destruct (engine_Observe_spec os (rn_engine rn) s He Hi) as (rs' & _ & -> & He' & Hs'). cbn [mbind option_bind].
    by eexists _, _.
  - destruct (engine_Tick_ok os (rn_engine rn) now (rn_stats rn) He) as (rs' & evs & -> & He' & Hs'). cbn [mbind option_bind].
    pose proof (send_events_bound (rn_cap rn) evs (rn_queue rn) (rn_dropped rn) Hq) as Hb.
    destruct (foldl _ _ evs) as [q d]. by eexists _, _.
  - eexists _, _. split; [reflexivity|]. split; [|split; [apply same_rules_refl|done]]. split; [done|]. cbn.
    unfold len in *. rewrite length_drop. lia.
  - eexists _, _. split; [reflexivity|]. split; [done|]. split; [apply same_rules_refl|done].
Qed.

Lemma run_loop_ok os rn is_ :
  runner_ok rn -> Forall input_ok is_ ->
  exists rn', run_loop Pow run os rn is_ = Some rn' /\ runner_ok rn' /\
    same_rules (en_rules (rn_engine rn)) (en_rules (rn_engine rn')) /\ rn_cap rn' = rn_cap rn.
Proof.
  revert rn. induction is_ as [|i is' IH]; intros rn Hr Hi; cbn [run_loop].
  { exists rn. split_and!; try done; apply same_rules_refl. }
  apply Forall_cons in Hi as [Hi Hi']. destruct (run_step_ok os rn i Hr Hi) as (rn1 & go & -> & Hr1 & Hs1 & Hc1). cbn [mbind option_bind].
  destruct go; [|by exists rn1]. destruct (IH rn1 Hr1 Hi') as (rn2 & -> & Hr2 & Hs2 & Hc2). exists rn2.
  split; [done|]. split; [done|]. split; [by eapply same_rules_trans|congruence].
Qed.

Lemma NewEngine_ok rs :
  Forall rule_ok rs -> Forall (fun r => NoDup (r_protoFilter r)) rs -> engine_ok (NewEngine rs).
Proof. intros H1 H2. destruct (NewEngine_index rs) as [Hr Hix]. split; rewrite ?Hr; done. Qed.
End Engine.

(** ** Properties *)
Section Feeding.
Context {Program : Type} (Pow : float64 -> float64 -> float64).

Fixpoint feed_engine (ss : list ((nat -> RangeOrder) * Sample)) (e : @Engine Program) : option (@Engine Program) :=
  match ss with
  | [] => Some e
  | (os, s) :: ss' => e ← engine_Observe Pow os e s; feed_engine ss' e
  end.

Fixpoint feed_every (ss : list ((nat -> RangeOrder) * Sample)) (rs : list (Rule Program)) : option (list (Rule Program)) :=
  match ss with
  | [] => Some rs
  | (os, s) :: ss' => rs ← observe_every Pow os 0 rs s; feed_every ss' rs
  end.

Lemma feed_engine_spec ss e :
  engine_ok e -> Forall (fun x => packet_wf (packet_of x.2)) ss ->
  exists e', feed_engine ss e = Some e' /\ feed_every ss (en_rules e) = Some (en_rules e').
Proof.
  intros He Hss. revert e He. induction Hss as [|[os s] ss Hs _ IH]; intros e He; cbn [feed_engine feed_every]; [eauto|].
  destruct (engine_Observe_spec Pow os e s He Hs) as (rs' & -> & -> & He' & _). cbn [mbind option_bind].
  destruct (IH _ He') as (e' & H1 & H2). eauto.
Qed.
End Feeding.

(** C34: the protocol index of the engine is exact, for rules that list no protocol
    twice ([duplicate_protocol_counts_twice] shows the others).  Feeding any sequence of
    samples to the engine leaves every rule in the state it would have if it had
    observed every sample itself, once. *)
Theorem engine_index_exact {Program} Pow (rules : list (Rule Program)) ss :
  Forall rule_ok rules -> Forall (fun r => NoDup (r_protoFilter r)) rules ->
  Forall (fun x => packet_wf (packet_of x.2)) ss ->
  exists e, feed_engine Pow ss (NewEngine rules) = Some e /\ feed_every Pow ss rules = Some (en_rules e).
Proof.
  intros Hok Hnd Hss. destruct (feed_engine_spec Pow ss (NewEngine rules)) as (e & H1 & H2); [by apply NewEngine_ok|done|].
  rewrite (proj1 (NewEngine_index rules)) in H2. eauto.
Qed.

(** C29: the detector's run loop is total and bounded.  From freshly compiled
    rules that list no protocol twice, any interleaving of decoded samples, ticks and consumption of events
    runs without a panic, the event queue never exceeds its capacity and no rule
    ever holds more instances than its configured maximum. *)
Theorem detector_runs_bounded {Program} Pow run os (rules : list (Rule Program)) cap stats inputs :
  Forall rule_ok rules -> Forall (fun r => NoDup (r_protoFilter r)) rules -> 0 <= cap -> Forall input_ok inputs ->
  exists rn, run_loop Pow run os (NewRunnerWithContext (NewEngine rules) cap stats) inputs = Some rn /\
    len (rn_queue rn) <= cap /\
    forall i r, rules !! i = Some r -> exists r', en_rules (rn_engine rn) !! i = Some r' /\
      InstanceCount r' <= MaxInstances r' /\ MaxInstances r' = MaxInstances r.
Proof.
  intros Hok Hnd Hcap Hin. pose proof (NewEngine_ok rules Hok Hnd) as He.
  destruct (run_loop_ok Pow run os (NewRunnerWithContext (NewEngine rules) cap stats) inputs) as (rn & Hrn & [He' Hq] & Hs & Hc);
    [split; [done|unfold len; cbn; lia]|done|].
  exists rn. split; [done|]. cbn in Hc. split; [lia|]. intros i r Hr. cbn in Hs. rewrite (proj1 (NewEngine_index rules)) in Hs.
  destruct (proj2 Hs i r Hr) as (r' & Hr' & _ & Hm). exists r'. split; [done|]. split; [|done].
  pose proof (proj1 (Forall_lookup _ _) (eo_rules _ He') _ _ Hr') as [_ [Hb _ _] _ _ _ _ _]. exact Hb.
Qed.

(** No event disappears uncounted.  A tick queues the fired events in
    order while there is room and adds exactly the number of the others to the
    dropped-events counter. *)
Theorem tick_events_accounted {Program} Pow run os (rn rn' : @Runner Program) now :
  len (rn_queue rn) <= rn_cap rn -> 0 <= rn_dropped rn ->
  run_step Pow run os rn (RTick now) = Some (rn', true) ->
  exists e evs, engine_Tick Pow run os (rn_engine rn) now (rn_stats rn) = Some (e, evs) /\
    (rn_dropped rn + len evs < 2 ^ 63 ->
     rn_queue rn' = rn_queue rn ++ take (Z.to_nat (rn_cap rn - len (rn_queue rn))) evs /\
     len (rn_queue rn') + rn_dropped rn' = len (rn_queue rn) + rn_dropped rn + len evs).
Proof.
  intros Hq Hd H. cbn [run_step] in H. destruct (engine_Tick _ _ _ _ _ _) as [[e evs]|]; [|done]. cbn [mbind option_bind] in H.
  exists e, evs. split; [done|]. intros Hlt. rewrite send_events_spec in H by lia. injection H as <-. cbn. split; [done|].
  unfold len in *. rewrite length_app, length_take. lia.
Qed.

(** ** Examples *)
Lemma rule_example_ok : rule_ok rule_example.
Proof.
  split; try done.
  by apply newHeavyKeeper_ok.
Qed.

Lemma syn_example_wf : packet_wf (packet_of syn_example).
Proof. done. Qed.

Definition pow_one (_ _ : float64) : float64 := f_one.

Lemma engine_index_exact_witness :
  Forall (fun r : Rule unit => NoDup (r_protoFilter r)) [rule_example] /\
  exists e, feed_engine pow_one [(fun _ => range_id, syn_example)] (NewEngine [rule_example]) = Some e /\
    feed_every pow_one [(fun _ => range_id, syn_example)] [rule_example] = Some (en_rules e).
Proof.
  assert (Forall (fun r : Rule unit => NoDup (r_protoFilter r)) [rule_example]) as Hnd
    by (apply Forall_singleton; apply NoDup_singleton).
  split; [exact Hnd|]. apply (engine_index_exact pow_one [rule_example]).
  - apply Forall_singleton, rule_example_ok.
  - exact Hnd.
  - apply Forall_singleton, syn_example_wf.
Defined.

Lemma detector_runs_bounded_witness :
  0 <= 8 /\ exists rn, run_loop pow_one (fun (_ : unit) _ => ExprBool true) (fun _ => range_id)
      (NewRunnerWithContext (NewEngine [rule_example]) 8 None) [RSample syn_example; RTick (1001 * Second)] = Some rn /\
    len (rn_queue rn) <= 8 /\
    forall i r, [rule_example] !! i = Some r -> exists r', en_rules (rn_engine rn) !! i = Some r' /\
      InstanceCount r' <= MaxInstances r' /\ MaxInstances r' = MaxInstances r.
Proof.
  split; [lia|]. apply (detector_runs_bounded pow_one _ _ [rule_example]).
  - apply Forall_singleton, rule_example_ok.
  - apply Forall_singleton, NoDup_singleton.
  - lia.
  - apply Forall_cons_2; [apply syn_example_wf|]. by apply Forall_singleton.
Defined.

(** The rule with a sketch of two rows of four, and a runner of it whose queue
    has no room, after one sample. *)
Definition small_rule : Rule unit :=
  set_state rule_example (newInstanceStore history_example) ∅ (newHeavyKeeper 4 2 heavyKeeperDecay) None.

Definition runner_example : @Runner unit :=
  {| rn_engine := default (NewEngine []) (engine_Observe pow_one (fun _ => range_id) (NewEngine [small_rule]) syn_example);
     rn_queue := []; rn_cap := 0; rn_stats := None; rn_interval := Second; rn_dropped := 0 |}.

Lemma tick_events_accounted_witness :
  exists rn' e evs,
    run_step pow_one (fun (_ : unit) _ => ExprBool true) (fun _ => range_id) runner_example (RTick (1001 * Second)) = Some (rn', true) /\
    engine_Tick pow_one (fun (_ : unit) _ => ExprBool true) (fun _ => range_id) (rn_engine runner_example) (1001 * Second) None = Some (e, evs) /\
    (0 + len evs < 2 ^ 63 -> rn_queue rn' = [] ++ take (Z.to_nat (0 - 0)) evs /\
       len (rn_queue rn') + rn_dropped rn' = 0 + 0 + len evs).
Proof.
  destruct (run_step pow_one (fun (_ : unit) _ => ExprBool true) (fun _ => range_id) runner_example (RTick (1001 * Second)))
    as [[rn' []]|] eqn:E; [|vm_compute in E; discriminate E..].
  exists rn'. destruct (tick_events_accounted pow_one (fun (_ : unit) _ => ExprBool true) (fun _ => range_id) runner_example rn' (1001 * Second))
    as (e & evs & H1 & H2); [apply Z.le_refl|apply Z.le_refl|exact E|].
  exists e, evs. split; [reflexivity|]. split; [exact H1|]. exact H2.
Defined.

(** ** Duplicate protocols *)

(** The packets the first rule has accounted, over all its instances. *)
Definition accounted (rs : list (Rule unit)) : Z :=
  match rs with
  | r :: _ => sum_of (fun x => sum_of sl_packets (r_slots (i_fine x.2))) (map_to_list (st_items (r_store r)))
  | [] => 0
  end.

(** [proto: [tcp, 6]] *)
Definition dup_rule : Rule unit :=
  {| r_name := r_name rule_example; r_fingerprint := ""; r_description := r_description rule_example; r_family := r_family rule_example;
     r_familySet := r_familySet rule_example; r_protoFilter := [6; 6]; r_srcFilter := r_srcFilter rule_example;
     r_dstFilter := r_dstFilter rule_example; r_srcPortFilter := []; r_dstPortFilter := [];
     r_packetLen := r_packetLen rule_example; r_tcpCare := r_tcpCare rule_example; r_tcpWant := r_tcpWant rule_example;
     r_icmpTypeFilter := []; r_icmpCodeFilter := []; r_protoWild := false; r_srcMaskBits := 0; r_dstMaskBits := -1;
     r_srcPortAgg := r_srcPortAgg rule_example; r_dstPortAgg := r_dstPortAgg rule_example; r_icmpTypeAggAll := false;
     r_icmpCodeAggAll := false; r_spreadFields := []; r_terms := r_terms rule_example; r_expr := tt; r_sustained := 0;
     r_action := r_action rule_example; r_tcpEmit := r_tcpEmit rule_example; r_emitInterval := r_emitInterval rule_example;
     r_history := history_example; r_store := newInstanceStore history_example; r_evalEnv := ∅;
     r_sketch := r_sketch rule_example; r_rankBytes := false; r_halfLife := 30 * Second; r_lastDecay := None |}.

(** A protocol that is listed twice in a rule's filter, for instance as
    "tcp" and as "6", makes the engine account every matching sample twice, while
    the rule itself accounts it once. *)
Theorem duplicate_protocol_counts_twice :
  (fun e => accounted (en_rules e)) <$> engine_Observe pow_one (fun _ => range_id) (NewEngine [dup_rule]) syn_example = Some 200 /\
  accounted <$> observe_every pow_one (fun _ => range_id) 0 [dup_rule] syn_example = Some 100.
Proof. split; vm_compute; reflexivity. Qed.
