(* ===== verification/DetCompile.v ===== *)
(** * Rule compilation (internal/detector: compile.go, config.go)

    From the parsed YAML of a rule to its run-time form, error for error.  The
    expression compiler (expr-lang) and the fingerprint (SHA-256 of the JSON of
    the configuration) are parameters; YAML decoding is a library.  Go ranges over
    the map of trigger terms, so the compiler takes the order of that loop. *)
From S2P Require Import Prelude GoText Netip Flowspec Packet Spread Float64 DetTypes HeavyKeeper Store GoParse Template DetRule DetEmit.
From Stdlib Require Import Ascii.
#[local] Open Scope Z_scope.

(** An error is the list of its messages, outermost first. *)
Definition cerror : Type := list gotext.

(** [fmt.Errorf(msg, ..., err)] around an inner error. *)
Definition wrapc {A} (msg : gotext) (r : result gotext A) : result cerror A :=
  match r with Ok a => Ok a | Err e => Err [msg; e] end.
Definition rewrapc {A} (msg : gotext) (r : result cerror A) : result cerror A :=
  match r with Ok a => Ok a | Err e => Err (msg :: e) end.
Definition liftc {A} (r : result gotext A) : result cerror A := match r with Ok a => Ok a | Err e => Err [e] end.
(** [if cond { return fmt.Errorf(msg) }] *)
Definition reject (cond : bool) (msg : gotext) : result cerror unit := if cond then Err [msg] else Ok tt.

(** ** config.go; durations are nanoseconds *)
Record RatioItem := { ri_Name : string; ri_MinRatio : Z }.

Record MatchConfig := {
  mc_Family : string; mc_Proto : list string; mc_Src : string; mc_Dst : string;
  mc_SrcPort : list Z; mc_DstPort : list Z; mc_PacketLen : CompareUint; mc_TCPFlags : string;
  mc_ICMPType : list Z; mc_ICMPCode : list Z
}.

(** [StringList] and [IntList]: what the library makes of the node as one value
    and as a list; one value stands for the list of it. *)
Definition StringList_Unmarshal (one : option string) (many : option (list string)) : result gotext (list string) :=
  match one with
  | Some s => Ok [s]
  | None => match many with Some l => Ok l | None => Err (plain "expected string or list of strings") end
  end.

Definition IntList_Unmarshal (one : option Z) (many : option (list Z)) : result gotext (list Z) :=
  match one with
  | Some v => Ok [v]
  | None => match many with Some l => Ok l | None => Err (plain "expected integer or list of integers") end
  end.

Record AggregateConfig := {
  ac_Proto : string; ac_Src : string; ac_Dst : string; ac_SrcPort : string; ac_DstPort : string;
  ac_ICMPType : string; ac_ICMPCode : string
}.

Record RingConfig := { rc_Resolution : Z; rc_Duration : Z }.
Record HistoryConfig := { hc_Fine : RingConfig; hc_Medium : RingConfig; hc_Coarse : RingConfig; hc_MaxInstances : Z }.
Record TermConfig := { tc_Metric : string; tc_Window : Z; tc_Offset : Z; tc_Agg : string }.
Record TriggerConfig := { tg_Terms : gmap string TermConfig; tg_Expr : string; tg_Sustained : Z }.

Record FlowSpecConfig := {
  fc_Action : string; fc_TTL : Z; fc_Refresh : option bool; fc_Family : string; fc_Proto : string;
  fc_SrcPrefix : string; fc_DstPrefix : string; fc_SrcPort : string; fc_DstPort : string; fc_TCPFlags : string;
  fc_ICMPType : string; fc_ICMPCode : string
}.

Record RuleConfig := {
  cfg_Name : string; cfg_Match : MatchConfig; cfg_Aggregate : AggregateConfig; cfg_History : HistoryConfig;
  cfg_Trigger : TriggerConfig; cfg_FlowSpec : FlowSpecConfig; cfg_Description : string; cfg_Rank : string;
  cfg_RatioDetection : list RatioItem
}.

(** ** TCP flags *)
Definition tcpFlagBits (name : string) : option Z :=
  if String.eqb name "fin" then Some 1 else if String.eqb name "syn" then Some 2
  else if String.eqb name "rst" then Some 4 else if String.eqb name "psh" then Some 8
  else if String.eqb name "ack" then Some 16 else if String.eqb name "urg" then Some 32
  else if String.eqb name "ece" then Some 64 else if String.eqb name "cwr" then Some 128
  else None.

(** [strings.FieldsFunc] at blanks and commas: [cur] is the field being read. *)
Fixpoint flag_fields (s cur : string) : list string :=
  match s with
  | EmptyString => if String.eqb cur "" then [] else [cur]
  | String c s' =>
      if Ascii.eqb c " " || Ascii.eqb c "," then
        (if String.eqb cur "" then flag_fields s' "" else cur :: flag_fields s' "")
      else flag_fields s' (cur +:+ String c "")
  end.

Fixpoint flags_loop (toks : list string) (care want : Z) : result gotext (Z * Z) :=
  match toks with
  | [] => Ok (care, want)
  | tok :: toks' =>
      let neg := HasPrefix tok "!" in
      let name := ToLower (TrimPrefix tok "!") in
      match tcpFlagBits name with
      | None => Err (Text "unknown tcp flag %q" [AStr tok])
      | Some bit => flags_loop toks' (Z.lor care bit) (if negb neg then Z.lor want bit else want)
      end
  end.

Definition parseTCPFlags (s : string) : result gotext (Z * Z) :=
  '(care, want) ← flags_loop (flag_fields s "") 0 0;
  if care =? 0 then Err (plain "no flags specified") else Ok (care, want).

Definition compileTCPEmit (s : string) : result gotext tcpEmitSpec :=
  let t := TrimSpace s in
  if String.eqb t "" then Ok {| te_mode := emitDefault; te_care := 0; te_want := 0 |}
  else if EqualFold t "all" || EqualFold t "any" then Ok {| te_mode := emitWildcard; te_care := 0; te_want := 0 |}
  else '(care, want) ← parseTCPFlags t; Ok {| te_mode := emitTemplate; te_care := care; te_want := want |}.

(** ** Aggregation *)
Definition one_of (t : string) (l : list string) : bool := existsb (String.eqb t) l.

(** [aggProto] and [aggICMP] *)
Definition aggWild (s : string) : result gotext bool :=
  let t := ToLower (TrimSpace s) in
  if one_of t [""; "exact"; "keep"] then Ok false
  else if one_of t ["all"; "any"] then Ok true
  else Err (Text "must be 'exact' or 'all', got %q" [AStr s]).

Definition aggProto : string -> result gotext bool := aggWild.
Definition aggICMP : string -> result gotext bool := aggWild.

Definition parseSlashBits (s : string) (max : Z) : result gotext Z :=
  match Atoi (TrimPrefix (TrimSpace s) "/") with
  | None => Err (Text "invalid prefix %q (want '/N')" [AStr s])
  | Some bits =>
      if (bits <? 0) || (max <? bits) then Err (Text "prefix /%d out of range 0-%d" [AInt bits; AInt max]) else Ok bits
  end.

Definition aggAddrBits (s : string) (famSet : bool) (fam : Family) : result gotext Z :=
  if String.eqb (TrimSpace s) "" then Ok (-1)
  else
    bits ← parseSlashBits s 128;
    if famSet && bool_decide (fam = FamilyIPv4) && (32 <? bits)
    then Err (Text "prefix /%d exceeds 32 for an ipv4 rule" [AInt bits]) else Ok bits.

Definition aggPort (s : string) : result gotext portAgg :=
  let t := ToLower (TrimSpace s) in
  let agg mode lo hi step := {| pa_mode := mode; pa_lo := lo; pa_hi := hi; pa_step := step |} in
  if one_of t [""; "exact"; "keep"] then Ok (agg portExact 0 0 0)
  else if one_of t ["all"; "any"] then Ok (agg portAll 0 0 0)
  else
    match cut "-" t with
    | Some (a, b) =>
        match ParseUint (TrimSpace a) 16, ParseUint (TrimSpace b) 16 with
        | Some lo, Some hi =>
            if hi <? lo then Err (Text "range %q has lo > hi" [AStr s]) else Ok (agg portRange (u16 lo) (u16 hi) 0)
        | _, _ => Err (Text "invalid range %q" [AStr s])
        end
    | None =>
        match ParseUint t 32 with
        | Some step =>
            if step =? 0 then Err (Text "invalid bucket step %q (want a positive integer)" [AStr s])
            else Ok (agg portBucket 0 0 (u32 step))
        | None => Err (Text "invalid bucket step %q (want a positive integer)" [AStr s])
        end
    end.

(** ** Filters *)
Definition port_filter (field : string) (ports : list Z) : result cerror (list Z) :=
  result_map (fun p => if (p <? 0) || (65535 <? p) then Err [Text (field +:+ " %d out of range") [AInt p]] else Ok (u16 p)) ports.

Definition compileU8List (vals : list Z) (field : string) : result cerror (list Z) :=
  result_map (fun v => if (v <? 0) || (255 <? v) then Err [Text "%s %d out of range 0-255" [AStr field; AInt v]] else Ok (u8 v)) vals.

Definition proto_filter (names : list string) : result cerror (list Z) :=
  result_map (fun p => wrapc (plain "match.proto: %w") (parseProtoName p)) names.

Definition addr_filter (field s : string) : result cerror Prefix :=
  if String.eqb s "" then Ok zeroPrefix
  else match ParsePrefix s with
       | None => Err [plain (field +:+ ": %w")]
       | Some p => Ok (Masked p)
       end.

Definition flags_filter (s : string) : result cerror (Z * Z) :=
  if String.eqb s "" then Ok (0, 0) else wrapc (plain "match.tcp_flags: %w") (parseTCPFlags s).

(** ** History *)
Definition compileRing (c : RingConfig) (field : string) : result gotext (Z * Z) :=
  let res := rc_Resolution c in
  let dur := rc_Duration c in
  if (res <=? 0) || (dur <=? 0) then Err (Text "%s resolution and duration must be set" [AStr field])
  else if negb (Z.rem dur res =? 0) then Err (Text "%s duration must be a multiple of resolution" [AStr field])
  else
    let slots := Z.quot dur res in
    if slots <=? 0 then Err (Text "%s must have at least one slot" [AStr field]) else Ok (res, slots).

Definition compileOptionalRing (c : RingConfig) (field : string) : result gotext (Z * Z) :=
  if (rc_Resolution c =? 0) && (rc_Duration c =? 0) then Ok (0, 0) else compileRing c field.

Definition compileHistory (c : HistoryConfig) : result gotext historySpec :=
  if hc_MaxInstances c <=? 0 then Err (plain "history.max_instances must be > 0")
  else
    '(fineRes, fineSlots) ← compileRing (hc_Fine c) "history.fine";
    '(mediumRes, mediumSlots) ← compileOptionalRing (hc_Medium c) "history.medium";
    '(coarseRes, coarseSlots) ← compileOptionalRing (hc_Coarse c) "history.coarse";
    Ok {| maxInstances := hc_MaxInstances c; fineResolution := fineRes; fineSlots := fineSlots;
          mediumResolution := mediumRes; mediumSlots := mediumSlots;
          coarseResolution := coarseRes; coarseSlots := coarseSlots |}.

(** ** Trigger terms *)
Definition parseMetric (s : string) : result gotext metricKind :=
  let t := ToLower s in
  if one_of t ["pps"; ""] then Ok metricPPS
  else if String.eqb t "bps" then Ok metricBPS
  else if String.eqb t "vpp.packet_iface.rx_pps" then Ok metricIfaceRXPPS
  else if String.eqb t "vpp.packet_iface.tx_pps" then Ok metricIfaceTXPPS
  else if String.eqb t "vpp.packet_iface.rx_bps" then Ok metricIfaceRXBPS
  else if String.eqb t "vpp.packet_iface.tx_bps" then Ok metricIfaceTXBPS
  else if String.eqb t "vpp.packet_iface.sw_drop_pps" then Ok metricIfaceSWDropPPS
  else if String.eqb t "vpp.packet_iface.hw_drop_pps" then Ok metricIfaceHWDropPPS
  else if String.eqb t "vpp.total.rx_pps" then Ok metricTotalRXPPS
  else if String.eqb t "vpp.total.tx_pps" then Ok metricTotalTXPPS
  else if String.eqb t "vpp.total.rx_bps" then Ok metricTotalRXBPS
  else if String.eqb t "vpp.total.tx_bps" then Ok metricTotalTXBPS
  else if String.eqb t "vpp.total.sw_drop_pps" then Ok metricTotalSWDropPPS
  else if String.eqb t "vpp.total.hw_drop_pps" then Ok metricTotalHWDropPPS
  else Err (Text "unknown metric %q" [AStr s]).

Definition parseAgg (s : string) : result gotext aggKind :=
  let t := ToLower s in
  if one_of t ["avg"; "rate"; ""] then Ok aggAvg
  else if one_of t ["max"; "peak"] then Ok aggMax
  else if one_of t ["sum"; "total"] then Ok aggSum
  else Err (Text "unknown agg %q" [AStr s]).

Definition ident_letter (c : ascii) : bool :=
  Ascii.eqb c "_" || ((97 <=? code c) && (code c <=? 122)) || ((65 <=? code c) && (code c <=? 90)).

(** [validIdent]: letters, digits except in front, and underscores. *)
Definition validIdent (s : string) : bool :=
  match s with
  | EmptyString => false
  | String c s' => ident_letter c && str_forall (fun c => ident_letter c || is_digit c) s'
  end.

Record cand := { c_kind : ringKind; c_res : Z; c_span : Z }.

Definition ring_cands (h : historySpec) : list cand :=
  [{| c_kind := ringFine; c_res := fineResolution h; c_span := i64 (fineSlots h * fineResolution h) |}] ++
  (if 0 <? mediumSlots h
   then [{| c_kind := ringMedium; c_res := mediumResolution h; c_span := i64 (mediumSlots h * mediumResolution h) |}] else []) ++
  (if 0 <? coarseSlots h
   then [{| c_kind := ringCoarse; c_res := coarseResolution h; c_span := i64 (coarseSlots h * coarseResolution h) |}] else []).

Definition cand_fits (c : cand) (window offset : Z) : bool :=
  negb ((window <? c_res c) || negb (Z.rem window (c_res c) =? 0) || negb (Z.rem offset (c_res c) =? 0)) &&
  negb (c_span c <? i64 (window + offset)).

Fixpoint choose_loop (cs : list cand) (window offset : Z) (best : option cand) : option cand :=
  match cs with
  | [] => best
  | c :: cs' =>
      choose_loop cs' window offset
        (if cand_fits c window offset then
           match best with
           | None => Some c
           | Some b => if c_res b <? c_res c then Some c else best
           end
         else best)
  end.

Definition chooseRing (h : historySpec) (window offset : Z) : result gotext (ringKind * Z) :=
  match choose_loop (ring_cands h) window offset None with
  | None => Err (Text "no history ring covers window %s offset %s (check resolutions and durations)" [AInt window; AInt offset])
  | Some c => Ok (c_kind c, c_res c)
  end.

(** One turn of the loop over the terms.  The stats branch leaves ring, ring
    resolution and slots at their zero values. *)
Definition compile_term (hist : historySpec) (name : string) (tc : TermConfig) : result cerror term :=
  let at_name (f : string) := Text ("trigger.terms.%s: " +:+ f) [AStr name] in
  _ ← reject (negb (validIdent name)) (Text "trigger.terms: %q is not a valid identifier" [AStr name]);
  metric ← wrapc (at_name "%w") (parseMetric (tc_Metric tc));
  agg ← wrapc (at_name "%w") (parseAgg (tc_Agg tc));
  let window := tc_Window tc in
  let offset := tc_Offset tc in
  let mk w o ring res slots :=
    {| t_name := name; t_metric := metric; t_agg := agg; t_window := w; t_offset := o; t_ring := ring;
       t_ringRes := res; t_slots := slots |} in
  if isStats metric then
    _ ← reject (window <? 0) (at_name "window must be >= 0");
    if 0 <? window then
      _ ← reject (offset <? 0) (at_name "offset must be >= 0");
      _ ← reject (bool_decide (agg = aggSum)) (at_name "vpp metrics support agg avg or max, not sum");
      Ok (mk window offset ringFine 0 0)
    else Ok (mk 0 0 ringFine 0 0)
  else
    _ ← reject (window <=? 0) (at_name "window must be > 0");
    _ ← reject (offset <? 0) (at_name "offset must be >= 0");
    '(ring, res) ← wrapc (at_name "%w") (chooseRing hist window offset);
    Ok (mk window offset ring res (Z.quot window res)).

Definition compileTerms (o : RangeOrder) (c : TriggerConfig) (hist : historySpec) : result cerror (list term) :=
  if bool_decide (tg_Terms c = ∅) then Err [plain "trigger.terms must not be empty"]
  else result_map (fun nt => compile_term hist nt.1 nt.2) (range_list o (map_to_list (tg_Terms c))).

Fixpoint rank_loop (name : string) (terms : list term) : result cerror (bool * Z) :=
  match terms with
  | [] => Err [Text "rank %q is not a defined trigger term" [AStr name]]
  | t :: terms' =>
      if negb (String.eqb (t_name t) name) then rank_loop name terms'
      else if isStats (t_metric t)
      then Err [Text "rank %q is a vpp.* term; rank must reference a pps or bps term" [AStr name]]
      else Ok (bool_decide (t_metric t = metricBPS), if t_window t <=? 0 then sketchHalfLife else t_window t)
  end.

Definition resolveRank (name : string) (terms : list term) : result cerror (bool * Z) :=
  if String.eqb name "" then Ok (false, sketchHalfLife) else rank_loop name terms.

(** ** Emission *)
Definition no_tmpl : template := {| tm_raw := ""; tm_segs := [] |}.

Definition compileField (s : string) : result gotext emitField :=
  let t := TrimSpace s in
  if String.eqb t "" then Ok {| ef_mode := emitDefault; ef_tmpl := no_tmpl |}
  else if EqualFold t "all" || EqualFold t "any" then Ok {| ef_mode := emitWildcard; ef_tmpl := no_tmpl |}
  else tmpl ← compileTemplate t; Ok {| ef_mode := emitTemplate; ef_tmpl := tmpl |}.

Definition compileAction (c : FlowSpecConfig) : result cerror flowSpecAction :=
  _ ← reject (negb (String.eqb (ToLower (fc_Action c)) "drop")) (plain "flowspec.action must be drop");
  _ ← reject (fc_TTL c <=? 0) (plain "flowspec.ttl must be > 0");
  family ← wrapc (plain "flowspec.family: %w") (compileField (fc_Family c));
  proto ← wrapc (plain "flowspec.proto: %w") (compileField (fc_Proto c));
  src ← wrapc (plain "flowspec.src_prefix: %w") (compileField (fc_SrcPrefix c));
  dst ← wrapc (plain "flowspec.dst_prefix: %w") (compileField (fc_DstPrefix c));
  srcPort ← wrapc (plain "flowspec.src_port: %w") (compileField (fc_SrcPort c));
  dstPort ← wrapc (plain "flowspec.dst_port: %w") (compileField (fc_DstPort c));
  icmpType ← wrapc (plain "flowspec.icmp_type: %w") (compileField (fc_ICMPType c));
  icmpCode ← wrapc (plain "flowspec.icmp_code: %w") (compileField (fc_ICMPCode c));
  Ok {| fa_ttl := fc_TTL c; fa_refresh := default true (fc_Refresh c); fa_family := family; fa_proto := proto;
        fa_src := src; fa_dst := dst; fa_srcPort := srcPort; fa_dstPort := dstPort;
        fa_icmpType := icmpType; fa_icmpCode := icmpCode |}.

(** ** Diversity gates *)
Definition ipBuckets (maskBits : Z) (famSet : bool) (fam : Family) (field : string) : result gotext Z :=
  if negb famSet then Err (Text "%s requires match.family to be set" [AStr field])
  else
    let host := if bool_decide (fam = FamilyIPv6) then 128 else 32 in
    if (maskBits <? 0) || (host <=? maskBits)
    then Err (Text "%s must be aggregated (a coarser prefix than full-host) to measure spread" [AStr field])
    else
      let spreadBits := host - maskBits in
      Ok (if 5 <=? spreadBits then spreadMaxBuckets else Z.shiftl 1 spreadBits).

(** [(lo, size, mod, n)] *)
Definition portSpread (p : portAgg) (field : string) : result gotext (Z * Z * bool * Z) :=
  '(lo, size, md) ←
    match pa_mode p with
    | portAll => Ok (0, 65536, false)
    | portRange => Ok (pa_lo p, u32 (u32 (pa_hi p - pa_lo p) + 1), false)
    | portBucket => Ok (0, pa_step p, true)
    | portExact => Err (Text "%s must be aggregated (not exact) to measure spread" [AStr field])
    end;
  if size <? 2 then Err (Text "%s has no range to spread across" [AStr field])
  else Ok (lo, size, md, if spreadMaxBuckets <? size then spreadMaxBuckets else size).

Definition ip_gate (kind : spreadKind) (minRatio maskBits : Z) (famSet : bool) (fam : Family) (field : string) : result gotext spreadField :=
  n ← ipBuckets maskBits famSet fam field;
  Ok {| sf_kind := kind; sf_buckets := n; sf_minRatio := minRatio; sf_ipv6 := bool_decide (fam = FamilyIPv6);
        sf_maskBits := maskBits; sf_portLo := 0; sf_portSize := 0; sf_portMod := false |}.

Definition port_gate (kind : spreadKind) (minRatio : Z) (p : portAgg) (fam : Family) (field : string) : result gotext spreadField :=
  '(lo, size, md, n) ← portSpread p field;
  Ok {| sf_kind := kind; sf_buckets := n; sf_minRatio := minRatio; sf_ipv6 := bool_decide (fam = FamilyIPv6);
        sf_maskBits := 0; sf_portLo := lo; sf_portSize := size; sf_portMod := md |}.

(** One turn of the loop over the gates. *)
Definition compile_gate (srcBits dstBits : Z) (srcAgg dstAgg : portAgg) (famSet : bool) (fam : Family) (it : RatioItem)
  : result cerror spreadField :=
  if (ri_MinRatio it <? 1) || (100 <? ri_MinRatio it)
  then Err [Text "ratio_detection %q: min_ratio must be 1-100" [AStr (ri_Name it)]]
  else
    let name := ToLower (TrimSpace (ri_Name it)) in
    let w := wrapc (A := spreadField) (plain "ratio_detection: %w") in
    if String.eqb name "src" then w (ip_gate spreadSrc (ri_MinRatio it) srcBits famSet fam "src")
    else if String.eqb name "dst" then w (ip_gate spreadDst (ri_MinRatio it) dstBits famSet fam "dst")
    else if String.eqb name "src_port" then w (port_gate spreadSrcPort (ri_MinRatio it) srcAgg fam "src_port")
    else if String.eqb name "dst_port" then w (port_gate spreadDstPort (ri_MinRatio it) dstAgg fam "dst_port")
    else Err [Text "ratio_detection: unknown field %q (want src|dst|src_port|dst_port)" [AStr (ri_Name it)]].

Definition compileRatio (items : list RatioItem) (srcBits dstBits : Z) (srcAgg dstAgg : portAgg) (famSet : bool) (fam : Family)
  : result cerror (list spreadField) :=
  result_map (compile_gate srcBits dstBits srcAgg dstAgg famSet fam) items.

(** ** Template variables *)
Definition descriptorVars : list string :=
  ["family"; "proto"; "src"; "dst"; "src_port"; "dst_port"; "icmp_type"; "icmp_code"].

(** The first variable of a template that is not allowed. *)
Definition bad_var (allowed : list string) (t : template) : option string :=
  find (fun v => negb (one_of v allowed)) (vars t).

Definition check_field (nf : string * emitField) : result cerror unit :=
  match ef_mode nf.2 with
  | emitTemplate =>
      match bad_var descriptorVars (ef_tmpl nf.2) with
      | Some v => Err [Text "flowspec.%s references {{%s}} which is not a descriptor field" [AStr nf.1; AStr v]]
      | None => Ok tt
      end
  | _ => Ok tt
  end.

Definition validateVars (a : flowSpecAction) (description : option template) (termNames : list string) : result cerror unit :=
  _ ← result_map check_field
        [("family", fa_family a); ("proto", fa_proto a); ("src_prefix", fa_src a); ("dst_prefix", fa_dst a);
         ("src_port", fa_srcPort a); ("dst_port", fa_dstPort a); ("icmp_type", fa_icmpType a); ("icmp_code", fa_icmpCode a)];
  match description with
  | None => Ok tt
  | Some t =>
      match bad_var ("ingress_if" :: descriptorVars ++ termNames) t with
      | Some v => Err [Text "description references {{%s}} which is not a descriptor field, ingress_if, or trigger term" [AStr v]]
      | None => Ok tt
      end
  end.

(** [protoOnlyTCP]: the filter is exactly {tcp}. *)
Definition protoOnlyTCP (protoFilter : list Z) : bool :=
  forallb (fun p => p =? protoTCP) protoFilter && nonempty protoFilter.

Definition compile_description (s : string) : result cerror (option template) :=
  if String.eqb s "" then Ok None else Some <$> wrapc (plain "description: %w") (compileTemplate s).

(** ** Rules *)
Section Compile.
Context {Program : Type}.

(** [expr.Compile] in the environment of the term names. *)
Context (expr_Compile : string -> list string -> result gotext Program).
Context (ruleFingerprint : RuleConfig -> string).

Definition compileExpr (src : string) (termNames : list string) : result gotext Program :=
  if String.eqb (TrimSpace src) "" then Err (plain "expr must be set") else expr_Compile src termNames.

Definition compileRule (o : RangeOrder) (cfg : RuleConfig) : result cerror (Rule Program) :=
  let m := cfg_Match cfg in
  let g := cfg_Aggregate cfg in
  _ ← reject (String.eqb (cfg_Name cfg) "") (plain "name must be set");
  '(fam, famSet) ← wrapc (plain "match.family: %w") (parseFamily (mc_Family m));
  protoFilter ← proto_filter (mc_Proto m);
  srcFilter ← addr_filter "match.src" (mc_Src m);
  dstFilter ← addr_filter "match.dst" (mc_Dst m);
  srcPortFilter ← port_filter "match.src_port" (mc_SrcPort m);
  dstPortFilter ← port_filter "match.dst_port" (mc_DstPort m);
  icmpTypeFilter ← compileU8List (mc_ICMPType m) "match.icmp_type";
  icmpCodeFilter ← compileU8List (mc_ICMPCode m) "match.icmp_code";
  '(tcpCare, tcpWant) ← flags_filter (mc_TCPFlags m);
  protoWild ← wrapc (plain "aggregate.proto: %w") (aggProto (ac_Proto g));
  srcMaskBits ← wrapc (plain "aggregate.src: %w") (aggAddrBits (ac_Src g) famSet fam);
  dstMaskBits ← wrapc (plain "aggregate.dst: %w") (aggAddrBits (ac_Dst g) famSet fam);
  srcPortAgg ← wrapc (plain "aggregate.src_port: %w") (aggPort (ac_SrcPort g));
  dstPortAgg ← wrapc (plain "aggregate.dst_port: %w") (aggPort (ac_DstPort g));
  icmpTypeAggAll ← wrapc (plain "aggregate.icmp_type: %w") (aggICMP (ac_ICMPType g));
  icmpCodeAggAll ← wrapc (plain "aggregate.icmp_code: %w") (aggICMP (ac_ICMPCode g));
  _ ← reject ((negb (wildcard srcPortAgg) || negb (wildcard dstPortAgg)) && protoWild)
        (plain "non-wildcard src_port/dst_port cannot be combined with aggregate.proto: all");
  spreadFields ← compileRatio (cfg_RatioDetection cfg) srcMaskBits dstMaskBits srcPortAgg dstPortAgg famSet fam;
  hist ← liftc (compileHistory (cfg_History cfg));
  terms ← compileTerms o (cfg_Trigger cfg) hist;
  '(rankBytes, halfLife) ← resolveRank (cfg_Rank cfg) terms;
  prog ← wrapc (plain "trigger.expr: %w") (compileExpr (tg_Expr (cfg_Trigger cfg)) (t_name <$> terms));
  action ← compileAction (cfg_FlowSpec cfg);
  tcpEmit ← wrapc (plain "flowspec.tcp_flags: %w") (compileTCPEmit (fc_TCPFlags (cfg_FlowSpec cfg)));
  _ ← reject ((negb (tcpCare =? 0) || bool_decide (te_mode tcpEmit = emitTemplate)) && negb (protoOnlyTCP protoFilter))
        (plain "tcp_flags requires match.proto to be tcp");
  description ← compile_description (cfg_Description cfg);
  _ ← validateVars action description (t_name <$> terms);
  Ok {| r_name := cfg_Name cfg; r_fingerprint := ruleFingerprint cfg; r_description := description;
        r_family := fam; r_familySet := famSet; r_protoFilter := protoFilter; r_srcFilter := srcFilter;
        r_dstFilter := dstFilter; r_srcPortFilter := srcPortFilter; r_dstPortFilter := dstPortFilter;
        r_packetLen := mc_PacketLen m; r_tcpCare := tcpCare; r_tcpWant := tcpWant;
        r_icmpTypeFilter := icmpTypeFilter; r_icmpCodeFilter := icmpCodeFilter; r_protoWild := protoWild;
        r_srcMaskBits := srcMaskBits; r_dstMaskBits := dstMaskBits; r_srcPortAgg := srcPortAgg; r_dstPortAgg := dstPortAgg;
        r_icmpTypeAggAll := icmpTypeAggAll; r_icmpCodeAggAll := icmpCodeAggAll; r_spreadFields := spreadFields;
        r_terms := terms; r_expr := prog; r_sustained := tg_Sustained (cfg_Trigger cfg); r_action := action;
        r_tcpEmit := tcpEmit;
        r_emitInterval := (let half := Z.quot (fa_ttl action) 2 in
                           if half <? fineResolution hist then fineResolution hist else half);
        r_history := hist; r_store := newInstanceStore hist; r_evalEnv := ∅;
        r_sketch := newHeavyKeeper (sketchWidth (maxInstances hist)) sketchDepth heavyKeeperDecay;
        r_rankBytes := rankBytes; r_halfLife := halfLife; r_lastDecay := None |}.

(** [CompileRules]; the position and name of the failing rule are in the error. *)
Fixpoint compile_rules_from (o : RangeOrder) (i : Z) (cfgs : list RuleConfig) : result cerror (list (Rule Program)) :=
  match cfgs with
  | [] => Ok []
  | cfg :: cfgs' =>
      r ← rewrapc (Text "rules[%d] %q: %w" [AInt i; AStr (cfg_Name cfg)]) (compileRule o cfg);
      rs ← compile_rules_from o (i + 1) cfgs';
      Ok (r :: rs)
  end.

Definition CompileRules (o : RangeOrder) (cfgs : list RuleConfig) : result cerror (list (Rule Program)) :=
  compile_rules_from o 0 cfgs.
End Compile.
