(* ===== verification/DetCompileFacts.v ===== *)
(** * Compiled rules are well formed

    What the run-time theorems assume of a rule holds of every rule the compiler
    accepts: the invariants of the pool, the gates, the sketch and the port
    aggregations; a rule that overrides no emitted field drops exactly its
    identity; every template variable resolves; and every trigger term reads a
    ring that covers its window exactly. *)
From S2P Require Import Prelude GoText Netip Flowspec GoParse Packet PacketFacts Spread SpreadFacts Float64 DetTypes HeavyKeeper HeavyKeeperFacts Store StoreFacts Template DetRule DetEmit DetEmitFacts DetRuleFacts DetCompile.
From Stdlib Require Import Ascii.
#[local] Open Scope Z_scope.

(** ** Inversion of the compiler *)
Lemma wrapc_Ok {A} msg (r : result gotext A) a : wrapc msg r = Ok a -> r = Ok a.
Proof. destruct r; simpl; [by intros [= ->]|done]. Qed.
Lemma rewrapc_Ok {A} msg (r : result cerror A) a : rewrapc msg r = Ok a -> r = Ok a.
Proof. destruct r; simpl; [by intros [= ->]|done]. Qed.
Lemma liftc_Ok {A} (r : result gotext A) a : liftc r = Ok a -> r = Ok a.
Proof. destruct r; simpl; [by intros [= ->]|done]. Qed.
Lemma reject_Ok c msg u : reject c msg = Ok u -> c = false.
Proof. by destruct c. Qed.

(** Peel the next statement of a compiled sequence. *)
Ltac next_stmt H :=
  let x := fresh "v" in let Hx := fresh "S" in
  apply result_bind_Ok in H as (x & Hx & H);
  try (apply wrapc_Ok in Hx); try (apply liftc_Ok in Hx); try (apply reject_Ok in Hx);
  repeat match type of x with (_ * _)%type => destruct x as [x ?] end;
  cbv beta iota in H.

(** ** Numbers and flags *)
Lemma digits_value_bound s acc v : 0 <= acc -> digits_value acc s = Some v -> 0 <= v.
Proof.
  revert acc. induction s as [|c s IH]; intros acc Ha; cbn [digits_value]; [intros [= <-]; lia|].
  unfold digit, is_digit, code. case_bool; cbn [mbind option_bind]; [|done].
  apply IH. bool_hyps. lia.
Qed.

Lemma ParseUint_width s w v : ParseUint s w = Some v -> in_width w v.
Proof.
  unfold ParseUint, decimal. destruct s as [|c s]; [done|]. intros H.
  destruct (digits_value 0 (String c s)) as [x|] eqn:E; cbn [mbind option_bind] in H; [|done].
  destruct (Z.ltb_spec x (2 ^ w)); [|done]. injection H as <-. apply digits_value_bound in E; [|lia]. unfold in_width. lia.
Qed.

Lemma tcpFlagBits_width n b : tcpFlagBits n = Some b -> in_width 8 b.
Proof. unfold tcpFlagBits. repeat case_bool; intros [= <-] || done; unfold in_width; lia. Qed.

Lemma land_sub_lor want care bit : Z.land want care = want -> Z.land (Z.lor want bit) (Z.lor care bit) = Z.lor want bit.
Proof.
  intros H. apply Z.bits_inj'. intros i Hi. apply (f_equal (fun z => Z.testbit z i)) in H.
  cbv beta in H. rewrite Z.land_spec, !Z.lor_spec. rewrite Z.land_spec in H.
  destruct (Z.testbit want i), (Z.testbit care i), (Z.testbit bit i); done.
Qed.

Lemma land_sub_lor_r want care bit : Z.land want care = want -> Z.land want (Z.lor care bit) = want.
Proof.
  intros H. apply Z.bits_inj'. intros i Hi. apply (f_equal (fun z => Z.testbit z i)) in H.
  cbv beta in H. rewrite Z.land_spec, !Z.lor_spec. rewrite Z.land_spec in H.
  destruct (Z.testbit want i), (Z.testbit care i), (Z.testbit bit i); done.
Qed.

Lemma flags_loop_wf toks care want c w :
  flags_wf care want -> flags_loop toks care want = Ok (c, w) -> flags_wf c w.
Proof.
  revert care want. induction toks as [|tok toks IH]; intros care want Hf; cbn [flags_loop]; [by intros [= <- <-]|].
  destruct (tcpFlagBits _) as [bit|] eqn:E; [|done]. apply tcpFlagBits_width in E. apply IH.
  destruct Hf as (H1 & H2 & H3). destruct (negb _).
  - split; [|split]; [by apply in_width_lor..|by apply land_sub_lor].
  - split; [|split]; [by apply in_width_lor|done|by apply land_sub_lor_r].
Qed.

Lemma zero_flags_wf : flags_wf 0 0.
Proof. unfold flags_wf, in_width. done. Qed.

Lemma parseTCPFlags_wf s c w : parseTCPFlags s = Ok (c, w) -> flags_wf c w /\ c <> 0.
Proof.
  unfold parseTCPFlags. intros H. next_stmt H. destruct (Z.eqb_spec v 0); [done|]. injection H as <- <-.
  split; [|done]. by eapply flags_loop_wf; [apply zero_flags_wf|].
Qed.

Lemma flags_filter_wf s c w : flags_filter s = Ok (c, w) -> flags_wf c w.
Proof.
  unfold flags_filter. case_bool; [intros [= <- <-]; apply zero_flags_wf|]. intros H%wrapc_Ok. by apply parseTCPFlags_wf in H as [H _].
Qed.

(** ** Aggregations *)
Lemma aggPort_wf s p : aggPort s = Ok p -> portAgg_wf p.
Proof.
  unfold aggPort, portAgg_wf. case_bool; [by intros [= <-]|]. case_bool; [by intros [= <-]|].
  destruct (cut "-" _) as [[a b]|].
  - destruct (ParseUint (TrimSpace a) 16) as [lo|] eqn:Ea; [|done]. destruct (ParseUint (TrimSpace b) 16) as [hi|] eqn:Eb; [|done].
    destruct (Z.ltb_spec hi lo); [done|]. intros [= <-]. cbn.
    apply ParseUint_width in Ea, Eb. rewrite !u16_small by done. unfold in_width in *. lia.
  - destruct (ParseUint _ 32) as [st|] eqn:Es; [|done]. destruct (Z.eqb_spec st 0); [done|]. intros [= <-]. cbn.
    apply ParseUint_width in Es. rewrite u32_small by done. unfold in_width in *. lia.
Qed.

Lemma aggAddrBits_range s famSet fam b :
  aggAddrBits s famSet fam = Ok b -> -1 <= b <= 128 /\ (famSet = true -> fam = FamilyIPv4 -> b <= 32).
Proof.
  unfold aggAddrBits. case_bool; [intros [= <-]; split; [lia|intros; lia]|]. intros H. next_stmt H.
  unfold parseSlashBits in S. destruct (Atoi _) as [z|]; [|done].
  destruct (Z.ltb_spec z 0); [done|]. destruct (Z.ltb_spec 128 z); [done|]. injection S as <-.
  destruct (famSet && bool_decide (fam = FamilyIPv4) && (32 <? z)) eqn:Ec; [done|]. injection H as <-.
  split; [lia|]. intros -> ->. rewrite bool_decide_true in Ec by done. cbn [andb] in Ec. apply Z.ltb_ge in Ec. lia.
Qed.

(** ** Gates *)
Definition gate_for (famSet : bool) (fam : Family) (f : spreadField) : Prop :=
  field_ok f = true /\ 1 <= sf_minRatio f <= 100 /\
  match sf_kind f with
  | spreadSrc | spreadDst => famSet = true /\ sf_ipv6 f = bool_decide (fam = FamilyIPv6)
  | _ => True
  end.

Lemma ip_gate_ok kind minRatio bits famSet fam field f :
  kind = spreadSrc \/ kind = spreadDst -> 1 <= minRatio <= 100 ->
  ip_gate kind minRatio bits famSet fam field = Ok f -> gate_for famSet fam f.
Proof.
  intros Hk Hm H. unfold ip_gate in H. next_stmt H. injection H as <-. unfold ipBuckets in S.
  destruct famSet; [|done]. cbn [negb] in S.
  set (host := if bool_decide (fam = FamilyIPv6) then 128 else 32) in *.
  destruct (Z.ltb_spec bits 0); [done|]. destruct (Z.leb_spec host bits); [done|]. cbn [orb] in S. injection S as <-.
  assert (field_ok {| sf_kind := kind; sf_buckets := if 5 <=? host - bits then spreadMaxBuckets else Z.shiftl 1 (host - bits);
     sf_minRatio := minRatio; sf_ipv6 := bool_decide (fam = FamilyIPv6); sf_maskBits := bits; sf_portLo := 0; sf_portSize := 0;
     sf_portMod := false |} = true) as Hf.
  { unfold field_ok. cbn [sf_kind sf_buckets sf_maskBits sf_ipv6]. fold host. rewrite !andb_true_iff, !Z.ltb_lt, !Z.leb_le.
    assert (0 < (if 5 <=? host - bits then spreadMaxBuckets else Z.shiftl 1 (host - bits)) <= spreadMaxBuckets) as Hb.
    { destruct (Z.leb_spec 5 (host - bits)); [unfold spreadMaxBuckets; lia|]. rewrite Z.shiftl_1_l. unfold spreadMaxBuckets.
      split; [apply Z.pow_pos_nonneg; lia|]. assert (2 ^ (host - bits) <= 2 ^ 4) by (apply Z.pow_le_mono_r; lia). lia. }
    split_and!; try lia. by destruct Hk as [-> | ->]. }
  split; [exact Hf|]. split; [exact Hm|]. by destruct Hk as [-> | ->].
Qed.

Lemma port_gate_ok kind minRatio p fam field f famSet :
  kind = spreadSrcPort \/ kind = spreadDstPort -> 1 <= minRatio <= 100 -> portAgg_wf p ->
  port_gate kind minRatio p fam field = Ok f -> gate_for famSet fam f.
Proof.
  intros Hk Hm Hp H. unfold port_gate in H. next_stmt H. injection H as <-. unfold portSpread in S. next_stmt S.
  destruct (Z.ltb_spec z1 2); [done|]. injection S as <- <- <- <-.
  assert (0 <= v0 < 2 ^ 32 /\ z1 < 2 ^ 32) as [Hlo Hsz].
  { unfold portAgg_wf in Hp. destruct (pa_mode p); [done|injection S0 as <- <- <-; lia| |injection S0 as <- <- <-; lia].
    injection S0 as <- <- <-. split; [lia|]. apply u32_width. }
  assert (0 < (if spreadMaxBuckets <? z1 then spreadMaxBuckets else z1) <= spreadMaxBuckets) as Hb.
  { destruct (Z.ltb_spec spreadMaxBuckets z1); unfold spreadMaxBuckets in *; lia. }
  split; [|split; [exact Hm|by destruct Hk as [-> | ->]]].
  unfold field_ok. cbn [sf_kind sf_buckets sf_maskBits sf_ipv6 sf_portLo sf_portSize].
  rewrite !andb_true_iff, !Z.ltb_lt, !Z.leb_le. split_and!; try lia; [by destruct (bool_decide _)|].
  destruct Hk as [-> | ->]; rewrite !andb_true_iff, !Z.ltb_lt, !Z.leb_le; lia.
Qed.

Lemma compile_gate_ok sb db sp dp famSet fam it f :
  portAgg_wf sp -> portAgg_wf dp -> compile_gate sb db sp dp famSet fam it = Ok f -> gate_for famSet fam f.
Proof.
  intros H1 H2. unfold compile_gate. destruct (Z.ltb_spec (ri_MinRatio it) 1); [done|].
  destruct (Z.ltb_spec 100 (ri_MinRatio it)); [done|]. cbn [orb].
  case_bool; [intros Hg%wrapc_Ok; eapply ip_gate_ok, Hg; [by left|lia]|].
  case_bool; [intros Hg%wrapc_Ok; eapply ip_gate_ok, Hg; [by right|lia]|].
  case_bool; [intros Hg%wrapc_Ok; eapply port_gate_ok, Hg; [by left|lia|done]|].
  case_bool; [intros Hg%wrapc_Ok; eapply port_gate_ok, Hg; [by right|lia|done]|done].
Qed.

Lemma compileRatio_ok items sb db sp dp famSet fam fs :
  portAgg_wf sp -> portAgg_wf dp -> compileRatio items sb db sp dp famSet fam = Ok fs -> Forall (gate_for famSet fam) fs.
Proof.
  intros H1 H2 H%result_map_Ok. induction H as [|it f its fs Hf _ IH]; [constructor|].
  constructor; [exact (compile_gate_ok _ _ _ _ _ _ _ _ H1 H2 Hf)|done].
Qed.

(** ** History *)

(** A ring is absent, or has slots of a positive resolution that make up its
    configured duration. *)
Definition ring_spec_ok (res slots : Z) : Prop := 0 < res < 2 ^ 63 /\ 0 < slots /\ slots * res < 2 ^ 63.

Record history_spec_ok (h : historySpec) : Prop := {
  hs_max : 0 < maxInstances h;
  hs_fine : ring_spec_ok (fineResolution h) (fineSlots h);
  hs_medium : mediumSlots h = 0 \/ ring_spec_ok (mediumResolution h) (mediumSlots h);
  hs_coarse : coarseSlots h = 0 \/ ring_spec_ok (coarseResolution h) (coarseSlots h)
}.

Definition RingConfig_wf (c : RingConfig) : Prop := - 2 ^ 63 <= rc_Resolution c < 2 ^ 63 /\ - 2 ^ 63 <= rc_Duration c < 2 ^ 63.

Lemma compileRing_ok c field res slots :
  RingConfig_wf c -> compileRing c field = Ok (res, slots) -> ring_spec_ok res slots /\ slots * res = rc_Duration c.
Proof.
  intros [Hr Hd]. unfold compileRing. destruct (Z.leb_spec (rc_Resolution c) 0); [done|].
  destruct (Z.leb_spec (rc_Duration c) 0); [done|]. cbn [orb].
  destruct (Z.eqb_spec (Z.rem (rc_Duration c) (rc_Resolution c)) 0) as [E|]; [|done]. cbn [negb].
  destruct (Z.leb_spec (Z.quot (rc_Duration c) (rc_Resolution c)) 0); [done|]. intros [= <- <-].
  pose proof (Z.quot_rem' (rc_Duration c) (rc_Resolution c)). unfold ring_spec_ok. split; lia.
Qed.

Lemma compileOptionalRing_ok c field res slots :
  RingConfig_wf c -> compileOptionalRing c field = Ok (res, slots) -> slots = 0 \/ ring_spec_ok res slots.
Proof.
  intros Hc. unfold compileOptionalRing. destruct (_ && _); [intros [= <- <-]; by left|].
  intros [H _]%compileRing_ok; [by right|done].
Qed.

Definition HistoryConfig_wf (c : HistoryConfig) : Prop :=
  RingConfig_wf (hc_Fine c) /\ RingConfig_wf (hc_Medium c) /\ RingConfig_wf (hc_Coarse c).

Lemma compileHistory_ok c h : HistoryConfig_wf c -> compileHistory c = Ok h -> history_spec_ok h.
Proof.
  intros (W1 & W2 & W3). unfold compileHistory. destruct (Z.leb_spec (hc_MaxInstances c) 0); [done|].
  intros Hc. next_stmt Hc. next_stmt Hc. next_stmt Hc. injection Hc as <-.
  apply compileRing_ok in S as [? _]; [|done]. apply compileOptionalRing_ok in S0; [|done]. apply compileOptionalRing_ok in S1; [|done].
  by split.
Qed.

(** ** Terms *)
Definition resolution_of (h : historySpec) (k : ringKind) : Z :=
  match k with ringFine => fineResolution h | ringMedium => mediumResolution h | ringCoarse => coarseResolution h end.
Definition slots_of (h : historySpec) (k : ringKind) : Z :=
  match k with ringFine => fineSlots h | ringMedium => mediumSlots h | ringCoarse => coarseSlots h end.

(** A term that reads a ring: whole slots of the ring, within its span. *)
Record term_reads (h : historySpec) (t : term) : Prop := {
  tr_ring : ring_spec_ok (resolution_of h (t_ring t)) (slots_of h (t_ring t));
  tr_res : t_ringRes t = resolution_of h (t_ring t);
  tr_slots : 0 < t_slots t;
  tr_window : t_slots t * t_ringRes t = t_window t;
  tr_offset : 0 <= t_offset t;
  tr_whole : Z.rem (t_offset t) (t_ringRes t) = 0;
  tr_span : i64 (t_window t + t_offset t) <= slots_of h (t_ring t) * t_ringRes t
}.

Lemma choose_loop_in cs window offset best c :
  choose_loop cs window offset best = Some c ->
  best = Some c \/ (c ∈ cs /\ cand_fits c window offset = true).
Proof.
  revert best. induction cs as [|d cs IH]; intros best; cbn [choose_loop]; [by left|]. intros [H|[Hin Hf]]%IH.
  - destruct (cand_fits d window offset) eqn:Ef; [|by left]. destruct best as [b|].
    + destruct (c_res b <? c_res d); [|by left]. injection H as ->. right. split; [by left|done].
    + injection H as ->. right. split; [by left|done].
  - right. split; [by right|done].
Qed.

(** No candidate that fits is coarser than the chosen one. *)
Lemma choose_loop_coarsest cs window offset best c :
  choose_loop cs window offset best = Some c ->
  (forall b, best = Some b -> c_res b <= c_res c) /\ Forall (fun d => cand_fits d window offset = true -> c_res d <= c_res c) cs.
Proof.
  revert best. induction cs as [|d cs IH]; intros best; cbn [choose_loop].
  { intros ->. split; [intros b [= <-]; lia|constructor]. }
  intros [H1 H2]%IH. split.
  - intros b ->. destruct (cand_fits d window offset).
    + destruct (Z.ltb_spec (c_res b) (c_res d)); specialize (H1 _ eq_refl); lia.
    + by apply H1.
  - constructor; [|done]. intros Hf. rewrite Hf in H1. destruct best as [b|]; [|by apply H1].
    destruct (Z.ltb_spec (c_res b) (c_res d)); specialize (H1 _ eq_refl); lia.
Qed.

Lemma ring_cands_spec h c :
  history_spec_ok h -> c ∈ ring_cands h ->
  c_res c = resolution_of h (c_kind c) /\ ring_spec_ok (resolution_of h (c_kind c)) (slots_of h (c_kind c)) /\
  c_span c = slots_of h (c_kind c) * resolution_of h (c_kind c).
Proof.
  intros [_ Hf Hm Hc]. unfold ring_cands. rewrite !elem_of_app. intros [H|[H|H]].
  - apply list_elem_of_singleton in H as ->. cbn. destruct Hf as (? & ? & ?). rewrite i64_small by nia. done.
  - destruct (Z.ltb_spec 0 (mediumSlots h)); [|by apply not_elem_of_nil in H]. apply list_elem_of_singleton in H as ->. cbn.
    destruct Hm as [?|(? & ? & ?)]; [lia|]. rewrite i64_small by nia. done.
  - destruct (Z.ltb_spec 0 (coarseSlots h)); [|by apply not_elem_of_nil in H]. apply list_elem_of_singleton in H as ->. cbn.
    destruct Hc as [?|(? & ? & ?)]; [lia|]. rewrite i64_small by nia. done.
Qed.

Lemma compile_term_reads h name tc t :
  history_spec_ok h -> compile_term h name tc = Ok t ->
  t_name t = name /\ validIdent name = true /\
  (if isStats (t_metric t) then 0 <= t_window t /\ 0 <= t_offset t else term_reads h t).
Proof.
  intros Hh H. unfold compile_term in H. next_stmt H. next_stmt H. next_stmt H. apply negb_false_iff in S.
  destruct (isStats v0) eqn:Es.
  - next_stmt H. apply Z.ltb_ge in S2. destruct (Z.ltb_spec 0 (tc_Window tc)).
    + next_stmt H. next_stmt H. apply Z.ltb_ge in S3. injection H as <-. cbn. rewrite Es. split_and!; done || lia.
    + injection H as <-. cbn. rewrite Es. split_and!; done || lia.
  - next_stmt H. next_stmt H. next_stmt H. apply Z.leb_gt in S2. apply Z.ltb_ge in S3. injection H as <-. cbn. rewrite Es.
    split; [done|]. split; [done|]. unfold chooseRing in S4. destruct (choose_loop _ _ _ _) as [c|] eqn:Ec; [|done].
    injection S4 as <- <-. apply choose_loop_in in Ec as [[=]|[Hin Hfit]].
    destruct (ring_cands_spec h c Hh Hin) as (Hres & Hspec & Hspan). unfold cand_fits in Hfit.
    apply andb_true_iff in Hfit as [[[Hw%Z.ltb_ge Hwr%negb_false_iff%Z.eqb_eq]%orb_false_iff Hor%negb_false_iff%Z.eqb_eq]%negb_true_iff%orb_false_iff Hs%negb_true_iff%Z.ltb_ge].
    pose proof (Z.quot_rem' (tc_Window tc) (c_res c)) as Hq. pose proof Hspec as (? & ? & ?).
    split; cbn; [done|done| |lia|lia|done|lia]. apply Z.quot_str_pos. lia.
Qed.

Lemma compileTerms_ok o c h ts :
  history_spec_ok h -> compileTerms o c h = Ok ts ->
  ts <> [] /\ NoDup (t_name <$> ts) /\
  Forall (fun t => validIdent (t_name t) = true /\
                   if isStats (t_metric t) then 0 <= t_window t /\ 0 <= t_offset t else term_reads h t) ts.
Proof.
  intros Hh. unfold compileTerms. case_bool_decide as He; [done|]. intros H%result_map_Ok.
  assert (t_name <$> ts = (range_list o (map_to_list (tg_Terms c))).*1) as Hn.
  { induction H as [|[n tc] t l ts Ht _ IH]; [done|]. cbn [fmap list_fmap fst snd] in *.
    apply compile_term_reads in Ht as (-> & _); [|done]. by f_equal. }
  split; [|split].
  - intros ->. assert (range_list o (map_to_list (tg_Terms c)) = []) as E by (by inversion H).
    pose proof (range_perm o (map_to_list (tg_Terms c))) as Hp. rewrite E in Hp. apply Permutation_nil_l in Hp.
    symmetry in Hp. by apply map_to_list_empty_iff in Hp.
  - rewrite Hn. rewrite (range_perm o). apply NoDup_fst_map_to_list.
  - clear Hn He. induction H as [|[n tc] t l ts Ht _ IH]; constructor; [|done].
    by apply compile_term_reads in Ht as (-> & ? & ?).
Qed.

(** ** Templates *)

(** Every variable of an emission template is one the identity provides. *)
Definition template_resolves {Program} (r : Rule Program) (f : emitField) : Prop :=
  ef_mode f = emitTemplate -> Forall (fun v => forall d, is_Some (resolveDescriptorVar r d v)) (vars (ef_tmpl f)).

Lemma bad_var_none allowed t : bad_var allowed t = None -> Forall (fun v => v ∈ allowed) (vars t).
Proof.
  unfold bad_var. intros H. apply Forall_forall. intros v Hv.
  pose proof (find_none _ _ H v (proj1 (list_elem_of_In _ _) Hv)) as Hn. apply negb_false_iff in Hn. unfold one_of in Hn.
  apply existsb_exists in Hn as (x & Hx & E%String.eqb_eq). subst. by apply list_elem_of_In.
Qed.

Lemma descriptorVars_resolve {Program} (r : Rule Program) d v : v ∈ descriptorVars -> is_Some (resolveDescriptorVar r d v).
Proof.
  unfold descriptorVars. rewrite !elem_of_cons. intros [->|[->|[->|[->|[->|[->|[->|[->|H]]]]]]]]; [by eexists..|].
  by apply not_elem_of_nil in H.
Qed.

Definition emit_fields (a : flowSpecAction) : list emitField :=
  [fa_family a; fa_proto a; fa_src a; fa_dst a; fa_srcPort a; fa_dstPort a; fa_icmpType a; fa_icmpCode a].

Lemma validateVars_resolves {Program} (r : Rule Program) a desc names :
  validateVars a desc names = Ok tt -> Forall (template_resolves r) (emit_fields a).
Proof.
  unfold validateVars. intros H. next_stmt H. apply result_map_Ok in S.
  assert (forall n f u, check_field (n, f) = Ok u -> template_resolves r f) as Hc.
  { intros n f u Hn Hm. unfold check_field in Hn. cbn [fst snd] in Hn. rewrite Hm in Hn.
    destruct (bad_var _ _) eqn:E; [done|]. apply bad_var_none in E. eapply Forall_impl; [exact E|].
    intros v' Hv d. by apply descriptorVars_resolve. }
  apply (Forall_fmap snd (template_resolves r)
    [("family", fa_family a); ("proto", fa_proto a); ("src_prefix", fa_src a); ("dst_prefix", fa_dst a);
     ("src_port", fa_srcPort a); ("dst_port", fa_dstPort a); ("icmp_type", fa_icmpType a); ("icmp_code", fa_icmpCode a)]).
  clear H. induction S as [|[n f] u l us Hu _ IH]; constructor; [by eapply Hc|done].
Qed.

(** ** Compiled rules *)
Definition blank (s : string) : bool := String.eqb (TrimSpace s) "".

(** No emitted field is overridden. *)
Definition emits_defaults (c : FlowSpecConfig) : bool :=
  blank (fc_Family c) && blank (fc_Proto c) && blank (fc_SrcPrefix c) && blank (fc_DstPrefix c) && blank (fc_SrcPort c) &&
  blank (fc_DstPort c) && blank (fc_TCPFlags c) && blank (fc_ICMPType c) && blank (fc_ICMPCode c).

Lemma compileField_blank s f : blank s = true -> compileField s = Ok f -> ef_mode f = emitDefault.
Proof. unfold blank, compileField. intros ->. by intros [= <-]. Qed.

Lemma compileAction_spec c a :
  compileAction c = Ok a ->
  0 < fa_ttl a /\
  (blank (fc_Family c) = true -> blank (fc_Proto c) = true -> blank (fc_SrcPrefix c) = true -> blank (fc_DstPrefix c) = true ->
   blank (fc_SrcPort c) = true -> blank (fc_DstPort c) = true -> blank (fc_ICMPType c) = true -> blank (fc_ICMPCode c) = true ->
   default_action a).
Proof.
  intros H. unfold compileAction in H. do 10 next_stmt H. apply Z.leb_gt in S0. injection H as <-. split; [done|].
  intros. unfold default_action. cbn.
  repeat (apply Forall_cons_2; [eapply compileField_blank; [|eassumption]; assumption|]). apply Forall_nil_2.
Qed.

Lemma compileTCPEmit_blank s t : blank s = true -> compileTCPEmit s = Ok t -> te_mode t = emitDefault.
Proof. unfold blank, compileTCPEmit. intros ->. by intros [= <-]. Qed.

Lemma compileTCPEmit_wf s t : compileTCPEmit s = Ok t -> flags_wf (te_care t) (te_want t).
Proof.
  unfold compileTCPEmit. case_bool; [intros [= <-]; apply zero_flags_wf|]. case_bool; [intros [= <-]; apply zero_flags_wf|].
  destruct (parseTCPFlags _) as [[c w]|] eqn:Ef; [|done]. intros [= <-]. by apply parseTCPFlags_wf in Ef as [? _].
Qed.

Lemma protoOnlyTCP_spec l : protoOnlyTCP l = true -> nonempty l = true /\ Forall (eq protoTCP) l.
Proof.
  unfold protoOnlyTCP. rewrite andb_true_iff. intros [H ?]. split; [done|]. apply Forall_forall. intros p Hp%list_elem_of_In.
  rewrite forallb_forall in H. symmetry. by apply Z.eqb_eq, H.
Qed.

Lemma sketchWidth_bound n : sketchWidth n < 2 ^ 63.
Proof.
  unfold sketchWidth. destruct (Z.ltb_spec (i64 (16 * n)) 1024); [lia|]. unfold i64.
  pose proof (Z.mod_pos_bound (16 * n + 2 ^ 63) (2 ^ 64)). lia.
Qed.

Lemma port_filter_wf field ps l : port_filter field ps = Ok l -> Forall (in_width 16) l.
Proof.
  intros H%result_map_Ok. induction H as [|p q ps qs Hp _ IH]; constructor; [|done].
  destruct (_ || _); [done|]. injection Hp as <-. apply u16_width.
Qed.
Lemma compileU8List_wf vs field l : compileU8List vs field = Ok l -> Forall (in_width 8) l.
Proof.
  intros H%result_map_Ok. induction H as [|p q ps qs Hp _ IH]; constructor; [|done].
  destruct (_ || _); [done|]. injection Hp as <-. apply u8_width.
Qed.
Lemma parseProtoName_wf s p : parseProtoName s = Ok p -> in_width 8 p.
Proof.
  unfold parseProtoName. repeat (case_bool; [intros [= <-]; unfold in_width; vm_compute; split; done|]).
  destruct (ParseUint _ 8); [|done]. intros [= <-]. apply u8_width.
Qed.
Lemma proto_filter_wf ns l : proto_filter ns = Ok l -> Forall (in_width 8) l.
Proof.
  intros H%result_map_Ok. induction H as [|p q ps qs Hp _ IH]; constructor; [|done].
  by apply wrapc_Ok, parseProtoName_wf in Hp.
Qed.

(** Everything the engine relies on, for a rule fresh from the compiler. *)
Record compiled {Program} (r : Rule Program) : Prop := {
  cp_ok : rule_ok r;
  cp_empty : st_items (r_store r) = ∅;
  cp_history : history_spec_ok (r_history r) /\ st_history (r_store r) = r_history r;
  cp_filters : Forall (in_width 8) (r_protoFilter r) /\ Forall (in_width 16) (r_srcPortFilter r) /\
    Forall (in_width 16) (r_dstPortFilter r) /\ Forall (in_width 8) (r_icmpTypeFilter r) /\ Forall (in_width 8) (r_icmpCodeFilter r);
  cp_flags : flags_wf (r_tcpCare r) (r_tcpWant r) /\ (r_tcpCare r <> 0 -> nonempty (r_protoFilter r) = true /\ Forall (eq protoTCP) (r_protoFilter r));
  cp_emit_flags : flags_wf (te_care (r_tcpEmit r)) (te_want (r_tcpEmit r));
  cp_terms : r_terms r <> [] /\ NoDup (t_name <$> r_terms r) /\
    Forall (fun t => validIdent (t_name t) = true /\
                     if isStats (t_metric t) then 0 <= t_window t /\ 0 <= t_offset t else term_reads (r_history r) t) (r_terms r);
  cp_times : 0 < fa_ttl (r_action r) /\ fineResolution (r_history r) <= r_emitInterval r;
  cp_templates : Forall (template_resolves r) (emit_fields (r_action r))
}.

Lemma compileRule_compiled {Program} ec fp o cfg (r : Rule Program) :
  HistoryConfig_wf (cfg_History cfg) -> compileRule ec fp o cfg = Ok r ->
  compiled r /\ (emits_defaults (cfg_FlowSpec cfg) = true -> emits_identity r).
Proof.
  intros Hw H. unfold compileRule in H. do 28 next_stmt H.
  apply proto_filter_wf in S1. apply port_filter_wf in S4, S5. apply compileU8List_wf in S6, S7.
  apply flags_filter_wf in S8. apply aggPort_wf in S12, S13. apply compileRatio_ok in S17; [|done..].
  apply compileHistory_ok in S18 as Hh; [|done]. apply compileTerms_ok in S19; [|done].
  destruct (compileAction_spec _ _ S22) as [Httl Hdef]. destruct v26. apply (validateVars_resolves r) in S26.
  assert (v8 <> 0 -> nonempty v1 = true /\ Forall (eq protoTCP) v1) as Htcp.
  { intros Hne. apply protoOnlyTCP_spec. rewrite (proj2 (Z.eqb_neq v8 0) Hne) in S24. cbn [negb orb andb] in S24.
    by apply negb_false_iff in S24. }
  assert (history_ok v18) as Hhk by (destruct Hh as [? (? & ? & ?) _ _]; unfold history_ok; lia).
  injection H as <-. split.
  - split; cbn; try done.
    + split; cbn; try done; [apply newHeavyKeeper_ok, sketchWidth_bound|apply newInstanceStore_ok; by destruct Hh|].
      eapply Forall_impl; [exact S17|]. intros f (Hf & _ & Hk). by split.
    + by eapply compileTCPEmit_wf.
    + split; [done|]. destruct (Z.ltb_spec (fa_ttl v22 ÷ 2) (fineResolution v18)); lia.
  - unfold emits_defaults. rewrite !andb_true_iff. intros [[[[[[[[B1 B2] B3] B4] B5] B6] B7] B8] B9].
    split; cbn; try done; [by apply Hdef|exact (compileTCPEmit_blank _ _ B7 S23)].
Qed.

(** ** A compiled term reads exactly its window *)

(** The samples an instance is fed with. *)
Definition instance_feed (i : instance) (hs : list sample) : option instance :=
  foldl (fun acc x => i ← acc; instance_add i (sm_at x) (sm_len x) (sm_weight x)) (Some i) hs.

Definition opt_feed (r : option sampleRing) (hs : list sample) : option (option sampleRing) :=
  foldl (fun acc x => r ← acc; add_optional r (sm_at x) (sm_len x) (sm_weight x)) (Some r) hs.

Lemma opt_feed_Some r hs r' : opt_feed (Some r) hs = Some r' -> exists r2, r' = Some r2 /\ ring_feed r hs = Some r2.
Proof.
  revert r'. induction hs as [|x hs IH] using rev_ind; intros r'.
  - intros [= <-]. by exists r.
  - unfold opt_feed, ring_feed. rewrite !foldl_app. cbn [foldl]. fold (opt_feed (Some r) hs). fold (ring_feed r hs).
    destruct (opt_feed (Some r) hs) as [r1|] eqn:E; cbn [mbind option_bind]; [|done].
    destruct (IH _ eq_refl) as (r2 & -> & ->). cbn [add_optional mbind option_bind].
    destruct (ring_add r2 _ _ _) as [r3|]; cbn; [|done]. intros [= <-]. by exists r3.
Qed.

(** Feeding an instance feeds each of its rings. *)
Lemma instance_feed_rings i hs i' :
  instance_feed i hs = Some i' ->
  ring_feed (i_fine i) hs = Some (i_fine i') /\ opt_feed (i_medium i) hs = Some (i_medium i') /\
  opt_feed (i_coarse i) hs = Some (i_coarse i').
Proof.
  revert i'. induction hs as [|x hs IH] using rev_ind; intros i'; [by intros [= <-]|].
  unfold instance_feed, ring_feed, opt_feed. rewrite !foldl_app. cbn [foldl].
  fold (instance_feed i hs). fold (ring_feed (i_fine i) hs). fold (opt_feed (i_medium i) hs). fold (opt_feed (i_coarse i) hs).
  destruct (instance_feed i hs) as [i1|]; cbn [mbind option_bind]; [|done].
  destruct (IH _ eq_refl) as (-> & -> & ->). cbn [mbind option_bind]. unfold instance_add.
  destruct (ring_add (i_fine i1) _ _ _) as [f|]; cbn [mbind option_bind]; [|done].
  destruct (add_optional (i_medium i1) _ _ _) as [m|]; cbn [mbind option_bind]; [|done].
  destruct (add_optional (i_coarse i1) _ _ _) as [c|]; cbn [mbind option_bind]; [|done]. by intros [= <-].
Qed.

Lemma fed_ring h d t0 hs inst k :
  ring_spec_ok (resolution_of h k) (slots_of h k) ->
  instance_feed (newInstance d h t0) hs = Some inst ->
  exists r, ringFor inst k = Some r /\ ring_feed (newSampleRing (slots_of h k) (resolution_of h k)) hs = Some r.
Proof.
  intros (Hr & Hs & _) (F1 & F2 & F3)%instance_feed_rings. cbn in F1, F2, F3.
  assert (forall n res, 0 < n -> 0 < res -> newOptionalSampleRing n res = Some (newSampleRing n res)) as Hopt.
  { intros n res ? ?. unfold newOptionalSampleRing. by rewrite (proj2 (Z.leb_gt _ _)), (proj2 (Z.leb_gt _ _)) by lia. }
  destruct k; cbn in *; [by exists (i_fine inst)| |].
  - rewrite Hopt in F2 by lia. apply opt_feed_Some in F2 as (r2 & -> & ?). by exists r2.
  - rewrite Hopt in F3 by lia. apply opt_feed_Some in F3 as (r2 & -> & ?). by exists r2.
Qed.

Lemma ep_sub res now off :
  0 < res -> 0 <= off <= now -> now < 2 ^ 63 -> Z.rem off res = 0 -> ep res (now - off) = ep res now - Z.quot off res.
Proof.
  intros Hr Ho Hn Hrem. unfold ep. rewrite !i64_small by lia. rewrite !Z.quot_div_nonneg by lia.
  rewrite Z.rem_mod_nonneg in Hrem by lia. pose proof (Z.div_mod off res ltac:(lia)) as Hd.
  replace (now - off) with (now + (- (off / res)) * res) by lia. rewrite Z.div_add by lia. lia.
Qed.

(** C32: trigger terms are exact.  For every packet- or bit-rate term of a rule
    the compiler accepts, the ring the compiler chose makes the term's value at
    [now] the exact total (or per-slot peak) of the samples of its window: the
    [window / resolution] epochs that end [offset] before [now], whatever other
    samples the instance was fed with, provided none arrived later than the span
    of the ring and none lies in the future. *)
Theorem compiled_terms_read_their_window {Program} ec fp o cfg (r : Rule Program) (t : term) d t0 hs inst now stats :
  HistoryConfig_wf (cfg_History cfg) -> compileRule ec fp o cfg = Ok r ->
  t ∈ r_terms r -> isStats (t_metric t) = false ->
  instance_feed (newInstance d (r_history r) t0) hs = Some inst ->
  fresh (slots_of (r_history r) (t_ring t)) (t_ringRes t) hs ->
  Forall (fun x => ep (t_ringRes t) (sm_at x) <= ep (t_ringRes t) now) hs ->
  t_window t + t_offset t < 2 ^ 63 -> t_offset t <= now -> t_window t <= now < 2 ^ 63 ->
  0 < t_ringRes t /\ t_slots t * t_ringRes t = t_window t /\
  termValue t inst now stats = Some (term_reference (t_ringRes t) (ep (t_ringRes t) (now - t_offset t)) t hs).
Proof.
  intros Hw Hc Ht Hst Hfeed Hfresh Hpast Hov Hoff Hnow. apply compileRule_compiled in Hc as [Hc _]; [|done].
  destruct (cp_terms r Hc) as (_ & _ & Hts). rewrite Forall_forall in Hts. destruct (Hts t Ht) as [_ Hreads].
  rewrite Hst in Hreads. destruct Hreads as [Hspec Hres Hsl Hwin Ho0 Hrem Hspan].
  pose proof Hspec as (Hr & Hs & _). rewrite <-Hres in Hr. assert (0 < t_window t) by nia. rewrite i64_small in Hspan by lia.
  destruct (fed_ring _ _ _ _ _ _ Hspec Hfeed) as (ring & Hring & Hrf). rewrite <-Hres in Hrf.
  destruct (ring_feed_ok (slots_of (r_history r) (t_ring t)) (t_ringRes t) hs Hs ltac:(lia) Hfresh) as (ring' & Hrf' & Hok).
  rewrite Hrf in Hrf'. injection Hrf' as <-. specialize (Hok _ Hpast).
  split; [lia|]. split; [done|]. unfold termValue. rewrite Hst, Hring.
  pose proof (Z.quot_rem' (t_offset t) (t_ringRes t)) as Hq. rewrite Hrem in Hq.
  assert (0 <= Z.quot (t_offset t) (t_ringRes t)) by (apply Z.quot_pos; lia).
  pose proof (ep_range (t_ringRes t) now ltac:(lia)).
  assert (0 <= ep (t_ringRes t) (now - t_offset t)) as Hend by (unfold ep; rewrite i64_small by lia; apply Z.quot_pos; lia).
  assert (t_slots t <= t_window t) by nia.
  eapply aggregate_total; [exact Hs|lia|exact Hok|exact Hsl|lia| | |lia]; rewrite ep_sub by (done || lia); [nia|lia].
Qed.

Lemma compile_rules_from_each {Program} ec fp o i cfgs (rs : list (Rule Program)) :
  compile_rules_from ec fp o i cfgs = Ok rs -> Forall2 (fun cfg r => compileRule ec fp o cfg = Ok r) cfgs rs.
Proof.
  revert i rs. induction cfgs as [|cfg cfgs IH]; intros i rs; cbn [compile_rules_from]; [intros [= <-]; constructor|].
  intros H. next_stmt H. apply rewrapc_Ok in S. next_stmt H. injection H as <-. constructor; [done|by eapply IH].
Qed.


(** ** A concrete rule *)
Definition cfg_example : RuleConfig :=
  {| cfg_Name := "syn-flood";
     cfg_Match := {| mc_Family := "ipv4"; mc_Proto := ["tcp"]; mc_Src := ""; mc_Dst := "192.0.2.0/24"; mc_SrcPort := [];
       mc_DstPort := [443]; mc_PacketLen := {| cu_LT := 0; cu_LTE := 0; cu_GT := 0; cu_GTE := 0 |}; mc_TCPFlags := "syn,!ack";
       mc_ICMPType := []; mc_ICMPCode := [] |};
     cfg_Aggregate := {| ac_Proto := ""; ac_Src := "/0"; ac_Dst := ""; ac_SrcPort := "all"; ac_DstPort := "exact";
       ac_ICMPType := ""; ac_ICMPCode := "" |};
     cfg_History := {| hc_Fine := {| rc_Resolution := Second; rc_Duration := 60 * Second |};
       hc_Medium := {| rc_Resolution := 10 * Second; rc_Duration := 600 * Second |};
       hc_Coarse := {| rc_Resolution := 0; rc_Duration := 0 |}; hc_MaxInstances := 64 |};
     cfg_Trigger := {| tg_Terms := {["pps" := {| tc_Metric := "pps"; tc_Window := 30 * Second; tc_Offset := 10 * Second; tc_Agg := "avg" |}]};
       tg_Expr := "pps > 1000"; tg_Sustained := 0 |};
     cfg_FlowSpec := {| fc_Action := "drop"; fc_TTL := 60 * Second; fc_Refresh := None; fc_Family := ""; fc_Proto := "";
       fc_SrcPrefix := ""; fc_DstPrefix := ""; fc_SrcPort := ""; fc_DstPort := ""; fc_TCPFlags := ""; fc_ICMPType := ""; fc_ICMPCode := "" |};
     cfg_Description := "syn flood on {{ dst }} at {{pps}}"; cfg_Rank := "pps";
     cfg_RatioDetection := [{| ri_Name := "src"; ri_MinRatio := 50 |}] |}.

Definition ec_example (src : string) (names : list string) : result gotext unit := Ok tt.
Definition fp_example (cfg : RuleConfig) : string := cfg_Name cfg.

Definition compiled_example : Rule unit :=
  match compileRule ec_example fp_example range_id cfg_example with Ok r => r | Err _ => rule_example end.

Lemma cfg_example_wf : HistoryConfig_wf (cfg_History cfg_example).
Proof. unfold HistoryConfig_wf, RingConfig_wf. cbn. unfold Second. lia. Qed.

(** It compiles: the window and the offset are whole slots of the medium ring. *)
Lemma compiled_example_ok : compileRule ec_example fp_example range_id cfg_example = Ok compiled_example.
Proof. vm_compute. reflexivity. Qed.


Definition term_example : term :=
  {| t_name := "pps"; t_metric := metricPPS; t_agg := aggAvg; t_window := 30 * Second; t_offset := 10 * Second; t_ring := ringMedium;
     t_ringRes := 10 * Second; t_slots := 3 |}.
Definition feed_example : list sample :=
  [{| sm_at := 1000 * Second; sm_len := 60; sm_weight := 100 |}; {| sm_at := 1015 * Second; sm_len := 60; sm_weight := 200 |}].
Definition desc_zero : descriptor := Build_descriptor FamilyIPv4 0 false AddrNone AddrNone 0 0 0 0 0 0 false false.
Definition fed_example : instance :=
  default (newInstance desc_zero (r_history compiled_example) 0)
    (instance_feed (newInstance desc_zero (r_history compiled_example) 0) feed_example).

Lemma compiled_example_term : term_example ∈ r_terms compiled_example.
Proof.
  assert (r_terms compiled_example = [term_example]) as -> by (vm_compute; reflexivity). by apply list_elem_of_singleton.
Qed.

Lemma feed_example_fresh : fresh 60 (10 * Second) feed_example.
Proof.
  intros i j x y Hij Hx Hy. destruct i as [|[|i]], j as [|[|j]]; try lia; try done.
  injection Hx as <-. injection Hy as <-. by vm_compute.
Qed.

Lemma compiled_terms_read_their_window_witness :
  termValue term_example fed_example (1040 * Second) None =
    Some (term_reference (10 * Second) 103 term_example feed_example).
Proof.
  apply (compiled_terms_read_their_window ec_example fp_example range_id cfg_example compiled_example term_example
    desc_zero 0 feed_example fed_example (1040 * Second) None cfg_example_wf compiled_example_ok compiled_example_term).
  - reflexivity.
  - vm_compute. reflexivity.
  - exact feed_example_fresh.
  - repeat apply Forall_cons_2; [..|apply Forall_nil_2]; vm_compute; discriminate.
  - vm_compute. reflexivity.
  - vm_compute. discriminate.
  - split; [vm_compute; discriminate|vm_compute; reflexivity].
Defined.

Example term_example_value : termValue term_example fed_example (1040 * Second) None = Some (f_div (f_of_int 200) (f_of_int 30)).
Proof. vm_compute. reflexivity. Qed.
