(* ===== verification/FindingFacts.v ===== *)
(** * Findings and where they come from

    Every event the run loop queues is the finding of a compiled rule about an
    identity that a decoded sample had; its FlowSpec rule is well formed; and its
    text names the lease it belongs to. *)
From S2P Require Import Prelude GoText Netip Flowspec Packet PacketFacts Float64 DetTypes HeavyKeeper HeavyKeeperFacts Store StoreFacts GoParse GoParseFacts Template DetRule DetEmit DetEmitFacts DetRuleFacts DetEngine DetEngineFacts DetCompile DetCompileFacts SampleFacts Translate TranslateFacts Manager ManagerFacts.
From Stdlib Require Import Ascii.
#[local] Open Scope Z_scope.

Section Findings.
Context {Program : Type} (Pow : float64 -> float64 -> float64) (run : Program -> gmap string float64 -> exprResult).
Implicit Types r : Rule Program.

(** An identity that some sample had, as rule [r] sees it. *)
Definition origin r (seen : list Sample) (k : descriptor) : Prop :=
  exists s, s ∈ seen /\ sample_ok s /\ matches r s = true /\ descriptorFor r s = Some k.

Definition keys_from r0 (seen : list Sample) r : Prop :=
  forall k, is_Some (st_items (r_store r) !! k) -> origin r0 seen k.

Definition emitted_from r (k : descriptor) (ev : Event) : Prop :=
  buildFlowSpec r k = Ok (e_Rule ev) /\ e_ID ev = r_name r +:+ "/" +:+ descriptorString r k /\ e_TTL ev = fa_ttl (r_action r).

(** The finding of one of the rules about an identity it has seen. *)
Definition found (rules : list (Rule Program)) (seen : list Sample) (ev : Event) : Prop :=
  exists r k, r ∈ rules /\ origin r seen k /\ emitted_from r k ev.

Lemma origin_mono r seen seen' k : seen ⊆ seen' -> origin r seen k -> origin r seen' k.
Proof. intros Hs (s & ? & ?). exists s. split; [by apply Hs|done]. Qed.

Lemma found_mono rules seen seen' ev : seen ⊆ seen' -> found rules seen ev -> found rules seen' ev.
Proof. intros Hs (r & k & ? & Ho & ?). exists r, k. split; [done|]. split; [by eapply origin_mono|done]. Qed.

(** ** One rule *)

(** Accounting a sample adds at most its own identity to the pool. *)
Lemma Observe_keys o r s r' k :
  rule_ok r -> sample_ok s -> Observe Pow o r s = Some r' -> is_Some (st_items (r_store r') !! k) ->
  is_Some (st_items (r_store r) !! k) \/ (matches r s = true /\ descriptorFor r s = Some k).
Proof.
  intros Hr Hs H Hk. unfold Observe in H. destruct (matches r s) eqn:Hm; cbn [negb] in H; [|injection H as <-; by left].
  destruct (descriptorFor r s) as [d|] eqn:Ed; [|done]. cbn [mbind option_bind] in H.
  destruct (hk_add_ok Pow (r_sketch r) (hash d) (sketch_weight r s) (ro_sketch r Hr)) as (sk & Esk & Hsk & _). rewrite Esk in H.
  cbn [mbind option_bind] in H. destruct (admit_spec o (r_store r) d sk (s_At s) Hsk (ro_store r Hr)) as (st' & res & Ea & Ha).
  rewrite Ea in H. cbn [mbind option_bind] in H.
  assert (forall k', is_Some (st_items st' !! k') -> is_Some (st_items (r_store r) !! k') \/ k' = d) as Hst.
  { intros k' Hk'. destruct Ha; cbn in Hk'; try (by left); rewrite lookup_insert_is_Some in Hk';
      destruct Hk' as [<-|[_ Hk']]; try (by right); [by left|]. apply lookup_delete_is_Some in Hk' as [_ ?]. by left. }
  assert (is_Some (st_items st' !! k) \/ k = d) as [Hk'| ->]; [|apply Hst in Hk' as [?| ->]; [by left|by right]|by right].
  destruct res as [i|]; [|injection H as <-; by left]. destruct (account r i s _) as [i'|]; [|done].
  injection H as <-. cbn in Hk. rewrite lookup_insert_is_Some in Hk. destruct Hk as [<-|[_ ?]]; [by right|by left].
Qed.

Lemma shouldEmit_key i now iv i' em : shouldEmit i now iv = (i', em) -> i_key i' = i_key i.
Proof. unfold shouldEmit. destruct (i_lastEvent i); [case_bool|]; by intros [= <- <-]. Qed.

Lemma evalInstance_finding o r i now stats env i' ev :
  evalInstance run o r i now stats = Some (env, i', Some ev) -> emitted_from r (i_key i) ev.
Proof.
  unfold evalInstance. destruct (fill_env _ _ _ _ _) as [e|]; [|done]. cbn [mbind option_bind].
  destruct (run (r_expr r) e) as [|[]|]; try done. cbn zeta. case_bool; [done|].
  destruct (shouldEmit _ now _) as [i1 em] eqn:Es. apply shouldEmit_key in Es. destruct em; [|done]. cbn [negb].
  rewrite Es. cbn. destruct (buildFlowSpec r (i_key i)) as [fr|] eqn:Ef; [|done].
  destruct (read_values _ _ _) as [vals|]; [|done]. cbn [mbind option_bind]. intros [= _ _ <-]. by split.
Qed.

Lemma tick_loop_findings o keys r now stats out r' evs :
  rule_ok r -> Forall (fun k => is_Some (st_items (r_store r) !! k)) keys -> tick_loop run o keys r now stats out = Some (r', evs) ->
  (forall k, is_Some (st_items (r_store r') !! k) -> is_Some (st_items (r_store r) !! k)) /\
  exists new, evs = out ++ new /\ Forall (fun ev => exists k, is_Some (st_items (r_store r) !! k) /\ emitted_from r k ev) new.
Proof.
  revert r out. induction keys as [|k keys IH]; intros r out Hr Hk; cbn [tick_loop].
  { intros [= <- <-]. split; [done|]. exists []. by rewrite app_nil_r. }
  apply Forall_cons in Hk as [[i Hi] Hk]. rewrite Hi. cbn [mbind option_bind].
  pose proof Hr as [Hsk Hst Hh Hin _ _ _]. destruct (so_keys _ Hst _ _ Hi) as [Hk1 Hk2].
  destruct (evalInstance_ok run o r _ i now stats (Hin _ _ Hi)) as (env & i' & ev & E & Hi' & Hk' & Hh'). rewrite E. cbn [mbind option_bind].
  set (r1 := set_state r _ _ _ _).
  assert (forall k', is_Some (st_items (r_store r1) !! k') <-> is_Some (st_items (r_store r) !! k')) as Hsame.
  { intros k'. subst r1. cbn. rewrite lookup_insert_is_Some'. split; [intros [<-|]; [by eauto|done]|by right]. }
  intros H. destruct (IH r1 (out ++ option_list ev)) as (Hkeys & new & -> & Hnew); [| |exact H|].
  { apply set_state_ok; [done|done| |done|by apply map_Forall_insert_2]. apply put_instance_ok; [done|by eauto|congruence|congruence]. }
  { eapply Forall_impl; [exact Hk|]. intros. by apply Hsame. }
  split; [intros k' ?%Hkeys; by apply Hsame|]. exists (option_list ev ++ new). rewrite app_assoc. split; [done|].
  apply Forall_app. split.
  - destruct ev as [ev|]; [|constructor]. constructor; [|done]. exists k. split; [by eauto|]. rewrite <-Hk1. by eapply evalInstance_finding.
  - eapply Forall_impl; [exact Hnew|]. intros e (k' & Hk'' & He). exists k'. split; [by apply Hsame|exact He].
Qed.

Lemma Tick_findings o r now stats r' evs :
  rule_ok r -> Tick run Pow o r now stats = Some (r', evs) ->
  (forall k, is_Some (st_items (r_store r') !! k) -> is_Some (st_items (r_store r) !! k)) /\
  Forall (fun ev => exists k, is_Some (st_items (r_store r) !! k) /\ emitted_from r k ev) evs.
Proof.
  intros Hr H. unfold Tick in H. apply tick_loop_findings in H as (Hk & new & -> & Hn); [done|by apply ageSketch_ok|].
  apply Forall_map, Forall_forall. intros [k i] Hin%range_elem%elem_of_map_to_list. cbn. eauto.
Qed.

(** ** The engine *)

(** [r] is rule [r0] at run time, and its pool holds identities of [seen] only. *)
Definition runs_as (seen : list Sample) r0 r : Prop := same_config r0 r /\ rule_ok r /\ keys_from r0 seen r.

Lemma runs_as_mono seen seen' r0 r : seen ⊆ seen' -> runs_as seen r0 r -> runs_as seen' r0 r.
Proof. intros Hs (? & ? & Hk). split; [done|]. split; [done|]. intros k ?%Hk. by eapply origin_mono. Qed.

Lemma Forall2_update (P : Rule Program -> Rule Program -> Prop) rules rs i r r' :
  Forall2 P rules rs -> rs !! i = Some r -> (forall r0, P r0 r -> P r0 r') -> Forall2 P rules (<[i := r']> rs).
Proof.
  intros HF Hi HP. destruct (Forall2_lookup_r _ _ _ _ _ HF Hi) as (r0 & H0 & HP0).
  rewrite <-(list_insert_id rules i r0) by done. apply Forall2_insert; [done|]. by apply HP.
Qed.

Lemma observe_at_seen os is_ rules rs seen s :
  sample_ok s -> s ∈ seen -> Forall2 (runs_as seen) rules rs -> Forall (fun i => (i < length rules)%nat) is_ ->
  exists rs', observe_at Pow os is_ rs s = Some rs' /\ Forall2 (runs_as seen) rules rs'.
Proof.
  intros Hs Hin HF Hlt. revert rs HF. induction Hlt as [|i is' Hi _ IH]; intros rs HF; cbn [observe_at]; [eauto|].
  destruct (lookup_lt_is_Some_2 rs i) as [r Hr]; [by rewrite <-(Forall2_length _ _ _ HF)|]. rewrite Hr. cbn [mbind option_bind].
  destruct (Forall2_lookup_r _ _ _ _ _ HF Hr) as (_ & _ & _ & Hok & _).
  destruct (Observe_ok Pow (os i) r s Hok Hs) as (r' & Ho & Hok' & Hc' & _). rewrite Ho. cbn [mbind option_bind]. apply IH.
  apply (Forall2_update _ _ _ _ r); [done|done|]. intros r0 (Hc & _ & Hk).
  split; [by eapply same_config_trans|]. split; [done|]. intros k Hk'.
  destruct (Observe_keys _ _ _ _ _ Hok Hs Ho Hk') as [?|[Hm Hd]]; [by apply Hk|]. destruct Hc as (? & ? & ? & ? & ->). by exists s.
Qed.

Lemma tick_at_findings os is_ rules rs seen now stats out :
  Forall2 (runs_as seen) rules rs -> Forall (fun i => (i < length rules)%nat) is_ ->
  exists rs' new, tick_at Pow run os is_ rs now stats out = Some (rs', out ++ new) /\
    Forall2 (runs_as seen) rules rs' /\ Forall (found rules seen) new.
Proof.
  intros HF Hlt. revert rs out HF. induction Hlt as [|i is' Hi _ IH]; intros rs out HF; cbn [tick_at].
  { exists rs, []. by rewrite app_nil_r. }
  destruct (lookup_lt_is_Some_2 rs i) as [r Hr]; [by rewrite <-(Forall2_length _ _ _ HF)|]. rewrite Hr. cbn [mbind option_bind].
  destruct (Forall2_lookup_r _ _ _ _ _ HF Hr) as (r0 & H0 & Hc & Hok & Hk).
  destruct (Tick_ok run Pow (os i) r now stats Hok) as (r1 & evs1 & E & Hok1 & Hc1 & _). rewrite E. cbn [mbind option_bind].
  destruct (Tick_findings _ _ _ _ _ _ Hok E) as [Hk1 Hev].
  destruct (IH (<[i := r1]> rs) (out ++ evs1)) as (rs' & new & -> & HF' & Hn).
  { apply (Forall2_update _ _ _ _ r); [done|done|]. intros r0' (Hc' & _ & Hk'). split; [by eapply same_config_trans|]. split; [done|].
    intros k ?%Hk1. by apply Hk'. }
  exists rs', (evs1 ++ new). rewrite app_assoc. split; [done|]. split; [done|]. apply Forall_app. split; [|done].
  eapply Forall_impl; [exact Hev|]. intros ev (k & Hki & He). exists r0, k. split; [by eapply list_elem_of_lookup_2|].
  split; [by apply Hk|]. by destruct Hc as (? & ? & ? & ? & ->).
Qed.

(** ** The run loop *)

(** The engine's indices point into its rules; a step only replaces the rules. *)
Definition indices_in (n : nat) (e : @Engine Program) : Prop :=
  Forall (fun i => (i < n)%nat) (en_anyProto e) /\ (forall p, Forall (fun i => (i < n)%nat) (default [] (en_byProto e !! p))) /\
  Forall (fun i => (i < n)%nat) (en_all e).

Record detector_inv (rules : list (Rule Program)) (seen : list Sample) (rn : @Runner Program) : Prop := {
  di_rules : Forall2 (runs_as seen) rules (en_rules (rn_engine rn));
  di_index : indices_in (length rules) (rn_engine rn);
  di_queue : Forall (found rules seen) (rn_queue rn)
}.

Lemma send_events_found rules seen cap evs q d :
  Forall (found rules seen) q -> Forall (found rules seen) evs ->
  Forall (found rules seen) (foldl (fun st ev => send_event st cap ev) (q, d) evs).1.
Proof.
  revert q d. induction evs as [|ev evs IH]; intros q d Hq He; [done|]. apply Forall_cons in He as [He Hes]. cbn [foldl].
  unfold send_event at 2. case_bool; apply IH; try done. apply Forall_app. split; [done|by constructor].
Qed.

(** Every step of the loop returns, and keeps this. *)
Lemma run_step_findings os rules seen rn i :
  match i with RSample s => sample_ok s /\ s ∈ seen | _ => True end -> detector_inv rules seen rn ->
  exists rn' go, run_step Pow run os rn i = Some (rn', go) /\ detector_inv rules seen rn'.
Proof.
  intros Hi [HF (Hany & Hby & Hall) Hq]. destruct i as [s|now| |]; cbn [run_step].
  - destruct Hi as [Hs Hin]. unfold engine_Observe.
    destruct (observe_at_seen os _ rules _ seen s Hs Hin HF Hany) as (rs1 & -> & HF1). cbn [mbind option_bind].
    destruct (observe_at_seen os _ rules rs1 seen s Hs Hin HF1 (Hby (s_Proto s))) as (rs2 & -> & HF2). cbn [mbind option_bind].
    eexists _, _. split; [done|]. by split.
  - unfold engine_Tick. destruct (tick_at_findings os _ rules _ seen now (rn_stats rn) [] HF Hall) as (rs' & new & -> & HF' & Hn).
    cbn [mbind option_bind app]. pose proof (send_events_found rules seen (rn_cap rn) new (rn_queue rn) (rn_dropped rn) Hq Hn) as Hq'.
    destruct (foldl _ _ new) as [q d]. eexists _, _. split; [done|]. by split.
  - eexists _, _. split; [done|]. split; try done. cbn. by apply Forall_drop.
  - eexists _, _. split; [done|]. by split.
Qed.

Lemma detector_inv_mono rules seen seen' rn : seen ⊆ seen' -> detector_inv rules seen rn -> detector_inv rules seen' rn.
Proof.
  intros Hs [HF Hi Hq]. split; [|done|].
  - eapply Forall2_impl; [exact HF|]. intros. by eapply runs_as_mono.
  - eapply Forall_impl; [exact Hq|]. intros. by eapply found_mono.
Qed.

Lemma NewRunner_inv rules cap stats :
  Forall compiled rules -> detector_inv rules [] (NewRunnerWithContext (NewEngine rules) cap stats).
Proof.
  intros Hc. destruct (NewEngine_index rules) as [Er Hix]. split; cbn; [|split; [|split]|constructor].
  - rewrite Er. clear -Hc. induction Hc as [|r rules [Hok He _ _ _ _ _ _ _] _ IH]; constructor; [|done].
    split; [apply same_config_refl|]. split; [done|]. intros k. rewrite He, lookup_empty. by intros [? [=]].
  - apply Forall_forall. intros i (r & Hr & _)%(ix_any _ _ Hix). by eapply lookup_lt_Some.
  - intros p. apply Forall_forall. intros i (r & Hr & _)%(ix_proto _ _ Hix p). by eapply lookup_lt_Some.
  - rewrite (ix_all _ _ Hix). apply Forall_forall. intros i Hi%elem_of_seq. lia.
Qed.
End Findings.

(** ** The emitted rule *)
Section Emitted.
Context {Program : Type} (r : Rule Program).

(** What an identity of a decoded packet looks like. *)
Record key_wf (d : descriptor) : Prop := {
  kw_src : exists a, addr_wf a /\ a <> AddrNone /\ d_src d = maskAddr a (r_srcMaskBits r);
  kw_dst : exists a, addr_wf a /\ a <> AddrNone /\ d_dst d = maskAddr a (r_dstMaskBits r);
  kw_proto : in_width 8 (d_proto d);
  kw_sport : 0 <= d_srcPortLo d <= d_srcPortHi d /\ d_srcPortHi d <= 65535;
  kw_dport : 0 <= d_dstPortLo d <= d_dstPortHi d /\ d_dstPortHi d <= 65535;
  kw_icmp : in_width 8 (d_icmpType d) /\ in_width 8 (d_icmpCode d)
}.

Lemma descriptorFor_proto s d :
  descriptorFor r s = Some d -> d_protoWild d = r_protoWild r /\ d_proto d = if r_protoWild r then 0 else s_Proto s.
Proof.
  unfold descriptorFor. intros H. apply bind_Some in H as ([slo shi] & _ & H). apply bind_Some in H as ([dlo dhi] & _ & H).
  by injection H as <-.
Qed.

Lemma descriptor_wf s d : rule_ok r -> sample_ok s -> descriptorFor r s = Some d -> key_wf d.
Proof.
  intros Hr Hs Hd. pose proof Hs as [W1 W2 F Hpw A3 A4 _ I1 I2]. cbn in W1, W2, F, Hpw, I1, I2.
  destruct (port_identity_range r s _ _ (ro_sport r Hr) A3) as (slo & shi & Esp & ? & ?).
  destruct (port_identity_range r s _ _ (ro_dport r Hr) A4) as (dlo & dhi & Edp & ? & ?).
  rewrite (descriptorFor_eq r s slo shi dlo dhi Esp Edp) in Hd. injection Hd as <-.
  assert (s_Src s <> AddrNone /\ s_Dst s <> AddrNone) as [N1 N2].
  { destruct (s_Family s); apply andb_true_iff in F as [? ?]; by destruct (s_Src s), (s_Dst s). }
  split; cbn; eauto; [by case_bool|]. split; by case_bool.
Qed.

Lemma key_prefixes d : key_wf d ->
  (prefix_wf (prefixOf (d_src d) (r_srcMaskBits r)) /\ prefix_IsValid (prefixOf (d_src d) (r_srcMaskBits r)) = true) /\
  (prefix_wf (prefixOf (d_dst d) (r_dstMaskBits r)) /\ prefix_IsValid (prefixOf (d_dst d) (r_dstMaskBits r)) = true).
Proof. intros [(a & Ha & Hn & ->) (b & Hb & Hm & ->) _ _ _ _]. split; by apply prefixOf_maskAddr_wf. Qed.

Lemma emitPrefix_wf f d isSrc p : key_wf d -> emitPrefix r f d isSrc = Ok (Some p) -> prefix_wf p /\ prefix_IsValid p = true.
Proof.
  intros [Hs Hd]%key_prefixes. unfold emitPrefix. destruct (ef_mode f); [|done|].
  - destruct isSrc; case_bool; try done; by intros [= <-].
  - destruct (ParsePrefix _) as [q|] eqn:E; [|done]. intros [= <-]. by apply ParsePrefix_wf in E.
Qed.

Lemma op_wf v w : in_width w v -> 0 <= w <= 64 -> NumericOp_wf (eq_op v).
Proof.
  unfold NumericOp_wf, in_width. cbn. intros Hv Hw. assert (2 ^ w <= 2 ^ 64) by (apply Z.pow_le_mono_r; lia). lia.
Qed.

Lemma emitPort_wf f d isSrc ops : key_wf d -> emitPort r f d isSrc = Ok ops -> Forall NumericOp_wf ops.
Proof.
  intros [_ _ _ [? ?] [? ?] _]. unfold emitPort. destruct (ef_mode f); [|intros [= <-]; constructor|].
  - intros Hb. destruct isSrc; match type of Hb with (if ?b then Ok [] else Ok (portRangeOps ?lo ?hi)) = _ =>
      assert (ops = port_ops lo hi) as -> by (unfold port_ops; destruct b; by injection Hb as <-) end; by apply port_ops_wf.
  - destruct (ParseUint _ 16) as [v|] eqn:E; [|done]. intros [= <-]. apply Forall_singleton, (op_wf v 16); [|lia]. by eapply ParseUint_width.
Qed.

Lemma emitICMP_wf f v wild d ops : in_width 8 v -> emitICMP r f v wild d = Ok ops -> Forall NumericOp_wf ops.
Proof.
  intros Hv. unfold emitICMP. destruct (ef_mode f); [|intros [= <-]; constructor|].
  - destruct wild; intros [= <-]; [constructor|]. apply Forall_singleton, (op_wf v 8); [done|lia].
  - destruct (ParseUint _ 8) as [x|] eqn:E; [|done]. intros [= <-]. apply Forall_singleton, (op_wf x 8); [|lia]. by eapply ParseUint_width.
Qed.

Lemma emitProto_wf d ops : key_wf d -> emitProto r d = Ok ops -> Forall NumericOp_wf ops.
Proof.
  intros Hk. unfold emitProto. destruct (ef_mode _); [|intros [= <-]; constructor|].
  - intros [= <-]. destruct (d_protoWild d); [constructor|]. apply Forall_singleton, (op_wf _ 8); [apply Hk|lia].
  - destruct (parseProtoName _) as [n|] eqn:E; [|done]. intros [= <-]. apply Forall_singleton, (op_wf n 8); [|lia]. by eapply parseProtoName_wf.
Qed.

(** The parts of the rule, each from its own emitter. *)
Lemma buildFlowSpec_inv d fr :
  buildFlowSpec r d = Ok fr ->
  emitProto r d = Ok (Proto (r_Match fr)) /\
  (exists src, emitPrefix r (fa_src (r_action r)) d true = Ok src /\ Src (r_Match fr) = default zeroPrefix src /\ HasSrc (r_Match fr) = bool_decide (is_Some src)) /\
  (exists dst, emitPrefix r (fa_dst (r_action r)) d false = Ok dst /\ Dst (r_Match fr) = default zeroPrefix dst /\ HasDst (r_Match fr) = bool_decide (is_Some dst)) /\
  emitPort r (fa_srcPort (r_action r)) d true = Ok (SrcPort (r_Match fr)) /\
  emitPort r (fa_dstPort (r_action r)) d false = Ok (DstPort (r_Match fr)) /\
  emitICMP r (fa_icmpType (r_action r)) (d_icmpType d) (d_icmpTypeWild d) d = Ok (ICMPType (r_Match fr)) /\
  emitICMP r (fa_icmpCode (r_action r)) (d_icmpCode d) (d_icmpCodeWild d) d = Ok (ICMPCode (r_Match fr)) /\
  TCPFlags (r_Match fr) = (match resolve (r_tcpEmit r) (r_tcpCare r) (r_tcpWant r) with Some (care, want) => tcpFlagOps care want | None => [] end) /\
  r_Raw fr = "detector:" +:+ r_name r +:+ ":" +:+ descriptorString r d.
Proof.
  unfold buildFlowSpec. destruct (emitProto r d) as [pr|]; [|done]. cbn [mbind result_bind].
  destruct (emitPrefix r _ d true) as [src|]; [|done]. cbn [mbind result_bind].
  destruct (emitPrefix r _ d false) as [dst|]; [|done]. cbn [mbind result_bind].
  destruct (emitPort r _ d true) as [sp|]; [|done]. cbn [mbind result_bind].
  destruct (emitPort r _ d false) as [dp|]; [|done]. cbn [mbind result_bind].
  destruct (emitICMP r _ (d_icmpType d) _ d) as [it|]; [|done]. cbn [mbind result_bind].
  destruct (emitICMP r _ (d_icmpCode d) _ d) as [ic|]; [|done]. cbn [mbind result_bind].
  intros [= <-]. cbn. split; [done|]. split; [exists src; by destruct src|]. split; [exists dst; by destruct dst|]. done.
Qed.

Lemma buildFlowSpec_wf d fr : compiled r -> key_wf d -> buildFlowSpec r d = Ok fr -> Rule_wf fr.
Proof.
  intros Hc Hk H. apply buildFlowSpec_inv in H as (Hpr & (src & Es & Hs & Hs') & (dst & Ed & Hd & Hd') & Hsp & Hdp & Hit & Hic & Hfl & _).
  assert (forall o p, o = Some p -> forall f isSrc, emitPrefix r f d isSrc = Ok o -> prefix_wf p /\ prefix_IsValid p = true) as Hpre.
  { intros o p -> f isSrc. by apply emitPrefix_wf. }
  pose proof (kw_icmp d Hk) as [? ?]. split; [split|split]; eauto using emitProto_wf, emitPort_wf, emitICMP_wf.
  - rewrite Hd. destruct dst as [p|]; [by eapply Hpre|apply zeroPrefix_wf].
  - rewrite Hs. destruct src as [p|]; [by eapply Hpre|apply zeroPrefix_wf].
  - rewrite Hfl. unfold resolve. destruct (te_mode (r_tcpEmit r)); [..|case_bool; [|done]];
      [case_bool; [apply tcpFlagOps_wf, Hc|constructor]|constructor|apply tcpFlagOps_wf, Hc].
  - rewrite Hd', Hd. destruct dst as [p|]; [intros _; by eapply Hpre|by rewrite bool_decide_eq_true; intros [? [=]]].
  - rewrite Hs', Hs. destruct src as [p|]; [intros _; by eapply Hpre|by rewrite bool_decide_eq_true; intros [? [=]]].
Qed.
End Emitted.

(** ** The text of a finding names its lease

    A rule's text is [detector:NAME:family=...], its event id [NAME/family=...].
    The part after the [l] of [family] has no further [l], so the text determines
    the id, whatever characters the name has. *)
Definition lease_of (raw : string) : string :=
  match cut_last "l" (drop_str 9 raw) with
  | Some (a, b) => match cut_last ":" a with Some (name, _) => name +:+ "/fami" +:+ String "l" b | None => "" end
  | None => ""
  end.

Definition no_l (s : string) : Prop := str_without "l" s.

Lemma no_l_app s t : no_l s -> no_l t -> no_l (s +:+ t).
Proof. unfold no_l, str_without. rewrite str_forall_app. by intros -> ->. Qed.

Lemma no_l_itoa z : no_l (itoa z).
Proof. by apply itoa_without. Qed.

Lemma no_l_prefix p : prefix_IsValid p = true -> prefix_wf p -> no_l (prefix_String p).
Proof.
  intros Hv (_ & _ & Hn). unfold prefix_String. rewrite Hv. apply no_l_app; [|apply no_l_app; [done|apply no_l_itoa]].
  unfold no_l, str_without. eapply str_forall_weaken; [|apply addr_String_chars].
  - intros c Hc. apply negb_true_iff, Ascii.eqb_neq. by intros ->.
  - intros Ha. specialize (Hn Ha). unfold prefix_IsValid in Hv. lia.
Qed.

Lemma no_l_portString lo hi : no_l (portString lo hi).
Proof. unfold portString. case_bool; [apply no_l_itoa|]. apply no_l_app; [apply no_l_itoa|apply no_l_app; [done|apply no_l_itoa]]. Qed.

#[local] Hint Resolve no_l_app no_l_itoa no_l_prefix no_l_portString : text.

Lemma descriptorString_l {Program} (r : Rule Program) d :
  key_wf r d -> exists t, descriptorString r d = "fami" +:+ String "l" t /\ no_l t.
Proof.
  intros Hk. destruct (key_prefixes r d Hk) as [[? ?] [? ?]]. unfold descriptorString. eexists. split.
  { change ("family=" +:+ ?x) with ("fami" +:+ String "l" ("y=" +:+ x)). reflexivity. }
  repeat (apply no_l_app; [try done; auto with text|]); try (destruct (d_family d); done);
    repeat case_match; auto with text; try done; apply no_l_app; auto with text; done.
Qed.

Lemma lease_of_finding {Program} (r : Rule Program) d :
  key_wf r d -> lease_of ("detector:" +:+ r_name r +:+ ":" +:+ descriptorString r d) = r_name r +:+ "/" +:+ descriptorString r d.
Proof.
  intros (t & -> & Ht)%descriptorString_l. unfold lease_of. change (drop_str 9 ("detector:" +:+ ?x)) with x.
  assert (r_name r +:+ ":" +:+ "fami" +:+ String "l" t = (r_name r +:+ String ":" "fami") +:+ String "l" t) as ->
    by (by rewrite str_app_assoc).
  rewrite cut_last_app by done. by rewrite cut_last_app.
Qed.
