(* ===== verification/Bgp.v ===== *)
(** * The BGP side (internal/flowspec/parse.go; internal/bgp: encode.go,
      advertise.go, policy.go, watch.go, server.go)

    The BGP speaker is GoBGP, a library: its prefix values and constructors, its
    text renderings and its answers to API calls are parameters ([GoBGP],
    [GoBGPLaws], the oracle of [call]).  Modelled here is everything the agent
    does around it: the conversion of NLRIs and communities to the internal rule
    and back, the propagation policies, the start sequence, and the watch
    callbacks that turn events into updates for the manager. *)
From S2P Require Import Prelude GoText Netip Flowspec GoParse Float64 VppTypes Translate Manager.
From Stdlib Require Import Ascii.
#[local] Open Scope Z_scope.

(** ** GoBGP's data, as far as the agent inspects it *)

(** [bgp.FlowSpecComponentItem] *)
Record ComponentItem := { it_Op : Z (* uint8 *); it_Value : Z (* uint64 *) }.

(** [bgp.BGPFlowSpecType]: the constants the agent names. *)
Inductive BGPFlowSpecType :=
  | FLOW_SPEC_TYPE_IP_PROTO | FLOW_SPEC_TYPE_DST_PORT | FLOW_SPEC_TYPE_SRC_PORT
  | FLOW_SPEC_TYPE_ICMP_TYPE | FLOW_SPEC_TYPE_ICMP_CODE | FLOW_SPEC_TYPE_TCP_FLAG
  | FLOW_SPEC_TYPE_FRAGMENT | FLOW_SPEC_TYPE_PORT | FLOW_SPEC_TYPE_PKT_LEN
  | FLOW_SPEC_TYPE_DSCP | FLOW_SPEC_TYPE_LABEL
  | FLOW_SPEC_TYPE_OTHER (n : Z).

(** [bgp.FlowSpecComponentInterface], over the type of prefix values. *)
Inductive ComponentI (P : Type) :=
  | FlowSpecDestinationPrefix (p : P)
  | FlowSpecSourcePrefix (p : P)
  | FlowSpecDestinationPrefix6 (p : P) (offset : Z)
  | FlowSpecSourcePrefix6 (p : P) (offset : Z)
  | FlowSpecComponent (typ : BGPFlowSpecType) (items : list ComponentItem)
  | OtherComponent.
Arguments FlowSpecDestinationPrefix {P}.
Arguments FlowSpecSourcePrefix {P}.
Arguments FlowSpecDestinationPrefix6 {P}.
Arguments FlowSpecSourcePrefix6 {P}.
Arguments FlowSpecComponent {P}.
Arguments OtherComponent {P}.

(** [bgp.AddrPrefixInterface] as a route; [GoType] is what [%T] prints. *)
Inductive NLRI (P : Type) :=
  | FlowSpecIPv4Unicast (comps : list (ComponentI P))
  | FlowSpecIPv6Unicast (comps : list (ComponentI P))
  | OtherNLRI (GoType : string).
Arguments FlowSpecIPv4Unicast {P}.
Arguments FlowSpecIPv6Unicast {P}.
Arguments OtherNLRI {P}.

(** [bgp.ExtendedCommunityInterface]; the rate is a [float32]. *)
Inductive ExtendedCommunity :=
  | TrafficRateExtended (AS : Z) (Rate : float64)
  | TrafficActionExtended
  | TrafficRemarkExtended
  | RedirectTwoOctetAsSpecificExtended
  | RedirectIPv4AddressSpecificExtended
  | RedirectIPv6AddressSpecificExtended
  | RedirectFourOctetAsSpecificExtended
  | OtherCommunity.

Inductive PathAttribute (P : Type) :=
  | PathAttributeOrigin (v : Z)
  | PathAttributeMpReachNLRI (nexthop : string) (nlris : list (NLRI P))
  | PathAttributeExtendedCommunities (Value : list ExtendedCommunity)
  | OtherAttribute.
Arguments PathAttributeOrigin {P}.
Arguments PathAttributeMpReachNLRI {P}.
Arguments PathAttributeExtendedCommunities {P}.
Arguments OtherAttribute {P}.

(** The library functions the conversions call.  [item_list] is what
    [NewFlowSpecComponent] makes of its items (it sets the end-of-list bit). *)
Class GoBGP := {
  AddrPrefix : Type;
  AddrPrefix_String : AddrPrefix -> string;
  NewIPAddrPrefix : Z -> string -> AddrPrefix;
  NewIPv6AddrPrefix : Z -> string -> AddrPrefix;
  NewFlowSpecComponentItem : Z -> Z -> ComponentItem;
  item_list : list ComponentItem -> list ComponentItem;
  NLRI_String : NLRI AddrPrefix -> string;
  float32_String : float64 -> string  (* [%v] of a float32 *)
}.

(** The bits of an operator byte that carry comparison and logic; the others
    encode the value length and the end of the list, which GoBGP owns. *)
Definition op_bits : Z := 0x47.

(** What the agent relies on: a prefix value prints as the address it was made
    from and its length, and constructing items keeps the comparison bits and
    the value. *)
Class GoBGPLaws `{GoBGP} : Prop := {
  ipv4_prefix_text a bits : Is4 a = true -> addr_wf a -> 0 <= bits <= 32 ->
    AddrPrefix_String (NewIPAddrPrefix bits (addr_String a)) = addr_String a +:+ "/" +:+ itoa bits;
  ipv6_prefix_text v bits : addr_wf (Addr6 v) -> Is4In6 v = false -> 0 <= bits <= 128 ->
    AddrPrefix_String (NewIPv6AddrPrefix bits (addr_String (Addr6 v))) =
      addr_String (Addr6 v) +:+ "/" +:+ itoa bits;
  item_op op v : in_width 8 op ->
    Z.land (it_Op (NewFlowSpecComponentItem op v)) op_bits = Z.land op op_bits;
  item_value op v : in_width 64 v -> it_Value (NewFlowSpecComponentItem op v) = v;
  item_list_keeps l :
    Forall2 (fun i j => Z.land (it_Op i) op_bits = Z.land (it_Op j) op_bits /\ it_Value i = it_Value j)
            (item_list l) l
}.

(** ** flowspec/parse.go *)
Definition numOpEQ : Z := 0x01.
Definition numOpGT : Z := 0x02.
Definition numOpLT : Z := 0x04.
Definition numOpAND : Z := 0x40.
Definition bitOpMatch : Z := 0x01.
Definition bitOpNot : Z := 0x02.
Definition bitOpAnd : Z := 0x40.

Definition has_bit (op b : Z) : bool := negb (Z.land op b =? 0).

Definition numericOps (items : list ComponentItem) : list NumericOp :=
  (fun it => {| n_And := has_bit (it_Op it) numOpAND; n_LT := has_bit (it_Op it) numOpLT;
                n_GT := has_bit (it_Op it) numOpGT; n_EQ := has_bit (it_Op it) numOpEQ;
                n_Value := it_Value it |}) <$> items.

Definition bitmaskOps (items : list ComponentItem) : list BitmaskOp :=
  (fun it => {| b_And := has_bit (it_Op it) bitOpAnd; b_Not := has_bit (it_Op it) bitOpNot;
                b_Match := has_bit (it_Op it) bitOpMatch; b_Value := it_Value it |}) <$> items.

(** Field updates [m.F = v]. *)
Definition set_dst (p : Prefix) (m : Match) : Match :=
  {| HasDst := true; Dst := p; DstOffset := DstOffset m; HasSrc := HasSrc m; Src := Src m; SrcOffset := SrcOffset m;
     Proto := Proto m; DstPort := DstPort m; SrcPort := SrcPort m; ICMPType := ICMPType m; ICMPCode := ICMPCode m;
     TCPFlags := TCPFlags m; Fragment := Fragment m; HasGenericPort := HasGenericPort m; HasPacketLen := HasPacketLen m;
     HasDSCP := HasDSCP m; HasFlowLabel := HasFlowLabel m; HasLabel := HasLabel m; HasUnknownComponent := HasUnknownComponent m |}.
Definition set_dst_offset (o : Z) (m : Match) : Match :=
  {| HasDst := HasDst m; Dst := Dst m; DstOffset := o; HasSrc := HasSrc m; Src := Src m; SrcOffset := SrcOffset m;
     Proto := Proto m; DstPort := DstPort m; SrcPort := SrcPort m; ICMPType := ICMPType m; ICMPCode := ICMPCode m;
     TCPFlags := TCPFlags m; Fragment := Fragment m; HasGenericPort := HasGenericPort m; HasPacketLen := HasPacketLen m;
     HasDSCP := HasDSCP m; HasFlowLabel := HasFlowLabel m; HasLabel := HasLabel m; HasUnknownComponent := HasUnknownComponent m |}.
Definition set_src (p : Prefix) (m : Match) : Match :=
  {| HasDst := HasDst m; Dst := Dst m; DstOffset := DstOffset m; HasSrc := true; Src := p; SrcOffset := SrcOffset m;
     Proto := Proto m; DstPort := DstPort m; SrcPort := SrcPort m; ICMPType := ICMPType m; ICMPCode := ICMPCode m;
     TCPFlags := TCPFlags m; Fragment := Fragment m; HasGenericPort := HasGenericPort m; HasPacketLen := HasPacketLen m;
     HasDSCP := HasDSCP m; HasFlowLabel := HasFlowLabel m; HasLabel := HasLabel m; HasUnknownComponent := HasUnknownComponent m |}.
Definition set_src_offset (o : Z) (m : Match) : Match :=
  {| HasDst := HasDst m; Dst := Dst m; DstOffset := DstOffset m; HasSrc := HasSrc m; Src := Src m; SrcOffset := o;
     Proto := Proto m; DstPort := DstPort m; SrcPort := SrcPort m; ICMPType := ICMPType m; ICMPCode := ICMPCode m;
     TCPFlags := TCPFlags m; Fragment := Fragment m; HasGenericPort := HasGenericPort m; HasPacketLen := HasPacketLen m;
     HasDSCP := HasDSCP m; HasFlowLabel := HasFlowLabel m; HasLabel := HasLabel m; HasUnknownComponent := HasUnknownComponent m |}.
Definition set_ops (proto dport sport itype icode : list NumericOp) (flags frag : list BitmaskOp) (m : Match) : Match :=
  {| HasDst := HasDst m; Dst := Dst m; DstOffset := DstOffset m; HasSrc := HasSrc m; Src := Src m; SrcOffset := SrcOffset m;
     Proto := proto; DstPort := dport; SrcPort := sport; ICMPType := itype; ICMPCode := icode;
     TCPFlags := flags; Fragment := frag; HasGenericPort := HasGenericPort m; HasPacketLen := HasPacketLen m;
     HasDSCP := HasDSCP m; HasFlowLabel := HasFlowLabel m; HasLabel := HasLabel m; HasUnknownComponent := HasUnknownComponent m |}.
Definition set_marks (port len dscp flow unknown : bool) (m : Match) : Match :=
  {| HasDst := HasDst m; Dst := Dst m; DstOffset := DstOffset m; HasSrc := HasSrc m; Src := Src m; SrcOffset := SrcOffset m;
     Proto := Proto m; DstPort := DstPort m; SrcPort := SrcPort m; ICMPType := ICMPType m; ICMPCode := ICMPCode m;
     TCPFlags := TCPFlags m; Fragment := Fragment m; HasGenericPort := port; HasPacketLen := len;
     HasDSCP := dscp; HasFlowLabel := flow; HasLabel := HasLabel m; HasUnknownComponent := unknown |}.

Definition mark_unknown (m : Match) : Match :=
  set_marks (HasGenericPort m) (HasPacketLen m) (HasDSCP m) (HasFlowLabel m) true m.

Definition parseGenericComponent (m : Match) (typ : BGPFlowSpecType) (items : list ComponentItem) : Match :=
  let ops proto dport sport itype icode flags frag := set_ops proto dport sport itype icode flags frag m in
  match typ with
  | FLOW_SPEC_TYPE_IP_PROTO =>
      ops (numericOps items) (DstPort m) (SrcPort m) (ICMPType m) (ICMPCode m) (TCPFlags m) (Fragment m)
  | FLOW_SPEC_TYPE_DST_PORT =>
      ops (Proto m) (numericOps items) (SrcPort m) (ICMPType m) (ICMPCode m) (TCPFlags m) (Fragment m)
  | FLOW_SPEC_TYPE_SRC_PORT =>
      ops (Proto m) (DstPort m) (numericOps items) (ICMPType m) (ICMPCode m) (TCPFlags m) (Fragment m)
  | FLOW_SPEC_TYPE_ICMP_TYPE =>
      ops (Proto m) (DstPort m) (SrcPort m) (numericOps items) (ICMPCode m) (TCPFlags m) (Fragment m)
  | FLOW_SPEC_TYPE_ICMP_CODE =>
      ops (Proto m) (DstPort m) (SrcPort m) (ICMPType m) (numericOps items) (TCPFlags m) (Fragment m)
  | FLOW_SPEC_TYPE_TCP_FLAG =>
      ops (Proto m) (DstPort m) (SrcPort m) (ICMPType m) (ICMPCode m) (bitmaskOps items) (Fragment m)
  | FLOW_SPEC_TYPE_FRAGMENT =>
      ops (Proto m) (DstPort m) (SrcPort m) (ICMPType m) (ICMPCode m) (TCPFlags m) (bitmaskOps items)
  | FLOW_SPEC_TYPE_PORT => set_marks true (HasPacketLen m) (HasDSCP m) (HasFlowLabel m) (HasUnknownComponent m) m
  | FLOW_SPEC_TYPE_PKT_LEN => set_marks (HasGenericPort m) true (HasDSCP m) (HasFlowLabel m) (HasUnknownComponent m) m
  | FLOW_SPEC_TYPE_DSCP => set_marks (HasGenericPort m) (HasPacketLen m) true (HasFlowLabel m) (HasUnknownComponent m) m
  | FLOW_SPEC_TYPE_LABEL => set_marks (HasGenericPort m) (HasPacketLen m) (HasDSCP m) true (HasUnknownComponent m) m
  | FLOW_SPEC_TYPE_OTHER _ => mark_unknown m
  end.

Section Convert.
Context `{GoBGP}.

Definition parsePrefix (p : AddrPrefix) : result gotext Prefix :=
  match ParsePrefix (AddrPrefix_String p) with
  | Some pfx => Ok pfx
  | None => Err (Text "parse prefix %q: %w" [AStr (AddrPrefix_String p)])
  end.

(** One turn of the loop over the components. *)
Definition parse_component (m : Match) (c : ComponentI AddrPrefix) : result gotext Match :=
  match c with
  | FlowSpecDestinationPrefix p => pfx ← parsePrefix p; Ok (set_dst pfx m)
  | FlowSpecSourcePrefix p => pfx ← parsePrefix p; Ok (set_src pfx m)
  | FlowSpecDestinationPrefix6 p off => pfx ← parsePrefix p; Ok (set_dst_offset off (set_dst pfx m))
  | FlowSpecSourcePrefix6 p off => pfx ← parsePrefix p; Ok (set_src_offset off (set_src pfx m))
  | FlowSpecComponent typ items => Ok (parseGenericComponent m typ items)
  | OtherComponent => Ok (mark_unknown m)
  end.

Fixpoint parse_loop (m : Match) (comps : list (ComponentI AddrPrefix)) : result gotext Match :=
  match comps with
  | [] => Ok m
  | c :: comps' => m' ← parse_component m c; parse_loop m' comps'
  end.

Definition parseComponents (comps : list (ComponentI AddrPrefix)) : result gotext Match := parse_loop emptyMatch comps.

(** The loop over the communities: [(foundDrop, unsupportedDesc)]. *)
Definition action_step (acc : bool * string) (ec : ExtendedCommunity) : bool * string :=
  match ec with
  | TrafficRateExtended _ rate =>
      if f_eq rate f_zero then (true, acc.2) else (acc.1, "traffic-rate=" +:+ float32_String rate)
  | TrafficActionExtended => (acc.1, "traffic-action(sample/terminal)")
  | TrafficRemarkExtended => (acc.1, "traffic-marking(dscp)")
  | RedirectTwoOctetAsSpecificExtended | RedirectIPv4AddressSpecificExtended
  | RedirectIPv6AddressSpecificExtended | RedirectFourOctetAsSpecificExtended => (acc.1, "redirect")
  | OtherCommunity => acc
  end.

Definition attr_step (acc : bool * string) (attr : PathAttribute AddrPrefix) : bool * string :=
  match attr with
  | PathAttributeExtendedCommunities ecs => foldl action_step acc ecs
  | _ => acc
  end.

Definition parseAction (attrs : list (PathAttribute AddrPrefix)) : Action :=
  let '(foundDrop, unsupportedDesc) := foldl attr_step (false, "") attrs in
  if bool_decide (unsupportedDesc <> "") then {| Kind := ActionUnsupported; Desc := unsupportedDesc |}
  else if (foundDrop : bool) then {| Kind := ActionDrop; Desc := "traffic-rate=0" |}
  else {| Kind := ActionUnknown; Desc := "no action" |}.

Definition ParseNLRI (nlri : NLRI AddrPrefix) (attrs : list (PathAttribute AddrPrefix)) : result gotext Rule :=
  '(family, comps) ←
    match nlri with
    | FlowSpecIPv4Unicast v => Ok (FamilyIPv4, v)
    | FlowSpecIPv6Unicast v => Ok (FamilyIPv6, v)
    | OtherNLRI t => Err (Text "not a flowspec NLRI: %T" [AStr t])
    end;
  m ← parseComponents comps;
  Ok {| r_Family := family; r_Match := m; r_Action := parseAction attrs; r_Raw := NLRI_String nlri |}.

(** ** bgp/encode.go *)
Definition encNumEQ : Z := 0x01.
Definition encNumGT : Z := 0x02.
Definition encNumLT : Z := 0x04.
Definition encNumAND : Z := 0x40.
Definition encBitMatch : Z := 0x01.
Definition encBitNot : Z := 0x02.
Definition encBitAnd : Z := 0x40.

Definition prefixNLRI (p : Prefix) (v6 : bool) : result gotext AddrPrefix :=
  if negb (prefix_IsValid p) then Err (plain "invalid prefix")
  else
    let bits := u8 (p_bits p) in
    let addr := addr_String (p_addr p) in
    if v6 then
      if negb (Is6 (p_addr p)) then Err (Text "ipv4 prefix %s in ipv6 rule" [AStr (prefix_String p)])
      else Ok (NewIPv6AddrPrefix bits addr)
    else
      if negb (Is4 (p_addr p)) then Err (Text "ipv6 prefix %s in ipv4 rule" [AStr (prefix_String p)])
      else Ok (NewIPAddrPrefix bits addr).

Definition or_if (b : bool) (bit op : Z) : Z := if b then Z.lor op bit else op.

Definition num_op_byte (o : NumericOp) : Z :=
  or_if (n_LT o) encNumLT (or_if (n_GT o) encNumGT (or_if (n_EQ o) encNumEQ (or_if (n_And o) encNumAND 0))).

Definition bit_op_byte (o : BitmaskOp) : Z :=
  or_if (b_Match o) encBitMatch (or_if (b_Not o) encBitNot (or_if (b_And o) encBitAnd 0)).

Definition appendNumeric (comps : list (ComponentI AddrPrefix)) (typ : BGPFlowSpecType) (ops : list NumericOp)
  : list (ComponentI AddrPrefix) :=
  match ops with
  | [] => comps
  | _ => comps ++ [FlowSpecComponent typ
                     (item_list ((fun o => NewFlowSpecComponentItem (num_op_byte o) (n_Value o)) <$> ops))]
  end.

Definition appendBitmask (comps : list (ComponentI AddrPrefix)) (typ : BGPFlowSpecType) (ops : list BitmaskOp)
  : list (ComponentI AddrPrefix) :=
  match ops with
  | [] => comps
  | _ => comps ++ [FlowSpecComponent typ
                     (item_list ((fun o => NewFlowSpecComponentItem (bit_op_byte o) (b_Value o)) <$> ops))]
  end.

Definition dst_component (m : Match) (v6 : bool) : result gotext (list (ComponentI AddrPrefix)) :=
  if HasDst m then
    p ← prefixNLRI (Dst m) v6;
    Ok [if v6 then FlowSpecDestinationPrefix6 p (DstOffset m) else FlowSpecDestinationPrefix p]
  else Ok [].

Definition src_component (m : Match) (v6 : bool) : result gotext (list (ComponentI AddrPrefix)) :=
  if HasSrc m then
    p ← prefixNLRI (Src m) v6;
    Ok [if v6 then FlowSpecSourcePrefix6 p (SrcOffset m) else FlowSpecSourcePrefix p]
  else Ok [].

Definition encodeNLRI (r : Rule) : result gotext (NLRI AddrPrefix) :=
  let v6 := bool_decide (r_Family r = FamilyIPv6) in
  let m := r_Match r in
  dst ← dst_component m v6;
  src ← src_component m v6;
  let comps := dst ++ src in
  let comps := appendNumeric comps FLOW_SPEC_TYPE_IP_PROTO (Proto m) in
  let comps := appendNumeric comps FLOW_SPEC_TYPE_DST_PORT (DstPort m) in
  let comps := appendNumeric comps FLOW_SPEC_TYPE_SRC_PORT (SrcPort m) in
  let comps := appendNumeric comps FLOW_SPEC_TYPE_ICMP_TYPE (ICMPType m) in
  let comps := appendNumeric comps FLOW_SPEC_TYPE_ICMP_CODE (ICMPCode m) in
  let comps := appendBitmask comps FLOW_SPEC_TYPE_TCP_FLAG (TCPFlags m) in
  match comps with
  | [] => Err (plain "flowspec rule has no match components to advertise")
  | _ => Ok (if v6 then FlowSpecIPv6Unicast comps else FlowSpecIPv4Unicast comps)
  end.
End Convert.
