(* ===== verification/BgpServer.v ===== *)
(** * The embedded BGP speaker (internal/bgp: server.go, policy.go, watch.go,
      advertise.go)

    GoBGP's server is driven through API calls.  A call is recorded in a log and
    answered by an oracle that may look at everything asked before; code that
    makes calls is written in a small log-and-error monad.  The watch callbacks
    act on the agent's own state: the receive set and the channel of updates. *)
From S2P Require Import Prelude GoText Netip Flowspec GoParse Float64 VppTypes Translate Manager Bgp.
From Stdlib Require Import Ascii.
#[local] Open Scope Z_scope.

(** ** Options and state (server.go) *)
Record PeerOptions := {
  Address : string;
  PeerASN : Z;
  Port : Z;
  Passive : bool;
  Receive : bool;
  SendTo : bool  (* [Send] *)
}.

Record Options := {
  ASN : Z;
  RouterID : string;
  ListenAddr : string;
  ListenPort : Z;
  Peers : list PeerOptions
}.

(** [s_updates] is everything delivered to the channel so far, in order;
    [s_stopped] says that [stopCh] is closed. *)
Record Server := {
  s_opts : Options;
  s_started : bool;  (* [s.bgp != nil] *)
  s_updates : list Update;
  s_stopped : bool;
  receivePeers : gset string
}.

(** [netip.ParseAddr(s)] then [String]; an IPv6 zone is kept. *)
Definition canonical_addr (s : string) : option string :=
  match addr_kind s with
  | Some ":"%char =>
      match cut "%" s with
      | Some (_, "") => None
      | Some (a, zone) => ip ← parseIPv6 a; Some (addr_String ip +:+ "%" +:+ zone)
      | None => addr_String <$> ParseAddr s
      end
  | _ => addr_String <$> ParseAddr s
  end.

Definition normalizeAddr (s : string) : string := default s (canonical_addr s).

(** [bgp.New] *)
Definition newServer (opts : Options) : Server :=
  {| s_opts := opts; s_started := false; s_updates := []; s_stopped := false;
     receivePeers := foldl (fun acc p => if Receive p then {[normalizeAddr (Address p)]} ∪ acc else acc)
                           ∅ (Peers opts) |}.

(** The select of [send]: with an open [stopCh] it waits until the consumer
    takes the update; once it is closed either case may be chosen. *)
Definition bgp_send (taken : bool) (u : Update) (s : Server) : Server :=
  if s_stopped s && negb taken then s
  else {| s_opts := s_opts s; s_started := s_started s; s_updates := s_updates s ++ [u];
          s_stopped := s_stopped s; receivePeers := receivePeers s |}.

(** ** API calls *)
Inductive RouteAction := ACCEPT | REJECT.
Inductive PolicyDirection := IMPORT | EXPORT.

#[global] Instance PolicyDirection_eq_dec : EqDecision PolicyDirection.
Proof. solve_decision. Defined.

(** A statement: accept or reject when the neighbor is in the named set. *)
Record Statement := { st_Name : string; st_NeighborSet : string; st_RouteAction : RouteAction }.
Record Policy := { pol_Name : string; pol_Statements : list Statement }.
Record PolicyAssignment := {
  pa_Name : string;
  pa_Direction : PolicyDirection;
  pa_Policies : list Policy;
  pa_DefaultAction : RouteAction
}.
Record Global := { g_Asn : Z; g_RouterId : string; g_ListenPort : Z; g_ListenAddresses : list string }.
(** The families are the two FlowSpec unicast families, always both. *)
Record Peer := { NeighborAddress : string; PeerAsn : Z; PassiveMode : bool; RemotePort : Z; AfiSafis : list Family }.

(** [api.Path]: [pt_nlri] and [pt_attrs] are what [apiutil.GetNativeNlri] and
    [GetNativePathAttributes] answer on it. *)
Record Path (P : Type) := MkPath {
  pt_NeighborIp : string;
  pt_SourceId : string;
  pt_IsWithdraw : bool;
  pt_nlri : option (NLRI P);
  pt_attrs : option (list (PathAttribute P))
}.
Arguments MkPath {P}.
Arguments pt_NeighborIp {P}.
Arguments pt_SourceId {P}.
Arguments pt_IsWithdraw {P}.
Arguments pt_nlri {P}.
Arguments pt_attrs {P}.

Section Speaker.
Context `{GoBGP}.

Inductive apiCall :=
  | StartBgp (g : Global)
  | AddDefinedSet (name : string) (neighbors : list string)
  | AddPolicy (p : Policy)
  | AddPolicyAssignment (a : PolicyAssignment)
  | AddPeer (p : Peer)
  | WatchEvent
  | AddPath (p : Path AddrPrefix)
  | DeletePath (p : Path AddrPrefix)
  | StopBgp.

Definition log := list apiCall.

(** An error is the list of its messages, outermost first. *)
Definition api (A : Type) : Type := log -> log * result (list gotext) A.
#[global] Instance api_ret : MRet api := fun A a l => (l, Ok a).
#[global] Instance api_bind : MBind api :=
  fun A B f m l => match m l with (l', Ok a) => f a l' | (l', Err e) => (l', Err e) end.

(** The answer of GoBGP to a call, given the calls before it. *)
Context (answer : log -> apiCall -> bool).

Definition call (c : apiCall) : api unit :=
  fun l => (l ++ [c], if answer l c then Ok tt else Err [plain "gobgp"]).

(** [if err := m; err != nil { return fmt.Errorf(msg, err) }] *)
Definition wrap {A} (msg : gotext) (m : api A) : api A :=
  fun l => match m l with (l', Ok a) => (l', Ok a) | (l', Err e) => (l', Err (msg :: e)) end.

(** ** policy.go *)
Definition receiveSetName : string := "flowspec-receive-peers".
Definition sendSetName : string := "flowspec-send-peers".
Definition importPolicy : string := "flowspec-import".
Definition exportPolicy : string := "flowspec-export".
Definition globalRIB : string := "global".

Definition accept_policy (policyName setName : string) : Policy :=
  {| pol_Name := policyName;
     pol_Statements := [{| st_Name := policyName +:+ "-accept"; st_NeighborSet := setName;
                           st_RouteAction := ACCEPT |}] |}.

Definition installDirection (policyName setName : string) (peers : list string) : api (list Policy) :=
  match peers with
  | [] => mret []
  | _ =>
      _ ← wrap (plain "defined set: %w") (call (AddDefinedSet setName peers));
      let policy := accept_policy policyName setName in
      _ ← wrap (plain "add policy: %w") (call (AddPolicy policy));
      mret [policy]
  end.

Definition peers_with (f : PeerOptions -> bool) (ps : list PeerOptions) : list string :=
  Address <$> filter (fun p => f p = true) ps.

Definition assign (d : PolicyDirection) (ps : list Policy) : apiCall :=
  AddPolicyAssignment {| pa_Name := globalRIB; pa_Direction := d; pa_Policies := ps; pa_DefaultAction := REJECT |}.

Definition applyPolicies (opts : Options) : api unit :=
  let receive := peers_with Receive (Peers opts) in
  let send := peers_with SendTo (Peers opts) in
  importPolicies ← wrap (plain "import policy: %w") (installDirection importPolicy receiveSetName receive);
  exportPolicies ← wrap (plain "export policy: %w") (installDirection exportPolicy sendSetName send);
  _ ← wrap (plain "assign import policy: %w") (call (assign IMPORT importPolicies));
  wrap (plain "assign export policy: %w") (call (assign EXPORT exportPolicies)).

(** ** server.go: Start, addPeer, Stop *)
Definition addPeer (p : PeerOptions) : api unit :=
  call (AddPeer {| NeighborAddress := Address p; PeerAsn := PeerASN p; PassiveMode := Passive p;
                   RemotePort := u32 (Port p); AfiSafis := [FamilyIPv4; FamilyIPv6] |}).

Fixpoint addPeers (ps : list PeerOptions) : api unit :=
  match ps with
  | [] => mret tt
  | p :: ps' => _ ← wrap (Text "add peer %s: %w" [AStr (Address p)]) (addPeer p); addPeers ps'
  end.

Definition startWatch : api unit := call WatchEvent.

Definition Start (opts : Options) : api unit :=
  let listenPort := if ListenPort opts =? 0 then 10179 else ListenPort opts in
  let global := {| g_Asn := ASN opts; g_RouterId := RouterID opts; g_ListenPort := listenPort;
                   g_ListenAddresses := if bool_decide (ListenAddr opts <> "") then [ListenAddr opts] else [] |} in
  _ ← wrap (plain "start bgp: %w") (call (StartBgp global));
  _ ← wrap (plain "apply policies: %w") (applyPolicies opts);
  _ ← addPeers (Peers opts);
  wrap (plain "watch: %w") startWatch.

Definition set_started (s : Server) : Server :=
  {| s_opts := s_opts s; s_started := true; s_updates := s_updates s; s_stopped := s_stopped s;
     receivePeers := receivePeers s |}.

Definition Stop (s : Server) : api Server :=
  let s' := {| s_opts := s_opts s; s_started := s_started s; s_updates := s_updates s; s_stopped := true;
               receivePeers := receivePeers s |} in
  if s_started s then fun l => (l ++ [StopBgp], Ok s') else mret s'.

(** ** advertise.go *)

(** [apiutil.NewPath]; [None] is its error. *)
Context (NewPath : NLRI AddrPrefix -> list (PathAttribute AddrPrefix) -> option (Path AddrPrefix)).

Definition advertised_attrs (opts : Options) (r : Rule) (nlri : NLRI AddrPrefix) : list (PathAttribute AddrPrefix) :=
  [PathAttributeOrigin 0;
   PathAttributeMpReachNLRI (if bool_decide (r_Family r = FamilyIPv6) then "::" else "0.0.0.0") [nlri];
   PathAttributeExtendedCommunities [TrafficRateExtended (u16 (ASN opts)) f_zero]].

Definition Advertise (s : Server) (r : Rule) (withdraw : bool) : api unit :=
  if negb (s_started s) then fun l => (l, Err [plain "bgp server not started"])
  else
    match encodeNLRI r with
    | Err e => fun l => (l, Err [plain "encode flowspec nlri: %w"; e])
    | Ok nlri =>
        match NewPath nlri (advertised_attrs (s_opts s) r nlri) with
        | None => fun l => (l, Err [plain "build flowspec path: %w"])
        | Some path => if withdraw then call (DeletePath path) else call (AddPath path)
        end
    end.

(** ** watch.go *)
Inductive SessionState := ESTABLISHED | NotEstablished (name : string).

(** [PeerEvent]: its type (is it a state event), and the peer's address and
    state when both are set. *)
Record PeerEvent := { pe_is_state : bool; pe_state : option (string * SessionState) }.

Record WatchEventResponse := { ev_Table : list (Path AddrPrefix); ev_Peer : option PeerEvent }.

Definition session_of (path : Path AddrPrefix) : string :=
  normalizeAddr (if bool_decide (pt_NeighborIp path = "") then pt_SourceId path else pt_NeighborIp path).

(** The update a path stands for, when it passes the receive gate and parses. *)
Definition handlePath (taken : bool) (path : Path AddrPrefix) (s : Server) : Server :=
  let session := session_of path in
  if negb (bool_decide (session ∈ receivePeers s)) then s
  else
    match pt_nlri path with
    | None => s
    | Some nlri =>
        match pt_attrs path with
        | None => s
        | Some attrs =>
            match ParseNLRI nlri attrs with
            | Err _ => s
            | Ok rule =>
                let op := if pt_IsWithdraw path then OpWithdraw else OpAnnounce in
                bgp_send taken {| u_Session := session; u_Op := op; u_Rule := Some rule; u_Peer := session |} s
            end
        end
    end.

Definition handlePeerEvent (taken : bool) (pe : PeerEvent) (s : Server) : Server :=
  if negb (pe_is_state pe) then s
  else
    match pe_state pe with
    | None => s
    | Some (address, state) =>
        let addr := normalizeAddr address in
        match state with
        | ESTABLISHED => s
        | NotEstablished _ =>
            bgp_send taken {| u_Session := addr; u_Op := OpSessionDown; u_Rule := None; u_Peer := addr |} s
        end
    end.

(** [taken] decides the selects of the calls to [send]. *)
Definition bgp_handleEvent (taken : bool) (r : WatchEventResponse) (s : Server) : Server :=
  let s := foldl (fun s path => handlePath taken path s) s (ev_Table r) in
  match ev_Peer r with
  | Some pe => handlePeerEvent taken pe s
  | None => s
  end.

(** The server over a sequence of callbacks; [None] is a call of [Stop]. *)
Definition watch_step (s : Server) (e : bool * option WatchEventResponse) : Server :=
  match e.2 with
  | Some r => bgp_handleEvent e.1 r s
  | None => {| s_opts := s_opts s; s_started := s_started s; s_updates := s_updates s; s_stopped := true;
               receivePeers := receivePeers s |}
  end.

Definition watch_run (s : Server) (es : list (bool * option WatchEventResponse)) : Server := foldl watch_step s es.
End Speaker.
