(* ===== verification/BgpFacts.v ===== *)
(** * Facts about the BGP side

    Encoding and parsing of NLRIs are inverse on the rules the agent originates,
    the watch callbacks only let receive peers through to the manager, and the
    policies that gate propagation are installed before any peer exists. *)
From S2P Require Import Prelude GoText Netip Flowspec GoParse GoParseFacts Float64 VppTypes Translate TranslateFacts VppFacts Manager ManagerFacts Bgp BgpServer.
From Stdlib Require Import Ascii.
#[local] Open Scope Z_scope.
#[local] Set Default Proof Using "Type*".

(** ** Operator bytes *)
Lemma has_bit_op op op' b :
  Z.land op_bits b = b -> Z.land op op_bits = Z.land op' op_bits -> has_bit op b = has_bit op' b.
Proof.
  intros Hb E. unfold has_bit. rewrite <-Hb, !Z.land_assoc. by rewrite E.
Qed.

Lemma num_op_byte_bits o :
  in_width 8 (num_op_byte o) /\
  has_bit (num_op_byte o) numOpAND = n_And o /\ has_bit (num_op_byte o) numOpLT = n_LT o /\
  has_bit (num_op_byte o) numOpGT = n_GT o /\ has_bit (num_op_byte o) numOpEQ = n_EQ o.
Proof. destruct o as [[] [] [] [] v]; by vm_compute. Qed.

Lemma bit_op_byte_bits o :
  in_width 8 (bit_op_byte o) /\
  has_bit (bit_op_byte o) bitOpAnd = b_And o /\ has_bit (bit_op_byte o) bitOpNot = b_Not o /\
  has_bit (bit_op_byte o) bitOpMatch = b_Match o.
Proof. destruct o as [[] [] [] v]; by vm_compute. Qed.

Section Convert.
Context `{GoBGPLaws}.

(** What GoBGP keeps of a list of constructed items. *)
Lemma items_kept {Op} (byte val : Op -> Z) ops :
  Forall (fun o => in_width 8 (byte o) /\ in_width 64 (val o)) ops ->
  Forall2 (fun it o => Z.land (it_Op it) op_bits = Z.land (byte o) op_bits /\ it_Value it = val o)
    (item_list ((fun o => NewFlowSpecComponentItem (byte o) (val o)) <$> ops)) ops.
Proof.
  intros Hw. pose proof (item_list_keeps ((fun o => NewFlowSpecComponentItem (byte o) (val o)) <$> ops)) as Hk.
  rewrite Forall2_fmap_r in Hk.
  revert Hk. generalize (item_list ((fun o => NewFlowSpecComponentItem (byte o) (val o)) <$> ops)). intros l Hk.
  induction Hk as [|it o l ops [E1 E2] Hk IH]; [done|]. apply Forall_cons in Hw as [[W1 W2] Hw].
  constructor; [|auto]. by rewrite E1, E2, item_op, item_value.
Qed.

Lemma numericOps_items ops :
  Forall NumericOp_wf ops ->
  numericOps (item_list ((fun o => NewFlowSpecComponentItem (num_op_byte o) (n_Value o)) <$> ops)) = ops.
Proof.
  intros Hw. pose proof (items_kept num_op_byte n_Value ops) as Hk.
  assert (Forall (fun o => in_width 8 (num_op_byte o) /\ in_width 64 (n_Value o)) ops) as W.
  { eapply Forall_impl; [exact Hw|]. intros o Ho. split; [apply num_op_byte_bits|done]. }
  specialize (Hk W). clear W Hw. revert Hk. generalize (item_list ((fun o => NewFlowSpecComponentItem (num_op_byte o) (n_Value o)) <$> ops)).
  intros l Hk. unfold numericOps. induction Hk as [|it o l ops [E1 E2] Hk IH]; [done|]. cbn [fmap list_fmap]. f_equal; [|exact IH].
  destruct (num_op_byte_bits o) as (_ & B1 & B2 & B3 & B4).
  rewrite !(has_bit_op (it_Op it) (num_op_byte o)) by done. rewrite B1, B2, B3, B4, E2. by destruct o.
Qed.

Lemma bitmaskOps_items ops :
  Forall BitmaskOp_wf ops ->
  bitmaskOps (item_list ((fun o => NewFlowSpecComponentItem (bit_op_byte o) (b_Value o)) <$> ops)) = ops.
Proof.
  intros Hw. pose proof (items_kept bit_op_byte b_Value ops) as Hk.
  assert (Forall (fun o => in_width 8 (bit_op_byte o) /\ in_width 64 (b_Value o)) ops) as W.
  { eapply Forall_impl; [exact Hw|]. intros o Ho. split; [apply bit_op_byte_bits|done]. }
  specialize (Hk W). clear W Hw. revert Hk. generalize (item_list ((fun o => NewFlowSpecComponentItem (bit_op_byte o) (b_Value o)) <$> ops)).
  intros l Hk. unfold bitmaskOps. induction Hk as [|it o l ops [E1 E2] Hk IH]; [done|]. cbn [fmap list_fmap]. f_equal; [|exact IH].
  destruct (bit_op_byte_bits o) as (_ & B1 & B2 & B3).
  rewrite !(has_bit_op (it_Op it) (bit_op_byte o)) by done. rewrite B1, B2, B3, E2. by destruct o.
Qed.

(** ** Prefixes *)

(** A prefix GoBGP carries unchanged in the given family. *)
Definition prefix_sendable (v6 : bool) (p : Prefix) : Prop :=
  prefix_wf p /\ prefix_IsValid p = true /\
  match p_addr p with
  | AddrNone => False
  | Addr4 _ => v6 = false
  | Addr6 v => v6 = true /\ Is4In6 v = false
  end.

Lemma PrefixFrom_valid p : prefix_wf p -> prefix_IsValid p = true -> PrefixFrom (p_addr p) (p_bits p) = p.
Proof.
  intros (Ha & Hb & Hn) Hv%Z.leb_le. destruct p as [a bits]; cbn [p_addr p_bits] in *. unfold PrefixFrom. f_equal.
  destruct a; [specialize (Hn eq_refl); lia| |]; cbn [addr_IsValid andb];
    by rewrite (proj2 (Z.leb_le 0 bits)), (proj2 (Z.leb_le bits _)) by lia.
Qed.

Lemma prefixNLRI_parse v6 p :
  prefix_sendable v6 p -> exists x, prefixNLRI p v6 = Ok x /\ parsePrefix x = Ok p.
Proof.
  intros (Hw & Hv & Hf). unfold prefixNLRI, parsePrefix. rewrite Hv. cbn [negb].
  pose proof (PrefixFrom_valid p Hw Hv) as Hp. pose proof Hw as (Ha & Hb & Hn).
  unfold prefix_IsValid in Hv. apply Z.leb_le in Hv.
  assert (u8 (p_bits p) = p_bits p) as -> by (apply u8_small; destruct (p_addr p); simpl in Hb; unfold in_width; lia).
  destruct (p_addr p) as [|v|v] eqn:E; [done| |].
  - subst v6. cbn [Is4 negb]. eexists. split; [done|].
    rewrite ipv4_prefix_text by (done || simpl in *; lia). by rewrite ParsePrefix_text, Hp by (done || simpl in *; lia).
  - destruct Hf as [-> H4]. cbn [Is6 negb]. eexists. split; [done|].
    rewrite ipv6_prefix_text by (done || simpl in *; lia). by rewrite ParsePrefix_text, Hp by (done || simpl in *; lia).
Qed.

(** ** Rules the agent originates *)
Definition side_sendable (v6 has : bool) (p : Prefix) (off : Z) : Prop :=
  (if has then prefix_sendable v6 p else p = zeroPrefix) /\ (has && v6 = false -> off = 0).

Record originable (r : Rule) : Prop := {
  or_dst : side_sendable (bool_decide (r_Family r = FamilyIPv6)) (HasDst (r_Match r)) (Dst (r_Match r)) (DstOffset (r_Match r));
  or_src : side_sendable (bool_decide (r_Family r = FamilyIPv6)) (HasSrc (r_Match r)) (Src (r_Match r)) (SrcOffset (r_Match r));
  or_wf : Match_wf (r_Match r);
  or_rest : Fragment (r_Match r) = [] /\ HasGenericPort (r_Match r) = false /\ HasPacketLen (r_Match r) = false /\
    HasDSCP (r_Match r) = false /\ HasFlowLabel (r_Match r) = false /\ HasLabel (r_Match r) = false /\
    HasUnknownComponent (r_Match r) = false;
  or_some : HasDst (r_Match r) || HasSrc (r_Match r) || present (Proto (r_Match r)) || present (DstPort (r_Match r)) ||
    present (SrcPort (r_Match r)) || present (ICMPType (r_Match r)) || present (ICMPCode (r_Match r)) ||
    present (TCPFlags (r_Match r)) = true
}.

(** The components of one operator list. *)
Definition num_comps (typ : BGPFlowSpecType) (ops : list NumericOp) : list (ComponentI AddrPrefix) := appendNumeric [] typ ops.
Definition bit_comps (typ : BGPFlowSpecType) (ops : list BitmaskOp) : list (ComponentI AddrPrefix) := appendBitmask [] typ ops.

Lemma appendNumeric_app comps typ ops : appendNumeric comps typ ops = comps ++ num_comps typ ops.
Proof. destruct ops; unfold num_comps; simpl; by rewrite ?app_nil_r. Qed.
Lemma appendBitmask_app comps typ ops : appendBitmask comps typ ops = comps ++ bit_comps typ ops.
Proof. destruct ops; unfold bit_comps; simpl; by rewrite ?app_nil_r. Qed.

Lemma parse_loop_app m c1 c2 : parse_loop m (c1 ++ c2) = (m' ← parse_loop m c1; parse_loop m' c2).
Proof.
  revert m. induction c1 as [|c c1 IH]; intros m; [done|]. cbn [app parse_loop].
  destruct (parse_component m c); [|done]. cbn [mbind result_bind]. apply IH.
Qed.

(** Parsing one operator list into a field that is still empty. *)
Ltac parse_field := intros E Hw; unfold num_comps, bit_comps;
  match goal with |- parse_loop ?m (?f [] _ ?ops) = _ =>
    let o := fresh in destruct ops as [|o ?]; [destruct m; cbn in E; by subst|] end;
  unfold appendNumeric, appendBitmask; cbn [app parse_loop parse_component mbind result_bind parseGenericComponent];
  by rewrite ?numericOps_items, ?bitmaskOps_items by done.

Lemma parse_proto m ops : Proto m = [] -> Forall NumericOp_wf ops ->
  parse_loop m (num_comps FLOW_SPEC_TYPE_IP_PROTO ops) =
    Ok (set_ops ops (DstPort m) (SrcPort m) (ICMPType m) (ICMPCode m) (TCPFlags m) (Fragment m) m).
Proof. parse_field. Qed.
Lemma parse_dport m ops : DstPort m = [] -> Forall NumericOp_wf ops ->
  parse_loop m (num_comps FLOW_SPEC_TYPE_DST_PORT ops) =
    Ok (set_ops (Proto m) ops (SrcPort m) (ICMPType m) (ICMPCode m) (TCPFlags m) (Fragment m) m).
Proof. parse_field. Qed.
Lemma parse_sport m ops : SrcPort m = [] -> Forall NumericOp_wf ops ->
  parse_loop m (num_comps FLOW_SPEC_TYPE_SRC_PORT ops) =
    Ok (set_ops (Proto m) (DstPort m) ops (ICMPType m) (ICMPCode m) (TCPFlags m) (Fragment m) m).
Proof. parse_field. Qed.
Lemma parse_itype m ops : ICMPType m = [] -> Forall NumericOp_wf ops ->
  parse_loop m (num_comps FLOW_SPEC_TYPE_ICMP_TYPE ops) =
    Ok (set_ops (Proto m) (DstPort m) (SrcPort m) ops (ICMPCode m) (TCPFlags m) (Fragment m) m).
Proof. parse_field. Qed.
Lemma parse_icode m ops : ICMPCode m = [] -> Forall NumericOp_wf ops ->
  parse_loop m (num_comps FLOW_SPEC_TYPE_ICMP_CODE ops) =
    Ok (set_ops (Proto m) (DstPort m) (SrcPort m) (ICMPType m) ops (TCPFlags m) (Fragment m) m).
Proof. parse_field. Qed.
Lemma parse_flags m ops : TCPFlags m = [] -> Forall BitmaskOp_wf ops ->
  parse_loop m (bit_comps FLOW_SPEC_TYPE_TCP_FLAG ops) =
    Ok (set_ops (Proto m) (DstPort m) (SrcPort m) (ICMPType m) (ICMPCode m) ops (Fragment m) m).
Proof. parse_field. Qed.

Lemma dst_component_parse v6 m0 m :
  side_sendable v6 (HasDst m) (Dst m) (DstOffset m) ->
  HasDst m0 = false -> Dst m0 = zeroPrefix -> DstOffset m0 = 0 ->
  exists cs, dst_component m v6 = Ok cs /\ (HasDst m = true -> cs <> []) /\
    parse_loop m0 cs = Ok (set_dst_offset (DstOffset m) (if HasDst m then set_dst (Dst m) m0 else m0)).
Proof.
  intros [Hp Ho] E1 E2 E3. unfold dst_component. destruct (HasDst m).
  - destruct (prefixNLRI_parse v6 _ Hp) as (x & -> & Hx). cbn [mbind result_bind].
    eexists. split; [done|]. split; [done|]. destruct v6; cbn [parse_loop parse_component]; rewrite Hx; cbn [mbind result_bind].
    + done.
    + rewrite (Ho eq_refl). f_equal. rewrite <-E3. done.
  - eexists. split; [done|]. split; [done|]. cbn [parse_loop]. rewrite (Ho eq_refl), <-E3. by destruct m0.
Qed.

Lemma src_component_parse v6 m0 m :
  side_sendable v6 (HasSrc m) (Src m) (SrcOffset m) ->
  HasSrc m0 = false -> Src m0 = zeroPrefix -> SrcOffset m0 = 0 ->
  exists cs, src_component m v6 = Ok cs /\ (HasSrc m = true -> cs <> []) /\
    parse_loop m0 cs = Ok (set_src_offset (SrcOffset m) (if HasSrc m then set_src (Src m) m0 else m0)).
Proof.
  intros [Hp Ho] E1 E2 E3. unfold src_component. destruct (HasSrc m).
  - destruct (prefixNLRI_parse v6 _ Hp) as (x & -> & Hx). cbn [mbind result_bind].
    eexists. split; [done|]. split; [done|]. destruct v6; cbn [parse_loop parse_component]; rewrite Hx; cbn [mbind result_bind].
    + done.
    + rewrite (Ho eq_refl). f_equal. rewrite <-E3. done.
  - eexists. split; [done|]. split; [done|]. cbn [parse_loop]. rewrite (Ho eq_refl), <-E3. by destruct m0.
Qed.

(** The operator lists of a match, as components. *)
Definition op_comps (m : Match) : list (ComponentI AddrPrefix) :=
  num_comps FLOW_SPEC_TYPE_IP_PROTO (Proto m) ++ num_comps FLOW_SPEC_TYPE_DST_PORT (DstPort m) ++
  num_comps FLOW_SPEC_TYPE_SRC_PORT (SrcPort m) ++ num_comps FLOW_SPEC_TYPE_ICMP_TYPE (ICMPType m) ++
  num_comps FLOW_SPEC_TYPE_ICMP_CODE (ICMPCode m) ++ bit_comps FLOW_SPEC_TYPE_TCP_FLAG (TCPFlags m).

Lemma op_comps_parse m m0 :
  Match_wf m -> Proto m0 = [] -> DstPort m0 = [] -> SrcPort m0 = [] -> ICMPType m0 = [] -> ICMPCode m0 = [] ->
  TCPFlags m0 = [] ->
  parse_loop m0 (op_comps m) =
    Ok (set_ops (Proto m) (DstPort m) (SrcPort m) (ICMPType m) (ICMPCode m) (TCPFlags m) (Fragment m0) m0).
Proof.
  intros [_ _ W1 W2 W3 W4 W5 W6] E1 E2 E3 E4 E5 E6. unfold op_comps.
  rewrite parse_loop_app, parse_proto by done. cbn [mbind result_bind].
  rewrite parse_loop_app, parse_dport by done. cbn [mbind result_bind].
  rewrite parse_loop_app, parse_sport by done. cbn [mbind result_bind].
  rewrite parse_loop_app, parse_itype by done. cbn [mbind result_bind].
  rewrite parse_loop_app, parse_icode by done. cbn [mbind result_bind].
  by rewrite parse_flags by done.
Qed.

Lemma op_comps_nil m :
  op_comps m = [] ->
  present (Proto m) || present (DstPort m) || present (SrcPort m) || present (ICMPType m) || present (ICMPCode m) ||
  present (TCPFlags m) = false.
Proof.
  unfold op_comps, num_comps, bit_comps.
  destruct (Proto m), (DstPort m), (SrcPort m), (ICMPType m), (ICMPCode m), (TCPFlags m); done.
Qed.

Lemma encodeNLRI_eq r :
  encodeNLRI r =
    (dst ← dst_component (r_Match r) (bool_decide (r_Family r = FamilyIPv6));
     src ← src_component (r_Match r) (bool_decide (r_Family r = FamilyIPv6));
     match dst ++ src ++ op_comps (r_Match r) with
     | [] => Err (plain "flowspec rule has no match components to advertise")
     | comps => Ok (if bool_decide (r_Family r = FamilyIPv6) then FlowSpecIPv6Unicast comps else FlowSpecIPv4Unicast comps)
     end).
Proof.
  unfold encodeNLRI. destruct (dst_component _ _) as [dst|]; [|done]. destruct (src_component _ _) as [src|]; [|done].
  cbn [mbind result_bind]. rewrite appendBitmask_app, !appendNumeric_app. unfold op_comps. rewrite <-!app_assoc.
  by destruct (dst ++ _).
Qed.

Lemma encode_parse r :
  originable r -> exists nlri, encodeNLRI r = Ok nlri /\ forall attrs, ParseNLRI nlri attrs =
    Ok {| r_Family := r_Family r; r_Match := r_Match r; r_Action := parseAction attrs; r_Raw := NLRI_String nlri |}.
Proof.
  intros [Hd Hs Hw (R1 & R2 & R3 & R4 & R5 & R6 & R7) Hsome]. rewrite encodeNLRI_eq.
  destruct (dst_component_parse _ emptyMatch _ Hd eq_refl eq_refl eq_refl) as (dst & -> & Nd & Pd).
  set (m1 := set_dst_offset _ _) in Pd.
  destruct (src_component_parse _ m1 _ Hs) as (src & -> & Ns & Ps);
    [unfold m1; by destruct (HasDst _)..|]. cbn [mbind result_bind].
  assert (parseComponents (dst ++ src ++ op_comps (r_Match r)) = Ok (r_Match r)) as Hp.
  { unfold parseComponents. rewrite parse_loop_app, Pd. cbn [mbind result_bind].
    rewrite parse_loop_app, Ps. cbn [mbind result_bind]. rewrite op_comps_parse; [|done|..].
    2-7: unfold m1; by destruct (HasDst _), (HasSrc _).
    f_equal. unfold m1. destruct Hd as [Hd _], Hs as [Hs _].
    destruct (r_Match r) as [hd d od hs s os ?????? fr ??????]; cbn in *; subst.
    destruct hd, hs; cbn in *; subst; done. }
  assert (dst ++ src ++ op_comps (r_Match r) <> []) as Hne.
  { intros [Ed [Es Eo%op_comps_nil]%app_eq_nil]%app_eq_nil. revert Hsome.
    destruct (HasDst _); [by destruct (Nd eq_refl)|]. destruct (HasSrc _); [by destruct (Ns eq_refl)|].
    cbn [orb]. by rewrite Eo. }
  destruct (dst ++ src ++ op_comps (r_Match r)) as [|c cs]; [done|].
  destruct (r_Family r); [rewrite bool_decide_false by done|rewrite bool_decide_true by done];
    eexists; (split; [done|]); intros attrs; unfold ParseNLRI; cbn [mbind result_bind];
    by rewrite Hp.
Qed.

(** ** Actions *)

(** The extended communities among the attributes: all the action depends on. *)
Definition communities (attrs : list (PathAttribute AddrPrefix)) : list ExtendedCommunity :=
  flat_map (fun a => match a with PathAttributeExtendedCommunities l => l | _ => [] end) attrs.

Lemma attr_steps attrs acc : foldl attr_step acc attrs = foldl action_step acc (communities attrs).
Proof.
  revert acc. induction attrs as [|a attrs IH]; intros acc; [done|]. cbn [foldl communities flat_map].
  rewrite foldl_app, IH. by destruct a.
Qed.

Lemma parseAction_communities attrs attrs' : communities attrs = communities attrs' -> parseAction attrs = parseAction attrs'.
Proof. unfold parseAction. intros E. by rewrite !attr_steps, E. Qed.

Definition is_discard (ec : ExtendedCommunity) : bool :=
  match ec with TrafficRateExtended _ rate => f_eq rate f_zero | _ => false end.
Definition is_other_action (ec : ExtendedCommunity) : bool :=
  match ec with TrafficRateExtended _ rate => negb (f_eq rate f_zero) | OtherCommunity => false | _ => true end.

Lemma action_steps ecs acc :
  let out := foldl action_step acc ecs in
  out.1 = acc.1 || existsb is_discard ecs /\
  (existsb is_other_action ecs = false -> out.2 = acc.2) /\
  (existsb is_other_action ecs = true \/ acc.2 <> "" -> out.2 <> "").
Proof.
  cbv zeta. revert acc. induction ecs as [|ec ecs IH]; intros [d u]; cbn [foldl existsb fst snd].
  { rewrite orb_false_r. split; [done|]. split; [done|]. intros [?|?]; done. }
  destruct (IH (action_step (d, u) ec)) as (H1 & H2 & H3). rewrite H1. split; [|split].
  - destruct ec; cbn; try (by rewrite ?orb_false_r); destruct (f_eq _ _); cbn; by rewrite ?orb_true_r, ?orb_false_r.
  - intros [E1 E2]%orb_false_iff. rewrite H2 by done. destruct ec; try done. cbn in *. by destruct (f_eq _ _).
  - intros Hor. apply H3. destruct (existsb is_other_action ecs); [by left|right]. rewrite orb_false_r in Hor.
    destruct ec; cbn in *; try done; try (by destruct Hor). destruct (f_eq _ _); [by destruct Hor|done].
Qed.

(** A path drops exactly when it carries a zero traffic rate and no other
    traffic action. *)
Lemma parseAction_drop attrs :
  Kind (parseAction attrs) = ActionDrop <->
  existsb is_discard (communities attrs) = true /\ existsb is_other_action (communities attrs) = false.
Proof.
  unfold parseAction. rewrite attr_steps. destruct (action_steps (communities attrs) (false, "")) as (H1 & H2 & H3).
  destruct (foldl action_step (false, "") (communities attrs)) as [d u]. cbn [fst snd orb] in *. subst d.
  destruct (existsb is_other_action _).
  - rewrite bool_decide_true by auto. split; [done|by intros []].
  - rewrite (H2 eq_refl), bool_decide_false by (by intros []).
    destruct (existsb is_discard _); split; [done|done|done|by intros []].
Qed.
End Convert.

(** ** Origination and reception *)
Section Advertise.
Context `{GoBGPLaws} (answer : log -> apiCall -> bool).
Context (NewPath : NLRI AddrPrefix -> list (PathAttribute AddrPrefix) -> option (Path AddrPrefix)).

(** A path carries what it was built from. *)
Context (NewPath_carries : forall nlri attrs path,
  NewPath nlri attrs = Some path -> pt_nlri path = Some nlri /\ pt_attrs path = Some attrs).

Lemma advertised_action opts r nlri : parseAction (advertised_attrs opts r nlri) = {| Kind := ActionDrop; Desc := "traffic-rate=0" |}.
Proof. done. Qed.

(** What one agent originates is what another one applies.  [Advertise] of an
    originable rule whose path can be built makes one API call, with the same path
    for the announcement and the withdrawal; when an agent that takes FlowSpec from
    that neighbor receives the route (with the same extended communities), its
    watch callback delivers exactly one update: the same family and match with the
    drop action, so the entry it is mapped to is the one of the original rule. *)
Lemma originated_rule_is_applied_by_peers (s t : Server) (r : Rule) nlri path :
  originable r -> s_started s = true -> s_stopped t = false ->
  encodeNLRI r = Ok nlri -> NewPath nlri (advertised_attrs (s_opts s) r nlri) = Some path ->
  (forall withdraw l, (Advertise answer NewPath s r withdraw l).1 = l ++ [if withdraw then DeletePath path else AddPath path]) /\
  forall rx attrs attrs' taken, pt_nlri rx = pt_nlri path -> pt_attrs path = Some attrs -> pt_attrs rx = Some attrs' ->
    communities attrs' = communities attrs -> session_of rx ∈ receivePeers t ->
    exists r', s_updates (handlePath taken rx t) = s_updates t ++
        [{| u_Session := session_of rx; u_Op := if pt_IsWithdraw rx then OpWithdraw else OpAnnounce;
            u_Rule := Some r'; u_Peer := session_of rx |}] /\
      r_Family r' = r_Family r /\ r_Match r' = r_Match r /\ Kind (r_Action r') = ActionDrop /\
      (Kind (r_Action r) = ActionDrop -> Translate r' = Translate r).
Proof using NewPath_carries H H0.
  intros Hr Hs Ht He Hp. destruct (NewPath_carries _ _ _ Hp) as [Hn Ha].
  split; [intros withdraw l; unfold Advertise; rewrite Hs, He, Hp; by destruct withdraw|].
  intros rx attrs attrs' taken En Ea Ea' Ec Hses.
  destruct (encode_parse r Hr) as (nlri' & He' & Hparse). rewrite He in He'. injection He' as <-.
  rewrite Ha in Ea. injection Ea as <-.
  unfold handlePath. rewrite bool_decide_true by done. cbn [negb]. rewrite En, Hn, Ea', Hparse.
  rewrite (parseAction_communities attrs' (advertised_attrs (s_opts s) r nlri)), advertised_action by done.
  eexists. unfold bgp_send. rewrite Ht. cbn [andb s_updates]. split; [done|]. cbn [r_Family r_Match r_Action Kind].
  repeat (split; [done|]). intros Hk. unfold Translate. cbn [r_Family r_Match r_Action Kind]. by rewrite Hk.
Qed.
End Advertise.

(** ** The receive gate *)
Section Gate.
Context `{GoBGP}.

Lemma receive_set opts n :
  n ∈ receivePeers (newServer opts) <-> exists p, p ∈ Peers opts /\ Receive p = true /\ normalizeAddr (Address p) = n.
Proof.
  cbn [newServer receivePeers].
  assert (forall (ps : list PeerOptions) (acc : gset string), n ∈ foldl (fun acc p => if Receive p then {[normalizeAddr (Address p)]} ∪ acc else acc) acc ps <->
    n ∈ acc \/ exists p, p ∈ ps /\ Receive p = true /\ normalizeAddr (Address p) = n) as Hg.
  { induction ps as [|p ps IH]; intros acc; cbn [foldl].
    - split; [by left|]. intros [?|(p & Hp%not_elem_of_nil & _)]; done.
    - rewrite IH. setoid_rewrite elem_of_cons. destruct (Receive p) eqn:E.
      + rewrite elem_of_union, elem_of_singleton. naive_solver.
      + naive_solver congruence. }
  rewrite Hg. set_solver.
Qed.

(** The paths of a sequence of callbacks. *)
Definition event_paths (es : list (bool * option WatchEventResponse)) : list (Path AddrPrefix) :=
  flat_map (fun e => match e.2 with Some r => ev_Table r | None => [] end) es.

(** Where an update comes from. *)
Definition update_origin (rp : gset string) (paths : list (Path AddrPrefix)) (u : Update) : Prop :=
  match u_Op u with
  | OpAnnounce | OpWithdraw =>
      u_Session u ∈ rp /\ exists path nlri attrs r, path ∈ paths /\ session_of path = u_Session u /\
        pt_IsWithdraw path = bool_decide (u_Op u = OpWithdraw) /\ pt_nlri path = Some nlri /\
        pt_attrs path = Some attrs /\ ParseNLRI nlri attrs = Ok r /\ u_Rule u = Some r
  | OpSessionDown => u_Rule u = None
  | OpResync => False
  end.

Lemma update_origin_mono rp ps ps' u : (forall p, p ∈ ps -> p ∈ ps') -> update_origin rp ps u -> update_origin rp ps' u.
Proof. unfold update_origin. intros Hs. destruct (u_Op u); naive_solver. Qed.

Lemma bgp_send_updates (P : Update -> Prop) taken u s :
  P u -> Forall P (s_updates s) -> Forall P (s_updates (bgp_send taken u s)).
Proof.
  intros Hu Hs. unfold bgp_send. destruct (_ && _); [done|]. cbn [s_updates].
  apply Forall_app. split; [done|]. by constructor.
Qed.

Lemma bgp_send_peers taken u s : receivePeers (bgp_send taken u s) = receivePeers s.
Proof. unfold bgp_send. by destruct (_ && _). Qed.

Lemma handlePath_peers taken path s : receivePeers (handlePath taken path s) = receivePeers s.
Proof. unfold handlePath. repeat case_match; rewrite ?bgp_send_peers; done. Qed.

Lemma handlePath_origin taken path s :
  s_updates (handlePath taken path s) = s_updates s \/
  exists u, update_origin (receivePeers s) [path] u /\ s_updates (handlePath taken path s) = s_updates s ++ [u].
Proof.
  unfold handlePath. case_bool_decide as Hin; cbn [negb]; [|by left].
  destruct (pt_nlri path) as [nlri|] eqn:En; [|by left]. destruct (pt_attrs path) as [attrs|] eqn:Ea; [|by left].
  destruct (ParseNLRI nlri attrs) as [r|] eqn:Er; [|by left]. unfold bgp_send. destruct (_ && _); [by left|].
  right. eexists. split; [|done]. unfold update_origin. cbn [u_Op u_Session u_Rule].
  destruct (pt_IsWithdraw path) eqn:Ew; (split; [done|]); exists path, nlri, attrs, r;
    rewrite Ew; (split; [by left|]); done.
Qed.

Lemma handlePath_updates rp ps taken path s :
  receivePeers s = rp -> path ∈ ps -> Forall (update_origin rp ps) (s_updates s) ->
  Forall (update_origin rp ps) (s_updates (handlePath taken path s)).
Proof.
  intros <- Hp Hs.
  assert (forall u, update_origin (receivePeers s) [path] u -> update_origin (receivePeers s) ps u) as Hm.
  { intros u. apply update_origin_mono. by intros p ->%list_elem_of_singleton. }
  destruct (handlePath_origin taken path s) as [->|(u & Hu & ->)]; [done|].
  apply Forall_app. split; [done|]. constructor; [by apply Hm|done].
Qed.

Lemma bgp_handleEvent_updates rp ps taken e s :
  receivePeers s = rp -> (forall p, p ∈ ev_Table e -> p ∈ ps) -> Forall (update_origin rp ps) (s_updates s) ->
  Forall (update_origin rp ps) (s_updates (bgp_handleEvent taken e s)) /\
  receivePeers (bgp_handleEvent taken e s) = rp.
Proof.
  intros Hrp Hps Hs. unfold bgp_handleEvent.
  assert (Forall (update_origin rp ps) (s_updates (foldl (fun s path => handlePath taken path s) s (ev_Table e))) /\
          receivePeers (foldl (fun s path => handlePath taken path s) s (ev_Table e)) = rp) as [H1 H2].
  { revert s Hrp Hs. induction (ev_Table e) as [|p l IH]; intros s Hrp Hs; [done|]. cbn [foldl]. apply IH.
    - intros q Hq. apply Hps. by right.
    - by rewrite handlePath_peers.
    - apply handlePath_updates; [done|apply Hps; by left|done]. }
  destruct (ev_Peer e) as [pe|]; [|done]. unfold handlePeerEvent.
  destruct (negb _); [done|]. destruct (pe_state pe) as [[a []]|]; [done| |done].
  rewrite bgp_send_peers. split; [|done]. by apply bgp_send_updates.
Qed.

Lemma watch_run_updates rp ps es s :
  receivePeers s = rp -> (forall p, p ∈ event_paths es -> p ∈ ps) -> Forall (update_origin rp ps) (s_updates s) ->
  Forall (update_origin rp ps) (s_updates (watch_run s es)).
Proof.
  revert s. induction es as [|[taken e] es IH]; intros s Hrp Hps Hs; [done|]. unfold watch_run. cbn [foldl].
  cbn [event_paths flat_map] in Hps. setoid_rewrite elem_of_app in Hps. destruct e as [e|].
  - destruct (bgp_handleEvent_updates rp ps taken e s Hrp) as [H1 H2]; [naive_solver|done|].
    apply IH; [done|naive_solver|done].
  - apply IH; [done|naive_solver|done].
Qed.

(** Every update of a server comes from a receive peer's path or a peer that
    went down. *)
Lemma server_updates opts es :
  Forall (update_origin (receivePeers (newServer opts)) (event_paths es)) (s_updates (watch_run (newServer opts) es)).
Proof. by apply watch_run_updates. Qed.

(** ** Parsed rules are well formed *)
Definition component_wf (c : ComponentI AddrPrefix) : Prop :=
  match c with FlowSpecComponent _ items => Forall (fun it => in_width 64 (it_Value it)) items | _ => True end.
Definition nlri_wf (n : NLRI AddrPrefix) : Prop :=
  match n with FlowSpecIPv4Unicast cs | FlowSpecIPv6Unicast cs => Forall component_wf cs | OtherNLRI _ => True end.

Definition match_good (m : Match) : Prop := Match_wf m /\ Match_prefixes_valid m.

Lemma emptyMatch_good : match_good emptyMatch.
Proof. split; [split; try done; apply Forall_nil_2 |]. by split. Qed.

Lemma numericOps_wf items : Forall (fun it => in_width 64 (it_Value it)) items -> Forall NumericOp_wf (numericOps items).
Proof. intros Hi. apply Forall_fmap. eapply Forall_impl; [exact Hi|done]. Qed.
Lemma bitmaskOps_wf items : Forall (fun it => in_width 64 (it_Value it)) items -> Forall BitmaskOp_wf (bitmaskOps items).
Proof. intros Hi. apply Forall_fmap. eapply Forall_impl; [exact Hi|done]. Qed.

Lemma parse_component_good m c m' :
  match_good m -> component_wf c -> parse_component m c = Ok m' -> match_good m'.
Proof.
  intros [[]  []] Hc. unfold parse_component, parsePrefix.
  destruct c as [p|p|p o|p o|typ items|].
  1-4: destruct (ParsePrefix (AddrPrefix_String p)) as [pfx|] eqn:E; cbn [mbind result_bind]; [|done];
       apply ParsePrefix_wf in E as [? ?]; intros [= <-]; by split; split.
  - intros [= <-]. cbn in Hc. apply numericOps_wf in Hc as Hn. apply bitmaskOps_wf in Hc as Hb.
    destruct typ; by split; split.
  - intros [= <-]. by split; split.
Qed.

Lemma parse_loop_good m cs m' : match_good m -> Forall component_wf cs -> parse_loop m cs = Ok m' -> match_good m'.
Proof.
  intros Hm Hcs. revert m Hm. induction Hcs as [|c cs Hc Hcs IH]; intros m Hm; cbn [parse_loop]; [by intros [= <-]|].
  intros (m1 & H1 & H2)%result_bind_Ok. eapply IH; [|exact H2]. by eapply parse_component_good.
Qed.

Lemma ParseNLRI_good nlri attrs r : nlri_wf nlri -> ParseNLRI nlri attrs = Ok r -> Rule_wf r.
Proof.
  intros Hn. unfold ParseNLRI. intros ((f & cs) & Hf & (m & Hm & [= <-])%result_bind_Ok)%result_bind_Ok.
  assert (Forall component_wf cs) as Hcs by (destruct nlri; [by injection Hf as <- <-..|done]).
  eapply parse_loop_good; [apply emptyMatch_good|exact Hcs|exact Hm].
Qed.

Lemma origin_wf rp ps u :
  Forall (fun p => forall nlri, pt_nlri p = Some nlri -> nlri_wf nlri) ps -> update_origin rp ps u -> Update_wf u.
Proof.
  intros Hps Ho r Hr. unfold update_origin in Ho. rewrite Forall_forall in Hps.
  destruct (u_Op u); [..|by destruct Ho].
  1,2: destruct Ho as (_ & path & nlri & attrs & r' & Hin & _ & _ & Hn & _ & Hp & Hr'); simplify_eq;
       eapply ParseNLRI_good; [by eapply Hps|exact Hp].
  congruence.
Qed.

(** An entry of the abstract table was announced. *)
Lemma rib_run_announced g us s id r :
  rib_run g us !! (s, id) = Some r ->
  exists u, u ∈ us.*2 /\ u_Op u = OpAnnounce /\ u_Session u = s /\ u_Rule u = Some r.
Proof.
  induction us as [|[o u] us IH] using rev_ind; [by unfold rib_run; cbn [foldl]; rewrite lookup_empty|].
  unfold rib_run. rewrite foldl_app. cbn [foldl]. fold (rib_run g us). rewrite fmap_app. setoid_rewrite elem_of_app.
  intros Hl.
  assert (rib_run g us !! (s, id) = Some r \/ (u_Op u = OpAnnounce /\ u_Session u = s /\ u_Rule u = Some r)) as [Hl'|Hu].
  { unfold rib_apply in Hl. cbn in Hl. revert Hl. generalize (rib_run g us). intros rib Hl.
    repeat case_match; simplify_eq; try (by left).
    all: revert Hl; rewrite ?lookup_insert_Some, ?lookup_delete_Some; intros; try naive_solver.
    unfold rib_drop in *. rewrite map_lookup_filter_Some in *. naive_solver. }
  - destruct (IH Hl') as (u' & Hin & ?). exists u'. split; [by left|done].
  - exists u. split; [|done]. right. by apply list_elem_of_singleton.
Qed.

End Gate.

(** ** Session identities *)
Lemma cut_none s : str_has "%" s = false -> cut "%" s = None.
Proof.
  unfold str_has. rewrite negb_false_iff. induction s as [|c s IH]; intros Hs; [done|].
  cbn [str_forall] in Hs. apply andb_true_iff in Hs as [Hc%negb_true_iff Hs]. cbn [cut].
  assert (HasPrefix (String c s) "%" = false) as ->.
  { cbn [HasPrefix]. by rewrite Ascii.eqb_sym, Hc. }
  by rewrite (IH Hs).
Qed.

(** Every spelling of an address (without zone) has one session identity: the
    text GoBGP and the configuration agree on. *)
Lemma normalizeAddr_canonical s a : ParseAddr s = Some a -> normalizeAddr s = addr_String a.
Proof.
  intros Ha. unfold normalizeAddr, canonical_addr.
  assert (addr_kind s = Some ":"%char -> cut "%" s = None) as Hc.
  { intros Hk. unfold ParseAddr in Ha. rewrite Hk in Ha. destruct (str_has "%" s) eqn:E; [done|]. by apply cut_none. }
  destruct (addr_kind s) as [c|] eqn:Hk; [|by rewrite Ha].
  destruct (decide (c = ":"%char)) as [->|Hne]; [by rewrite Hc, Ha|].
  destruct c as [[] [] [] [] [] [] [] []]; rewrite Ha; done.
Qed.

Lemma normalizeAddr_idem s a : ParseAddr s = Some a -> normalizeAddr (normalizeAddr s) = normalizeAddr s.
Proof.
  intros Ha. rewrite (normalizeAddr_canonical s a Ha). apply ParseAddr_wf in Ha as [Hw Hn].
  apply normalizeAddr_canonical. auto with parse_db.
Qed.

(** ** Propagation policies

    How GoBGP evaluates the global policy of a direction for a neighbor: the
    latest assignment decides; the first statement whose neighbor set contains
    the neighbor gives its action, and the default action applies when none
    does.  Without an assignment routes are accepted. *)
Section Policies.
Context `{GoBGP}.

Fixpoint latest {A} (f : apiCall -> option A) (l : log) : option A :=
  match l with
  | [] => None
  | c :: l' => match latest f l' with Some a => Some a | None => f c end
  end.

Definition same_direction (d e : PolicyDirection) : bool :=
  match d, e with IMPORT, IMPORT | EXPORT, EXPORT => true | _, _ => false end.

Definition assignment_of (d : PolicyDirection) (c : apiCall) : option PolicyAssignment :=
  match c with AddPolicyAssignment a => if same_direction (pa_Direction a) d then Some a else None | _ => None end.
Definition set_of (name : string) (c : apiCall) : option (list string) :=
  match c with AddDefinedSet n l => if String.eqb n name then Some l else None | _ => None end.

Definition statement_hits (l : log) (n : string) (st : Statement) : bool :=
  bool_decide (n ∈ default [] (latest (set_of (st_NeighborSet st)) l)).

Fixpoint first_action (hits : Statement -> bool) (sts : list Statement) : option RouteAction :=
  match sts with
  | [] => None
  | st :: sts' => if hits st then Some (st_RouteAction st) else first_action hits sts'
  end.

Definition accepts (l : log) (d : PolicyDirection) (n : string) : bool :=
  match latest (assignment_of d) l with
  | None => true
  | Some a =>
      match default (pa_DefaultAction a) (first_action (statement_hits l n) (flat_map pol_Statements (pa_Policies a))) with
      | ACCEPT => true
      | REJECT => false
      end
  end.

Definition is_peer_call (c : apiCall) : bool := match c with AddPeer _ | WatchEvent => true | _ => false end.

Lemma latest_app {A} (f : apiCall -> option A) l1 l2 :
  latest f (l1 ++ l2) = match latest f l2 with Some a => Some a | None => latest f l1 end.
Proof.
  induction l1 as [|c l1 IH]; cbn [app latest]; [by destruct (latest f l2)|]. rewrite IH. by destruct (latest f l2).
Qed.

Lemma latest_none {A} (f : apiCall -> option A) l : Forall (fun c => f c = None) l -> latest f l = None.
Proof. induction 1 as [|c l Hc Hl IH]; [done|]. cbn [latest]. by rewrite IH. Qed.

(** Calls about peers do not change what is accepted. *)
Lemma accepts_app l1 l2 d n : Forall (fun c => is_peer_call c = true) l2 -> accepts (l1 ++ l2) d n = accepts l1 d n.
Proof.
  intros Hl. unfold accepts.
  assert (forall A (f : apiCall -> option A), (forall c, is_peer_call c = true -> f c = None) ->
            latest f (l1 ++ l2) = latest f l1) as Hlat.
  { intros A f Hf. rewrite latest_app, (latest_none f l2); [done|]. eapply Forall_impl; [exact Hl|done]. }
  assert (forall d, latest (assignment_of d) (l1 ++ l2) = latest (assignment_of d) l1) as E1
    by (intros; apply Hlat; by intros []).
  assert (forall s, latest (set_of s) (l1 ++ l2) = latest (set_of s) l1) as E2 by (intros; apply Hlat; by intros []).
  rewrite E1. destruct (latest (assignment_of d) l1) as [a|]; [|done].
  assert (forall sts, first_action (statement_hits (l1 ++ l2) n) sts = first_action (statement_hits l1 n) sts) as ->; [|done].
  induction sts as [|st sts IH]; [done|]. cbn [first_action]. unfold statement_hits at 1 3. by rewrite E2, IH.
Qed.

(** The calls that install one direction. *)
Definition direction_log (policyName setName : string) (peers : list string) : log :=
  match peers with
  | [] => []
  | _ => [AddDefinedSet setName peers; AddPolicy (accept_policy policyName setName)]
  end.
Definition direction_policies (policyName setName : string) (peers : list string) : list Policy :=
  match peers with [] => [] | _ => [accept_policy policyName setName] end.

Definition policy_log (opts : Options) : log :=
  let receive := peers_with Receive (Peers opts) in
  let send := peers_with SendTo (Peers opts) in
  direction_log importPolicy receiveSetName receive ++ direction_log exportPolicy sendSetName send ++
  [assign IMPORT (direction_policies importPolicy receiveSetName receive);
   assign EXPORT (direction_policies exportPolicy sendSetName send)].

(** [accepts] on the installed policies. *)
Lemma policy_log_accepts opts g d n :
  accepts (StartBgp g :: policy_log opts) d n =
  bool_decide (n ∈ peers_with (match d with IMPORT => Receive | EXPORT => SendTo end) (Peers opts)).
Proof.
  unfold policy_log, accepts, statement_hits. destruct d;
    destruct (peers_with Receive (Peers opts)) as [|r rs]; destruct (peers_with SendTo (Peers opts)) as [|s ss];
    cbn -[elem_of bool_decide];
    rewrite ?(bool_decide_false (n ∈ [])) by apply not_elem_of_nil; try done; by case_bool_decide.
Qed.

(** ** The start sequence *)
Context (answer : log -> apiCall -> bool).

(** A computation that, when it succeeds, has made exactly the calls [cs], and
    otherwise only calls satisfying [P]. *)
Definition runs {A} (P : apiCall -> Prop) (m : api A) (cs : log) (a : A) : Prop :=
  forall l, (m l = (l ++ cs, Ok a)) \/ (exists l' e, m l = (l ++ l', Err e) /\ Forall P l').

Lemma call_runs (P : apiCall -> Prop) c : P c -> runs P (call answer c) [c] tt.
Proof.
  intros Hc l. unfold call. destruct (answer l c); [by left|]. right. eexists _, _. split; [done|]. by constructor.
Qed.

Lemma wrap_runs {A} P msg (m : api A) cs a : runs P m cs a -> runs P (wrap msg m) cs a.
Proof.
  intros Hm l. unfold wrap. destruct (Hm l) as [->|(l' & e & -> & Hl)]; [by left|]. right. eauto.
Qed.

Lemma ret_runs {A} (P : apiCall -> Prop) (a : A) : runs P (mret a) [] a.
Proof. intros l. left. unfold mret, api_ret. by rewrite app_nil_r. Qed.

Lemma bind_runs {A B} (P : apiCall -> Prop) (m : api A) (f : A -> api B) cs cs' a b :
  Forall P cs -> runs P m cs a -> runs P (f a) cs' b -> runs P (m ≫= f) (cs ++ cs') b.
Proof.
  intros Hcs Hm Hf l. unfold mbind, api_bind. destruct (Hm l) as [->|(l' & e & -> & Hl)].
  - destruct (Hf (l ++ cs)) as [->|(l' & e & -> & Hl)].
    + left. by rewrite app_assoc.
    + right. exists (cs ++ l'), e. rewrite app_assoc. split; [done|]. by apply Forall_app.
  - right. eauto.
Qed.

Definition not_peer (c : apiCall) : Prop := is_peer_call c = false.

Lemma installDirection_runs pn sn peers :
  runs not_peer (installDirection answer pn sn peers) (direction_log pn sn peers) (direction_policies pn sn peers).
Proof.
  destruct peers as [|p ps]; [apply ret_runs|]. unfold installDirection, direction_log, direction_policies.
  change [?a; ?b] with ([a] ++ [b] ++ []).
  eapply bind_runs; [by repeat constructor|by apply wrap_runs, call_runs|].
  eapply bind_runs; [by repeat constructor|by apply wrap_runs, call_runs|apply ret_runs].
Qed.

Lemma direction_log_not_peer pn sn peers : Forall not_peer (direction_log pn sn peers).
Proof. destruct peers; by repeat constructor. Qed.

Lemma applyPolicies_runs opts : runs not_peer (applyPolicies answer opts) (policy_log opts) tt.
Proof.
  unfold applyPolicies, policy_log.
  eapply bind_runs; [apply direction_log_not_peer|apply wrap_runs, installDirection_runs|].
  eapply bind_runs; [apply direction_log_not_peer|apply wrap_runs, installDirection_runs|].
  change [?a; ?b] with ([a] ++ [b]).
  eapply bind_runs; [by repeat constructor|by apply wrap_runs, call_runs|by apply wrap_runs, call_runs].
Qed.

Lemma addPeers_makes ps l : exists l' r, addPeers answer ps l = (l ++ l', r) /\ Forall (fun c => is_peer_call c = true) l'.
Proof.
  revert l. induction ps as [|p ps IH]; intros l; cbn [addPeers].
  - exists [], (Ok tt). by rewrite app_nil_r.
  - unfold mbind, api_bind, wrap, addPeer, call. destruct (answer l _).
    + destruct (IH (l ++ [AddPeer {| NeighborAddress := Address p; PeerAsn := PeerASN p; PassiveMode := Passive p;
                   RemotePort := u32 (Port p); AfiSafis := [FamilyIPv4; FamilyIPv6] |}])) as (l' & r & -> & Hl).
      eexists (_ :: l'), r. rewrite <-app_assoc. split; [done|]. by constructor.
    + eexists [_], _. split; [done|]. by constructor.
Qed.

(** The whole log of [Start]: the policies, then calls about peers; or calls that
    do not concern peers, when one of the first failed. *)
Lemma Start_log opts :
  exists g, (exists l', (Start answer opts []).1 = (StartBgp g :: policy_log opts) ++ l' /\ Forall (fun c => is_peer_call c = true) l') \/
  Forall not_peer (Start answer opts []).1.
Proof.
  unfold Start. set (g := {| g_Asn := _ |}). exists g.
  assert (runs not_peer (_ ← wrap (plain "start bgp: %w") (call answer (StartBgp g));
                         wrap (plain "apply policies: %w") (applyPolicies answer opts)) ([StartBgp g] ++ policy_log opts) tt) as Hpre.
  { eapply bind_runs; [by repeat constructor|by apply wrap_runs, call_runs|apply wrap_runs, applyPolicies_runs]. }
  specialize (Hpre []). unfold mbind, api_bind in *.
  destruct (wrap (plain "start bgp: %w") (call answer (StartBgp g)) []) as [l1 [[]|e1]].
  2:{ destruct Hpre as [[=]|(l' & e & [= -> _] & Hl)]. by right. }
  destruct (wrap (plain "apply policies: %w") (applyPolicies answer opts) l1) as [l2 [[]|e2]].
  2:{ destruct Hpre as [[=]|(l' & e & [= -> _] & Hl)]. by right. }
  destruct Hpre as [[= ->]|(l' & e & [=] & _)]. left.
  destruct (addPeers_makes (Peers opts) (StartBgp g :: policy_log opts)) as (l3 & r & -> & Hl).
  destruct r as [[]|e]; [|by exists l3].
  unfold wrap, startWatch, call. exists (l3 ++ [WatchEvent]). rewrite app_assoc. split; [by destruct (answer _ _)|].
  apply Forall_app. split; [done|]. by constructor.
Qed.
End Policies.

(** ** Concrete instances *)

(** A GoBGP with prefixes as text and the end-of-list bit on the last item. *)
Fixpoint mark_last (l : list ComponentItem) : list ComponentItem :=
  match l with
  | [] => []
  | [i] => [{| it_Op := Z.lor (Z.land (it_Op i) 0x7f) 0x80; it_Value := it_Value i |}]
  | i :: l' => {| it_Op := Z.land (it_Op i) 0x7f; it_Value := it_Value i |} :: mark_last l'
  end.

#[local] Instance text_gobgp : GoBGP := {
  AddrPrefix := string;
  AddrPrefix_String s := s;
  NewIPAddrPrefix bits s := s +:+ "/" +:+ itoa bits;
  NewIPv6AddrPrefix bits s := s +:+ "/" +:+ itoa bits;
  NewFlowSpecComponentItem op v := {| it_Op := op; it_Value := v |};
  item_list := mark_last;
  NLRI_String n := match n with FlowSpecIPv4Unicast _ => "v4" | FlowSpecIPv6Unicast _ => "v6" | OtherNLRI t => t end;
  float32_String _ := "1"
}.

#[local] Instance text_gobgp_laws : GoBGPLaws.
Proof.
  split; try done. intros l. cbn [item_list text_gobgp]. induction l as [|i [|j l] IH]; [done| |].
  - constructor; [|done]. cbn [it_Op it_Value]. split; [|done].
    rewrite Z.land_lor_distr_l, <-Z.land_assoc. change (Z.land 0x7f op_bits) with op_bits.
    change (Z.land 0x80 op_bits) with 0. by rewrite Z.lor_0_r.
  - constructor; [|exact IH]. cbn [it_Op it_Value]. split; [|done]. by rewrite <-Z.land_assoc.
Qed.

Definition ex_path (nlri : NLRI AddrPrefix) (attrs : list (PathAttribute AddrPrefix)) : option (Path AddrPrefix) :=
  Some (MkPath "" "192.0.2.1" false (Some nlri) (Some attrs)).

Lemma ex_path_carries (nlri : NLRI AddrPrefix) attrs :
  forall path, ex_path nlri attrs = Some path -> pt_nlri path = Some nlri /\ pt_attrs path = Some attrs.
Proof. by intros path [= <-]. Qed.

Definition ex_peer (a : string) (recv send : bool) : PeerOptions :=
  {| Address := a; PeerASN := 65001; Port := 179; Passive := false; Receive := recv; SendTo := send |}.

Definition ex_opts : Options :=
  {| ASN := 4200000000; RouterID := "192.0.2.1"; ListenAddr := "0.0.0.0"; ListenPort := 0;
     Peers := [ex_peer "2001:DB8:0:0::1" true false; ex_peer "192.0.2.9" false true] |}.

(** Drop TCP SYN to 192.0.2.0/24, ports 80 to 90. *)
Definition ex_origin : Rule :=
  {| r_Family := FamilyIPv4;
     r_Match := set_ops [num_eq 6] [{| n_And := false; n_LT := false; n_GT := true; n_EQ := true; n_Value := 80 |};
                                    {| n_And := true; n_LT := true; n_GT := false; n_EQ := true; n_Value := 90 |}]
                  [] [] [] [{| b_And := false; b_Not := false; b_Match := true; b_Value := 2 |}] []
                  (set_dst (PrefixFrom (Addr4 3221225984) 24) emptyMatch);
     r_Action := {| Kind := ActionDrop; Desc := "detector" |}; r_Raw := "" |}.

Definition ex_server : Server := set_started (newServer ex_opts).

(** The first peer announces the rule, the second (without [receive]) a rule of
    its own, then the first goes down and comes back. *)
Definition ex_route : NLRI AddrPrefix :=
  FlowSpecIPv4Unicast
    [FlowSpecDestinationPrefix ("192.0.2.0/24" : AddrPrefix);
     FlowSpecComponent FLOW_SPEC_TYPE_IP_PROTO [{| it_Op := 0x81; it_Value := 6 |}];
     FlowSpecComponent FLOW_SPEC_TYPE_DST_PORT [{| it_Op := 0x03; it_Value := 80 |}; {| it_Op := 0xc5; it_Value := 90 |}];
     FlowSpecComponent FLOW_SPEC_TYPE_TCP_FLAG [{| it_Op := 0x81; it_Value := 2 |}]].

Lemma ex_route_wf : nlri_wf ex_route.
Proof. repeat (apply Forall_cons_2 || apply Forall_nil_2); exact I || (split; vm_compute; congruence). Qed.

Definition ex_rx (ip : string) : Path AddrPrefix :=
  MkPath ip "" false (Some ex_route)
    (Some [PathAttributeExtendedCommunities [TrafficRateExtended 0 f_zero]]).
Definition ex_events : list (bool * option WatchEventResponse) :=
  [(true, Some {| ev_Table := [ex_rx "2001:db8::1"; ex_rx "192.0.2.9"]; ev_Peer := None |});
   (true, Some {| ev_Table := []; ev_Peer := Some {| pe_is_state := true; pe_state := Some ("2001:db8::1", NotEstablished "IDLE") |} |});
   (true, Some {| ev_Table := [ex_rx "2001:db8::1"]; ev_Peer := None |})].
Definition ex_received : Rule :=
  {| r_Family := FamilyIPv4; r_Match := r_Match ex_origin;
     r_Action := {| Kind := ActionDrop; Desc := "traffic-rate=0" |}; r_Raw := "v4" |}.
Definition ex_announced : Update :=
  {| u_Session := "2001:db8::1"; u_Op := OpAnnounce; u_Rule := Some ex_received; u_Peer := "2001:db8::1" |}.
Definition ex_down : Update :=
  {| u_Session := "2001:db8::1"; u_Op := OpSessionDown; u_Rule := None; u_Peer := "2001:db8::1" |}.
Definition ex_updates : list (RangeOrder * Update) :=
  [(range_id, ex_announced); (range_id, ex_down); (range_id, ex_announced)].


Definition ex_peer_call (p : PeerOptions) : Peer :=
  {| NeighborAddress := Address p; PeerAsn := 65001; PassiveMode := false; RemotePort := 179; AfiSafis := [FamilyIPv4; FamilyIPv6] |}.

