(* ===== verification/OriginFacts.v ===== *)
(** * Findings on their way to a peer

    The FlowSpec rule a compiled rule emits for a sampled packet is one that
    [Advertise] sends faithfully: it is refused without a call, or a peer that
    runs the agent applies exactly it. *)
From S2P Require Import Prelude GoText Netip Flowspec GoParse Float64 Packet VppTypes Translate TranslateFacts Manager ManagerFacts DetTypes Store DetRule DetEmit DetEmitFacts DetRuleFacts DetEngine DetEngineFacts DetCompile DetCompileFacts SampleFacts FindingFacts Bgp BgpServer BgpFacts.
#[local] Open Scope Z_scope.

(** No prefix of the rule is an IPv4 address written as IPv6 (::ffff:a.b.c.d), whose
    text GoBGP does not document. *)
Definition unmapped (p : Prefix) : Prop := match p_addr p with Addr6 v => Is4In6 v = false | _ => True end.
Definition unmapped_rule (r : Flowspec.Rule) : Prop :=
  (HasDst (r_Match r) = true -> unmapped (Dst (r_Match r))) /\ (HasSrc (r_Match r) = true -> unmapped (Src (r_Match r))).

(** The shape of every emitted rule. *)
Record emitted_shape (r : Flowspec.Rule) : Prop := {
  es_dst : HasDst (r_Match r) = false -> Dst (r_Match r) = zeroPrefix;
  es_src : HasSrc (r_Match r) = false -> Src (r_Match r) = zeroPrefix;
  es_offsets : DstOffset (r_Match r) = 0 /\ SrcOffset (r_Match r) = 0;
  es_rest : Fragment (r_Match r) = [] /\ HasGenericPort (r_Match r) = false /\ HasPacketLen (r_Match r) = false /\
    HasDSCP (r_Match r) = false /\ HasFlowLabel (r_Match r) = false /\ HasLabel (r_Match r) = false /\ HasUnknownComponent (r_Match r) = false;
  es_drop : Kind (r_Action r) = ActionDrop
}.

Lemma buildFlowSpec_shape {Program} (r : DetRule.Rule Program) d fr : buildFlowSpec r d = Ok fr -> emitted_shape fr.
Proof.
  unfold buildFlowSpec. destruct (emitProto r d); [|done]. cbn [mbind result_bind].
  destruct (emitPrefix r _ d true) as [src|]; [|done]. cbn [mbind result_bind]. destruct (emitPrefix r _ d false) as [dst|]; [|done]. cbn [mbind result_bind].
  destruct (emitPort r _ d true); [|done]. cbn [mbind result_bind]. destruct (emitPort r _ d false); [|done]. cbn [mbind result_bind].
  destruct (emitICMP r _ (d_icmpType d) _ d); [|done]. cbn [mbind result_bind]. destruct (emitICMP r _ (d_icmpCode d) _ d); [|done]. cbn [mbind result_bind].
  intros [= <-]. split; cbn; [by destruct dst|by destruct src|done..].
Qed.

Section Encode.
Context `{GoBGPLaws}.

Lemma prefixNLRI_sendable v6 p x : prefix_wf p -> unmapped p -> prefixNLRI p v6 = Ok x -> prefix_sendable v6 p.
Proof.
  intros Hw Hu. unfold prefixNLRI. destruct (prefix_IsValid p) eqn:Ev; [|done]. cbn [negb]. intros Hx.
  split; [done|]. split; [done|]. unfold unmapped in Hu. by destruct v6, (p_addr p).
Qed.

(** An emitted rule that can be encoded is one that round-trips. *)
Lemma encoded_originable r nlri : Rule_wf r -> emitted_shape r -> unmapped_rule r -> encodeNLRI r = Ok nlri -> originable r.
Proof using H H0.
  intros [Hw _] [Ed Es [Eo1 Eo2] Hrest _] [Ud Us]. rewrite encodeNLRI_eq. unfold dst_component, src_component. intros He.
  set (v6 := bool_decide (r_Family r = FamilyIPv6)) in *.
  assert (side_sendable v6 (HasDst (r_Match r)) (Dst (r_Match r)) (DstOffset (r_Match r))) as Hd.
  { split; [|done]. destruct (HasDst (r_Match r)); [|by apply Ed]. destruct (prefixNLRI (Dst (r_Match r)) v6) eqn:E; [|done].
    eapply prefixNLRI_sendable; [apply Hw|by apply Ud|exact E]. }
  assert (side_sendable v6 (HasSrc (r_Match r)) (Src (r_Match r)) (SrcOffset (r_Match r))) as Hs.
  { split; [|done]. destruct (HasSrc (r_Match r)); [|by apply Es]. destruct (prefixNLRI (Src (r_Match r)) v6) eqn:E.
    - eapply prefixNLRI_sendable; [apply Hw|by apply Us|exact E].
    - destruct (HasDst (r_Match r)); [destruct (prefixNLRI (Dst (r_Match r)) v6)|]; done. }
  split; [done|done|done|done|].
  destruct (HasDst (r_Match r)); [done|]. destruct (HasSrc (r_Match r)); [done|]. cbn [mbind result_bind app orb] in *.
  match goal with |- ?b = true => destruct b eqn:Hp end; [done|]. exfalso.
  assert (op_comps (r_Match r) = []) as Ho.
  { revert Hp. unfold op_comps, num_comps, bit_comps.
    destruct (Proto (r_Match r)), (DstPort (r_Match r)), (SrcPort (r_Match r)), (ICMPType (r_Match r)), (ICMPCode (r_Match r)), (TCPFlags (r_Match r)); done. }
  by rewrite Ho in He.
Qed.
End Encode.

Section Peers.
Context `{GoBGPLaws} (answer : log -> apiCall -> bool).
Context (NewPath : NLRI AddrPrefix -> list (PathAttribute AddrPrefix) -> option (Path AddrPrefix)).
(** A path carries what it was built from. *)
Context (NewPath_carries : forall nlri attrs path,
  NewPath nlri attrs = Some path -> pt_nlri path = Some nlri /\ pt_attrs path = Some attrs).

(** C8: what the detector finds at one agent is what another one drops.  For a rule
    accepted by the compiler and a sampled packet, [Advertise] of the emitted rule
    either returns an error without any API call (the rule has no component or a
    prefix of another family than its own, or GoBGP cannot build the path), or
    makes exactly one call, with the same path for the announcement and the
    withdrawal; and when an agent that takes FlowSpec from that neighbor receives
    the route (with the same extended communities), its watch callback delivers
    exactly one update: the same family and match with the drop action, which is
    mapped to the ACL entry of the original rule.  GoBGP is taken to build paths
    that carry what they were given; rules with an IPv4-mapped IPv6 prefix, whose
    text GoBGP does not document, are left out. *)
Theorem advertised_finding_is_applied {Program} (r : DetRule.Rule Program) sm d fr (s t : Server) :
  compiled r -> sample_ok sm -> descriptorFor r sm = Some d -> buildFlowSpec r d = Ok fr -> unmapped_rule fr ->
  s_started s = true -> s_stopped t = false ->
  match encodeNLRI fr with
  | Err e => forall withdraw l, Advertise answer NewPath s fr withdraw l = (l, Err [plain "encode flowspec nlri: %w"; e])
  | Ok nlri =>
      match NewPath nlri (advertised_attrs (s_opts s) fr nlri) with
      | None => forall withdraw l, Advertise answer NewPath s fr withdraw l = (l, Err [plain "build flowspec path: %w"])
      | Some path =>
          (forall withdraw l, (Advertise answer NewPath s fr withdraw l).1 = l ++ [if withdraw then DeletePath path else AddPath path]) /\
          forall rx attrs attrs' taken, pt_nlri rx = pt_nlri path -> pt_attrs path = Some attrs -> pt_attrs rx = Some attrs' ->
            communities attrs' = communities attrs -> session_of rx ∈ receivePeers t ->
            exists r', s_updates (handlePath taken rx t) = s_updates t ++
                [{| u_Session := session_of rx; u_Op := if pt_IsWithdraw rx then OpWithdraw else OpAnnounce;
                    u_Rule := Some r'; u_Peer := session_of rx |}] /\
              r_Family r' = r_Family fr /\ r_Match r' = r_Match fr /\ Kind (r_Action r') = ActionDrop /\ Translate r' = Translate fr
      end
  end.
Proof using NewPath_carries H H0.
  intros Hc Hs Hd Hb Hu Hst Ht. pose proof (buildFlowSpec_shape _ _ _ Hb) as Hshape.
  pose proof (buildFlowSpec_wf r d fr Hc (descriptor_wf r sm d (cp_ok _ Hc) Hs Hd) Hb) as Hw.
  destruct (encodeNLRI fr) as [nlri|e] eqn:He; [|intros withdraw l; unfold Advertise; by rewrite Hst, He].
  destruct (NewPath nlri _) as [path|] eqn:Hp; [|intros withdraw l; unfold Advertise; by rewrite Hst, He, Hp].
  pose proof (encoded_originable fr nlri Hw Hshape Hu He) as Ho.
  destruct (originated_rule_is_applied_by_peers answer NewPath NewPath_carries s t fr nlri path Ho Hst Ht He Hp) as (Hcall & Hrx).
  split; [exact Hcall|]. intros rx attrs attrs' taken E1 E2 E3 E4 E5.
  destruct (Hrx rx attrs attrs' taken E1 E2 E3 E4 E5) as (r' & ? & ? & ? & ? & Htr). exists r'. split_and!; [done..|]. by apply Htr, Hshape.
Qed.
End Peers.

(** ** Example: the rule of the compiled example for a sampled SYN *)
#[local] Existing Instances text_gobgp text_gobgp_laws.

Definition ex_key : descriptor := default desc_zero (descriptorFor compiled_example syn_example).
Definition ex_finding : Flowspec.Rule := match buildFlowSpec compiled_example ex_key with Ok fr => fr | Err _ => ex_origin end.

Lemma advertised_finding_is_applied_witness :
  Dst (r_Match ex_finding) = PrefixFrom (Addr4 3232235777) 32 /\
  exists path, (forall withdraw l, (Advertise (fun _ _ => true) ex_path ex_server ex_finding withdraw l).1 = l ++ [if withdraw then DeletePath path else AddPath path]).
Proof.
  split; [vm_compute; reflexivity|].
  pose proof (advertised_finding_is_applied (fun _ _ => true) ex_path ex_path_carries compiled_example syn_example ex_key ex_finding ex_server (newServer ex_opts)) as H.
  destruct (encodeNLRI ex_finding) as [nlri|e] eqn:He; [|vm_compute in He; discriminate]. eexists. apply H.
  - exact (proj1 (compileRule_compiled _ _ _ _ _ cfg_example_wf compiled_example_ok)).
  - exact syn_example_wf.
  - vm_compute. reflexivity.
  - vm_compute. reflexivity.
  - split; [intros _; exact I|intros E; vm_compute in E; discriminate E].
  - reflexivity.
  - reflexivity.
Defined.
