(* ===== verification/Agent.v ===== *)
(** * The running agent (cmd/flowspec-vpp-agent/main.go: run)

    The goroutines [run] starts, as one transition system.  Everything meets in one
    channel of updates that the manager drains: the forwarder of the BGP server's
    updates, the lease controller, and the resync that a VPP reconnect asks for.  A
    label is one step of one goroutine; [None] is a step that is not enabled (a full
    channel, a blocked sender).  The detector's findings enter as the turns of the
    controller's loop. *)
From S2P Require Import Prelude GoText Netip Flowspec GoParse Float64 VppTypes Translate Manager LocalRules Bgp BgpServer.
#[local] Open Scope Z_scope.

Section Agent.
Context `{GoBGP} {B : Type} `{Backend B} (match_GoString : Match -> string).

Record agent := {
  ag_server : Server;
  ag_forwarded : nat;           (** how many of the server's updates were forwarded *)
  ag_ctrl : Controller;
  ag_outbox : list Update;      (** what the controller is blocked on, in order *)
  ag_resync : bool;             (** [OnReconnect] is blocked on the channel *)
  ag_updates : list Update;     (** the channel *)
  ag_world : world B
}.

(** [make(chan bgp.Update, 2048)] *)
Definition updates_cap : nat := 2048.

Definition resync_update : Update := {| u_Session := ""; u_Op := OpResync; u_Rule := None; u_Peer := "" |}.

(** [run] up to the loop of the manager, with the client connected. *)
Definition start (opts : Options) (dryRun advertise : bool) (b : B) : agent :=
  {| ag_server := newServer opts; ag_forwarded := 0; ag_ctrl := SetAdvertiser advertise (SetDryRun dryRun newController);
     ag_outbox := []; ag_resync := false; ag_updates := [];
     ag_world := {| w_mgr := newManager; w_backend := b; w_metrics := [] |} |}.

Inductive label :=
  | LWatch (e : bool * option WatchEventResponse)  (** a callback of the BGP server *)
  | LForward                                       (** the forwarder moves one update *)
  | LTurn (o : RangeOrder) (t : turn)              (** an event or the timer of the controller *)
  | LSend                                          (** the controller's blocked send goes through *)
  | LReconnect (b : B)                             (** VPP is back, the client has re-created its ACLs *)
  | LResync                                        (** the send of [OnReconnect] goes through *)
  | LApply (o : RangeOrder).                       (** the manager takes and applies an update *)

(** A send on the channel. *)
Definition push (u : Update) (ch : list Update) : option (list Update) :=
  if (length ch <? updates_cap)%nat then Some (ch ++ [u]) else None.

Definition agent_step (l : label) (a : agent) : option agent :=
  match l with
  | LWatch e =>
      Some {| ag_server := watch_step (ag_server a) e; ag_forwarded := ag_forwarded a; ag_ctrl := ag_ctrl a; ag_outbox := ag_outbox a;
              ag_resync := ag_resync a; ag_updates := ag_updates a; ag_world := ag_world a |}
  | LForward =>
      u ← s_updates (ag_server a) !! ag_forwarded a;
      ch ← push u (ag_updates a);
      Some {| ag_server := ag_server a; ag_forwarded := S (ag_forwarded a); ag_ctrl := ag_ctrl a; ag_outbox := ag_outbox a;
              ag_resync := ag_resync a; ag_updates := ch; ag_world := ag_world a |}
  | LTurn o t =>
      match ag_outbox a with
      | _ :: _ => None
      | [] =>
          let '(c, out) := run_turn o t (ag_ctrl a) in
          Some {| ag_server := ag_server a; ag_forwarded := ag_forwarded a; ag_ctrl := c;
                  ag_outbox := omap (fun e => match e with Sent u => Some u | Advertised _ _ => None end) out;
                  ag_resync := ag_resync a; ag_updates := ag_updates a; ag_world := ag_world a |}
      end
  | LSend =>
      match ag_outbox a with
      | [] => None
      | u :: rest =>
          ch ← push u (ag_updates a);
          Some {| ag_server := ag_server a; ag_forwarded := ag_forwarded a; ag_ctrl := ag_ctrl a; ag_outbox := rest;
                  ag_resync := ag_resync a; ag_updates := ch; ag_world := ag_world a |}
      end
  | LReconnect b =>
      if ag_resync a then None
      else Some {| ag_server := ag_server a; ag_forwarded := ag_forwarded a; ag_ctrl := ag_ctrl a; ag_outbox := ag_outbox a;
                   ag_resync := true; ag_updates := ag_updates a;
                   ag_world := {| w_mgr := w_mgr (ag_world a); w_backend := b; w_metrics := w_metrics (ag_world a) |} |}
  | LResync =>
      if ag_resync a then
        ch ← push resync_update (ag_updates a);
        Some {| ag_server := ag_server a; ag_forwarded := ag_forwarded a; ag_ctrl := ag_ctrl a; ag_outbox := ag_outbox a;
                ag_resync := false; ag_updates := ch; ag_world := ag_world a |}
      else None
  | LApply o =>
      match ag_updates a with
      | [] => None
      | u :: ch =>
          Some {| ag_server := ag_server a; ag_forwarded := ag_forwarded a; ag_ctrl := ag_ctrl a; ag_outbox := ag_outbox a;
                  ag_resync := ag_resync a; ag_updates := ch; ag_world := Apply match_GoString o u (ag_world a) |}
      end
  end.

Fixpoint agent_run (ls : list label) (a : agent) : option agent :=
  match ls with
  | [] => Some a
  | l :: ls' => a' ← agent_step l a; agent_run ls' a'
  end.

(** Nothing under way: every channel is drained and nobody is blocked. *)
Definition quiescent (a : agent) : Prop :=
  ag_updates a = [] /\ ag_outbox a = [] /\ ag_resync a = false /\ ag_forwarded a = length (s_updates (ag_server a)).

(** Steps of the agent itself, without new input. *)
Definition internal (l : label) : Prop :=
  match l with LForward | LSend | LResync | LApply _ => True | _ => False end.
End Agent.
