(* ===== verification/AgentFacts.v ===== *)
(** * The agent as a whole

    However the goroutines interleave, the data plane settles on the routes of the
    receive peers and the rules of the active leases. *)
From S2P Require Import Prelude GoText Netip Flowspec GoParse Float64 VppTypes Translate TranslateFacts VppFacts Manager ManagerFacts LocalRules LocalRulesFacts Bgp BgpServer BgpFacts Agent.
#[local] Open Scope Z_scope.
#[local] Set Default Proof Using "Type*".

(** ** Kinds of updates *)
Definition good_rule (r : Rule) : Prop := Rule_wf r /\ no_proto0 r.

Definition rules_good (u : Update) : Prop := forall r, u_Rule u = Some r -> good_rule r.

(** From the BGP server, and from the controller. *)
Definition is_bgp (u : Update) : Prop := u_Session u <> defaultSession /\ u_Op u <> OpResync.
Definition is_det (u : Update) : Prop := u_Session u = defaultSession.

#[local] Instance Op_eq_dec : EqDecision Op.
Proof. solve_decision. Defined.
#[local] Instance is_bgp_dec u : Decision (is_bgp u).
Proof. unfold is_bgp. apply _. Defined.
#[local] Instance is_det_dec u : Decision (is_det u).
Proof. unfold is_det. apply _. Defined.

Lemma rib_apply_resync g u rib : u_Op u = OpResync -> rib_apply g u rib = rib.
Proof. intros E. unfold rib_apply. by rewrite E. Qed.

(** The routes of other sessions than the controller's come from the server. *)
Lemma rib_fold_bgp g s us rib rib' :
  s <> defaultSession -> (forall id, rib !! (s, id) = rib' !! (s, id)) ->
  forall id, rib_fold g us rib !! (s, id) = rib_fold g (filter is_bgp us) rib' !! (s, id).
Proof.
  intros Hs. revert rib rib'. induction us as [|u us IH]; intros rib rib' E id; [apply E|].
  rewrite filter_cons. cbn [rib_fold foldl]. case_decide as Hb; [apply IH; by apply rib_apply_agree|].
  apply IH. intros id'. destruct (decide (u_Op u = OpResync)) as [Ho|Ho]; [by rewrite rib_apply_resync|].
  destruct (decide (u_Session u = defaultSession)) as [Hd|Hd]; [rewrite rib_apply_other; [done|congruence]|]. by destruct Hb.
Qed.

Lemma rib_fold_Forall g us (P : Rule -> Prop) :
  Forall (fun u => forall r, u_Rule u = Some r -> P r) us -> map_Forall (fun _ r => P r) (rib_fold g us ∅).
Proof.
  intros Hus. pose proof (rib_run_Forall g ((fun u => (range_id, u)) <$> us) P) as HF.
  unfold rib_run in HF. rewrite foldl_fmap in HF. apply HF. by apply Forall_fmap.
Qed.

(** ** The server's updates *)
Section Server.
Context `{GoBGPLaws}.

(** The BGP library reports well-formed paths, of neighbors that are not called
    like the controller's session; rules that name protocol 0 are excepted. *)
Definition watch_ok (e : bool * option WatchEventResponse) : Prop :=
  match e.2 with
  | None => True
  | Some r =>
      Forall (fun path => session_of path <> defaultSession /\ (forall nlri, pt_nlri path = Some nlri -> nlri_wf nlri) /\
                (forall nlri attrs rule, pt_nlri path = Some nlri -> ParseNLRI nlri attrs = Ok rule -> no_proto0 rule)) (ev_Table r) /\
      forall pe addr st, ev_Peer r = Some pe -> pe_state pe = Some (addr, st) -> normalizeAddr addr <> defaultSession
  end.

Definition bgp_good (u : Update) : Prop := is_bgp u /\ rules_good u.

Lemma handlePath_good taken path s :
  session_of path <> defaultSession -> (forall nlri, pt_nlri path = Some nlri -> nlri_wf nlri) ->
  (forall nlri attrs rule, pt_nlri path = Some nlri -> ParseNLRI nlri attrs = Ok rule -> no_proto0 rule) ->
  exists new, s_updates (handlePath taken path s) = s_updates s ++ new /\ Forall bgp_good new.
Proof.
  intros Hs Hn Hz. assert (exists new, s_updates s = s_updates s ++ new /\ Forall bgp_good new) as Hnone by (exists []; by rewrite app_nil_r).
  unfold handlePath. destruct (negb _); [done|]. destruct (pt_nlri path) as [nlri|] eqn:En; [|done].
  destruct (pt_attrs path) as [attrs|]; [|done]. destruct (ParseNLRI nlri attrs) as [rule|] eqn:Er; [|done].
  unfold bgp_send. destruct (_ && _); [done|]. cbn [s_updates]. eexists. split; [done|]. constructor; [|done]. split.
  - split; [done|]. cbn [u_Op]. by destruct (pt_IsWithdraw path).
  - intros r [= <-]. split; [eapply ParseNLRI_good; [by apply Hn|exact Er]|by eapply Hz].
Qed.

Lemma handlePaths_good taken paths s :
  Forall (fun path => session_of path <> defaultSession /\ (forall nlri, pt_nlri path = Some nlri -> nlri_wf nlri) /\
            (forall nlri attrs rule, pt_nlri path = Some nlri -> ParseNLRI nlri attrs = Ok rule -> no_proto0 rule)) paths ->
  exists new, s_updates (foldl (fun s path => handlePath taken path s) s paths) = s_updates s ++ new /\ Forall bgp_good new.
Proof.
  intros Hp. revert s. induction Hp as [|path paths (H1 & H2 & H3) _ IH]; intros s; [exists []; by rewrite app_nil_r|].
  cbn [foldl]. destruct (handlePath_good taken path s H1 H2 H3) as (n1 & E1 & G1).
  destruct (IH (handlePath taken path s)) as (n2 & E2 & G2). exists (n1 ++ n2). rewrite E2, E1, app_assoc.
  split; [done|]. by apply Forall_app.
Qed.

Lemma watch_step_good s e :
  watch_ok e -> exists new, s_updates (watch_step s e) = s_updates s ++ new /\ Forall bgp_good new.
Proof.
  destruct e as [taken [r|]]; unfold watch_ok, watch_step; cbn [fst snd]; [|exists []; by rewrite app_nil_r].
  intros [Hp Hpe]. unfold bgp_handleEvent. destruct (handlePaths_good taken (ev_Table r) s Hp) as (new & E & G).
  destruct (ev_Peer r) as [pe|]; [|by exists new]. unfold handlePeerEvent.
  destruct (negb _); [by exists new|]. destruct (pe_state pe) as [[addr st]|] eqn:Est; [|by exists new].
  destruct st; [by exists new|]. unfold bgp_send. destruct (_ && _); [by exists new|]. cbn [s_updates].
  eexists. rewrite E, <-app_assoc. split; [done|]. apply Forall_app. split; [done|]. constructor; [|done].
  split; [|done]. split; [|done]. cbn [u_Session]. by eapply Hpe.
Qed.
End Server.

(** ** The controller's updates *)
Definition det_good (u : Update) : Prop := is_det u /\ u_Op u <> OpResync /\ rules_good u.

Definition event_good (t : turn) : Prop := match t with TEvent _ ev => good_rule (ev_Rule ev) | _ => True end.

Definition leases_good (c : Controller) : Prop :=
  c_session c = defaultSession /\ map_Forall (fun _ l => good_rule (l_rule l)) (c_leases c).

Lemma update_of_good c op r : leases_good c -> op <> OpResync -> good_rule r -> det_good (update_of c op r).
Proof. intros [Hs _] Hop Hr. split; [done|]. split; [done|]. intros r' [= <-]. done. Qed.

Lemma expire_loop_good o now ls c out ch c' out' ch' :
  leases_good c -> Forall (fun idl => good_rule (l_rule idl.2)) ls -> Forall det_good (sent out) ->
  expire_loop o now ls c out ch = (c', out', ch') -> leases_good c' /\ Forall det_good (sent out').
Proof.
  revert c out ch. induction ls as [|[id l] ls IH]; intros c out ch Hc Hls Ho; cbn [expire_loop]; [by intros [= <- <- <-]|].
  apply Forall_cons in Hls as [Hl Hls]. destruct (now <? l_expiresAt l); [by apply IH|].
  apply IH; [|done|]; destruct Hc as [Hs Hm].
  - split; [done|]. cbn [c_leases set_leases]. by apply map_Forall_delete.
  - rewrite sent_app. apply Forall_app. split; [done|]. unfold withdraw_rule, send. rewrite sent_app, sent_advertise, app_nil_r.
    destruct (o _); [|constructor]. constructor; [|done]. apply update_of_good; [|done|done].
    split; [done|]. cbn [c_leases set_leases]. by apply map_Forall_delete.
Qed.

Lemma run_turn_good owner_of o t c c' out :
  turn_ok owner_of t -> event_good t -> leases_good c -> run_turn o t c = (c', out) ->
  leases_good c' /\ Forall det_good (sent out).
Proof.
  intros Ht Hev Hc. destruct t as [now ev|now|]; [| |done]; cbn [run_turn].
  - unfold applyEvent. case_bool; [by intros [= <- <-]|]. case_bool; [by intros [= <- <-]|]. cbn zeta.
    assert (forall c0 t, leases_good c0 -> leases_good (publish o (set_leases (<[ev_ID ev := {| l_rule := ev_Rule ev; l_expiresAt := t |}]> (c_leases c0)) c0))) as Hadd.
    { intros c0 t0 [Hs Hm]. split; [done|]. cbn. by apply map_Forall_insert_2. }
    destruct (c_leases c !! ev_ID ev) as [l|] eqn:Hl.
    + assert (good_rule (l_rule l)) as Hgl by (by eapply (proj2 Hc)). case_bool.
      * case_bool; intros [= <- <-]; [|done]. split; [|constructor]. destruct Hc as [Hs Hm]. split; [done|]. cbn. by apply map_Forall_insert_2.
      * intros [<- <-]%pair_equal_spec. split; [by apply Hadd|]. unfold withdraw_rule.
        rewrite !sent_app, !sent_advertise, !app_nil_r, !sent_send_true.
        constructor; [by apply update_of_good; [apply (Hadd c)|..]|]. constructor; [by apply update_of_good; [apply (Hadd c)|..]|done].
    + intros [<- <-]%pair_equal_spec. split; [by apply Hadd|]. rewrite sent_app, sent_advertise, app_nil_r, sent_send_true.
      constructor; [by apply update_of_good; [apply (Hadd c)|..]|done].
  - unfold expire. destruct (expire_loop _ _ _ _ _ _) as [[c1 o1] ch1] eqn:E. intros [= <- <-].
    apply expire_loop_good in E as [H1 H2]; [split; [by destruct ch1|done]|done| |constructor].
    apply Forall_forall. intros [id l] Hin%(leases_listed o). by apply (proj2 Hc id).
Qed.

(** ** The invariant of the running agent *)
Section Agent.
Context {Hgo : GoBGP} {Hlaws : GoBGPLaws} {B : Type} {HB : Backend B} (g : Match -> string) (owner_of : string -> string).
Context (reliable : forall b f rs, (ReplaceACL b f rs).2 = true).

Definition label_ok (l : @label _ B) : Prop :=
  match l with
  | LWatch e => watch_ok e
  | LTurn _ t => turn_ok owner_of t /\ event_good t
  | LReconnect b => backend_inv b
  | _ => True
  end.

(** The backend is in step with the manager, or a resync is on its way. *)
Definition in_step (a : agent) : Prop :=
  backend_inv (w_backend (ag_world a)) /\
  (synced (ag_world a) \/ ag_resync a = true \/ exists u, u ∈ ag_updates a /\ u_Op u = OpResync).

(** [us] are the updates the manager has applied. *)
Record agent_inv (us : list Update) (a : agent) : Prop := {
  ai_table : represents (w_mgr (ag_world a)) (rib_fold g us ∅);
  ai_backend : in_step a;
  ai_good : Forall rules_good (us ++ ag_updates a);
  ai_server : Forall bgp_good (s_updates (ag_server a));
  ai_forwarded : (ag_forwarded a <= length (s_updates (ag_server a)))%nat;
  ai_bgp : filter is_bgp (us ++ ag_updates a) = take (ag_forwarded a) (s_updates (ag_server a));
  ai_outbox : Forall det_good (ag_outbox a);
  ai_leases : leases_good (ag_ctrl a);
  ai_det : mirrors owner_of (ag_ctrl a) (rib_fold g (filter is_det (us ++ ag_updates a) ++ ag_outbox a) ∅)
}.

Lemma push_some u ch ch' : push u ch = Some ch' -> ch' = ch ++ [u].
Proof. unfold push. destruct (_ <? _)%nat; [|done]. by intros [= <-]. Qed.

Lemma filter_bgp_det us u : is_det u -> filter is_bgp (us ++ [u]) = filter is_bgp us.
Proof. intros Hd. rewrite filter_app, filter_cons, decide_False by (intros [? _]; done). by rewrite filter_nil, app_nil_r. Qed.

Lemma Apply_inv o u w rib :
  Update_wf u -> represents (w_mgr w) rib -> backend_inv (w_backend w) -> backend_inv (w_backend (Apply g o u w)).
Proof.
  intros Hu Hrep Hi. destruct (decide (u_Op u = OpResync)) as [Eop|Hop].
  - unfold Apply. rewrite Eop. unfold resync. by apply reconcile_inv, reconcile_inv.
  - destruct (Apply_step g o u w rib Hu Hrep Hop) as (m' & (d & wm & Hb & Hm & -> & Hv) & Hr).
    apply (reconcile_all_ok g reliable o d wm IPv4 []). by rewrite Hb.
Qed.

(** Each goroutine's step keeps the invariant. *)
Lemma step_watch us a a' e : watch_ok e -> agent_inv us a -> agent_step g (LWatch e) a = Some a' -> agent_inv us a'.
Proof.
  intros He [H1 H2 H3 H4 H5 H6 H7 H8 H9] [= <-]. destruct (watch_step_good (ag_server a) e He) as (new & E & G).
  split; cbn; try done; rewrite ?E.
  - by apply Forall_app.
  - rewrite length_app. lia.
  - by rewrite take_app_le.
Qed.

Lemma step_forward us a a' : agent_inv us a -> agent_step g LForward a = Some a' -> agent_inv us a'.
Proof.
  intros [H1 [H2 H2'] H3 H4 H5 H6 H7 H8 H9]. cbn [agent_step]. destruct (s_updates _ !! _) as [u|] eqn:Eu; [|done]. cbn [mbind option_bind].
  destruct (push _ _) as [ch|] eqn:Ep; [|done]. apply push_some in Ep as ->. intros [= <-].
  pose proof (proj1 (Forall_lookup _ _) H4 _ _ Eu) as [[Hs Ho] Hg].
  split; cbn; try done; rewrite ?app_assoc.
  - split; [done|]. destruct H2' as [?|[?|(v & Hv & ?)]]; [by left|by right; left|right; right]. exists v. split; [apply elem_of_app; by left|done].
  - apply Forall_app. split; [done|]. by constructor.
  - apply lookup_lt_Some in Eu. lia.
  - rewrite filter_app, H6, filter_cons, decide_True by done. by rewrite filter_nil, (take_S_r _ _ u).
  - rewrite filter_app, filter_cons, decide_False by done. by rewrite filter_nil, app_nil_r.
Qed.

Lemma step_turn us a a' o t :
  turn_ok owner_of t -> event_good t -> agent_inv us a -> agent_step g (LTurn o t) a = Some a' -> agent_inv us a'.
Proof.
  intros Ht Hev [H1 H2 H3 H4 H5 H6 H7 H8 H9]. cbn [agent_step]. destruct (ag_outbox a) as [|] eqn:Eo; [|done].
  destruct (run_turn o t (ag_ctrl a)) as [c out] eqn:Er. intros [= <-].
  destruct (run_turn_good owner_of o t _ _ _ Ht Hev H8 Er) as [G1 G2].
  pose proof (Run_mirrors g owner_of [(o, t)] (ag_ctrl a) _ (proj2 (Forall_singleton (fun ot => turn_ok owner_of ot.2) (o, t)) Ht) H9) as Hm.
  rewrite Run_cons, Er in Hm. cbn in Hm. rewrite !app_nil_r in Hm. destruct Hm as [Hm _].
  split; cbn; try done. by rewrite rib_fold_app.
Qed.

Lemma step_send us a a' : agent_inv us a -> agent_step g LSend a = Some a' -> agent_inv us a'.
Proof.
  intros [H1 [H2 H2'] H3 H4 H5 H6 H7 H8 H9]. cbn [agent_step]. destruct (ag_outbox a) as [|u rest]; [done|].
  destruct (push _ _) as [ch|] eqn:Ep; [|done]. apply push_some in Ep as ->. intros [= <-].
  apply Forall_cons in H7 as [(Hd & Ho & Hg) H7]. split; cbn; try done; rewrite ?app_assoc.
  - split; [done|]. destruct H2' as [?|[?|(v & Hv & ?)]]; [by left|by right; left|right; right]. exists v. split; [apply elem_of_app; by left|done].
  - apply Forall_app. split; [done|]. by constructor.
  - by rewrite filter_bgp_det.
  - rewrite filter_app, filter_cons, decide_True by done. rewrite filter_nil, <-app_assoc. done.
Qed.

Lemma step_reconnect us a a' b : backend_inv b -> agent_inv us a -> agent_step g (LReconnect b) a = Some a' -> agent_inv us a'.
Proof.
  intros Hb [H1 [H2 H2'] H3 H4 H5 H6 H7 H8 H9]. cbn [agent_step]. destruct (ag_resync a); [done|]. intros [= <-].
  split; cbn; try done. split; [done|]. by right; left.
Qed.

Lemma step_resync us a a' : agent_inv us a -> agent_step g LResync a = Some a' -> agent_inv us a'.
Proof.
  intros [H1 [H2 H2'] H3 H4 H5 H6 H7 H8 H9]. cbn [agent_step]. destruct (ag_resync a); [|done].
  destruct (push _ _) as [ch|] eqn:Ep; [|done]. apply push_some in Ep as ->. intros [= <-].
  split; cbn; try done; rewrite ?app_assoc.
  - split; [done|]. right; right. exists resync_update. split; [apply elem_of_app; right; by apply list_elem_of_singleton|done].
  - apply Forall_app. split; [done|]. by constructor.
  - rewrite filter_app, filter_cons, decide_False by (intros [_ []]; done). by rewrite filter_nil, app_nil_r.
  - rewrite filter_app, filter_cons, decide_False by done. by rewrite filter_nil, app_nil_r.
Qed.

Lemma step_apply us a a' o : agent_inv us a -> agent_step g (LApply o) a = Some a' -> exists us', agent_inv us' a'.
Proof.
  intros [H1 [H2 H2'] H3 H4 H5 H6 H7 H8 H9]. cbn [agent_step]. destruct (ag_updates a) as [|u ch] eqn:Eu; [done|]. intros [= <-].
  assert (us ++ u :: ch = (us ++ [u]) ++ ch) as El by (by rewrite <-app_assoc). rewrite El in *.
  assert (Update_wf u) as Hu.
  { intros r Hr. apply Forall_app in H3 as [[_ [Hg _]%Forall_cons]%Forall_app _]. by apply Hg. }
  exists (us ++ [u]). split; cbn; try done.
  - rewrite rib_fold_app. by apply Apply_represents.
  - split; cbn; [by eapply Apply_inv|]. destruct H2' as [Hs|[?|(v & Hv & Hop)]].
    + left. by eapply Apply_synced.
    + by right; left.
    + apply elem_of_cons in Hv as [->|Hv]; [left|right; right; eauto].
      unfold Apply. rewrite Hop. apply resync_synced; [done|apply reliable..].
Qed.

Lemma agent_step_inv us a a' l :
  label_ok l -> agent_inv us a -> agent_step g l a = Some a' -> exists us', agent_inv us' a'.
Proof.
  intros Hl Hi E. destruct l as [e| |o t| |b| |o];
    [exists us..|by eapply step_apply].
  - by eapply step_watch.
  - by eapply step_forward.
  - destruct Hl. by eapply step_turn.
  - by eapply step_send.
  - by eapply step_reconnect.
  - by eapply step_resync.
Qed.

Lemma agent_run_inv us a a' ls :
  Forall label_ok ls -> agent_inv us a -> agent_run g ls a = Some a' -> exists us', agent_inv us' a'.
Proof.
  intros Hls. revert us a. induction Hls as [|l ls Hl _ IH]; intros us a Hi; cbn [agent_run]; [intros [= <-]; eauto|].
  destruct (agent_step g l a) as [a1|] eqn:E; [|done]. cbn [mbind option_bind].
  destruct (agent_step_inv us a a1 l Hl Hi E) as [us1 Hi1]. by apply (IH us1).
Qed.

Lemma start_inv opts dry adv b :
  backend_inv b -> (forall f, managed b f []) -> agent_inv [] (start opts dry adv b).
Proof.
  intros Hb Hm. split; cbn; try done.
  split; [done|]. left. split; [done|]. intros f. apply Hm.
Qed.

(** ** Settling *)
Definition pending (a : @agent B) : nat :=
  (length (s_updates (ag_server a)) - ag_forwarded a + length (ag_outbox a) + if ag_resync a then 1 else 0)%nat.

Lemma push_empty u : push u [] = Some [u].
Proof. done. Qed.

Lemma settles n a :
  (2 * pending a + length (ag_updates a) <= n)%nat -> (ag_forwarded a <= length (s_updates (ag_server a)))%nat ->
  exists ls a', Forall internal ls /\ agent_run g ls a = Some a' /\ quiescent a' /\
    ag_server a' = ag_server a /\ ag_ctrl a' = ag_ctrl a.
Proof.
  revert a. induction n as [|n IH]; intros a Hn Hf; unfold pending in Hn.
  { exists [], a. split; [constructor|]. split; [done|]. split; [|done]. unfold quiescent.
    destruct (ag_updates a), (ag_outbox a), (ag_resync a); simpl in *; try lia. repeat split; lia. }
  assert (forall l a1, internal l -> agent_step g l a = Some a1 -> ag_server a1 = ag_server a -> ag_ctrl a1 = ag_ctrl a ->
            (2 * pending a1 + length (ag_updates a1) <= n)%nat -> (ag_forwarded a1 <= length (s_updates (ag_server a)))%nat ->
            exists ls a', Forall internal ls /\ agent_run g ls a = Some a' /\ quiescent a' /\
              ag_server a' = ag_server a /\ ag_ctrl a' = ag_ctrl a) as Hgo1.
  { intros l a1 Hl E Hs Hc Hm Hf1. destruct (IH a1 Hm) as (ls & a' & H1 & H2 & H3 & H4 & H5); [by rewrite Hs|].
    exists (l :: ls), a'. split; [by constructor|]. cbn [agent_run]. rewrite E. cbn. split; [done|]. split; [done|]. split; congruence. }
  destruct (ag_updates a) as [|u ch] eqn:Eu.
  2:{ eapply (Hgo1 (LApply range_id)); [done|cbn [agent_step]; rewrite Eu; reflexivity|done|done|unfold pending; cbn in *; lia|done]. }
  destruct (s_updates (ag_server a) !! ag_forwarded a) as [u|] eqn:Es.
  { pose proof (lookup_lt_Some _ _ _ Es) as Hlt. eapply (Hgo1 LForward);
      [done|cbn [agent_step]; rewrite Es, Eu; reflexivity|done|done|unfold pending; cbn in *; lia|cbn; lia]. }
  apply lookup_ge_None in Es. destruct (ag_outbox a) as [|u rest] eqn:Eo.
  2:{ eapply (Hgo1 LSend); [done|cbn [agent_step]; rewrite Eo, Eu; reflexivity|done|done|unfold pending; cbn in *; lia|done]. }
  destruct (ag_resync a) eqn:Er.
  { eapply (Hgo1 LResync); [done|cbn [agent_step]; rewrite Er, Eu; reflexivity|done|done|unfold pending; cbn in *; rewrite Eo in *; cbn in *; lia|done]. }
  exists [], a. split; [constructor|]. split; [done|]. split; [|done]. repeat split; try done. lia.
Qed.

(** ** The data plane of a quiescent agent *)
Definition drops_exactly (a : @agent B) (p : packet) : Prop :=
  exists rules, managed (w_backend (ag_world a)) (packet_family p) rules /\
    (acl_permits (rules ++ [permitAny (packet_family p)]) p = false <->
     (exists s id r, rib_fold g (s_updates (ag_server a)) ∅ !! (s, id) = Some r /\ rule_matches r p = true) \/
     (exists id l, c_leases (ag_ctrl a) !! id = Some l /\ is_ok (Translate (l_rule l)) = true /\ rule_matches (l_rule l) p = true)).

Lemma server_table_no_det us raw : Forall bgp_good us -> rib_fold g us ∅ !! (defaultSession, raw) = None.
Proof.
  intros Hg. rewrite (rib_fold_session g defaultSession us ∅ ∅) by done.
  match goal with |- rib_fold g ?l _ !! _ = _ => assert (l = []) as -> end; [|done].
  induction Hg as [|u us [[Hs _] _] _ IH]; [done|]. by rewrite filter_cons, decide_False.
Qed.

Lemma quiescent_exact us a p : agent_inv us a -> quiescent a -> packet_wf p -> drops_exactly a p.
Proof.
  intros [H1 [H2 H2'] H3 H4 H5 H6 H7 H8 H9] (Eu & Eo & Er & Ef) Hp. rewrite Eu, Eo, Ef, ?app_nil_r in *.
  rewrite firstn_all in H6. destruct H2' as [[_ Hs]|[?|(v & Hv & _)]]; [|congruence|by apply elem_of_nil in Hv].
  exists (desired (packet_family p) (w_mgr (ag_world a))). split; [apply Hs|].
  rewrite (desired_drops (w_mgr (ag_world a)) (rib_fold g us ∅) p H1); [|apply rib_fold_Forall|done].
  2:{ eapply Forall_impl; [exact H3|]. intros u Hu r Hr. by apply Hu. }
  assert (forall raw, rib_fold g us ∅ !! (defaultSession, raw) = expected owner_of (c_leases (ag_ctrl a)) raw) as Hdet.
  { intros raw. destruct H9 as [_ H9]. destruct H8 as [Hses _]. rewrite <-H9, Hses. by apply rib_fold_session. }
  split.
  - intros (s & id & r & Hr & Hm). destruct (decide (s = defaultSession)) as [->|Hne].
    + right. rewrite Hdet in Hr. unfold expected in Hr. apply bind_Some in Hr as (l & Hl & Hr).
      destruct (bool_decide _ && _) eqn:Eb; [|done]. injection Hr as <-. apply andb_true_iff in Eb as [_ Eb]. eauto 10.
    + left. exists s, id, r. split; [|done]. by rewrite <-Hr, (rib_fold_bgp g s us ∅ ∅ Hne), H6.
  - intros [(s & id & r & Hr & Hm)|(id & l & Hl & Ht & Hm)].
    + exists s, id, r. split; [|done]. destruct (decide (s = defaultSession)) as [->|Hne]; [by rewrite server_table_no_det in Hr|].
      by rewrite (rib_fold_bgp g s us ∅ ∅ Hne), H6.
    + exists defaultSession, (r_Raw (l_rule l)), (l_rule l). split; [|done]. rewrite Hdet. unfold expected.
      destruct H9 as [Hok _]. destruct (Hok _ _ Hl) as [_ ->]. rewrite Hl. cbn. by rewrite bool_decide_true, Ht.
Qed.
End Agent.

(** ** Properties *)

(** The whole agent.  Run the goroutines in any interleaving: BGP callbacks,
    findings and lease timers, VPP reconnects that lose every rule, with channels
    that fill up and block their senders.  Whenever nothing is under way, a packet
    is dropped if and only if it matches a live route of the BGP server's updates
    or the rule of an active lease; and from every state the agent gets there by
    steps of its own, without losing a route or a lease. *)
Theorem agent_settles_exactly {Hgo : GoBGP} {Hlaws : GoBGPLaws} {B : Type} {HB : Backend B} (g : Match -> string)
    (owner_of : string -> string) (opts : Options) (dry adv : bool) (b : B) (ls : list (@label Hgo B)) (a : agent) :
  (forall b f rs, (ReplaceACL b f rs).2 = true) -> backend_inv b -> (forall f, managed b f []) ->
  Forall (label_ok owner_of) ls -> agent_run g ls (start opts dry adv b) = Some a ->
  (quiescent a -> forall p, packet_wf p -> drops_exactly g a p) /\
  exists ls' a', Forall internal ls' /\ agent_run g ls' a = Some a' /\ quiescent a' /\
    ag_server a' = ag_server a /\ ag_ctrl a' = ag_ctrl a /\ forall p, packet_wf p -> drops_exactly g a' p.
Proof.
  intros Hrel Hb Hm Hls Hrun.
  destruct (agent_run_inv g owner_of Hrel [] _ a ls Hls (start_inv g owner_of Hrel opts dry adv b Hb Hm) Hrun) as [us Hi].
  split; [intros Hq p Hp; by eapply quiescent_exact|].
  destruct (settles g Hrel _ a (le_n _) (ai_forwarded _ _ _ _ Hi)) as (ls' & a' & Hint & Hr' & Hq & Hs & Hc).
  assert (Forall (label_ok owner_of) ls') as Hls' by (eapply Forall_impl; [exact Hint|]; by intros []).
  destruct (agent_run_inv g owner_of Hrel us a a' ls' Hls' Hi Hr') as [us' Hi'].
  exists ls', a'. do 5 (split; [done|]). intros p Hp. by eapply quiescent_exact.
Qed.

(** A peer announces a route and a finding arrives; VPP reconnects empty before
    the manager has applied either. *)
Definition ex_start : @agent (VFamily -> list ACLRule) := start ex_opts false true (fun _ => []).
Definition ex_announcement : bool * option (@WatchEventResponse text_gobgp) :=
  (true, Some {| ev_Table := [ex_rx "2001:db8::1"]; ev_Peer := None |}).
Definition ex_labels : list (@label text_gobgp (VFamily -> list ACLRule)) :=
  [LWatch ex_announcement; LForward; LTurn range_id (TEvent 10 ex_event); LReconnect (fun _ => []);
   LApply range_id; LResync; LSend; LApply range_rev; LApply range_id].
Definition ex_end : agent := default ex_start (agent_run ex_go ex_labels ex_start).

Lemma ex_finding_good : good_rule (ev_Rule ex_event).
Proof. split; [exact ex_rule_wf|by repeat constructor]. Qed.

Lemma ex_announcement_ok : watch_ok ex_announcement.
Proof.
  split; [|done]. apply Forall_cons_2; [|apply Forall_nil_2]. split; [by vm_compute|]. split.
  - intros nlri [= <-]. exact ex_route_wf.
  - intros nlri attrs rule [= <-] E. unfold ParseNLRI in E. cbn -[parseAction] in E. injection E as <-. by repeat constructor.
Qed.

Lemma ex_labels_ok : Forall (label_ok (fun _ => "dns")) ex_labels.
Proof.
  repeat apply Forall_cons_2; try exact I; [exact ex_announcement_ok|split; [by split|exact ex_finding_good]|apply Forall_nil_2].
Qed.

Lemma agent_settles_exactly_witness :
  agent_run ex_go ex_labels ex_start = Some ex_end /\ quiescent ex_end /\ drops_exactly ex_go ex_end ex_packet.
Proof.
  assert (agent_run ex_go ex_labels ex_start = Some ex_end) as E by (vm_compute; reflexivity).
  assert (quiescent ex_end) as Q by (vm_compute; repeat split; reflexivity).
  split; [exact E|]. split; [exact Q|].
  destruct (@agent_settles_exactly text_gobgp text_gobgp_laws _ list_backend ex_go (fun _ => "dns") ex_opts false true (fun _ => []) ex_labels ex_end
              (fun _ _ _ => eq_refl) I (fun _ => eq_refl) ex_labels_ok E) as [H _].
  apply (H Q ex_packet ex_packet_wf).
Defined.
