(* ===== verification/System.v ===== *)
(** * The agent with its detector (cmd/flowspec-vpp-agent/main.go: run)

    The goroutines around the channel of updates ([Agent]) together with the
    detector's: the collector that decodes datagrams into the channel of samples,
    the runner that takes samples and queues findings, and the lease controller
    that takes the findings.  A label is one step of one goroutine. *)
From S2P Require Import Prelude GoText Netip Flowspec GoParse Float64 Packet Sflow VppTypes Translate Manager LocalRules DetTypes DetRule DetEmit DetEngine Bgp BgpServer Agent.
#[local] Open Scope Z_scope.

(** The fields of a [detector.Event] the controller reads. *)
Definition finding (ev : DetEmit.Event) : LocalRules.Event :=
  {| ev_ID := e_ID ev; ev_Description := e_Description ev; ev_TTL := e_TTL ev; ev_Refresh := e_Refresh ev; ev_Rule := e_Rule ev |}.

Section System.
Context `{GoBGP} {B : Type} `{Backend B} {Program : Type} (match_GoString : Match -> string).
Context (Pow : float64 -> float64 -> float64) (run : Program -> gmap string float64 -> exprResult).

Record system := {
  sy_agent : @agent B;
  sy_samples : queue;               (** the channel of samples, with the collector's drop counter *)
  sy_runner : @Runner Program       (** with the channel of events *)
}.

(** [run] with the detector enabled, up to the manager's loop: the two channels
    have the configured capacities. *)
Definition boot (rules : list (Rule Program)) (sampleQueue : nat) (eventQueue : Z) (stats : option StatsView)
    (opts : Options) (dryRun advertise : bool) (b : B) : system :=
  {| sy_agent := start opts dryRun advertise b;
     sy_samples := {| q_cap := sampleQueue; q_items := []; q_dropped := 0 |};
     sy_runner := NewRunnerWithContext (NewEngine rules) eventQueue stats |}.

Inductive system_label :=
  | YDatagram (data : list Z) (now : Z)                               (** the sFlow collector reads a datagram *)
  | YMessages (group : Z) (msgs : list (option (list attr) * Z))      (** the PSAMPLE collector receives messages *)
  | YSample (os : nat -> RangeOrder)                                  (** the runner takes a sample *)
  | YTick (os : nat -> RangeOrder) (now : Z)                          (** its ticker fires *)
  | YPoll (view : StatsView)                                          (** the poller has updated the statistics *)
  | YEvent (o : RangeOrder) (now : Z)                                 (** the controller takes a finding *)
  | YAgent (l : @label _ B).                                          (** any other step of [Agent] *)

Definition set_agent (a : agent) (y : system) : system := {| sy_agent := a; sy_samples := sy_samples y; sy_runner := sy_runner y |}.
Definition set_samples (q : queue) (y : system) : system := {| sy_agent := sy_agent y; sy_samples := q; sy_runner := sy_runner y |}.
Definition set_runner (rn : @Runner Program) (y : system) : system := {| sy_agent := sy_agent y; sy_samples := sy_samples y; sy_runner := rn |}.

Definition set_view (view : StatsView) (rn : @Runner Program) : @Runner Program :=
  {| rn_engine := rn_engine rn; rn_queue := rn_queue rn; rn_cap := rn_cap rn;
     rn_stats := match rn_stats rn with Some _ => Some view | None => None end;
     rn_interval := rn_interval rn; rn_dropped := rn_dropped rn |}.

(** The events of the controller come from the runner only. *)
Definition is_event (l : @label _ B) : bool := match l with LTurn _ (TEvent _ _) => true | _ => false end.

Definition system_step (l : system_label) (y : system) : option system :=
  match l with
  | YDatagram data now => Some (set_samples (collect data now (sy_samples y)) y)
  | YMessages group msgs => Some (set_samples (psample_collect group msgs (sy_samples y)) y)
  | YSample os =>
      match q_items (sy_samples y) with
      | [] => None
      | s :: rest =>
          '(rn, _) ← run_step Pow run os (sy_runner y) (RSample s);
          Some (set_runner rn (set_samples {| q_cap := q_cap (sy_samples y); q_items := rest; q_dropped := q_dropped (sy_samples y) |} y))
      end
  | YTick os now => '(rn, _) ← run_step Pow run os (sy_runner y) (RTick now); Some (set_runner rn y)
  | YPoll view => Some (set_runner (set_view view (sy_runner y)) y)
  | YEvent o now =>
      match rn_queue (sy_runner y) with
      | [] => None
      | ev :: _ =>
          a ← agent_step match_GoString (LTurn o (TEvent now (finding ev))) (sy_agent y);
          '(rn, _) ← run_step Pow run (fun _ => range_id) (sy_runner y) RTake;
          Some (set_runner rn (set_agent a y))
      end
  | YAgent l => if is_event l then None else a ← agent_step match_GoString l (sy_agent y); Some (set_agent a y)
  end.

Fixpoint system_run (ls : list system_label) (y : system) : option system :=
  match ls with
  | [] => Some y
  | l :: ls' => y' ← system_step l y; system_run ls' y'
  end.

(** Steps that need nothing from outside, at a time [now]: the controller works off
    the queued findings, and the agent settles. *)
Definition system_internal (now : Z) (l : system_label) : Prop :=
  match l with YEvent _ t => t = now | YAgent l => internal l | _ => False end.
End System.
