(* ===== verification/SystemFacts.v ===== *)
(** * The agent from the sampled packet to the data plane

    The theorem about the whole program: the components' theorems meet here.  The
    decoders give well-formed samples ([SampleFacts]), the compiled rules give
    findings that come from samples ([FindingFacts]), the controller turns them
    into leases and the manager keeps the data plane ([AgentFacts]). *)
From S2P Require Import Prelude GoText Netip Flowspec GoParse Float64 Packet Sflow SflowFacts VppTypes Translate TranslateFacts VppFacts Manager ManagerFacts LocalRules LocalRulesFacts DetTypes Store DetRule DetEmit DetEmitFacts DetRuleFacts DetEngine DetEngineFacts DetCompile DetCompileFacts SampleFacts FindingFacts Bgp BgpServer BgpFacts Agent AgentFacts System.
#[local] Open Scope Z_scope.
#[local] Set Default Proof Using "Type*".

(** ** The controller's leases *)
Definition leases_are (P : string -> Flowspec.Rule -> Prop) (c : Controller) : Prop :=
  map_Forall (fun id l => P id (l_rule l)) (c_leases c).

Lemma expire_loop_leases P deliver now ls c out ch c' out' ch' :
  leases_are P c -> expire_loop deliver now ls c out ch = (c', out', ch') -> leases_are P c'.
Proof.
  revert c out ch. induction ls as [|[id l] ls IH]; intros c out ch Hc; cbn [expire_loop]; [by intros [= <- _ _]|].
  case_bool; [by apply IH|]. apply IH. unfold leases_are in *. cbn. by apply map_Forall_delete.
Qed.

Lemma run_turn_leases P o t c c' out :
  leases_are P c -> match t with TEvent _ ev => P (ev_ID ev) (ev_Rule ev) | TTimer _ => True | TDone _ => False end ->
  run_turn o t c = (c', out) -> leases_are P c'.
Proof.
  intros Hc Ht. destruct t as [now ev|now|]; [| |done]; cbn [run_turn].
  - unfold applyEvent. case_bool; [by intros [= <- _]|]. case_bool; [by intros [= <- _]|]. cbn zeta.
    destruct (c_leases c !! ev_ID ev) as [l|] eqn:Hl.
    + case_bool; [case_bool|]; intros [= <- _]; try done; unfold leases_are; cbn; apply map_Forall_insert_2; try done.
      by apply (Hc _ _ Hl).
    + intros [= <- _]. unfold leases_are. cbn. by apply map_Forall_insert_2.
  - unfold expire. destruct (expire_loop _ _ _ _ _ _) as [[c1 o1] ch] eqn:E. apply expire_loop_leases with (P := P) in E; [|done].
    intros [= <- _]. by destruct ch.
Qed.

(** Only a turn of the controller changes its leases. *)
Lemma agent_step_leases {Hgo : GoBGP} {B : Type} {HB : Backend B} g (P : string -> Flowspec.Rule -> Prop) (l : @label _ B) a a' :
  leases_are P (ag_ctrl a) ->
  match l with LTurn _ (TEvent _ ev) => P (ev_ID ev) (ev_Rule ev) | LTurn _ (TDone _) => False | _ => True end ->
  agent_step g l a = Some a' -> leases_are P (ag_ctrl a').
Proof.
  intros Hc Hl. destruct l as [e| |o t| |b| |o]; cbn [agent_step].
  - by intros [= <-].
  - destruct (_ !! _); [|done]. cbn [mbind option_bind]. destruct (push _ _); [|done]. by intros [= <-].
  - destruct (ag_outbox a); [|done]. destruct (run_turn o t (ag_ctrl a)) as [c out] eqn:E. intros [= <-]. cbn.
    eapply run_turn_leases; [exact Hc| |exact E]. by destruct t.
  - destruct (ag_outbox a); [done|]. destruct (push _ _); [|done]. by intros [= <-].
  - destruct (ag_resync a); [done|]. by intros [= <-].
  - destruct (ag_resync a); [|done]. destruct (push _ _); [|done]. by intros [= <-].
  - destruct (ag_updates a); [done|]. by intros [= <-].
Qed.

Section System.
Context {Hgo : GoBGP} {Hlaws : GoBGPLaws} {B : Type} {HB : Backend B} {Program : Type} (g : Match -> string).
Context (Pow : float64 -> float64 -> float64) (run : Program -> gmap string float64 -> exprResult).
Context (reliable : forall b f rs, (ReplaceACL b f rs).2 = true).
Context (rules : list (DetRule.Rule Program)) (Hrules : Forall compiled rules).

(** The samples the collectors decode from what arrives. *)
Definition decoded_by (l : @system_label _ B) : list Sample :=
  match l with YDatagram data now => sflow_samples (data, now) | YMessages group msgs => psample_samples group msgs | _ => [] end.

Definition decoded (ls : list (@system_label _ B)) : list Sample := ls ≫= decoded_by.

(** What arrives from outside is made of bytes, of well-formed BGP paths and of
    the timer; reconnects bring a backend that keeps the rules it is given. *)
Definition system_label_ok (l : @system_label _ B) : Prop :=
  match l with
  | YDatagram data _ => bytes_wf data
  | YMessages _ msgs => Forall message_wf msgs
  | YAgent (LWatch e) => watch_ok e
  | YAgent (LTurn _ (TDone _)) => False
  | YAgent (LReconnect b) => backend_inv b
  | _ => True
  end.

(** No finding about these samples names the protocol number 0, the exception to
    exact translation. *)
Definition names_protocols (seen : list Sample) : Prop :=
  forall r k ops, r ∈ rules -> origin r seen k -> emitProto r k = Ok ops -> Forall (fun op => n_Value op <> 0) ops.

(** A lease is a finding about one of the samples. *)
Definition leased (seen : list Sample) (id : string) (rule : Flowspec.Rule) : Prop :=
  exists r s d, r ∈ rules /\ s ∈ seen /\ sample_ok s /\ matches r s = true /\ descriptorFor r s = Some d /\
    buildFlowSpec r d = Ok rule /\ id = r_name r +:+ "/" +:+ descriptorString r d.

Record system_inv (seen : list Sample) (y : @system B Program) : Prop := {
  si_agent : exists us, agent_inv g lease_of us (sy_agent y);
  si_detector : detector_inv rules seen (sy_runner y);
  si_samples : Forall (fun s => sample_ok s /\ s ∈ seen) (q_items (sy_samples y));
  si_leases : leases_are (leased seen) (ag_ctrl (sy_agent y))
}.

Lemma found_leased seen ev : found rules seen ev -> leased seen (e_ID ev) (e_Rule ev).
Proof. intros (r & k & Hr & (s & ? & ? & ? & ?) & (Hb & Hid & _)). by exists r, s, k. Qed.

Lemma found_event_ok seen o now ev :
  names_protocols seen -> found rules seen ev -> label_ok lease_of (LTurn o (TEvent now (finding ev)) : @label _ B).
Proof.
  intros Hn (r & k & Hr & Ho & (Hb & Hid & _)). pose proof Ho as (s & _ & Hs & _ & Hd).
  pose proof (proj1 (Forall_forall _ _) Hrules r Hr) as Hc. pose proof (descriptor_wf r s k (cp_ok r Hc) Hs Hd) as Hk.
  pose proof (buildFlowSpec_inv r k _ Hb) as (Hp & _ & _ & _ & _ & _ & _ & _ & Hraw).
  split; [split|]; cbn.
  - by rewrite Hraw.
  - by rewrite Hraw, Hid, lease_of_finding.
  - split; [by eapply buildFlowSpec_wf|]. unfold no_proto0. by eapply Hn.
Qed.

Lemma system_inv_mono seen seen' y : seen ⊆ seen' -> system_inv seen y -> system_inv seen' y.
Proof.
  intros Hs [H1 H2 H3 H4]. split; [done|by eapply detector_inv_mono| |].
  - eapply Forall_impl; [exact H3|]. intros s [? ?]. split; [done|by apply Hs].
  - intros id l Hl. destruct (H4 id l Hl) as (r & s & d & ? & ? & ?). exists r, s, d. split; [done|]. split; [by apply Hs|done].
Qed.

Lemma offers_in (P : Sample -> Prop) q ss :
  Forall P (q_items q) -> Forall P ss -> Forall P (q_items (foldl offer q ss)).
Proof.
  intros Hq Hss. revert q Hq. induction Hss as [|s ss Hs _ IH]; intros q Hq; [done|]. cbn [foldl]. apply IH.
  unfold offer. case_match; [|done]. cbn. apply Forall_app. split; [done|by constructor].
Qed.

Lemma system_step_inv seen l y y' :
  system_label_ok l -> decoded_by l ⊆ seen -> names_protocols seen -> system_inv seen y ->
  system_step g Pow run l y = Some y' -> system_inv seen y'.
Proof.
  intros Hl Hdec Hn [[us H1] H2 H3 H4].
  assert (forall ss q, Forall sample_ok ss -> ss ⊆ seen -> Forall (fun s => sample_ok s /\ s ∈ seen) (q_items q) ->
            Forall (fun s => sample_ok s /\ s ∈ seen) (q_items (foldl offer q ss))) as Hoff.
  { intros ss q Hss Hin Hq. apply offers_in; [done|]. apply Forall_forall. intros s Hs. split; [by eapply Forall_forall|by apply Hin]. }
  destruct l as [data now|group msgs|os|os now|view|o now|l]; cbn [system_step decoded_by] in *.
  - intros [= <-]. split; try done; [by exists us|]. cbn. rewrite (collect_offers (data, now)). apply Hoff; [by apply Decode_ok|done|done].
  - intros [= <-]. split; try done; [by exists us|]. cbn. rewrite psample_offers. apply Hoff; [by apply psample_samples_ok|done|done].
  - destruct (q_items (sy_samples y)) as [|s rest] eqn:Eq; [done|]. apply Forall_cons in H3 as [[Hs Hin] H3].
    destruct (run_step_findings Pow run os rules seen (sy_runner y) (RSample s)) as (rn & go & -> & Hd); [done|done|].
    intros [= <-]. split; try done. by exists us.
  - destruct (run_step_findings Pow run os rules seen (sy_runner y) (RTick now)) as (rn & go & -> & Hd); [done|done|].
    intros [= <-]. split; try done. by exists us.
  - intros [= <-]. split; try done; [by exists us|]. by destruct H2.
  - destruct (rn_queue (sy_runner y)) as [|ev evs] eqn:Eq; [done|].
    assert (found rules seen ev) as Hev. { destruct H2 as [_ _ Hq]. rewrite Eq in Hq. by apply Forall_cons in Hq as [? _]. }
    destruct (agent_step g _ _) as [a|] eqn:Ea; [|done]. cbn [mbind option_bind].
    destruct (run_step_findings Pow run (fun _ => range_id) rules seen (sy_runner y) RTake) as (rn & go & -> & Hd); [done|done|]. intros [= <-].
    pose proof (found_event_ok seen o now ev Hn Hev) as Hok.
    split; cbn; [by eapply agent_step_inv; [..|exact Ea]|done|done|].
    eapply agent_step_leases; [exact H4| |exact Ea]. by apply found_leased.
  - destruct (is_event l) eqn:Ee; [done|]. destruct (agent_step g l _) as [a|] eqn:Ea; [|done]. intros [= <-].
    assert (label_ok lease_of l) as Hok by (by destruct l as [| |? []| | | |]).
    split; cbn; [by eapply agent_step_inv; [..|exact Ea]|done|done|].
    eapply agent_step_leases; [exact H4| |exact Ea]. by destruct l as [| |? []| | | |].
Qed.

Lemma system_run_inv seen ls y y' :
  Forall system_label_ok ls -> decoded ls ⊆ seen -> names_protocols seen -> system_inv seen y ->
  system_run g Pow run ls y = Some y' -> system_inv seen y'.
Proof.
  intros Hls. revert y. induction Hls as [|l ls Hl _ IH]; intros y Hdec Hn Hy; cbn [system_run]; [by intros [= <-]|].
  destruct (system_step g Pow run l y) as [y1|] eqn:E; [|done]. cbn [mbind option_bind]. cbn in Hdec. apply IH; [set_solver|done|].
  eapply system_step_inv; [exact Hl|set_solver|done|done|exact E].
Qed.

Lemma boot_inv nsamples nevents stats opts dry adv b :
  backend_inv b -> (forall f, managed b f []) -> system_inv [] (boot rules nsamples nevents stats opts dry adv b).
Proof.
  intros Hb Hm. split; cbn; [exists []; by apply start_inv|by apply NewRunner_inv|constructor|apply map_Forall_empty].
Qed.

(** ** Working off the findings *)
Lemma system_run_app ls1 ls2 y y1 :
  system_run g Pow run ls1 y = Some y1 -> system_run g Pow run (ls1 ++ ls2) y = system_run g Pow run ls2 y1.
Proof.
  revert y. induction ls1 as [|l ls1 IH]; intros y; cbn [system_run app]; [by intros [= <-]|].
  destruct (system_step _ _ _ l y); [|done]. cbn [mbind option_bind]. apply IH.
Qed.

Lemma agent_run_lifts ls y a :
  Forall internal ls -> agent_run g ls (sy_agent y) = Some a -> system_run g Pow run (YAgent <$> ls) y = Some (set_agent a y).
Proof.
  intros Hls. revert y. induction Hls as [|l ls Hl _ IH]; intros y; cbn [agent_run fmap list_fmap system_run].
  { intros [= <-]. by destruct y. }
  destruct (agent_step g l (sy_agent y)) as [a1|] eqn:E; [|done]. cbn [mbind option_bind]. intros H.
  assert (system_step g Pow run (YAgent l) y = Some (set_agent a1 y)) as -> by (cbn; rewrite E; by destruct l as [| |? []| | | |]).
  cbn [mbind option_bind]. by rewrite (IH (set_agent a1 y)).
Qed.

(** The agent of a reachable state can come to rest. *)
Lemma agent_rests (now : Z) seen y :
  system_inv seen y -> exists ls y', Forall (system_internal now) ls /\ decoded ls = [] /\ Forall system_label_ok ls /\
    system_run g Pow run ls y = Some y' /\ quiescent (sy_agent y') /\ ag_server (sy_agent y') = ag_server (sy_agent y) /\
    sy_runner y' = sy_runner y.
Proof.
  intros [[us H1] _ _ _]. destruct (settles g reliable _ (sy_agent y) (le_n _) (ai_forwarded _ _ _ _ H1)) as (ls & a & Hint & Hr & Hq & Hs & _).
  exists (YAgent <$> ls), (set_agent a y). rewrite (agent_run_lifts ls y a Hint Hr). split_and!; try done.
  - by apply Forall_fmap.
  - clear -ls. induction ls; [done|]. by cbn.
  - apply Forall_fmap. eapply Forall_impl; [exact Hint|]. by intros [].
Qed.

Lemma findings_worked_off (now : Z) seen y :
  names_protocols seen -> system_inv seen y -> exists ls y', Forall (system_internal now) ls /\ system_run g Pow run ls y = Some y' /\
    system_inv seen y' /\ quiescent (sy_agent y') /\ rn_queue (sy_runner y') = [] /\ ag_server (sy_agent y') = ag_server (sy_agent y).
Proof.
  intros Hn. remember (length (rn_queue (sy_runner y))) as n eqn:En. revert y En. induction n as [|n IH]; intros y En Hy;
    destruct (agent_rests now seen y Hy) as (ls & y1 & Hint & Hdec & Hok & Hrun & Hq & Hsrv & Hrn);
    assert (system_inv seen y1) as Hy1 by (eapply system_run_inv; [exact Hok|rewrite Hdec; set_solver|done|exact Hy|exact Hrun]).
  - exists ls, y1. split_and!; try done. rewrite Hrn. by apply nil_length_inv.
  - destruct (rn_queue (sy_runner y)) as [|ev evs] eqn:Eq; [done|]. destruct Hq as (Hu & Ho & _).
    assert (exists y2, system_step g Pow run (YEvent range_id now) y1 = Some y2 /\ rn_queue (sy_runner y2) = evs /\
              ag_server (sy_agent y2) = ag_server (sy_agent y1)) as (y2 & E2 & Hq2 & Hs2).
    { cbn [system_step agent_step]. rewrite Hrn, Eq, Ho. cbn [mbind option_bind].
      destruct (run_turn _ _ _). cbn. eexists. split; [done|]. cbn. by rewrite Eq. }
    assert (system_inv seen y2) as Hy2 by (eapply (system_step_inv seen (YEvent range_id now)); [exact I|set_solver|done|exact Hy1|exact E2]).
    destruct (IH y2) as (ls3 & y3 & Hint3 & Hrun3 & Hy3 & Hq3 & Hqe3 & Hs3); [rewrite Hq2; by injection En|done|].
    exists (ls ++ YEvent range_id now :: ls3), y3. split; [apply Forall_app; split; [done|by constructor]|].
    rewrite (system_run_app _ _ _ y1) by done. cbn [system_run]. rewrite E2. cbn [mbind option_bind]. split_and!; try done. congruence.
Qed.

(** The detector's steps are never stuck: a stuck one would be a panic. *)
Lemma detector_steps seen y :
  system_inv seen y ->
  (forall os, q_items (sy_samples y) <> [] -> is_Some (system_step g Pow run (YSample os) y)) /\
  (forall os now, is_Some (system_step g Pow run (YTick os now) y)).
Proof.
  intros [_ H2 H3 _]. split.
  - intros os Hne. cbn [system_step]. destruct (q_items (sy_samples y)) as [|s rest]; [done|]. apply Forall_cons in H3 as [Hs _].
    destruct (run_step_findings Pow run os rules seen (sy_runner y) (RSample s)) as (rn & go & -> & _); [done|done|]. eauto.
  - intros os now. cbn [system_step].
    destruct (run_step_findings Pow run os rules seen (sy_runner y) (RTick now)) as (rn & go & -> & _); [done|done|]. eauto.
Qed.

Lemma system_exact seen y p : system_inv seen y -> quiescent (sy_agent y) -> packet_wf p -> drops_exactly g (sy_agent y) p.
Proof. intros [[us H1] _ _ _] Hq Hp. by eapply quiescent_exact. Qed.
End System.

Lemma CompileRules_compiled {Program} ec fp o cfgs (rules : list (DetRule.Rule Program)) :
  Forall (fun cfg => HistoryConfig_wf (cfg_History cfg)) cfgs -> CompileRules ec fp o cfgs = Ok rules -> Forall compiled rules.
Proof.
  unfold CompileRules. intros Hw H. apply compile_rules_from_each in H. induction H as [|cfg r cfgs rs Hr _ IH]; [constructor|].
  apply Forall_cons in Hw as [Hw1 Hw2]. constructor; [|by apply IH]. by apply (compileRule_compiled _ _ _ _ _ Hw1 Hr).
Qed.

(** ** Properties *)


(** A SYN to port 443 of 192.0.2.1 is sampled and matches the example rule; the
    finding becomes a lease while a peer's route arrives. *)
Definition ex_frame : list Z :=
  [2; 0; 0; 0; 0; 1; 2; 0; 0; 0; 0; 2; 8; 0;
   69; 0; 0; 40; 0; 0; 0; 0; 64; 6; 0; 0; 203; 0; 113; 9; 192; 0; 2; 1;
   195; 80; 1; 187; 0; 0; 0; 1; 0; 0; 0; 0; 80; 2; 255; 255; 0; 0; 0; 0].
Definition ex_system_labels : list (@system_label text_gobgp (VFamily -> list ACLRule)) :=
  [YMessages 0 [(Some [attrSampleRate 1000; attrData ex_frame], 5)]; YAgent (LWatch ex_announcement); YSample (fun _ => range_id);
   YTick (fun _ => range_id) (2 * Second); YAgent LForward; YEvent range_id (2 * Second); YAgent LSend; YAgent (LApply range_id);
   YAgent (LApply range_rev)].
Definition ex_run (p : unit) (env : gmap string float64) : exprResult := ExprBool true.
Definition ex_boot : @system (VFamily -> list ACLRule) unit :=
  boot [compiled_example] 16 16 None ex_opts false true (fun _ => []).
Definition ex_system : system := default ex_boot (system_run ex_go (fun x _ => x) ex_run ex_system_labels ex_boot).

Lemma ex_frame_bytes : bytes_wf ex_frame.
Proof. apply (bool_decide_unpack (Forall (in_width 8) ex_frame)). by vm_compute. Qed.

Lemma ex_names_protocols : names_protocols [compiled_example] (decoded ex_system_labels).
Proof.
  intros r k ops ->%list_elem_of_singleton (s & _ & _ & Hm & Hd).
  assert (s_Proto s = 6) as Hp.
  { apply (matches_proto compiled_example) in Hm; [|by vm_compute]. change (r_protoFilter compiled_example) with [6] in Hm.
    by apply list_elem_of_singleton in Hm. }
  apply descriptorFor_proto in Hd as [Hw Hk]. change (r_protoWild compiled_example) with false in *. unfold emitProto.
  change (ef_mode (fa_proto (r_action compiled_example))) with emitDefault. rewrite Hw, Hk, Hp. intros [= <-]. by repeat constructor.
Qed.

