(* ===== verification/VppStats.v ===== *)
(** * VPP interface statistics (internal/vppstats: store.go, poller.go, persist.go)

    Counter deltas become rate samples; each interface keeps three rings of
    running means.  The ring sets are shared objects: an interface's canonical
    name and its aliases point to the same one, so the store is a heap of ring
    sets and two maps of references into it.  Rates are IEEE binary64.  The stats
    segment reader is a library: what it returns is the input of [snapshot].
    [None] is a run-time panic. *)
From S2P Require Import Prelude GoText Netip Flowspec Packet Spread Float64 DetTypes HeavyKeeper Store.
From Stdlib Require Import SpecFloat.
#[local] Open Scope Z_scope.

(** ** Rates *)
Definition zeroRates : Rates :=
  {| RXPPS := f_zero; TXPPS := f_zero; RXBPS := f_zero; TXBPS := f_zero; SWDropPPS := f_zero; HWDropPPS := f_zero |}.

(** Field by field. *)
Definition map2_rates (f : float64 -> float64 -> float64) (a b : Rates) : Rates :=
  {| RXPPS := f (RXPPS a) (RXPPS b); TXPPS := f (TXPPS a) (TXPPS b); RXBPS := f (RXBPS a) (RXBPS b);
     TXBPS := f (TXBPS a) (TXBPS b); SWDropPPS := f (SWDropPPS a) (SWDropPPS b); HWDropPPS := f (HWDropPPS a) (HWDropPPS b) |}.

(** The built-in [max] on floats: NaN if an operand is NaN, and +0 over -0. *)
Definition f_max (x y : float64) : float64 :=
  match x, y with
  | S754_nan, _ | _, S754_nan => S754_nan
  | S754_zero a, S754_zero b => S754_zero (a && b)
  | _, _ => if f_lt x y then y else x
  end.

Definition addRates : Rates -> Rates -> Rates := map2_rates f_add.
Definition maxRates : Rates -> Rates -> Rates := map2_rates f_max.
Definition scaleRates (a : Rates) (f : float64) : Rates := map2_rates (fun x _ => f_mul x f) a a.
Definition meanRates (cur sample : Rates) (n : float64) : Rates :=
  map2_rates (fun c s => f_add c (f_div (f_sub s c) n)) cur sample.

(** ** Samples and configuration *)
Record VSample := { vs_At : Z; vs_Name : string; vs_Aliases : list string; vs_rates : Rates }.

Record VRingConfig := {
  FineResolution : Z; FineDuration : Z; MediumResolution : Z; MediumDuration : Z; CoarseResolution : Z; CoarseDuration : Z
}.

Definition DefaultRingConfig : VRingConfig :=
  {| FineResolution := Second; FineDuration := 5 * 60 * Second; MediumResolution := 60 * Second;
     MediumDuration := 24 * 3600 * Second; CoarseResolution := 3600 * Second; CoarseDuration := 30 * 24 * 3600 * Second |}.

Definition or_default (v d : Z) : Z := if v <=? 0 then d else v.

Definition withDefaults (c : VRingConfig) : VRingConfig :=
  let d := DefaultRingConfig in
  {| FineResolution := or_default (FineResolution c) (FineResolution d);
     FineDuration := or_default (FineDuration c) (FineDuration d);
     MediumResolution := or_default (MediumResolution c) (MediumResolution d);
     MediumDuration := or_default (MediumDuration c) (MediumDuration d);
     CoarseResolution := or_default (CoarseResolution c) (CoarseResolution d);
     CoarseDuration := or_default (CoarseDuration c) (CoarseDuration d) |}.

Definition ringCovers (res slots window offset : Z) : bool :=
  if (res <=? 0) || (slots <? 1) || (window <? res) then false
  else if negb (Z.rem window res =? 0) || negb (Z.rem offset res =? 0) then false
  else i64 (window + offset) <=? i64 (slots * res).

Definition Covers (c : VRingConfig) (window offset : Z) : bool :=
  let c := withDefaults c in
  existsb (fun rd => ringCovers rd.1 (Z.quot rd.2 rd.1) window offset)
    [(FineResolution c, FineDuration c); (MediumResolution c, MediumDuration c); (CoarseResolution c, CoarseDuration c)].

(** ** Rings *)
Record vslot := { vl_epoch : Z; vl_count : Z; vl_rates : Rates }.

Definition zero_vslot (epoch : Z) : vslot := {| vl_epoch := epoch; vl_count := 0; vl_rates := zeroRates |}.

Record vring := { vr_resolution : Z; vr_slots : list vslot }.

Definition newRing (resolution duration : Z) : vring :=
  let n := Z.quot duration resolution in
  {| vr_resolution := resolution; vr_slots := replicate (Z.to_nat (if n <? 1 then 1 else n)) (zero_vslot 0) |}.

Definition vr_epoch (r : vring) (at_ : Z) : option Z :=
  if vr_resolution r =? 0 then None else Some (Z.quot (i64 at_) (vr_resolution r)).

Definition vslot_at (r : vring) (e : Z) : option (Z * vslot) :=
  idx ← slotIndex e (len (vr_slots r));
  s ← index (vr_slots r) idx;
  Some (idx, s).

(** A poll folded into the running mean of its slot. *)
Definition fold_sample (s : vslot) (x : Rates) : vslot :=
  let n := u64 (vl_count s + 1) in
  {| vl_epoch := vl_epoch s; vl_count := n; vl_rates := meanRates (vl_rates s) x (f_of_int n) |}.

(** [ring.add] *)
Definition vring_add (r : vring) (at_ : Z) (x : Rates) : option vring :=
  e ← vr_epoch r at_;
  '(idx, s) ← vslot_at r e;
  let s := if negb (vl_epoch s =? e) then zero_vslot e else s in
  Some {| vr_resolution := vr_resolution r; vr_slots := <[Z.to_nat idx := fold_sample s x]> (vr_slots r) |}.

(** What the loop of [aggregate] accumulates: sum, maximum, populated slots. *)
Record vacc := { va_sum : Rates; va_max : Rates; va_n : Z }.

Fixpoint vwindow_loop (r : vring) (e : Z) (k : nat) (a : vacc) : option vacc :=
  match k with
  | O => Some a
  | S k' =>
      '(_, s) ← vslot_at r e;
      vwindow_loop r (e + 1) k'
        (if negb (vl_epoch s =? e) then a
         else {| va_sum := addRates (va_sum a) (vl_rates s); va_max := maxRates (va_max a) (vl_rates s); va_n := va_n a + 1 |})
  end.

Definition vacc_value (peak : bool) (a : vacc) : Rates :=
  if peak then va_max a
  else if va_n a =? 0 then zeroRates
  else scaleRates (va_sum a) (f_div f_one (f_of_int (va_n a))).

(** [ring.aggregate] *)
Definition vaggregate (r : vring) (now window offset : Z) (peak : bool) : option Rates :=
  endEpoch ← vr_epoch r (now + i64 (- offset));
  let count := Z.quot window (vr_resolution r) in
  let count := if count <? 1 then 1 else count in
  let startEpoch := i64 (i64 (endEpoch - count) + 1) in
  a ← vwindow_loop r startEpoch (Z.to_nat (endEpoch - startEpoch + 1)) {| va_sum := zeroRates; va_max := zeroRates; va_n := 0 |};
  Some (vacc_value peak a).

(** ** Ring sets *)
Record interfaceRings := { ir_fine : vring; ir_medium : vring; ir_coarse : vring; ir_last : VSample }.

Definition zero_sample : VSample := {| vs_At := 0; vs_Name := ""; vs_Aliases := []; vs_rates := zeroRates |}.

Definition newInterfaceRings (c : VRingConfig) : interfaceRings :=
  {| ir_fine := newRing (FineResolution c) (FineDuration c); ir_medium := newRing (MediumResolution c) (MediumDuration c);
     ir_coarse := newRing (CoarseResolution c) (CoarseDuration c); ir_last := zero_sample |}.

Definition rings_add (r : interfaceRings) (s : VSample) : option interfaceRings :=
  fine ← vring_add (ir_fine r) (vs_At s) (vs_rates s);
  medium ← vring_add (ir_medium r) (vs_At s) (vs_rates s);
  coarse ← vring_add (ir_coarse r) (vs_At s) (vs_rates s);
  Some {| ir_fine := fine; ir_medium := medium; ir_coarse := coarse; ir_last := s |}.

(** One turn of the loop of [chooseRing]. *)
Definition better_ring (window offset : Z) (best : option vring) (rg : vring) : option vring :=
  if negb (ringCovers (vr_resolution rg) (len (vr_slots rg)) window offset) then best
  else match best with
       | None => Some rg
       | Some b => if vr_resolution b <? vr_resolution rg then Some rg else best
       end.

Definition vchooseRing (r : interfaceRings) (window offset : Z) : option vring :=
  foldl (better_ring window offset) None [ir_fine r; ir_medium r; ir_coarse r].

(** ** The store: ring sets by reference *)
Record VStore := {
  st_heap : gmap nat interfaceRings;
  st_next : nat;  (* the next free reference *)
  st_rings : gmap string nat;
  st_byAlias : gmap string nat;
  st_total : Rates;
  st_config : VRingConfig
}.

Definition newStore (config : VRingConfig) : VStore :=
  {| st_heap := ∅; st_next := 0; st_rings := ∅; st_byAlias := ∅; st_total := zeroRates; st_config := withDefaults config |}.

(** The sum over the interfaces in the order of the map's [range]. *)
Definition total_of (o : RangeOrder) (heap : gmap nat interfaceRings) (rings : gmap string nat) : Rates :=
  foldl (fun t nr => match heap !! nr.2 with Some r => addRates t (vs_rates (ir_last r)) | None => t end)
    zeroRates (range_list o (map_to_list rings)).

Definition add_aliases (name : string) (aliases : list string) (ref : nat) (m : gmap string nat) : gmap string nat :=
  foldl (fun m a => if String.eqb a "" || String.eqb a name then m else <[a := ref]> m) m aliases.

(** [Store.Add] *)
Definition store_Add (o : RangeOrder) (s : VStore) (x : VSample) : option VStore :=
  let '(ref, r, next) :=
    match st_rings s !! vs_Name x with
    | Some ref => (ref, default (newInterfaceRings (st_config s)) (st_heap s !! ref), st_next s)
    | None => (st_next s, newInterfaceRings (st_config s), S (st_next s))
    end in
  r' ← rings_add r x;
  let heap := <[ref := r']> (st_heap s) in
  let rings := <[vs_Name x := ref]> (st_rings s) in
  Some {| st_heap := heap; st_next := next; st_rings := rings;
          st_byAlias := add_aliases (vs_Name x) (vs_Aliases x) ref (st_byAlias s);
          st_total := total_of o heap rings; st_config := st_config s |}.

Definition findRing (s : VStore) (name : string) : option interfaceRings :=
  ref ← (match st_rings s !! name with Some ref => Some ref | None => st_byAlias s !! name end);
  st_heap s !! ref.

Definition store_InterfaceRates (s : VStore) (name : string) : option Rates := vs_rates ∘ ir_last <$> findRing s name.
Definition store_TotalRates (s : VStore) : Rates := st_total s.
Definition store_Interfaces (s : VStore) : Z := Z.of_nat (size (st_rings s)).

(** The result of a query that may panic: [Some None] is [ok = false]. *)
Definition store_InterfaceWindow (s : VStore) (name : string) (now window offset : Z) (peak : bool) : option (option Rates) :=
  match findRing s name with
  | None => Some None
  | Some r =>
      match vchooseRing r window offset with
      | None => Some None
      | Some ring => Some <$> vaggregate ring now window offset peak
      end
  end.

Fixpoint total_window_loop (heap : gmap nat interfaceRings) (l : list (string * nat)) (now window offset : Z) (peak : bool)
    (total : Rates) (any : bool) : option (Rates * bool) :=
  match l with
  | [] => Some (total, any)
  | (_, ref) :: l' =>
      match heap !! ref with
      | None => total_window_loop heap l' now window offset peak total any
      | Some r =>
          match vchooseRing r window offset with
          | None => total_window_loop heap l' now window offset peak total any
          | Some ring =>
              v ← vaggregate ring now window offset peak;
              total_window_loop heap l' now window offset peak (addRates total v) true
          end
      end
  end.

Definition store_TotalWindow (o : RangeOrder) (s : VStore) (now window offset : Z) (peak : bool) : option (option Rates) :=
  '(total, any) ← total_window_loop (st_heap s) (range_list o (map_to_list (st_rings s))) now window offset peak zeroRates false;
  Some (if (any : bool) then Some total else None).

(** [Store.Snapshot]: name, time and rates of the last sample of every interface. *)
Definition store_Snapshot (o : RangeOrder) (s : VStore) : list (string * Z * Rates) :=
  omap (fun nr => r ← st_heap s !! nr.2; Some (nr.1, vs_At (ir_last r), vs_rates (ir_last r)))
    (range_list o (map_to_list (st_rings s))).

(** ** poller.go *)
Record counters := {
  ct_at : Z; ct_name : string; ct_ifindex : string;
  ct_rxPackets : Z; ct_txPackets : Z; ct_rxBytes : Z; ct_txBytes : Z; ct_drops : Z; ct_rxMiss : Z
}.

(** One interface of [api.InterfaceStats], as the stats client returns it. *)
Record IfaceStats := {
  if_Name : string; if_Index : Z; if_RxPackets : Z; if_RxBytes : Z; if_TxPackets : Z; if_TxBytes : Z; if_Drops : Z; if_RxMiss : Z
}.

Definition stringIndex (index : Z) : string := "ifindex:" +:+ itoa index.

Definition counters_of (now : Z) (i : IfaceStats) : counters :=
  {| ct_at := now; ct_name := if_Name i; ct_ifindex := stringIndex (if_Index i); ct_rxPackets := if_RxPackets i;
     ct_txPackets := if_TxPackets i; ct_rxBytes := if_RxBytes i; ct_txBytes := if_TxBytes i; ct_drops := if_Drops i;
     ct_rxMiss := if_RxMiss i |}.

Definition snapshot (now : Z) (stats : list IfaceStats) : gmap string counters :=
  foldl (fun m i => <[stringIndex (if_Index i) := counters_of now i]> m) ∅ stats.

Definition deltaRate (old cur : Z) (seconds : float64) : float64 :=
  if cur <? old then f_zero else f_div (f_of_int (cur - old)) seconds.

Definition f_8 : float64 := f_of_int 8.

(** The sample of one interface, when two polls give one. *)
Definition rate_sample (now : Z) (prev : gmap string counters) (idx : string) (c : counters) : option VSample :=
  match prev !! idx with
  | None => None
  | Some old =>
      if negb (ct_at old <? ct_at c) then None
      else
        let seconds := Seconds (Sub (ct_at c) (ct_at old)) in
        if f_le seconds f_zero then None
        else
          let named := negb (String.eqb (ct_name c) "") in
          Some {| vs_At := now;
                  vs_Name := if named then ct_name c else ct_ifindex c;
                  vs_Aliases := if named then [ct_ifindex c] else [];
                  vs_rates := {| RXPPS := deltaRate (ct_rxPackets old) (ct_rxPackets c) seconds;
                                 TXPPS := deltaRate (ct_txPackets old) (ct_txPackets c) seconds;
                                 RXBPS := f_mul (deltaRate (ct_rxBytes old) (ct_rxBytes c) seconds) f_8;
                                 TXBPS := f_mul (deltaRate (ct_txBytes old) (ct_txBytes c) seconds) f_8;
                                 SWDropPPS := deltaRate (ct_drops old) (ct_drops c) seconds;
                                 HWDropPPS := deltaRate (ct_rxMiss old) (ct_rxMiss c) seconds |} |}
  end.

Fixpoint poll_loop (o : RangeOrder) (now : Z) (prev : gmap string counters) (l : list (string * counters)) (s : VStore)
  : option VStore :=
  match l with
  | [] => Some s
  | (idx, c) :: l' =>
      match rate_sample now prev idx c with
      | None => poll_loop o now prev l' s
      | Some x => s' ← store_Add o s x; poll_loop o now prev l' s'
      end
  end.

(** [Poller.addRates] *)
Definition poller_addRates (o : RangeOrder) (now : Z) (prev cur : gmap string counters) (s : VStore) : option VStore :=
  poll_loop o now prev (range_list o (map_to_list cur)) s.

(** The poller between two events: the last counters of this connection and the
    store.  A tick reads the counters; a failed read ends the connection, and the
    next one starts without counters. *)
Record poller := { pl_prev : option (gmap string counters); pl_store : VStore }.

Inductive poll_event :=
  | PollTick (now : Z) (stats : list IfaceStats)
  | PollFailed.

Definition poll_step (o : RangeOrder) (p : poller) (e : poll_event) : option poller :=
  match e with
  | PollFailed => Some {| pl_prev := None; pl_store := pl_store p |}
  | PollTick now stats =>
      let cur := snapshot now stats in
      s ← (match pl_prev p with None => Some (pl_store p) | Some prev => poller_addRates o now prev cur (pl_store p) end);
      Some {| pl_prev := Some cur; pl_store := s |}
  end.

Definition poll_run (o : RangeOrder) (p : poller) (es : list poll_event) : option poller :=
  foldl (fun acc e => p ← acc; poll_step o p e) (Some p) es.

(** ** persist.go *)
Record VSampleState := { ss_At : Z; ss_rates : Rates }.
Record RingState := { rs_Resolution : Z; rs_Slots : list vslot }.
Record VInterfaceState := {
  is_Name : string; is_Aliases : list string; is_Last : VSampleState; is_Fine : RingState; is_Medium : RingState; is_Coarse : RingState
}.

Definition sampleState (s : VSample) : VSampleState := {| ss_At := vs_At s; ss_rates := vs_rates s |}.
Definition state_sample (s : VSampleState) (name : string) : VSample :=
  {| vs_At := ss_At s; vs_Name := name; vs_Aliases := []; vs_rates := ss_rates s |}.
Definition exportRing (r : vring) : RingState := {| rs_Resolution := vr_resolution r; rs_Slots := vr_slots r |}.

(** The aliases that point to a ring set, in the order of the alias map's [range]. *)
Definition aliases_of (o : RangeOrder) (byAlias : gmap string nat) (ref : nat) : list string :=
  omap (fun ar => if bool_decide (ar.2 = ref) then Some ar.1 else None) (range_list o (map_to_list byAlias)).

(** [Store.Export] *)
Definition store_Export (o : RangeOrder) (s : VStore) : list VInterfaceState :=
  omap (fun nr => r ← st_heap s !! nr.2;
          Some {| is_Name := nr.1; is_Aliases := aliases_of o (st_byAlias s) nr.2; is_Last := sampleState (ir_last r);
                  is_Fine := exportRing (ir_fine r); is_Medium := exportRing (ir_medium r); is_Coarse := exportRing (ir_coarse r) |})
    (range_list o (map_to_list (st_rings s))).

(** [importRing]: the slots are copied when their number matches. *)
Definition importRing (r : vring) (st : RingState) : option vring :=
  if negb (len (rs_Slots st) =? len (vr_slots r)) then None
  else Some {| vr_resolution := vr_resolution r; vr_slots := rs_Slots st |}.

Definition import_rings (c : VRingConfig) (ist : VInterfaceState) : option interfaceRings :=
  let r := newInterfaceRings c in
  fine ← importRing (ir_fine r) (is_Fine ist);
  medium ← importRing (ir_medium r) (is_Medium ist);
  coarse ← importRing (ir_coarse r) (is_Coarse ist);
  Some {| ir_fine := fine; ir_medium := medium; ir_coarse := coarse; ir_last := state_sample (is_Last ist) (is_Name ist) |}.

(** One turn of the loop of [Import]; a skipped interface allocates nothing that
    stays reachable. *)
Definition import_interface (s : VStore) (ist : VInterfaceState) : VStore :=
  match import_rings (st_config s) ist with
  | None => s
  | Some r =>
      let ref := st_next s in
      {| st_heap := <[ref := r]> (st_heap s); st_next := S ref; st_rings := <[is_Name ist := ref]> (st_rings s);
         st_byAlias := add_aliases (is_Name ist) (is_Aliases ist) ref (st_byAlias s); st_total := st_total s; st_config := st_config s |}
  end.

(** [Store.Import] *)
Definition store_Import (o : RangeOrder) (s : VStore) (st : list VInterfaceState) : VStore :=
  let s := foldl import_interface s st in
  {| st_heap := st_heap s; st_next := st_next s; st_rings := st_rings s; st_byAlias := st_byAlias s;
     st_total := total_of o (st_heap s) (st_rings s); st_config := st_config s |}.
