(* ===== verification/VppStatsFacts.v ===== *)
(** * Facts about the interface statistics

    A window read from the store is the reference computation on the polls of
    that interface and window; every window that passed the start-up test is
    served; a restart restores what the queries see. *)
From S2P Require Import Prelude GoText Netip Flowspec Packet PacketFacts Spread SpreadFacts Float64 DetTypes HeavyKeeper HeavyKeeperFacts Store StoreFacts VppStats.
#[local] Open Scope Z_scope.

(** ** Slots *)
Lemma vslot_at_mod r e :
  0 < len (vr_slots r) -> exists s, vslot_at r e = Some (e mod len (vr_slots r), s) /\
    vr_slots r !! Z.to_nat (e mod len (vr_slots r)) = Some s.
Proof.
  intros Hn. pose proof (Z.mod_pos_bound e (len (vr_slots r)) Hn) as Hm. unfold vslot_at. rewrite slotIndex_mod by done.
  cbn [mbind option_bind]. rewrite index_lookup by lia.
  destruct (lookup_lt_is_Some_2 (vr_slots r) (Z.to_nat (e mod len (vr_slots r)))) as [s Hs]; [unfold len in *; lia|].
  exists s. by rewrite Hs.
Qed.

(** ** Polls of one epoch *)
Definition polls_in (res e : Z) (hs : list VSample) : list VSample := filter (fun x => ep res (vs_At x) = e) hs.

(** The slot of an epoch: its polls folded into a running mean, in order. *)
Definition slot_for (res e : Z) (hs : list VSample) : vslot := foldl (fun s x => fold_sample s (vs_rates x)) (zero_vslot e) (polls_in res e hs).

Lemma polls_in_snoc res e hs x :
  polls_in res e (hs ++ [x]) = polls_in res e hs ++ (if decide (ep res (vs_At x) = e) then [x] else []).
Proof. unfold polls_in. rewrite filter_app, filter_cons, filter_nil. by case_decide. Qed.

Lemma slot_for_epoch res e hs : vl_epoch (slot_for res e hs) = e.
Proof.
  unfold slot_for. generalize (polls_in res e hs). intros l.
  assert (forall s, vl_epoch (foldl (fun s x => fold_sample s (vs_rates x)) s l) = vl_epoch s) as H; [|by rewrite H].
  induction l as [|x l IH]; intros s; [done|]. cbn [foldl]. by rewrite IH.
Qed.

Lemma slot_for_snoc res e hs x :
  ep res (vs_At x) = e -> slot_for res e (hs ++ [x]) = fold_sample (slot_for res e hs) (vs_rates x).
Proof. intros He. unfold slot_for. rewrite polls_in_snoc, decide_True by done. by rewrite foldl_app. Qed.

Lemma polls_in_none res e hs lo top :
  Forall (fun x => lo < ep res (vs_At x) <= top) hs -> top < e -> polls_in res e hs = [].
Proof.
  intros H Ht. unfold polls_in. induction H as [|x l Hx _ IH]; [done|]. by rewrite filter_cons, decide_False by lia.
Qed.

(** A ring of [n] slots that has seen the polls [hs], the latest not after [top]. *)
Record vring_ok (n res top : Z) (hs : list VSample) (r : vring) : Prop := {
  vo_len : len (vr_slots r) = n;
  vo_res : vr_resolution r = res;
  vo_past : Forall (fun x => 0 < ep res (vs_At x) <= top) hs;
  vo_slots : Forall (fun s => vl_epoch s <= top) (vr_slots r);
  vo_held : forall e, 0 < e -> top - n < e <= top -> forall s, vr_slots r !! Z.to_nat (e mod n) = Some s ->
    (polls_in res e hs = [] -> vl_epoch s <> e) /\ (polls_in res e hs <> [] -> s = slot_for res e hs)
}.

Lemma newRing_len res dur : len (vr_slots (newRing res dur)) = Z.max 1 (Z.quot dur res).
Proof. unfold newRing, len. cbn [vr_slots]. rewrite length_replicate. destruct (Z.ltb_spec (Z.quot dur res) 1); lia. Qed.

Lemma newRing_ok res dur top : 0 <= top -> vring_ok (len (vr_slots (newRing res dur))) res top [] (newRing res dur).
Proof.
  intros Ht. split; [done|done|apply Forall_nil_2| |].
  - apply Forall_replicate. done.
  - intros e He _ s Hs. apply lookup_replicate in Hs as [-> _]. split; [cbn; lia|done].
Qed.

Lemma vring_ok_later n res top top' hs r : vring_ok n res top hs r -> 0 < n -> top <= top' -> vring_ok n res top' hs r.
Proof.
  intros [Hl Hr Hp Hs Hh] Hn Ht. split; [done|done| | |].
  - eapply Forall_impl; [exact Hp|]. simpl. lia.
  - eapply Forall_impl; [exact Hs|]. simpl. lia.
  - intros e He Hw s Hlk. destruct (decide (e <= top)) as [Hle|Hgt]; [apply Hh; [done|lia|done]|].
    assert (polls_in res e hs = []) as E by (by eapply polls_in_none; [exact Hp|lia]).
    split; [|by rewrite E]. intros _. eapply Forall_lookup_1 in Hs; [|exact Hlk]. simpl in Hs. lia.
Qed.

Lemma vring_add_ok n res top hs r x :
  0 < n -> 0 < res -> vring_ok n res top hs r -> top - n < ep res (vs_At x) <= top -> 0 < ep res (vs_At x) ->
  exists r', vring_add r (vs_At x) (vs_rates x) = Some r' /\ vring_ok n res top (hs ++ [x]) r'.
Proof.
  intros Hn Hres [Hl Hr Hp Hs Hh] Hx Hx0. set (e := ep res (vs_At x)) in *. unfold vring_add, vr_epoch.
  rewrite Hr, (proj2 (Z.eqb_neq _ _)) by lia. cbn [mbind option_bind]. change (Z.quot _ res) with e.
  destruct (vslot_at_mod r e) as (s & Hat & Hlk); [lia|]. rewrite Hat. rewrite Hl in *. cbn [mbind option_bind].
  eexists. split; [reflexivity|].
  set (s' := fold_sample (if negb (vl_epoch s =? e) then zero_vslot e else s) (vs_rates x)).
  assert (s' = slot_for res e (hs ++ [x])) as Hs'.
  { rewrite slot_for_snoc by done. unfold s'. f_equal. destruct (Hh e Hx0 Hx s Hlk) as [H1 H2].
    destruct (polls_in res e hs) as [|y l] eqn:E.
    - rewrite (proj2 (Z.eqb_neq _ _)) by auto. cbn [negb]. unfold slot_for. by rewrite E.
    - rewrite H2 by done. by rewrite slot_for_epoch, Z.eqb_refl. }
  assert (len (<[Z.to_nat (e mod n) := s']> (vr_slots r)) = n) as Hl' by (unfold len in *; by rewrite length_insert).
  split; cbn [vr_slots vr_resolution]; [done|done| | |].
  - apply Forall_app_2; [done|]. apply Forall_singleton. fold e. lia.
  - apply Forall_insert; [done|]. rewrite Hs', slot_for_epoch. lia.
  - intros e' He0 Hw s2 Hs2. pose proof (Z.mod_pos_bound e n Hn). pose proof (Z.mod_pos_bound e' n Hn).
    destruct (decide (e' = e)) as [->|Hne].
    + rewrite list_lookup_insert_eq in Hs2 by (unfold len in *; lia). injection Hs2 as <-. split; [|by rewrite Hs'].
      rewrite polls_in_snoc, decide_True by done. by intros []%app_nil.
    + assert (Z.to_nat (e mod n) <> Z.to_nat (e' mod n)).
      { intros Heq. apply Hne. symmetry. apply (mod_same_epoch n); lia. }
      rewrite list_lookup_insert_ne in Hs2 by done.
      assert (polls_in res e' (hs ++ [x]) = polls_in res e' hs) as E
        by (rewrite polls_in_snoc, decide_False by (fold e; lia); apply app_nil_r).
      unfold slot_for. rewrite E. by apply Hh.
Qed.

(** ** Feeding a ring set, in the order of time *)
Definition rings_feed (r : interfaceRings) (hs : list VSample) : option interfaceRings :=
  foldl (fun acc x => r ← acc; rings_add r x) (Some r) hs.

Definition vring_feed (r : vring) (hs : list VSample) : option vring :=
  foldl (fun acc x => r ← acc; vring_add r (vs_At x) (vs_rates x)) (Some r) hs.

(** Poll times do not go backwards and lie after the first epoch of the ring. *)
Definition polled (res : Z) (hs : list VSample) : Prop :=
  StronglySorted (fun x y => ep res (vs_At x) <= ep res (vs_At y)) hs /\ Forall (fun x => 0 < ep res (vs_At x)) hs.

Lemma polled_snoc res hs x :
  polled res (hs ++ [x]) -> polled res hs /\ 0 < ep res (vs_At x) /\ Forall (fun y => 0 < ep res (vs_At y) <= ep res (vs_At x)) hs.
Proof.
  intros [Hs [Hp Hx]%Forall_app]. apply Forall_inv in Hx.
  assert (StronglySorted (fun x y => ep res (vs_At x) <= ep res (vs_At y)) hs /\ Forall (fun y => ep res (vs_At y) <= ep res (vs_At x)) hs) as [H1 H2].
  { clear Hp. induction hs as [|y hs IH]; [split; constructor|]. cbn [app] in Hs. apply StronglySorted_inv in Hs as [Hs Hall].
    destruct (IH Hs) as [H1 H2]. apply Forall_app in Hall as [Ha Hb%Forall_inv]. split; by constructor. }
  split; [by split|]. split; [done|]. apply Forall_and. by split.
Qed.

Lemma vring_feed_ok n res r0 hs :
  0 < n -> 0 < res -> (forall top, 0 <= top -> vring_ok n res top [] r0) -> polled res hs ->
  exists r, vring_feed r0 hs = Some r /\ forall top, 0 <= top -> Forall (fun x => ep res (vs_At x) <= top) hs -> vring_ok n res top hs r.
Proof.
  intros Hn Hres H0. induction hs as [|x hs IH] using rev_ind; intros Hp.
  - exists r0. split; [done|]. intros top Ht _. by apply H0.
  - apply polled_snoc in Hp as (Hp & Hx0 & Hall). destruct (IH Hp) as (r & Hr & Hok).
    destruct (vring_add_ok n res (ep res (vs_At x)) hs r x Hn Hres) as (r' & Hadd & Hok'); [|lia|done|].
    { apply Hok; [lia|]. eapply Forall_impl; [exact Hall|]. simpl. lia. }
    exists r'. split; [unfold vring_feed in *; rewrite foldl_app, Hr; exact Hadd|].
    intros top Ht [_ Hb%Forall_inv]%Forall_app. by eapply vring_ok_later.
Qed.

(** ** Reading a window *)
Fixpoint window_ref (res lo : Z) (k : nat) (hs : list VSample) (a : vacc) : vacc :=
  match k with
  | O => a
  | S k' =>
      window_ref res (lo + 1) k' hs
        (match polls_in res lo hs with
         | [] => a
         | _ => let m := vl_rates (slot_for res lo hs) in
                {| va_sum := addRates (va_sum a) m; va_max := maxRates (va_max a) m; va_n := va_n a + 1 |}
         end)
  end.

Definition no_polls : vacc := {| va_sum := zeroRates; va_max := zeroRates; va_n := 0 |}.

(** The reference value of a window of [k] epochs that ends at [end_]: the mean
    (or the peak) of the per-epoch means, over the epochs that had a poll. *)
Definition window_reference (res end_ k : Z) (peak : bool) (hs : list VSample) : Rates :=
  vacc_value peak (window_ref res (end_ - k + 1) (Z.to_nat k) hs no_polls).

Lemma vwindow_loop_ref n res top hs r lo k a :
  0 < n -> vring_ok n res top hs r -> 0 < lo -> top - n < lo -> lo + Z.of_nat k - 1 <= top ->
  vwindow_loop r lo k a = Some (window_ref res lo k hs a).
Proof.
  intros Hn Hok. revert lo a. induction k as [|k IH]; intros lo a H0 Hlo Hhi; [done|]. cbn [vwindow_loop window_ref].
  destruct (vslot_at_mod r lo) as (s & Hs & Hlk); [by rewrite (vo_len _ _ _ _ _ Hok)|]. rewrite Hs. cbn [mbind option_bind].
  rewrite (vo_len _ _ _ _ _ Hok) in Hlk. destruct (vo_held _ _ _ _ _ Hok lo H0 ltac:(lia) s Hlk) as [H1 H2].
  rewrite IH by lia. f_equal. f_equal. destruct (polls_in res lo hs) as [|y l].
  - by rewrite (proj2 (Z.eqb_neq _ _)) by auto.
  - rewrite H2 by done. rewrite slot_for_epoch, Z.eqb_refl. done.
Qed.

Lemma ringCovers_spec res slots window offset :
  ringCovers res slots window offset = true ->
  0 < res /\ 1 <= slots /\ res <= window /\ Z.rem window res = 0 /\ Z.rem offset res = 0 /\ i64 (window + offset) <= i64 (slots * res).
Proof.
  unfold ringCovers. destruct (Z.leb_spec res 0); [done|]. destruct (Z.ltb_spec slots 1); [done|].
  destruct (Z.ltb_spec window res); [done|]. cbn [orb].
  destruct (Z.eqb_spec (Z.rem window res) 0); [|done]. destruct (Z.eqb_spec (Z.rem offset res) 0); [|done]. cbn [negb orb].
  rewrite Z.leb_le. intros. split_and!; done || lia.
Qed.

Lemma ep_shift res now off :
  0 < res -> 0 <= off <= now -> now < 2 ^ 63 -> Z.rem off res = 0 -> ep res (now - off) = ep res now - Z.quot off res.
Proof.
  intros Hr Ho Hn Hrem. unfold ep. rewrite !i64_small by lia. rewrite !Z.quot_div_nonneg by lia.
  rewrite Z.rem_mod_nonneg in Hrem by lia. pose proof (Z.div_mod off res ltac:(lia)) as Hd.
  replace (now - off) with (now + (- (off / res)) * res) by lia. rewrite Z.div_add by lia. lia.
Qed.

Lemma vaggregate_exact n res hs r now window offset peak :
  vring_ok n res (ep res now) hs r -> ringCovers res n window offset = true -> n * res < 2 ^ 63 -> 0 <= offset ->
  window + offset <= now -> now < 2 ^ 63 ->
  vaggregate r now window offset peak = Some (window_reference res (ep res (now - offset)) (Z.quot window res) peak hs).
Proof.
  intros Hok (Hres & Hn & Hw & Hwr & Hor & Hspan)%ringCovers_spec Hnr Ho Hwo Hnow.
  rewrite !i64_small in Hspan by nia. unfold vaggregate, vr_epoch.
  rewrite (vo_res _ _ _ _ _ Hok), (proj2 (Z.eqb_neq _ _)) by lia. cbn [mbind option_bind].
  rewrite (i64_small (- offset)) by lia. change (now + - offset) with (now - offset). change (Z.quot (i64 (now - offset)) res) with (ep res (now - offset)).
  pose proof (ep_shift res now offset Hres ltac:(lia) Hnow Hor) as He.
  pose proof (ep_shift res now (window + offset) Hres ltac:(lia) Hnow) as He2.
  pose proof (Z.quot_rem' window res) as Hq. pose proof (Z.quot_rem' offset res) as Hqo. rewrite Hwr in Hq. rewrite Hor in Hqo.
  assert (window + offset = res * (Z.quot window res + Z.quot offset res)) as Hsum by lia.
  assert (Z.quot (window + offset) res = Z.quot window res + Z.quot offset res) as Hqs
    by (rewrite Hsum, Z.mul_comm; apply Z.quot_mul; lia).
  assert (0 <= ep res (now - (window + offset))) as Hlow by (unfold ep; rewrite i64_small by lia; apply Z.quot_pos; lia).
  rewrite He2 in Hlow by (rewrite Hsum, Z.mul_comm; apply Z.rem_mul; lia). rewrite Hqs in Hlow.
  assert (1 <= Z.quot window res) by nia. assert (0 <= Z.quot offset res) by (apply Z.quot_pos; lia).
  pose proof (ep_range res now Hres). destruct (Z.ltb_spec (Z.quot window res) 1); [lia|].
  rewrite (i64_small (ep res (now - offset) - _)), (i64_small (_ + 1)) by lia.
  replace (ep res (now - offset) - (ep res (now - offset) - Z.quot window res + 1) + 1) with (Z.quot window res) by lia.
  rewrite (vwindow_loop_ref n res (ep res now) hs) by (done || lia || nia). done.
Qed.

(** ** The store *)
Definition VRingConfig_wf (c : VRingConfig) : Prop :=
  Forall (fun z => z < 2 ^ 63) [FineResolution c; FineDuration c; MediumResolution c; MediumDuration c; CoarseResolution c; CoarseDuration c].

Record config_ok (c : VRingConfig) : Prop := {
  ck_fine : 0 < FineResolution c < 2 ^ 63 /\ 0 < FineDuration c < 2 ^ 63;
  ck_medium : 0 < MediumResolution c < 2 ^ 63 /\ 0 < MediumDuration c < 2 ^ 63;
  ck_coarse : 0 < CoarseResolution c < 2 ^ 63 /\ 0 < CoarseDuration c < 2 ^ 63
}.

Lemma or_default_ok v d : v < 2 ^ 63 -> 0 < d < 2 ^ 63 -> 0 < or_default v d < 2 ^ 63.
Proof. intros. unfold or_default. destruct (Z.leb_spec v 0); lia. Qed.

Lemma withDefaults_ok c : VRingConfig_wf c -> config_ok (withDefaults c).
Proof.
  unfold VRingConfig_wf. rewrite !Forall_cons. intros (? & ? & ? & ? & ? & ? & _).
  split; split; apply or_default_ok; done.
Qed.

(** The three rings of a set fed with polls. *)
Lemma rings_feed_each r hs r' :
  rings_feed r hs = Some r' ->
  vring_feed (ir_fine r) hs = Some (ir_fine r') /\ vring_feed (ir_medium r) hs = Some (ir_medium r') /\
  vring_feed (ir_coarse r) hs = Some (ir_coarse r') /\ ir_last r' = default (ir_last r) (last hs).
Proof.
  revert r'. induction hs as [|x hs IH] using rev_ind; intros r'; [by intros [= <-]|].
  unfold rings_feed, vring_feed. rewrite !foldl_app. cbn [foldl]. fold (rings_feed r hs). fold (vring_feed (ir_fine r) hs).
  fold (vring_feed (ir_medium r) hs). fold (vring_feed (ir_coarse r) hs).
  destruct (rings_feed r hs) as [r1|]; cbn [mbind option_bind]; [|done].
  destruct (IH _ eq_refl) as (-> & -> & -> & _). cbn [mbind option_bind]. unfold rings_add.
  destruct (vring_add (ir_fine r1) _ _) as [f|]; cbn [mbind option_bind]; [|done].
  destruct (vring_add (ir_medium r1) _ _) as [m|]; cbn [mbind option_bind]; [|done].
  destruct (vring_add (ir_coarse r1) _ _) as [c|]; cbn [mbind option_bind]; [|done]. intros [= <-]. by rewrite last_snoc.
Qed.

Definition named (name : string) (xs : list VSample) : list VSample := filter (fun x => vs_Name x = name) xs.

(** The interface the alias [a] was last given to. *)
Definition alias_step (a : string) (cur : option string) (x : VSample) : option string :=
  if bool_decide (a ∈ vs_Aliases x /\ a <> "" /\ a <> vs_Name x) then Some (vs_Name x) else cur.
Definition alias_of (a : string) (xs : list VSample) : option string := foldl (alias_step a) None xs.

Record store_rep (c : VRingConfig) (xs : list VSample) (s : VStore) : Prop := {
  sr_config : st_config s = withDefaults c;
  sr_rings : forall name, match st_rings s !! name with
    | None => named name xs = []
    | Some ref => named name xs <> [] /\ (ref < st_next s)%nat /\
        exists r, st_heap s !! ref = Some r /\ rings_feed (newInterfaceRings (withDefaults c)) (named name xs) = Some r
    end;
  sr_inj : forall a b ref, st_rings s !! a = Some ref -> st_rings s !! b = Some ref -> a = b;
  sr_alias : forall a, st_byAlias s !! a = (name ← alias_of a xs; st_rings s !! name);
  sr_alias_known : forall a name, alias_of a xs = Some name -> named name xs <> []
}.

Lemma newStore_rep c : store_rep c [] (newStore c).
Proof. by split. Qed.

Lemma add_aliases_lookup name aliases ref m a :
  add_aliases name aliases ref m !! a = if bool_decide (a ∈ aliases /\ a <> "" /\ a <> name) then Some ref else m !! a.
Proof.
  unfold add_aliases. induction aliases as [|b l IH] using rev_ind; cbn [foldl].
  - rewrite bool_decide_false; [done|]. by intros [?%not_elem_of_nil _].
  - rewrite foldl_app. cbn [foldl]. set (m' := foldl _ m l) in *. clearbody m'.
    assert (a ∈ l ++ [b] <-> a ∈ l \/ a = b) as Hin by (rewrite elem_of_app, list_elem_of_singleton; done).
    destruct (String.eqb_spec b "") as [->|Hb]; [|destruct (String.eqb_spec b name) as [->|Hn]]; cbn [orb].
    + rewrite IH. repeat case_bool_decide; naive_solver.
    + rewrite IH. repeat case_bool_decide; naive_solver.
    + destruct (decide (a = b)) as [->|Hab].
      * rewrite lookup_insert_eq, bool_decide_true; [done|]. naive_solver.
      * rewrite lookup_insert_ne by done. rewrite IH. repeat case_bool_decide; naive_solver.
Qed.

Lemma named_snoc name xs x : named name (xs ++ [x]) = named name xs ++ (if decide (vs_Name x = name) then [x] else []).
Proof. unfold named. rewrite filter_app, filter_cons, filter_nil. by case_decide. Qed.

Lemma alias_of_snoc a xs x : alias_of a (xs ++ [x]) = alias_step a (alias_of a xs) x.
Proof. unfold alias_of. by rewrite foldl_app. Qed.

(** ** Shapes: adding a sample keeps every ring's resolution and length *)
Definition same_shape (r r' : vring) : Prop := vr_resolution r' = vr_resolution r /\ len (vr_slots r') = len (vr_slots r).

Lemma vring_add_shape r at_ x r' : vring_add r at_ x = Some r' -> same_shape r r'.
Proof.
  unfold vring_add. destruct (vr_epoch r at_); cbn [mbind option_bind]; [|done].
  destruct (vslot_at r z) as [[idx s]|]; cbn [mbind option_bind]; [|done]. intros [= <-].
  split; [done|]. unfold len. cbn [vr_slots]. by rewrite length_insert.
Qed.

Lemma vring_feed_shape r hs r' : vring_feed r hs = Some r' -> same_shape r r'.
Proof.
  revert r'. induction hs as [|x hs IH] using rev_ind; intros r'; [by intros [= <-]|]. unfold vring_feed. rewrite foldl_app.
  cbn [foldl]. fold (vring_feed r hs). destruct (vring_feed r hs) as [r1|]; cbn [mbind option_bind]; [|done].
  intros [H1 H2]%vring_add_shape. destruct (IH _ eq_refl) as [H3 H4]. split; congruence.
Qed.

Lemma vring_add_total r at_ x : 0 < vr_resolution r -> 0 < len (vr_slots r) -> is_Some (vring_add r at_ x).
Proof.
  intros Hr Hn. unfold vring_add, vr_epoch. rewrite (proj2 (Z.eqb_neq _ _)) by lia. cbn [mbind option_bind].
  destruct (vslot_at_mod r (Z.quot (i64 at_) (vr_resolution r)) Hn) as (s & -> & _). cbn [mbind option_bind]. by eexists.
Qed.

(** The rings of a set have the resolutions and lengths of the configuration. *)
Definition shaped (c : VRingConfig) (r : interfaceRings) : Prop :=
  let r0 := newInterfaceRings c in
  same_shape (ir_fine r0) (ir_fine r) /\ same_shape (ir_medium r0) (ir_medium r) /\ same_shape (ir_coarse r0) (ir_coarse r).

Lemma rings_feed_shaped c hs r : rings_feed (newInterfaceRings c) hs = Some r -> shaped c r.
Proof. intros (Hf & Hm & Hc & _)%rings_feed_each. split_and!; by eapply vring_feed_shape. Qed.

Lemma shaped_ring_pos res dur r : 0 < res -> same_shape (newRing res dur) r -> 0 < vr_resolution r /\ 0 < len (vr_slots r).
Proof. intros Hr [-> ->]. rewrite newRing_len. cbn [newRing vr_resolution]. lia. Qed.

Lemma rings_add_total c r x : config_ok c -> shaped c r -> is_Some (rings_add r x).
Proof.
  intros [[[? _] _] [[? _] _] [[? _] _]] (Hf & Hm & Hc). unfold rings_add.
  apply shaped_ring_pos in Hf as [? ?], Hm as [? ?], Hc as [? ?]; [|done..].
  destruct (vring_add_total (ir_fine r) (vs_At x) (vs_rates x)) as [? ->]; [done..|]. cbn [mbind option_bind].
  destruct (vring_add_total (ir_medium r) (vs_At x) (vs_rates x)) as [? ->]; [done..|]. cbn [mbind option_bind].
  destruct (vring_add_total (ir_coarse r) (vs_At x) (vs_rates x)) as [? ->]; [done..|]. cbn [mbind option_bind]. by eexists.
Qed.

Lemma rings_feed_snoc r hs x : rings_feed r (hs ++ [x]) = (r1 ← rings_feed r hs; rings_add r1 x).
Proof. unfold rings_feed. by rewrite foldl_app. Qed.

Lemma rings_feed_total c hs : config_ok c -> is_Some (rings_feed (newInterfaceRings c) hs).
Proof.
  intros Hc. induction hs as [|x hs [r Hr]] using rev_ind; [by eexists|]. rewrite rings_feed_snoc, Hr. cbn [mbind option_bind].
  by eapply rings_add_total, rings_feed_shaped.
Qed.

(** ** Every [Add] keeps the store a faithful record of the samples *)
Section Add.
Context (o : RangeOrder) (c : VRingConfig) (Hwf : VRingConfig_wf c).
#[local] Set Default Proof Using "Type*".

(** The reference a sample is stored under, and the ring set found there. *)
Lemma add_target xs s x :
  store_rep c xs s ->
  exists ref r next, (match st_rings s !! vs_Name x with
    | Some ref => (ref, default (newInterfaceRings (st_config s)) (st_heap s !! ref), st_next s)
    | None => (st_next s, newInterfaceRings (st_config s), S (st_next s)) end) = (ref, r, next) /\
    rings_feed (newInterfaceRings (withDefaults c)) (named (vs_Name x) xs) = Some r /\ (ref < next)%nat /\ (st_next s <= next)%nat /\
    (forall n, st_rings s !! n = Some ref -> n = vs_Name x) /\ (forall ref', st_rings s !! vs_Name x = Some ref' -> ref' = ref).
Proof.
  intros [Hc Hr Hi _ _]. pose proof (Hr (vs_Name x)) as Hx. destruct (st_rings s !! vs_Name x) as [ref|] eqn:E.
  - destruct Hx as (_ & Hlt & r & Hh & Hf). eexists _, _, _. split; [reflexivity|]. rewrite Hh. cbn [default].
    split_and!; [done|done|done| |congruence]. intros n Hn. by eapply Hi.
  - eexists _, _, _. split; [reflexivity|]. rewrite Hx, Hc. split_and!; [done|lia|lia| |congruence].
    intros n Hn. specialize (Hr n). rewrite Hn in Hr. destruct Hr as (_ & ? & _). lia.
Qed.

Lemma store_Add_rep xs s x :
  store_rep c xs s -> exists s', store_Add o s x = Some s' /\ store_rep c (xs ++ [x]) s'.
Proof.
  intros Hrep. destruct (add_target xs s x Hrep) as (ref & r & next & Hsel & Hf & Hlt & Hle & Hown & Hsame).
  destruct (rings_add_total (withDefaults c) r x (withDefaults_ok c Hwf) (rings_feed_shaped _ _ _ Hf)) as [r' Hr'].
  destruct Hrep as [Hc Hr Hi Ha Hk]. unfold store_Add. rewrite Hsel, Hr'. cbn [mbind option_bind].
  eexists. split; [reflexivity|]. split; cbn [st_config st_rings st_heap st_next st_byAlias]; [done| | | |].
  - intros n. rewrite named_snoc. destruct (decide (vs_Name x = n)) as [<-|Hn].
    + rewrite lookup_insert_eq. split_and!; [by intros [_ ?]%app_eq_nil|done|]. exists r'. rewrite lookup_insert_eq. split; [done|].
      rewrite rings_feed_snoc, Hf. done.
    + rewrite lookup_insert_ne, app_nil_r by done. specialize (Hr n). destruct (st_rings s !! n) as [ref'|] eqn:E; [|done].
      destruct Hr as (? & ? & r1 & ? & ?). split_and!; [done|lia|]. exists r1. rewrite lookup_insert_ne; [done|].
      intros <-. by apply Hn, eq_sym, Hown.
  - intros a b ref'. rewrite !lookup_insert_Some. intros [[<- <-]|[Hna H1]] [[<- H2]|[Hnb H2]]; [done|..].
    + by apply eq_sym, Hown.
    + subst. by apply Hown.
    + by eapply Hi.
  - intros a. rewrite add_aliases_lookup, alias_of_snoc. unfold alias_step. case_bool_decide; cbn [mbind option_bind].
    + by rewrite lookup_insert_eq.
    + rewrite Ha. destruct (alias_of a xs) as [n|] eqn:E; cbn [mbind option_bind]; [|done].
      destruct (decide (vs_Name x = n)) as [<-|Hn]; [|by rewrite lookup_insert_ne]. rewrite lookup_insert_eq.
      pose proof (Hk a _ E) as Hne. specialize (Hr (vs_Name x)). destruct (st_rings s !! vs_Name x) eqn:E'; [|done].
      f_equal. by apply Hsame.
  - intros a n. rewrite alias_of_snoc, named_snoc. unfold alias_step. case_bool_decide as Hb.
    + intros [= <-]. rewrite decide_True by done. by intros [_ ?]%app_eq_nil.
    + intros Hn%Hk. by intros [? _]%app_eq_nil.
Qed.

Definition store_feed (s : VStore) (xs : list VSample) : option VStore := foldl (fun acc x => s ← acc; store_Add o s x) (Some s) xs.

Lemma store_feed_rep xs : exists s, store_feed (newStore c) xs = Some s /\ store_rep c xs s.
Proof.
  induction xs as [|x xs (s & Hs & Hrep)] using rev_ind; [exists (newStore c); split; [done|apply newStore_rep]|].
  unfold store_feed in *. rewrite foldl_app, Hs. by apply store_Add_rep.
Qed.

End Add.

(** ** Finding an interface by its name or by an alias *)

(** The polls a key selects: those of the interface of that name, else of the
    interface the alias was last given to. *)
Definition polls_of (key : string) (xs : list VSample) : list VSample :=
  match named key xs with
  | [] => match alias_of key xs with Some name => named name xs | None => [] end
  | hs => hs
  end.

Lemma findRing_spec c xs s key :
  store_rep c xs s ->
  match polls_of key xs with
  | [] => findRing s key = None
  | hs => exists r, findRing s key = Some r /\ rings_feed (newInterfaceRings (withDefaults c)) hs = Some r
  end.
Proof.
  intros [Hc Hr _ Ha Hk]. unfold findRing, polls_of. pose proof (Hr key) as Hkey.
  destruct (st_rings s !! key) as [ref|].
  - destruct Hkey as (Hne & _ & r & Hh & Hf). destruct (named key xs) as [|x hs]; [done|]. exists r. by cbn.
  - rewrite Hkey, Ha. destruct (alias_of key xs) as [n|] eqn:E; cbn [mbind option_bind]; [|done].
    pose proof (Hk _ _ E) as Hne. specialize (Hr n). destruct (st_rings s !! n) as [ref|]; [|done].
    destruct Hr as (_ & _ & r & Hh & Hf). destruct (named n xs) as [|x hs]; [done|]. exists r. by cbn.
Qed.

(** ** The ring that serves a window *)

(** The resolutions and durations of a configuration, finest first. *)
Definition ring_params (c : VRingConfig) : list (Z * Z) :=
  [(FineResolution c, FineDuration c); (MediumResolution c, MediumDuration c); (CoarseResolution c, CoarseDuration c)].

Definition covers_ring (window offset : Z) (g : vring) : bool := ringCovers (vr_resolution g) (len (vr_slots g)) window offset.

Lemma better_ring_step window offset b g :
  (covers_ring window offset g = false /\ better_ring window offset b g = b) \/
  (covers_ring window offset g = true /\ exists g1, better_ring window offset b g = Some g1 /\ vr_resolution g <= vr_resolution g1 /\
    (g1 = g \/ b = Some g1) /\ (forall g', b = Some g' -> vr_resolution g' <= vr_resolution g1)).
Proof.
  unfold better_ring, covers_ring. destruct (ringCovers _ _ _ _); cbn [negb]; [right|by left]. split; [done|].
  destruct b as [b0|]; [|exists g; split_and!; [done|lia|by left|done]].
  destruct (Z.ltb_spec (vr_resolution b0) (vr_resolution g)).
  - exists g. split_and!; [done|lia|by left|]. intros g' [= <-]. lia.
  - exists b0. split_and!; [done|lia|by right|]. intros g' [= <-]. lia.
Qed.

Lemma better_ring_spec window offset l b :
  match foldl (better_ring window offset) b l with
  | None => b = None /\ Forall (fun g => covers_ring window offset g = false) l
  | Some g => (b = Some g \/ g ∈ l /\ covers_ring window offset g = true) /\
      (forall g', b = Some g' -> vr_resolution g' <= vr_resolution g) /\
      Forall (fun g' => covers_ring window offset g' = true -> vr_resolution g' <= vr_resolution g) l
  end.
Proof.
  revert b. induction l as [|g l IH]; intros b; cbn [foldl].
  - destruct b as [g|]; [|by split]. split_and!; [by left| |constructor]. intros g' [= ->]. lia.
  - specialize (IH (better_ring window offset b g)). destruct (better_ring_step window offset b g) as [[E Hb]|(E & g1 & Hb & Hg & Hor & Hle)].
    + rewrite Hb in IH |- *. destruct (foldl _ b l) as [h|]; [|by destruct IH; split; [|constructor]].
      destruct IH as (H1 & H2 & H3). split_and!; [|done|constructor; [by rewrite E|done]].
      destruct H1 as [?|[? ?]]; [by left|right; split; [by right|done]].
    + rewrite Hb in IH |- *. destruct (foldl _ (Some g1) l) as [h|]; [|by destruct IH].
      destruct IH as (H1 & H2 & H3). specialize (H2 g1 eq_refl). split_and!.
      * destruct H1 as [[= <-]|[? ?]]; [|right; split; [by right|done]]. destruct Hor as [->|Hor]; [|by left].
        right. split; [by left|done].
      * intros g' Hg'. specialize (Hle g' Hg'). lia.
      * constructor; [intros _; lia|done].
Qed.

(** The coarsest ring of the configuration that covers the window. *)
Lemma vchooseRing_served c r window offset :
  shaped (withDefaults c) r -> Covers c window offset = true ->
  exists g, vchooseRing r window offset = Some g /\ g ∈ [ir_fine r; ir_medium r; ir_coarse r] /\ covers_ring window offset g = true /\
    Forall (fun rd => ringCovers rd.1 (Z.quot rd.2 rd.1) window offset = true -> rd.1 <= vr_resolution g) (ring_params (withDefaults c)).
Proof.
  intros (Hf & Hm & Hc) Hcov. pose proof (better_ring_spec window offset [ir_fine r; ir_medium r; ir_coarse r] None) as Hs.
  unfold vchooseRing. assert (forall res dur g, same_shape (newRing res dur) g -> ringCovers res (Z.quot dur res) window offset = true ->
    covers_ring window offset g = true /\ vr_resolution g = res) as Hcv.
  { intros res dur g [Hr Hl] H. unfold covers_ring. rewrite Hr, Hl, newRing_len. cbn [newRing vr_resolution]. split; [|done].
    pose proof (ringCovers_spec _ _ _ _ H) as (_ & ? & _). by rewrite Z.max_r. }
  pose proof (Hcv _ _ _ Hf) as Hf'. pose proof (Hcv _ _ _ Hm) as Hm'. pose proof (Hcv _ _ _ Hc) as Hc'. clear Hcv.
  destruct (foldl _ None _) as [g|].
  - exists g. destruct Hs as ([[=]|[Hin Hg]] & _ & Hall). split_and!; [done..|]. rewrite !Forall_cons in Hall.
    destruct Hall as (Ha & Hb & Hd & _). unfold ring_params. repeat constructor; cbn [fst snd]; intros H.
    + destruct (Hf' H) as [? <-]. auto.
    + destruct (Hm' H) as [? <-]. auto.
    + destruct (Hc' H) as [? <-]. auto.
  - destruct Hs as [_ Hn]. rewrite !Forall_cons in Hn. destruct Hn as (Ha & Hb & Hd & _). exfalso.
    unfold Covers in Hcov. cbn [existsb fst snd] in Hcov. rewrite !orb_true_iff in Hcov.
    destruct Hcov as [H|[H|[H|[=]]]]; [apply Hf' in H|apply Hm' in H|apply Hc' in H]; destruct H; congruence.
Qed.

(** ** Windows read from the store *)

(** Poll times in order, not in the future, and past the first epoch of every ring. *)
Definition clocked (c : VRingConfig) (now : Z) (hs : list VSample) : Prop :=
  now < 2 ^ 63 /\ StronglySorted (fun x y => vs_At x <= vs_At y) hs /\
  Forall (fun x => Forall (fun rd => rd.1 <= vs_At x <= now) (ring_params (withDefaults c))) hs.

Lemma ep_mono res a b : 0 < res -> 0 <= a <= b -> b < 2 ^ 63 -> ep res a <= ep res b.
Proof. intros. unfold ep. rewrite !i64_small by lia. rewrite !Z.quot_div_nonneg by lia. apply Z.div_le_mono; lia. Qed.

Lemma clocked_polled c now hs res dur :
  0 < res -> (res, dur) ∈ ring_params (withDefaults c) -> clocked c now hs ->
  polled res hs /\ Forall (fun x => ep res (vs_At x) <= ep res now) hs.
Proof.
  intros Hres Hin (Hnow & Hs & Hall).
  assert (Forall (fun x => res <= vs_At x <= now) hs) as Ht.
  { eapply Forall_impl; [exact Hall|]. intros x Hx. rewrite Forall_forall in Hx. exact (Hx _ Hin). }
  split; [split|].
  - clear Hall. induction Hs as [|x l Hs IH Hx]; [constructor|]. apply Forall_cons in Ht as [Hx0 Ht]. constructor; [by apply IH|].
    rewrite Forall_forall in Hx, Ht |- *. intros y Hy. specialize (Hx y Hy). specialize (Ht y Hy). apply ep_mono; lia.
  - eapply Forall_impl; [exact Ht|]. simpl. intros x Hx. unfold ep. rewrite i64_small by lia. apply Z.quot_str_pos. lia.
  - eapply Forall_impl; [exact Ht|]. simpl. intros x Hx. apply ep_mono; lia.
Qed.

Lemma fed_ring_ok c now hs res dur g :
  0 < res -> (res, dur) ∈ ring_params (withDefaults c) -> clocked c now hs -> vring_feed (newRing res dur) hs = Some g ->
  0 <= now -> vring_ok (Z.max 1 (Z.quot dur res)) res (ep res now) hs g.
Proof.
  intros Hres Hin Hclk Hg Hnow. destruct (clocked_polled c now hs res dur Hres Hin Hclk) as [Hp Hle].
  destruct (vring_feed_ok (len (vr_slots (newRing res dur))) res (newRing res dur) hs) as (g' & Hg' & Hok);
    [rewrite newRing_len; lia|done|intros; by apply newRing_ok|done|].
  rewrite <-newRing_len. assert (g' = g) as -> by congruence. apply Hok; [|done]. unfold ep.
  destruct Hclk as [? _]. rewrite i64_small by lia. apply Z.quot_pos; lia.
Qed.

Lemma ring_params_ok c res dur :
  VRingConfig_wf c -> (res, dur) ∈ ring_params (withDefaults c) -> 0 < res < 2 ^ 63 /\ 0 < dur < 2 ^ 63.
Proof.
  intros [? ? ?]%withDefaults_ok. unfold ring_params. rewrite !elem_of_cons.
  intros [[= -> ->]|[[= -> ->]|[[= -> ->]|?%not_elem_of_nil]]]; done.
Qed.

Lemma ring_span res dur : 0 < res < 2 ^ 63 -> 0 < dur < 2 ^ 63 -> Z.max 1 (Z.quot dur res) * res < 2 ^ 63.
Proof. intros. pose proof (Z.mul_quot_le dur res). destruct (Z.max_spec 1 (Z.quot dur res)) as [[_ ->]|[_ ->]]; lia. Qed.

(** The ring a covered window is read from, as a fed ring of the configuration. *)
Lemma served_ring c hs r window offset :
  rings_feed (newInterfaceRings (withDefaults c)) hs = Some r -> Covers c window offset = true ->
  exists res dur g, (res, dur) ∈ ring_params (withDefaults c) /\ vring_feed (newRing res dur) hs = Some g /\
    vchooseRing r window offset = Some g /\ vr_resolution g = res /\ ringCovers res (Z.max 1 (Z.quot dur res)) window offset = true /\
    Forall (fun rd => ringCovers rd.1 (Z.quot rd.2 rd.1) window offset = true -> rd.1 <= res) (ring_params (withDefaults c)).
Proof.
  intros Hfeed Hcov. pose proof (rings_feed_shaped _ _ _ Hfeed) as Hsh.
  destruct (vchooseRing_served c r window offset Hsh Hcov) as (g & Hch & Hin & Hcg & Hmax).
  apply rings_feed_each in Hfeed as (Hf & Hm & Hc & _). cbn [newInterfaceRings ir_fine ir_medium ir_coarse] in *.
  assert (forall res dur, vring_feed (newRing res dur) hs = Some g -> vr_resolution g = res /\ len (vr_slots g) = Z.max 1 (Z.quot dur res)) as Hshape.
  { intros res dur [-> ->]%vring_feed_shape. by rewrite newRing_len. }
  unfold covers_ring in Hcg. rewrite !elem_of_cons in Hin. destruct Hin as [->|[->|[->|[]%not_elem_of_nil]]].
  - destruct (Hshape _ _ Hf) as [E1 E2]. rewrite E1, E2 in Hcg. rewrite E1 in Hmax.
    eexists _, _, _. split_and!; [|exact Hf|done|done|done|done]. by left.
  - destruct (Hshape _ _ Hm) as [E1 E2]. rewrite E1, E2 in Hcg. rewrite E1 in Hmax.
    eexists _, _, _. split_and!; [|exact Hm|done|done|done|done]. right; by left.
  - destruct (Hshape _ _ Hc) as [E1 E2]. rewrite E1, E2 in Hcg. rewrite E1 in Hmax.
    eexists _, _, _. split_and!; [|exact Hc|done|done|done|done]. do 2 right; by left.
Qed.

(** The interface statistics answer every window that passed the start-up
    test, exactly.  For any sequence of samples the store ends without a panic;
    for a key that is an interface's name or an alias it was given, a window that
    [RingConfig.Covers] accepted is answered, from the coarsest ring that covers
    it, with the mean (or peak) of the per-epoch means of just the polls of that
    interface inside the window. *)
Lemma covered_window_read o c xs key now window offset peak :
  VRingConfig_wf c -> Covers c window offset = true -> 0 <= offset -> window + offset <= now ->
  polls_of key xs <> [] -> clocked c now (polls_of key xs) ->
  exists s res, store_feed o (newStore c) xs = Some s /\ res ∈ (ring_params (withDefaults c)).*1 /\
    Forall (fun rd => ringCovers rd.1 (Z.quot rd.2 rd.1) window offset = true -> rd.1 <= res) (ring_params (withDefaults c)) /\
    (0 < res <= window /\ Z.rem window res = 0 /\ Z.rem offset res = 0) /\
    store_InterfaceWindow s key now window offset peak =
      Some (Some (window_reference res (ep res (now - offset)) (Z.quot window res) peak (polls_of key xs))).
Proof.
  intros Hwf Hcov Hoff Hnow Hne Hclk. destruct (store_feed_rep o c Hwf xs) as (s & Hs & Hrep). exists s.
  pose proof (findRing_spec c xs s key Hrep) as Hfind. destruct (polls_of key xs) as [|x hs] eqn:E; [done|]. rewrite <-E in *.
  destruct Hfind as (r & Hr & Hfeed). destruct (served_ring c _ r window offset Hfeed Hcov) as (res & dur & g & Hin & Hg & Hch & Hres & Hcg & Hmax).
  exists res. split; [done|]. split; [apply list_elem_of_fmap; by exists (res, dur)|]. split; [done|].
  split; [by apply ringCovers_spec in Hcg as (? & _ & ? & ? & ? & _)|].
  unfold store_InterfaceWindow. rewrite Hr, Hch. destruct (ring_params_ok c res dur Hwf Hin) as [Hr1 Hd1].
  assert (0 < window) by (apply ringCovers_spec in Hcg as (? & _ & ? & _); lia).
  rewrite (vaggregate_exact (Z.max 1 (Z.quot dur res)) res (polls_of key xs)); [done| |done|by apply ring_span|done|done|by destruct Hclk].
  eapply fed_ring_ok; done || lia.
Qed.

Definition ex_stats_config : VRingConfig :=
  {| FineResolution := 1; FineDuration := 4; MediumResolution := 2; MediumDuration := 8; CoarseResolution := 4; CoarseDuration := 16 |}.

Definition rx (v : Z) : Rates :=
  {| RXPPS := f_of_int v; TXPPS := f_zero; RXBPS := f_zero; TXBPS := f_zero; SWDropPPS := f_zero; HWDropPPS := f_zero |}.

Definition ex_samples : list VSample :=
  [{| vs_At := 10; vs_Name := "eth0"; vs_Aliases := ["ifindex:1"]; vs_rates := rx 10 |};
   {| vs_At := 11; vs_Name := "eth0"; vs_Aliases := ["ifindex:1"]; vs_rates := rx 20 |};
   {| vs_At := 11; vs_Name := "eth1"; vs_Aliases := ["ifindex:2"]; vs_rates := rx 7 |};
   {| vs_At := 13; vs_Name := "eth0"; vs_Aliases := ["ifindex:1"]; vs_rates := rx 40 |}].

(** ** Restart *)

(** The ring set an interface comes back with: its rings, its last rates and time. *)
Definition restored (name : string) (r : interfaceRings) : interfaceRings :=
  {| ir_fine := ir_fine r; ir_medium := ir_medium r; ir_coarse := ir_coarse r;
     ir_last := state_sample (sampleState (ir_last r)) name |}.

Definition export_interface (o : RangeOrder) (s : VStore) (nr : string * nat) : option VInterfaceState :=
  r ← st_heap s !! nr.2;
  Some {| is_Name := nr.1; is_Aliases := aliases_of o (st_byAlias s) nr.2; is_Last := sampleState (ir_last r);
          is_Fine := exportRing (ir_fine r); is_Medium := exportRing (ir_medium r); is_Coarse := exportRing (ir_coarse r) |}.

Lemma importRing_export r r0 : same_shape r0 r -> importRing r0 (exportRing r) = Some r.
Proof.
  intros [Hr Hl]. unfold importRing, exportRing. cbn [rs_Slots]. rewrite Hl, Z.eqb_refl. cbn [negb]. rewrite <-Hr. by destruct r.
Qed.

Lemma aliases_of_elem o m ref a : a ∈ aliases_of o m ref <-> m !! a = Some ref.
Proof.
  unfold aliases_of. rewrite list_elem_of_omap. setoid_rewrite (range_perm o). split.
  - intros ([a' r'] & Hin%elem_of_map_to_list & H). cbn [fst snd] in H. case_bool_decide; [|done]. naive_solver.
  - intros H. exists (a, ref). split; [by apply elem_of_map_to_list|]. cbn [fst snd]. by rewrite bool_decide_true.
Qed.

(** A store after the interfaces [l] of [s] have been imported into a new one. *)
Record imported (s : VStore) (l : list (string * nat)) (t : VStore) : Prop := {
  im_config : st_config t = st_config s;
  im_rings : forall name, match st_rings t !! name with
    | None => name ∉ l.*1
    | Some ref' => (ref' < st_next t)%nat /\ exists ref r, (name, ref) ∈ l /\ st_heap s !! ref = Some r /\ st_heap t !! ref' = Some (restored name r)
    end;
  im_alias : forall a name ref, (name, ref) ∈ l -> st_byAlias s !! a = Some ref -> st_byAlias t !! a = st_rings t !! name;
  im_alias_known : forall a, is_Some (st_byAlias t !! a) -> exists name ref, (name, ref) ∈ l /\ st_byAlias s !! a = Some ref
}.

Lemma import_interface_imported o c xs s l t name ref :
  VRingConfig_wf c -> store_rep c xs s -> (forall a, st_byAlias s !! a = Some ref -> a <> "" /\ a <> name) ->
  st_rings s !! name = Some ref -> name ∉ l.*1 -> (forall n r, (n, r) ∈ l -> st_rings s !! n = Some r) -> imported s l t ->
  exists ist, export_interface o s (name, ref) = Some ist /\ imported s (l ++ [(name, ref)]) (import_interface t ist).
Proof.
  intros Hwf Hrep Hal Hname Hni Hl [Hc Hr Ha Hk]. pose proof (sr_rings _ _ _ Hrep name) as Hn. rewrite Hname in Hn.
  destruct Hn as (_ & _ & r & Hh & Hfeed). unfold export_interface. cbn [fst snd]. rewrite Hh. cbn [mbind option_bind].
  eexists. split; [reflexivity|]. set (ist := {| is_Name := name |}).
  assert (import_rings (st_config t) ist = Some (restored name r)) as Himp.
  { rewrite Hc, (sr_config _ _ _ Hrep). destruct (rings_feed_shaped _ _ _ Hfeed) as (Hf & Hm & Hco). unfold import_rings, ist.
    cbn [is_Fine is_Medium is_Coarse is_Last is_Name]. rewrite !importRing_export by done. done. }
  unfold import_interface. rewrite Himp. split; cbn [st_config st_rings st_heap st_next st_byAlias]; [done| | |].
  - intros n. cbn [is_Name ist]. destruct (decide (name = n)) as [<-|Hne].
    + rewrite lookup_insert_eq. split; [lia|]. exists ref, r. rewrite lookup_insert_eq. split_and!; [|done|done].
      apply elem_of_app. right. by left.
    + rewrite lookup_insert_ne by done. specialize (Hr n). destruct (st_rings t !! n) as [ref'|].
      * destruct Hr as (? & ref1 & r1 & ? & ? & ?). split; [lia|]. exists ref1, r1. rewrite lookup_insert_ne by lia.
        split_and!; [apply elem_of_app; by left|done|done].
      * rewrite fmap_app. intros [?|Heq%list_elem_of_singleton]%elem_of_app; [done|]. by cbn in Heq.
  - intros a n ref1 [Hin|[= -> ->]%list_elem_of_singleton]%elem_of_app Hb; rewrite add_aliases_lookup; cbn [is_Name is_Aliases ist].
    + assert (n <> name) as Hnn by (intros ->; apply Hni, list_elem_of_fmap; by exists (name, ref1)).
      rewrite lookup_insert_ne by done. rewrite bool_decide_false; [by eapply Ha|]. rewrite aliases_of_elem. intros (Hb' & _).
      apply Hnn. eapply (sr_inj _ _ _ Hrep); [by apply Hl|]. congruence.
    + rewrite lookup_insert_eq, bool_decide_true; [done|]. rewrite aliases_of_elem. split; [done|by apply Hal].
  - intros a. rewrite add_aliases_lookup. cbn [is_Name is_Aliases ist]. case_bool_decide as Hb.
    + intros _. rewrite aliases_of_elem in Hb. exists name, ref. split; [apply elem_of_app; right; by left|]. by destruct Hb.
    + intros (n & ref1 & ? & ?)%Hk. exists n, ref1. split; [apply elem_of_app; by left|done].
Qed.

Lemma import_imported o c xs s l :
  VRingConfig_wf c -> store_rep c xs s -> (forall a name, alias_of a xs = Some name -> a <> "" /\ a <> name) ->
  NoDup l.*1 -> (forall n r, (n, r) ∈ l -> st_rings s !! n = Some r) ->
  imported s l (foldl import_interface (newStore c) (omap (export_interface o s) l)).
Proof.
  intros Hwf Hrep Hal. induction l as [|[name ref] l IH] using rev_ind; intros Hnd Hl.
  - split; cbn [omap foldl].
    + by rewrite (sr_config _ _ _ Hrep).
    + intros name. apply not_elem_of_nil.
    + intros a name ref []%not_elem_of_nil.
    + intros a [? [=]].
  - rewrite fmap_app in Hnd. apply NoDup_app in Hnd as (Hnd & Hdis & _).
    assert (st_rings s !! name = Some ref) as Hname by (apply Hl, elem_of_app; right; by left).
    destruct (import_interface_imported o c xs s l (foldl import_interface (newStore c) (omap (export_interface o s) l)) name ref)
      as (ist & He & Hi); try done.
    + intros a Ha. rewrite (sr_alias _ _ _ Hrep) in Ha. destruct (alias_of a xs) as [n|] eqn:E; cbn [mbind option_bind] in Ha; [|done].
      rewrite (sr_inj _ _ _ Hrep name n ref Hname Ha). by apply Hal.
    + intros Hin. apply (Hdis _ Hin). cbn. by left.
    + intros n r Hin. apply Hl, elem_of_app. by left.
    + apply IH; [done|]. intros n r Hin. apply Hl, elem_of_app. by left.
    + rewrite omap_app, foldl_app. cbn [omap list_omap]. rewrite He. exact Hi.
Qed.

Lemma alias_of_proper xs a name : alias_of a xs = Some name -> a <> "" /\ a <> name.
Proof.
  induction xs as [|x xs IH] using rev_ind; [done|]. rewrite alias_of_snoc. unfold alias_step.
  case_bool_decide; [|exact IH]. intros [= <-]. naive_solver.
Qed.

(** The whole export, imported into a new store. *)
Lemma reload_imported o o' c xs s :
  VRingConfig_wf c -> store_rep c xs s ->
  imported s (range_list o (map_to_list (st_rings s))) (store_Import o' (newStore c) (store_Export o s)).
Proof.
  intros Hwf Hrep. pose proof (import_imported o c xs s (range_list o (map_to_list (st_rings s))) Hwf Hrep
    (fun a n => alias_of_proper xs a n)) as H.
  destruct H as [Hc Hr Ha Hk]; [|intros n r; rewrite (range_perm o); apply elem_of_map_to_list|by split].
  rewrite (range_perm o). apply NoDup_fst_map_to_list.
Qed.

Lemma reload_findRing s t o key c xs :
  store_rep c xs s -> imported s (range_list o (map_to_list (st_rings s))) t ->
  match findRing s key with None => findRing t key = None | Some r => exists name, findRing t key = Some (restored name r) end.
Proof.
  intros Hrep [_ Hr Ha Hk].
  assert (forall n r, (n, r) ∈ range_list o (map_to_list (st_rings s)) <-> st_rings s !! n = Some r) as Hl
    by (intros n r; rewrite (range_perm o); apply elem_of_map_to_list).
  assert (forall n ref, st_rings s !! n = Some ref -> exists ref' r, st_rings t !! n = Some ref' /\ st_heap s !! ref = Some r /\
    st_heap t !! ref' = Some (restored n r)) as Hfound.
  { intros n ref Hn. specialize (Hr n). destruct (st_rings t !! n) as [ref'|].
    - destruct Hr as (_ & ref1 & r & Hin%Hl & ? & ?). exists ref', r. assert (ref1 = ref) as -> by congruence. done.
    - exfalso. apply Hr, list_elem_of_fmap. exists (n, ref). split; [done|]. by apply Hl. }
  unfold findRing. destruct (st_rings s !! key) as [ref|] eqn:E.
  - destruct (Hfound _ _ E) as (ref' & r & Ht & Hs & Ht'). rewrite Ht. cbn [mbind option_bind]. rewrite Hs. by exists key.
  - assert (st_rings t !! key = None) as ->.
    { specialize (Hr key). destruct (st_rings t !! key); [|done]. destruct Hr as (_ & ? & ? & Hin%Hl & _). congruence. }
    destruct (st_byAlias s !! key) as [ref|] eqn:Eb.
    + pose proof Eb as Eb'. rewrite (sr_alias _ _ _ Hrep) in Eb'. destruct (alias_of key xs) as [n|]; cbn [mbind option_bind] in Eb'; [|done].
      destruct (Hfound _ _ Eb') as (ref' & r & Ht & Hs & Ht'). rewrite (Ha key n ref) by (done || by apply Hl). rewrite Ht.
      cbn [mbind option_bind]. rewrite Hs. by exists n.
    + destruct (st_byAlias t !! key) eqn:Et; [|done]. destruct (Hk key) as (? & ? & _ & ?); [by eexists|congruence].
Qed.

Lemma reload_names s t o :
  imported s (range_list o (map_to_list (st_rings s))) t -> dom (st_rings t) = dom (st_rings s).
Proof.
  intros [_ Hr _ _]. apply set_eq. intros n. rewrite !elem_of_dom. specialize (Hr n). split.
  - intros [ref' E]. rewrite E in Hr. destruct Hr as (_ & ref & _ & Hin & _). rewrite (range_perm o) in Hin.
    apply elem_of_map_to_list in Hin. by eexists.
  - intros [ref E]. destruct (st_rings t !! n); [by eexists|]. exfalso. apply Hr, list_elem_of_fmap. exists (n, ref).
    split; [done|]. rewrite (range_perm o). by apply elem_of_map_to_list.
Qed.

(** C35: a restart preserves what rules and status pages read from the interface
    statistics.  Exporting the store of any sequence of samples and importing it
    into a new store of the same configuration keeps the number of interfaces
    and, for every name and alias, the latest rates and every window: whichever
    order the two runs walk their maps in. *)
Theorem stats_survive_restart o o' c xs s :
  VRingConfig_wf c -> store_feed o (newStore c) xs = Some s ->
  let t := store_Import o' (newStore c) (store_Export o s) in
  store_Interfaces t = store_Interfaces s /\
  forall key, store_InterfaceRates t key = store_InterfaceRates s key /\
    forall now window offset peak, store_InterfaceWindow t key now window offset peak = store_InterfaceWindow s key now window offset peak.
Proof.
  intros Hwf Hs t. destruct (store_feed_rep o c Hwf xs) as (s' & Hs' & Hrep). assert (s' = s) as -> by congruence.
  pose proof (reload_imported o o' c xs s Hwf Hrep) as Him. fold t in Him. split.
  - unfold store_Interfaces. rewrite <-!size_dom. by rewrite (reload_names s t o Him).
  - intros key. pose proof (reload_findRing s t o key c xs Hrep Him) as H. unfold store_InterfaceRates, store_InterfaceWindow.
    destruct (findRing s key) as [r|]; [|by rewrite H]. destruct H as [n ->]. done.
Qed.

Lemma stats_survive_restart_witness :
  exists s, store_feed range_id (newStore ex_stats_config) ex_samples = Some s /\
    let t := store_Import range_id (newStore ex_stats_config) (store_Export range_id s) in
    store_Interfaces t = store_Interfaces s /\
    forall key, store_InterfaceRates t key = store_InterfaceRates s key /\
      forall now window offset peak, store_InterfaceWindow t key now window offset peak = store_InterfaceWindow s key now window offset peak.
Proof.
  assert (VRingConfig_wf ex_stats_config) as Hwf by (repeat constructor).
  destruct (store_feed_rep range_id ex_stats_config Hwf ex_samples) as (s & Hs & _). exists s. split; [exact Hs|].
  exact (stats_survive_restart range_id range_id ex_stats_config ex_samples s Hwf Hs).
Defined.

(** ** A renamed interface *)

(** The poller names samples by the interface's current name: after a rename the
    ring set of the old name keeps its last rates, and the total counts both. *)
Definition ex_renamed : list VSample :=
  [{| vs_At := 10; vs_Name := "eth0"; vs_Aliases := ["ifindex:1"]; vs_rates := rx 100 |};
   {| vs_At := 11; vs_Name := "wan0"; vs_Aliases := ["ifindex:1"]; vs_rates := rx 100 |}].

Theorem renamed_interface_counted_twice :
  store_TotalRates <$> store_feed range_id (newStore ex_stats_config) ex_renamed = Some (rx 200).
Proof. vm_compute. reflexivity. Qed.
