(* ===== verification/DetPersist.v ===== *)
(** * Persisted detector history and status views (internal/detector: persist.go, snapshot.go, memory.go)

    What the engine writes to the state file on shutdown and reads back on
    start-up, and the read-only views of the status page.  The file format (gob)
    is a library; the state types below are what it carries.  [None] is a
    run-time panic. *)
From S2P Require Import Prelude GoText Netip Flowspec Packet Spread Float64 DetTypes HeavyKeeper Store DetRule DetEmit DetEngine.
#[local] Open Scope Z_scope.

(** ** State types *)

(** A persisted slot has the fields of a slot, and [flowspec.Family] is a
    [uint8], so both are kept as they are. *)
Record DescriptorState := {
  ds_Family : Family; ds_Proto : Z; ds_ProtoWild : bool; ds_Src : list Z; ds_Dst : list Z;
  ds_SrcPortLo : Z; ds_SrcPortHi : Z; ds_DstPortLo : Z; ds_DstPortHi : Z;
  ds_IcmpType : Z; ds_IcmpCode : Z; ds_IcmpTypeWild : bool; ds_IcmpCodeWild : bool
}.

Record InstanceState := {
  in_Desc : DescriptorState; in_LastSeen : Z; in_LastEvent : option Z; in_TrueSince : option Z; in_IngressIf : string;
  in_Fine : list slot; in_Medium : list slot; in_Coarse : list slot
}.

Record RingShapes := {
  FineRes : Z; FineSlots : Z; MediumRes : Z; MediumSlots : Z; CoarseRes : Z; CoarseSlots : Z
}.

#[global] Instance RingShapes_eq_dec : EqDecision RingShapes.
Proof. solve_decision. Defined.

Record RuleState := { rs_Name : string; rs_Fingerprint : string; rs_Shape : RingShapes; rs_Instances : list InstanceState }.

(** ** Descriptors *)

(** [netip.Addr.MarshalBinary], without a zone. *)
Definition MarshalBinary (a : Addr) : list Z :=
  match a with
  | AddrNone => []
  | Addr4 v => bytes_be 4 v
  | Addr6 v => bytes_be 16 v
  end.

(** [netip.Addr.UnmarshalBinary]: 4 or 16 bytes, or 16 bytes and a zone (which
    [Addr] does not represent and [MarshalBinary] does not write here). *)
Definition UnmarshalBinary (b : list Z) : option Addr :=
  let n := len b in
  if n =? 0 then Some AddrNone
  else if n =? 4 then Some (Addr4 (be b))
  else if n =? 16 then Some (Addr6 (be b))
  else if 16 <? n then Some (Addr6 (be (take 16 b)))
  else None.

Definition descriptor_export (d : descriptor) : DescriptorState :=
  {| ds_Family := d_family d; ds_Proto := d_proto d; ds_ProtoWild := d_protoWild d;
     ds_Src := MarshalBinary (d_src d); ds_Dst := MarshalBinary (d_dst d);
     ds_SrcPortLo := d_srcPortLo d; ds_SrcPortHi := d_srcPortHi d; ds_DstPortLo := d_dstPortLo d; ds_DstPortHi := d_dstPortHi d;
     ds_IcmpType := d_icmpType d; ds_IcmpCode := d_icmpCode d;
     ds_IcmpTypeWild := d_icmpTypeWild d; ds_IcmpCodeWild := d_icmpCodeWild d |}.

(** An empty slice leaves the zero address. *)
Definition unmarshal_addr (b : list Z) : option Addr := if 0 <? len b then UnmarshalBinary b else Some AddrNone.

Definition toDescriptor (d : DescriptorState) : option descriptor :=
  src ← unmarshal_addr (ds_Src d);
  dst ← unmarshal_addr (ds_Dst d);
  Some {| d_family := ds_Family d; d_proto := ds_Proto d; d_protoWild := ds_ProtoWild d; d_src := src; d_dst := dst;
          d_srcPortLo := ds_SrcPortLo d; d_srcPortHi := ds_SrcPortHi d; d_dstPortLo := ds_DstPortLo d; d_dstPortHi := ds_DstPortHi d;
          d_icmpType := ds_IcmpType d; d_icmpCode := ds_IcmpCode d;
          d_icmpTypeWild := ds_IcmpTypeWild d; d_icmpCodeWild := ds_IcmpCodeWild d |}.

(** ** Instances *)
Definition exportSlots (r : option sampleRing) : list slot := match r with None => [] | Some r => r_slots r end.

(** [importSlots]: the slots are copied when their number matches. *)
Definition importSlots (r : sampleRing) (slots : list slot) : sampleRing :=
  if negb (len slots =? len (r_slots r)) then r else {| r_slots := slots; r_resolution := r_resolution r |}.

Definition instance_export (i : instance) : InstanceState :=
  {| in_Desc := descriptor_export (i_key i); in_LastSeen := i_lastSeen i; in_LastEvent := i_lastEvent i;
     in_TrueSince := i_trueSince i; in_IngressIf := i_lastIngressIf i; in_Fine := exportSlots (Some (i_fine i));
     in_Medium := exportSlots (i_medium i); in_Coarse := exportSlots (i_coarse i) |}.

(** The instance [Import] builds from a persisted one. *)
Definition import_instance (h : historySpec) (d : descriptor) (st : InstanceState) : instance :=
  let i := newInstance d h (in_LastSeen st) in
  {| i_key := i_key i; i_keyHash := i_keyHash i; i_fine := importSlots (i_fine i) (in_Fine st);
     i_medium := (fun r => importSlots r (in_Medium st)) <$> i_medium i;
     i_coarse := (fun r => importSlots r (in_Coarse st)) <$> i_coarse i;
     i_lastSeen := i_lastSeen i; i_lastEvent := in_LastEvent st; i_trueSince := in_TrueSince st;
     i_lastIngressIf := in_IngressIf st; i_spread := i_spread i |}.

(** The loop over the persisted instances of a rule: it ends when the pool is
    full; an undecodable one is skipped. *)
Fixpoint import_instances (h : historySpec) (s : instanceStore) (l : list InstanceState) : instanceStore :=
  match l with
  | [] => s
  | st :: l' =>
      if st_max s <=? store_len s then s
      else match toDescriptor (in_Desc st) with
           | None => import_instances h s l'
           | Some d => import_instances h (set_items s (<[d := import_instance h d st]> (st_items s))) l'
           end
  end.

(** ** The engine *)
Section Persist.
Context {Program : Type}.
Implicit Types r : @Rule Program.

Definition ringShapes r : RingShapes :=
  let h := r_history r in
  {| FineRes := fineResolution h; FineSlots := fineSlots h; MediumRes := mediumResolution h; MediumSlots := mediumSlots h;
     CoarseRes := coarseResolution h; CoarseSlots := coarseSlots h |}.

Definition rule_export (o : RangeOrder) r : RuleState :=
  {| rs_Name := r_name r; rs_Fingerprint := r_fingerprint r; rs_Shape := ringShapes r;
     rs_Instances := (fun di => instance_export di.2) <$> range_list o (map_to_list (st_items (r_store r))) |}.

(** [Engine.Export]; [os i] is the iteration order of the pool of rule [i]. *)
Definition Export (os : nat -> RangeOrder) (e : @Engine Program) : list RuleState :=
  omap (fun i => rule_export (os i) <$> en_rules e !! i) (en_all e).

(** [byName]: the position of the last rule of each name. *)
Definition rules_by_name (e : @Engine Program) : gmap string nat :=
  foldl (fun m i => match en_rules e !! i with Some r => <[r_name r := i]> m | None => m end) ∅ (en_all e).

(** One persisted rule. *)
Definition import_rule (byName : gmap string nat) (rs : list (@Rule Program)) (st : RuleState) : list (@Rule Program) :=
  match byName !! rs_Name st with
  | None => rs
  | Some i =>
      match rs !! i with
      | None => rs
      | Some r =>
          if negb (String.eqb (r_fingerprint r) (rs_Fingerprint st)) || negb (bool_decide (ringShapes r = rs_Shape st)) then rs
          else <[i := set_state r (import_instances (r_history r) (r_store r) (rs_Instances st)) (r_evalEnv r) (r_sketch r) (r_lastDecay r)]> rs
      end
  end.

(** [Engine.Import] *)
Definition Import (e : @Engine Program) (st : list RuleState) : @Engine Program :=
  set_rules e (foldl (import_rule (rules_by_name e)) (en_rules e) st).

(** ** Memory estimate (memory.go)

    [unsafe.Sizeof] of the structures depends on the platform: parameters. *)
Section Memory.
Context (sizeof_slot sizeof_sampleRing sizeof_instance sizeof_hkBucket sizeof_descriptor : Z).

Definition mapEntryOverhead : Z := sizeof_descriptor + 24.

Definition MemoryEstimate r : Z :=
  let h := r_history r in
  let slotsPer := i64 (i64 (fineSlots h + mediumSlots h) + coarseSlots h) in
  let ringBytes := i64 (slotsPer * sizeof_slot) in
  let ringHeaders := 3 * sizeof_sampleRing in
  let perInstance := i64 (i64 (i64 (ringBytes + ringHeaders) + sizeof_instance) + mapEntryOverhead) in
  let sketchBytes := i64 (i64 (hk_depth (r_sketch r) * hk_width (r_sketch r)) * sizeof_hkBucket) in
  i64 (i64 (maxInstances h * perInstance) + sketchBytes).

Definition engine_MemoryEstimate (e : @Engine Program) : Z :=
  foldl (fun total i => match en_rules e !! i with Some r => i64 (total + MemoryEstimate r) | None => total end) 0 (en_all e).
End Memory.

(** ** Status views (snapshot.go) *)
Definition icmpSnap (v : Z) (wild : bool) : string := if wild then "" else itoa v.

Record InstanceSnapshot := {
  sn_Key : string; sn_Family : string; sn_Proto : string; sn_Src : string; sn_Dst : string; sn_SrcPort : string; sn_DstPort : string;
  sn_ICMPType : string; sn_ICMPCode : string; sn_IngressIf : string; sn_LastSeen : Z; sn_PPS : float64; sn_BPS : float64;
  sn_Score : float64; sn_Firing : bool; sn_Terms : option (gmap string float64); sn_Spread : option (gmap string Z)
}.

Record RuleSnapshot := {
  sr_Name : string; sr_InstanceCount : Z; sr_MaxInstances : Z; sr_Instances : list InstanceSnapshot
}.

(** The loop over [spreadFields]: [inst.spread[i].ratioPct()] by field name. *)
Fixpoint spread_view (fs : list spreadField) (es : list spreadEstimator) (i : Z) (m : gmap string Z) : option (gmap string Z) :=
  match fs with
  | [] => Some m
  | f :: fs' => e ← index es i; v ← ratioPct e; spread_view fs' es (i + 1) (<[spreadField_String f := v]> m)
  end.

Definition instanceSnapshot r (inst : instance) (now : Z) (stats : option StatsView) : option InstanceSnapshot :=
  let d := i_key inst in
  let field name := default "" (resolveDescriptorVar r d name) in
  terms ← (if nonempty (r_terms r) then Some <$> fill_env (r_terms r) inst now stats ∅ else Some None);
  spread ← (match i_spread inst with
            | Some es => if nonempty (r_spreadFields r) then Some <$> spread_view (r_spreadFields r) es 0 ∅ else Some None
            | None => Some None
            end);
  pps ← rate (i_fine inst) now 1 metricPPS;
  bps ← rate (i_fine inst) now 1 metricBPS;
  score ← estimate (r_sketch r) (i_keyHash inst);
  Some {| sn_Key := descriptorString r d; sn_Family := field "family"; sn_Proto := field "proto"; sn_Src := field "src";
          sn_Dst := field "dst"; sn_SrcPort := field "src_port"; sn_DstPort := field "dst_port";
          sn_ICMPType := icmpSnap (d_icmpType d) (d_icmpTypeWild d); sn_ICMPCode := icmpSnap (d_icmpCode d) (d_icmpCodeWild d);
          sn_IngressIf := i_lastIngressIf inst; sn_LastSeen := i_lastSeen inst; sn_PPS := pps; sn_BPS := bps; sn_Score := score;
          sn_Firing := match i_trueSince inst with Some _ => true | None => false end; sn_Terms := terms; sn_Spread := spread |}.

Definition rule_snapshot (o : RangeOrder) r (now : Z) (stats : option StatsView) : option RuleSnapshot :=
  l ← mapM (fun di => instanceSnapshot r di.2 now stats) (range_list o (map_to_list (st_items (r_store r))));
  Some {| sr_Name := r_name r; sr_InstanceCount := store_len (r_store r); sr_MaxInstances := st_max (r_store r); sr_Instances := l |}.

(** [Engine.Snapshot] *)
Definition engine_Snapshot (os : nat -> RangeOrder) (e : @Engine Program) (now : Z) (stats : option StatsView)
  : option (list RuleSnapshot) :=
  mapM (fun i => r ← en_rules e !! i; rule_snapshot (os i) r now stats) (en_all e).

(** [Runner.Snapshot]: the run loop builds the view at [now] while it runs; a
    stopped runner answers with an empty one.  The loop's state does not change. *)
Definition Runner_Snapshot (os : nat -> RangeOrder) (stopped : bool) (rn : @Runner Program) (now : Z) : option (list RuleSnapshot) :=
  if stopped then Some [] else engine_Snapshot os (rn_engine rn) now (rn_stats rn).
End Persist.
