(* ===== verification/DetPersistFacts.v ===== *)
(** * Restarting the detector

    History written by [Export] and read back by [Import] restores every tracked
    instance of every unchanged rule, and nothing of a rule that changed; the
    status view of a running engine never panics. *)
From S2P Require Import Prelude GoText Netip Flowspec Packet PacketFacts Spread SpreadFacts Float64 DetTypes HeavyKeeper HeavyKeeperFacts Store StoreFacts GoParse Template DetRule DetEmit DetEmitFacts DetRuleFacts DetEngine DetEngineFacts DetPersist.
#[local] Open Scope Z_scope.

(** ** Addresses and descriptors *)
Lemma bytes_be_length n v : length (bytes_be n v) = n.
Proof. revert v. induction n as [|n IH]; intros v; [done|]. cbn [bytes_be]. rewrite length_app, IH. cbn. lia. Qed.

Lemma be_bytes n v : 0 <= v < 256 ^ Z.of_nat n -> be (bytes_be n v) = v.
Proof.
  revert v. induction n as [|n IH]; intros v Hv; [cbn in *; lia|]. cbn [bytes_be]. unfold be in *. rewrite foldl_app. cbn [foldl].
  rewrite Nat2Z.inj_succ, Z.pow_succ_r in Hv by lia. rewrite IH; Z.div_mod_to_equations; lia.
Qed.

Lemma unmarshal_marshal a : addr_wf a -> unmarshal_addr (MarshalBinary a) = Some a.
Proof.
  unfold addr_wf, in_width, unmarshal_addr, UnmarshalBinary. destruct a as [|v|v]; cbn [MarshalBinary BitLen addr_val]; intros Hv; [done|..];
    unfold len; rewrite bytes_be_length.
  - change (Some (Addr4 (be (bytes_be 4 v))) = Some (Addr4 v)). by rewrite be_bytes.
  - change (Some (Addr6 (be (bytes_be 16 v))) = Some (Addr6 v)). by rewrite be_bytes.
Qed.

Definition descriptor_wf (d : descriptor) : Prop := addr_wf (d_src d) /\ addr_wf (d_dst d).

Lemma toDescriptor_export d : descriptor_wf d -> toDescriptor (descriptor_export d) = Some d.
Proof.
  intros [Hs Hd]. unfold toDescriptor, descriptor_export. cbn [ds_Src ds_Dst]. rewrite !unmarshal_marshal by done. by destruct d.
Qed.

(** ** Instances *)
Definition ring_shape (r0 r : sampleRing) : Prop := r_resolution r = r_resolution r0 /\ len (r_slots r) = len (r_slots r0).
Definition opt_ring_shape (r0 r : option sampleRing) : Prop :=
  match r0, r with Some r0, Some r => ring_shape r0 r | None, None => True | _, _ => False end.

(** An instance of a pool with history [h] under key [d]: what persistence relies on. *)
Record tracked (h : historySpec) (d : descriptor) (i : instance) : Prop := {
  tk_key : i_key i = d;
  tk_hash : i_keyHash i = hash d;
  tk_desc : descriptor_wf d;
  tk_fine : ring_shape (newSampleRing (fineSlots h) (fineResolution h)) (i_fine i);
  tk_medium : opt_ring_shape (newOptionalSampleRing (mediumSlots h) (mediumResolution h)) (i_medium i);
  tk_coarse : opt_ring_shape (newOptionalSampleRing (coarseSlots h) (coarseResolution h)) (i_coarse i)
}.

Lemma ring_shape_refl r : ring_shape r r.
Proof. done. Qed.

Lemma opt_ring_shape_refl r : opt_ring_shape r r.
Proof. by destruct r. Qed.

Lemma newInstance_tracked h d now : descriptor_wf d -> tracked h d (newInstance d h now).
Proof. intros. split; try done; apply opt_ring_shape_refl. Qed.

Lemma ring_add_shape r0 r at_ l w r' : ring_shape r0 r -> ring_add r at_ l w = Some r' -> ring_shape r0 r'.
Proof.
  unfold ring_add. destruct (epoch r at_) as [e|]; cbn [mbind option_bind]; [|done].
  destruct (slot_at r e) as [[idx s]|]; cbn [mbind option_bind]; [|done]. intros [H1 H2] [= <-].
  split; [done|]. unfold len in *. cbn [r_slots]. by rewrite length_insert.
Qed.

Lemma add_optional_shape r0 r at_ l w r' : opt_ring_shape r0 r -> add_optional r at_ l w = Some r' -> opt_ring_shape r0 r'.
Proof.
  destruct r0 as [r0|], r as [r|]; cbn; try done; [|by intros _ [= <-]].
  destruct (ring_add r at_ l w) as [r1|] eqn:E; cbn; [|done]. intros Hs [= <-]. by eapply ring_add_shape.
Qed.

(** What a restart keeps of an instance: all but the recent-diversity windows. *)
Definition forget_spread (i : instance) : instance :=
  {| i_key := i_key i; i_keyHash := i_keyHash i; i_fine := i_fine i; i_medium := i_medium i; i_coarse := i_coarse i;
     i_lastSeen := i_lastSeen i; i_lastEvent := i_lastEvent i; i_trueSince := i_trueSince i; i_lastIngressIf := i_lastIngressIf i;
     i_spread := None |}.

Lemma importSlots_export r0 r : ring_shape r0 r -> importSlots r0 (r_slots r) = r.
Proof. intros [Hr Hl]. unfold importSlots. rewrite Hl, Z.eqb_refl. cbn [negb]. rewrite <-Hr. by destruct r. Qed.

Lemma importSlots_opt r0 r : opt_ring_shape r0 r -> (fun r0 => importSlots r0 (exportSlots r)) <$> r0 = r.
Proof. destruct r0 as [r0|], r as [r|]; cbn; try done. intros H. by rewrite importSlots_export. Qed.

Lemma import_instance_export h d i : tracked h d i -> import_instance h d (instance_export i) = forget_spread i.
Proof.
  intros [Hk Hh _ Hf Hm Hc]. unfold import_instance, instance_export, forget_spread.
  cbn [newInstance in_Fine in_Medium in_Coarse in_LastSeen in_LastEvent in_TrueSince in_IngressIf i_key i_keyHash i_fine i_medium i_coarse i_lastSeen i_spread].
  cbn [exportSlots]. rewrite importSlots_export by done. rewrite (importSlots_opt _ (i_medium i)), (importSlots_opt _ (i_coarse i)) by done.
  by rewrite Hk, Hh.
Qed.

(** ** The pool *)
Lemma import_instances_export h s m l :
  (forall d i, (d, i) ∈ l -> tracked h d i) -> NoDup l.*1 -> (forall d, d ∈ l.*1 -> m !! d = None) -> st_items s = m ->
  store_len s + len l <= st_max s ->
  import_instances h s ((fun di => instance_export di.2) <$> l) = set_items s (foldl (fun m di => <[di.1 := forget_spread di.2]> m) m l).
Proof.
  revert s m. induction l as [|[d i] l IH]; intros s m Ht Hnd Hfresh Hm Hroom; cbn [import_instances fmap list_fmap foldl fst snd].
  { by destruct s; cbn in *; subst. }
  assert (tracked h d i) as Hdi by (apply Ht; by left). unfold len in Hroom. cbn [length] in Hroom.
  destruct (Z.leb_spec (st_max s) (store_len s)); [lia|].
  replace (in_Desc (instance_export i)) with (descriptor_export d) by (cbn; by rewrite (tk_key _ _ _ Hdi)).
  rewrite toDescriptor_export by apply Hdi. rewrite import_instance_export, Hm by done. apply NoDup_cons in Hnd as [Hd Hnd].
  assert (m !! d = None) as Hmd by (apply Hfresh; by left).
  rewrite (IH _ (<[d := forget_spread i]> m)); [done| |done| |done|].
  - intros d' i' Hin. apply Ht. by right.
  - intros d' Hd'. rewrite lookup_insert_ne; [apply Hfresh; by right|]. by intros ->.
  - unfold store_len, len in *. cbn [set_items st_items st_max]. rewrite map_size_insert_None by done. rewrite <-Hm in *. lia.
Qed.

(** Inserting the entries of a map one by one, in any order, rebuilds it. *)
Lemma insert_all_map {A B} (f : A -> B) (m : gmap descriptor A) l :
  l ≡ₚ map_to_list m -> foldl (fun m di => <[di.1 := f di.2]> m) ∅ l = f <$> m.
Proof.
  intros Hp. assert (NoDup l.*1) as Hnd by (rewrite Hp; apply NoDup_fst_map_to_list).
  assert (forall (m0 : gmap descriptor B) k, foldl (fun m di => <[di.1 := f di.2]> m) m0 l !! k =
    match (list_to_map l : gmap descriptor A) !! k with Some a => Some (f a) | None => m0 !! k end) as H.
  { clear Hp. induction l as [|[d a] l IH]; intros m0 k; cbn [foldl fst snd]; [done|]. apply NoDup_cons in Hnd as [Hd Hnd].
    rewrite IH by done. cbn [list_to_map foldr fst snd]. destruct (decide (k = d)) as [->|Hne].
    - rewrite lookup_insert_eq. assert (list_to_map (M:=gmap descriptor A) l !! d = None) as -> by (by apply not_elem_of_list_to_map_1).
      by rewrite lookup_insert_eq.
    - by rewrite !lookup_insert_ne. }
  apply map_eq. intros k. rewrite H, lookup_fmap, lookup_empty.
  rewrite (list_to_map_proper l (map_to_list m)), list_to_map_to_list by done. by destruct (m !! k).
Qed.

(** ** Running keeps every instance tracked *)
Lemma maskAddr_wf a bits : addr_wf a -> addr_wf (maskAddr a bits).
Proof.
  intros Ha. destruct (decide (a = AddrNone)) as [->|Hn]; [done|]. pose proof (clamp_bits_range a bits Hn) as Hb.
  rewrite maskAddr_and by done. unfold addr_wf in *. destruct a; [done|..]; simpl in *; by apply in_width_mask.
Qed.

Section Tracked.
Context {Program : Type} (Pow : float64 -> float64 -> float64) (run : Program -> gmap string float64 -> exprResult).
Implicit Types r : Rule Program.

Definition rule_tracked r : Prop :=
  st_history (r_store r) = r_history r /\ map_Forall (tracked (r_history r)) (st_items (r_store r)).

Lemma descriptorFor_wf r s d : packet_wf (packet_of s) -> descriptorFor r s = Some d -> descriptor_wf d.
Proof.
  intros [Hs Hd _ _ _ _ _ _ _] H. cbn in Hs, Hd. unfold descriptorFor in H. cbv zeta in H.
  do 2 match type of H with mbind _ ?x = _ => destruct x as [[? ?]|]; cbn [mbind option_bind] in H; [|done] end.
  injection H as <-. split; cbn; by apply maskAddr_wf.
Qed.

(** Admission keeps, adds or evicts instances; it never changes one. *)
Lemma admit_items (P : descriptor -> instance -> Prop) o s key sketch now s' res :
  store_admit o s key sketch now = Some (s', res) -> P key (newInstance key (st_history s) now) -> map_Forall P (st_items s) ->
  map_Forall P (st_items s') /\ st_history s' = st_history s /\ forall i, res = Some i -> P key i.
Proof.
  unfold store_admit. intros H Hnew HP. destruct (st_items s !! key) as [i|] eqn:Ek.
  { injection H as <- <-. split_and!; try done. intros i' [= <-]. exact (HP _ _ Ek). }
  destruct (store_len s <? st_max s).
  { injection H as <- <-. split_and!; [by apply map_Forall_insert_2|done|]. by intros i [= <-]. }
  destruct (weakestOfSample o s sketch) as [[[v ve]|]|]; cbn [mbind option_bind] in H; [| |done].
  2:{ injection H as <- <-. done. }
  destruct (estimate sketch (hash key)) as [est|]; cbn [mbind option_bind] in H; [|done].
  destruct (f_le est ve); injection H as <- <-; [done|]. split_and!; [|done|by intros i [= <-]].
  apply map_Forall_insert_2; [done|]. by apply map_Forall_delete.
Qed.

Lemma account_tracked r h d i s w i' : tracked h d i -> account r i s w = Some i' -> tracked h d i'.
Proof.
  unfold account. intros Ht H.
  destruct (if nonempty (r_spreadFields r) then spreadOK r i s else Some (i, true)) as [[i1 ok]|] eqn:E1; [|done].
  assert (tracked h d i1) as [Hk Hh Hd Hf Hm Hc].
  { destruct (nonempty _); [|by injection E1 as <- _]. unfold spreadOK in E1.
    destruct (spread_loop _ _ _ _) as [[es b]|]; [|done]. injection E1 as <- _. by destruct Ht; split. }
  cbn [mbind option_bind] in H. destruct ok; cbn [negb] in H; [|by injection H as <-].
  unfold instance_add in H. destruct (ring_add _ _ _ _) as [f'|] eqn:Ef; [|done]. cbn [mbind option_bind] in H.
  destruct (add_optional (i_medium i1) _ _ _) as [m'|] eqn:Em; [|done]. cbn [mbind option_bind] in H.
  destruct (add_optional (i_coarse i1) _ _ _) as [c'|] eqn:Ec; [|done]. cbn [mbind option_bind] in H. injection H as <-.
  split; try done; cbn; [by eapply ring_add_shape|by eapply add_optional_shape..].
Qed.

Lemma shouldEmit_trigger i now iv i' em : shouldEmit i now iv = (i', em) -> exists a b, i' = set_trigger i a b.
Proof.
  assert (exists a b, i = set_trigger i a b) as Hself by (exists (i_trueSince i), (i_lastEvent i); by destruct i).
  unfold shouldEmit. destruct (i_lastEvent i) as [l|]; [destruct (iv <=? Sub now l)|]; intros [= <- _]; try done; by eexists _, _.
Qed.

Lemma evalInstance_trigger o r i now stats env i' ev :
  evalInstance run o r i now stats = Some (env, i', ev) -> exists a b, i' = set_trigger i a b.
Proof.
  assert (exists a b, i = set_trigger i a b) as Hself by (exists (i_trueSince i), (i_lastEvent i); by destruct i).
  unfold evalInstance. destruct (fill_env _ _ _ _ _) as [env0|]; cbn [mbind option_bind]; [|done].
  destruct (run (r_expr r) env0) as [|[]|]; [by intros [= <- <- <-]| |by intros [= <- <- <-]; by eexists _, _..].
  cbv zeta. destruct (_ <? r_sustained r); [by intros [= <- <- <-]; by eexists _, _|].
  destruct (shouldEmit _ _ _) as [i2 em] eqn:Es. apply shouldEmit_trigger in Es as (a & b & ->).
  destruct em; cbn [negb]; [|by intros [= <- <- <-]; by exists a, b].
  destruct (buildFlowSpec _ _); [|by intros [= <- <- <-]; by exists a, b].
  destruct (read_values _ _ _); cbn [mbind option_bind]; [|done]. intros [= <- <- <-]. by exists a, b.
Qed.

Lemma set_state_tracked r st env sk last :
  rule_tracked r -> st_history st = st_history (r_store r) -> map_Forall (tracked (r_history r)) (st_items st) ->
  rule_tracked (set_state r st env sk last).
Proof. intros [H1 _] H2 H3. split; [cbn; congruence|done]. Qed.

Lemma Observe_tracked o r s r' : rule_tracked r -> packet_wf (packet_of s) -> Observe Pow o r s = Some r' -> rule_tracked r'.
Proof.
  intros Hr Hs. pose proof Hr as [Hh Hall]. unfold Observe. destruct (matches r s); cbn [negb]; [|by intros [= <-]].
  destruct (descriptorFor r s) as [d|] eqn:Ed; cbn [mbind option_bind]; [|done].
  destruct (hk_add _ _ _ _) as [sk|]; cbn [mbind option_bind]; [|done].
  destruct (store_admit _ _ _ _ _) as [[st res]|] eqn:Ea; cbn [mbind option_bind]; [|done].
  destruct (admit_items (tracked (r_history r)) _ _ _ _ _ _ _ Ea) as (Hst & Hh' & Hres); [|done|].
  { rewrite Hh. apply newInstance_tracked. by eapply descriptorFor_wf. }
  destruct res as [i|]; [|intros [= <-]; by apply set_state_tracked].
  destruct (account r i s (sample_weight s)) as [i'|] eqn:Ei; cbn [mbind option_bind]; [|done]. intros [= <-].
  apply set_state_tracked; [done|done|]. cbn. apply map_Forall_insert_2; [|done]. eapply account_tracked; [by apply Hres|exact Ei].
Qed.

Lemma tick_loop_tracked o keys r now stats out r' evs :
  rule_tracked r -> tick_loop run o keys r now stats out = Some (r', evs) -> rule_tracked r'.
Proof.
  revert r out. induction keys as [|k keys IH]; intros r out Hr; cbn [tick_loop]; [by intros [= <- _]|].
  destruct (st_items (r_store r) !! k) as [i|] eqn:Ei; cbn [mbind option_bind]; [|done].
  destruct (evalInstance run o r i now stats) as [[[env i'] ev]|] eqn:Ee; cbn [mbind option_bind]; [|done].
  apply IH. apply set_state_tracked; [done|done|]. cbn. apply map_Forall_insert_2; [|apply Hr].
  destruct (evalInstance_trigger _ _ _ _ _ _ _ _ Ee) as (a & b & ->). destruct (proj2 Hr _ _ Ei). by split.
Qed.

Lemma Tick_tracked o r now stats r' evs : rule_tracked r -> Tick run Pow o r now stats = Some (r', evs) -> rule_tracked r'.
Proof. intros Hr. unfold Tick. apply tick_loop_tracked. unfold ageSketch. apply set_state_tracked; [done|done|apply Hr]. Qed.

(** ** Any property of rules that [Observe] and [Tick] keep holds of a running engine *)
Lemma observe_at_forall (Q : Rule Program -> Prop) os is_ rs s rs' :
  (forall o r r', Q r -> Observe Pow o r s = Some r' -> Q r') -> Forall Q rs -> observe_at Pow os is_ rs s = Some rs' -> Forall Q rs'.
Proof.
  intros HQ. revert rs. induction is_ as [|i is' IH]; intros rs Hrs; cbn [observe_at]; [by intros [= <-]|].
  destruct (rs !! i) as [r|] eqn:Er; cbn [mbind option_bind]; [|done].
  destruct (Observe Pow (os i) r s) as [r1|] eqn:Eo; cbn [mbind option_bind]; [|done]. apply IH, Forall_insert; [done|].
  eapply HQ; [|exact Eo]. by eapply Forall_lookup_1.
Qed.

Lemma tick_at_forall (Q : Rule Program -> Prop) os is_ rs now stats out rs' evs :
  (forall o r r' evs, Q r -> Tick run Pow o r now stats = Some (r', evs) -> Q r') -> Forall Q rs ->
  tick_at Pow run os is_ rs now stats out = Some (rs', evs) -> Forall Q rs'.
Proof.
  intros HQ. revert rs out. induction is_ as [|i is' IH]; intros rs out Hrs; cbn [tick_at]; [by intros [= <- _]|].
  destruct (rs !! i) as [r|] eqn:Er; cbn [mbind option_bind]; [|done].
  destruct (Tick run Pow (os i) r now stats) as [[r1 evs1]|] eqn:Eo; cbn [mbind option_bind]; [|done]. apply IH, Forall_insert; [done|].
  eapply HQ; [|exact Eo]. by eapply Forall_lookup_1.
Qed.

Lemma run_loop_forall (Q : Rule Program -> Prop) os rn is_ rn' :
  (forall o r s r', Q r -> packet_wf (packet_of s) -> Observe Pow o r s = Some r' -> Q r') ->
  (forall o r now stats r' evs, Q r -> Tick run Pow o r now stats = Some (r', evs) -> Q r') ->
  Forall input_ok is_ -> Forall Q (en_rules (rn_engine rn)) -> run_loop Pow run os rn is_ = Some rn' ->
  Forall Q (en_rules (rn_engine rn')).
Proof.
  intros HO HT Hin. revert rn. induction Hin as [|i is' Hi _ IH]; intros rn Hrs; cbn [run_loop]; [by intros [= <-]|].
  destruct (run_step Pow run os rn i) as [[rn1 go]|] eqn:Es; cbn [mbind option_bind]; [|done].
  assert (Forall Q (en_rules (rn_engine rn1))) as Hrs1; [|destruct go; [by apply IH|by intros [= <-]]].
  destruct i as [s|now| |]; cbn [run_step] in Es; [..|by injection Es as <- _|by injection Es as <- _].
  - unfold engine_Observe in Es. destruct (observe_at _ _ (en_anyProto _) _ _) as [rs1|] eqn:E1; cbn [mbind option_bind] in Es; [|done].
    destruct (observe_at _ _ _ rs1 _) as [rs2|] eqn:E2; cbn [mbind option_bind] in Es; [|done]. injection Es as <- _. cbn.
    cbn in Hi. apply (observe_at_forall Q) in E1; [|by eauto|done]. by apply (observe_at_forall Q) in E2; [|by eauto|].
  - unfold engine_Tick in Es. destruct (tick_at _ _ _ _ _ _ _ _) as [[rs1 evs]|] eqn:E1; cbn [mbind option_bind] in Es; [|done].
    destruct (foldl _ _ evs) as [q dr]. injection Es as <- _. cbn. by apply (tick_at_forall Q) in E1; [|by eauto|].
Qed.
End Tracked.

(** ** Import, rule by rule *)
Section Restart.
Context {Program : Type}.
Implicit Types r : Rule Program.

Definition fresh r : Prop := r_store r = newInstanceStore (r_history r).

Lemma fresh_tracked r : fresh r -> rule_tracked r.
Proof. intros Hr. unfold rule_tracked. rewrite Hr. split; [done|apply map_Forall_empty]. Qed.

(** What one persisted rule does to the rule of its name. *)
Definition import_into r (st : RuleState) : Rule Program :=
  if negb (String.eqb (r_fingerprint r) (rs_Fingerprint st)) || negb (bool_decide (ringShapes r = rs_Shape st)) then r
  else set_state r (import_instances (r_history r) (r_store r) (rs_Instances st)) (r_evalEnv r) (r_sketch r) (r_lastDecay r).

Lemma import_into_name r st : r_name (import_into r st) = r_name r.
Proof. unfold import_into. by destruct (_ || _). Qed.

Definition state_named (n : string) (sts : list RuleState) : option RuleState := head (filter (fun st => rs_Name st = n) sts).

Definition names_index (byName : gmap string nat) (rs : list (Rule Program)) : Prop :=
  forall n i, byName !! n = Some i <-> exists r, rs !! i = Some r /\ r_name r = n.

Lemma state_named_absent n sts : n ∉ rs_Name <$> sts -> state_named n sts = None.
Proof.
  intros Hn. unfold state_named. induction sts as [|st sts IH]; [done|]. rewrite fmap_cons, not_elem_of_cons in Hn. destruct Hn as [Hne Hn].
  rewrite filter_cons, decide_False by done. by apply IH.
Qed.

Lemma import_rule_index byName rs st : names_index byName rs -> names_index byName (import_rule byName rs st).
Proof.
  intros Hix. unfold import_rule. destruct (byName !! rs_Name st) as [j|]; [|done]. destruct (rs !! j) as [r|] eqn:Er; [|done].
  fold (import_into r st). destruct (_ || _) eqn:Eg; [done|]. intros n i. rewrite (Hix n i).
  destruct (decide (i = j)) as [->|Hne].
  - rewrite list_lookup_insert_eq by (by eapply lookup_lt_Some). rewrite Er. naive_solver.
  - by rewrite list_lookup_insert_ne.
Qed.

Lemma import_rule_lookup byName rs st i :
  names_index byName rs ->
  import_rule byName rs st !! i = (fun r => if String.eqb (rs_Name st) (r_name r) then import_into r st else r) <$> rs !! i.
Proof.
  intros Hix. unfold import_rule. destruct (byName !! rs_Name st) as [j|] eqn:Ej.
  - pose proof Ej as (r & Er & Hn)%Hix. rewrite Er.
    assert ((if negb (String.eqb (r_fingerprint r) (rs_Fingerprint st)) || negb (bool_decide (ringShapes r = rs_Shape st)) then rs
      else <[j := set_state r (import_instances (r_history r) (r_store r) (rs_Instances st)) (r_evalEnv r) (r_sketch r) (r_lastDecay r)]> rs)
      = <[j := import_into r st]> rs) as ->.
    { unfold import_into. destruct (_ || _); [|done]. by rewrite list_insert_id. }
    destruct (decide (i = j)) as [->|Hne].
    + rewrite list_lookup_insert_eq by (by eapply lookup_lt_Some). rewrite Er. cbn. by rewrite Hn, String.eqb_refl.
    + rewrite list_lookup_insert_ne by done. destruct (rs !! i) as [r'|] eqn:Er'; [|done]. cbn.
      destruct (String.eqb_spec (rs_Name st) (r_name r')) as [E|]; [|done]. exfalso. apply Hne.
      assert (byName !! r_name r' = Some i) as Hi by (apply Hix; eauto). congruence.
  - destruct (rs !! i) as [r'|] eqn:Er'; [|done]. cbn. destruct (String.eqb_spec (rs_Name st) (r_name r')) as [E|]; [|done]. exfalso.
    assert (byName !! r_name r' = Some i) as Hi by (apply Hix; eauto). congruence.
Qed.

Lemma import_rules_lookup byName rs sts i :
  names_index byName rs -> NoDup (rs_Name <$> sts) ->
  foldl (import_rule byName) rs sts !! i =
    (fun r => match state_named (r_name r) sts with Some st => import_into r st | None => r end) <$> rs !! i.
Proof.
  revert rs. induction sts as [|st sts IH]; intros rs Hix Hnd; cbn [foldl].
  { by destruct (rs !! i). }
  rewrite fmap_cons in Hnd. apply NoDup_cons in Hnd as [Hni Hnd]. rewrite IH by (done || by apply import_rule_index).
  rewrite import_rule_lookup by done. destruct (rs !! i) as [r|]; [|done]. cbn [fmap option_fmap option_map]. f_equal.
  destruct (String.eqb_spec (rs_Name st) (r_name r)) as [E|Hne].
  - rewrite import_into_name, <-E, state_named_absent by done. unfold state_named. by rewrite filter_cons, decide_True.
  - unfold state_named at 2. rewrite filter_cons, decide_False by done. done.
Qed.

Lemma rules_by_name_index e :
  en_all e = seq 0 (length (en_rules e)) -> NoDup (r_name <$> en_rules e) -> names_index (rules_by_name e) (en_rules e).
Proof.
  intros Hall Hnd. unfold rules_by_name. rewrite Hall. set (rs := en_rules e) in *. clearbody rs.
  assert (forall k, (k <= length rs)%nat -> forall n i,
    foldl (fun m i => match rs !! i with Some r => <[r_name r := i]> m | None => m end) (∅ : gmap string nat) (seq 0 k) !! n = Some i <->
    (i < k)%nat /\ exists r, rs !! i = Some r /\ r_name r = n) as H.
  { induction k as [|k IH]; intros Hk n i; [split; [done|lia]|].
    rewrite seq_S, foldl_app. cbn [foldl Nat.add]. destruct (lookup_lt_is_Some_2 rs k) as [r Hr]; [lia|]. rewrite Hr.
    rewrite lookup_insert_Some, IH by lia. split.
    - intros [[<- <-]|[Hne [Hlt Hex]]]; [split; [lia|eauto]|split; [lia|done]].
    - intros [Hlt (r' & Hr' & <-)]. destruct (decide (i = k)) as [->|Hik]; [left; split; congruence|]. right.
      split; [|split; [lia|eauto]]. intros E. apply Hik. symmetry. eapply (NoDup_lookup _ _ _ (r_name r) Hnd); rewrite list_lookup_fmap, ?Hr, ?Hr'; cbn; congruence. }
  intros n i. rewrite H by lia. split; [naive_solver|]. intros (r & Hr & Hn). split; [by eapply lookup_lt_Some|eauto].
Qed.

(** ** Export, rule by rule *)
Lemma state_named_found n sts st : NoDup (rs_Name <$> sts) -> st ∈ sts -> rs_Name st = n -> state_named n sts = Some st.
Proof.
  intros Hnd Hin Hn. unfold state_named. induction sts as [|x sts IH]; [by apply not_elem_of_nil in Hin|].
  rewrite fmap_cons in Hnd. apply NoDup_cons in Hnd as [Hx Hnd]. rewrite filter_cons. apply elem_of_cons in Hin as [<-|Hin].
  - by rewrite decide_True.
  - rewrite decide_False; [by apply IH|]. intros E. apply Hx, list_elem_of_fmap. exists st. split; [congruence|done].
Qed.

Lemma state_named_elem n sts st : state_named n sts = Some st -> st ∈ sts /\ rs_Name st = n.
Proof.
  unfold state_named. intros H. assert (st ∈ filter (fun st => rs_Name st = n) sts) as Hin.
  { destruct (filter _ sts); [done|]. injection H as ->. by left. }
  apply list_elem_of_filter in Hin as [? ?]. done.
Qed.

Lemma Export_elem os e st :
  en_all e = seq 0 (length (en_rules e)) -> st ∈ Export os e <-> exists i r, en_rules (Program:=Program) e !! i = Some r /\ st = rule_export (os i) r.
Proof.
  intros Hall. unfold Export. rewrite list_elem_of_omap, Hall. split.
  - intros (i & _ & H). destruct (en_rules e !! i) as [r|] eqn:E; [|done]. injection H as <-. eauto.
  - intros (i & r & Hr & ->). exists i. split; [|by rewrite Hr]. apply elem_of_seq. apply lookup_lt_Some in Hr. lia.
Qed.

Lemma Export_names os e :
  en_all e = seq 0 (length (en_rules e)) -> rs_Name <$> Export os e = r_name (Program:=Program) <$> en_rules e.
Proof.
  intros Hall. unfold Export. rewrite Hall. generalize (en_rules e) as rs. clear Hall e. intros rs.
  induction rs as [|r rs IH] using rev_ind; [done|]. rewrite length_app, Nat.add_1_r, seq_S, omap_app, !fmap_app. f_equal.
  - rewrite <-IH. f_equal. apply list_omap_ext, Forall2_same_length_lookup_2; [done|]. intros k i j Hi Hj.
    assert (i = j) as -> by congruence. apply list_elem_of_lookup_2, elem_of_seq in Hj. by rewrite lookup_app_l by lia.
  - cbn. by rewrite lookup_app_r, Nat.sub_diag by lia.
Qed.

(** A fresh rule and the history of the rule it continues. *)
Lemma import_into_export o r r2 :
  fresh r2 -> rule_tracked r -> store_len (r_store r) <= maxInstances (r_history r) ->
  r_fingerprint r = r_fingerprint r2 -> r_history r = r_history r2 ->
  import_into r2 (rule_export o r) = set_state r2 (set_items (r_store r2) (forget_spread <$> st_items (r_store r)))
    (r_evalEnv r2) (r_sketch r2) (r_lastDecay r2).
Proof.
  intros Hf [Hh Ht] Hlen Hfp Hhist. unfold import_into, rule_export. cbn [rs_Fingerprint rs_Shape rs_Instances].
  rewrite Hfp, String.eqb_refl, bool_decide_true by (unfold ringShapes; by rewrite Hhist). cbn [negb orb]. f_equal.
  pose proof (range_perm o (map_to_list (st_items (r_store r)))) as Hp.
  rewrite (import_instances_export _ _ ∅).
  - by rewrite (insert_all_map forget_spread (st_items (r_store r))).
  - intros d i. rewrite Hp. rewrite elem_of_map_to_list. rewrite <-Hhist. apply Ht.
  - rewrite Hp. apply NoDup_fst_map_to_list.
  - intros d _. apply lookup_empty.
  - by rewrite Hf.
  - rewrite Hf. unfold store_len, len in *. cbn. rewrite map_size_empty, Hp, length_map_to_list, <-Hhist. lia.
Qed.
End Restart.

(** A running engine has the rules it was built from, with tracked pools within
    their bounds. *)
Record running {Program} (rules : list (Rule Program)) (e : @Engine Program) : Prop := {
  rg_all : en_all e = seq 0 (length (en_rules e));
  rg_tracked : Forall rule_tracked (en_rules e);
  rg_names : r_name <$> en_rules e = r_name <$> rules;
  rg_static : forall i r, en_rules e !! i = Some r -> exists r0, rules !! i = Some r0 /\ r_name r = r_name r0 /\
    r_fingerprint r = r_fingerprint r0 /\ r_history r = r_history r0 /\ store_len (r_store r) <= maxInstances (r_history r)
}.

Lemma run_loop_running {Program} Pow run os (rules : list (Rule Program)) cap stats inputs :
  Forall rule_ok rules -> Forall (fun r => NoDup (r_protoFilter r)) rules -> Forall fresh rules -> 0 <= cap -> Forall input_ok inputs ->
  exists rn, run_loop Pow run os (NewRunnerWithContext (NewEngine rules) cap stats) inputs = Some rn /\ running rules (rn_engine rn).
Proof.
  intros Hok Hpf Hfr Hcap Hin. pose proof (NewEngine_ok rules Hok Hpf) as He. destruct (NewEngine_index rules) as [Hrules Hix0].
  destruct (run_loop_ok Pow run os (NewRunnerWithContext (NewEngine rules) cap stats) inputs) as (rn & Hrn & [He' _] & [Hlen Hsame] & _);
    [split; [done|unfold len; cbn; lia]|done|]. cbn [NewRunnerWithContext rn_engine] in Hlen, Hsame. rewrite Hrules in Hlen, Hsame.
  exists rn. split; [done|]. set (e := rn_engine rn) in *.
  assert (forall i r, en_rules e !! i = Some r -> exists r0, rules !! i = Some r0 /\ r_name r = r_name r0 /\
    r_fingerprint r = r_fingerprint r0 /\ r_history r = r_history r0 /\ store_len (r_store r) <= maxInstances (r_history r)) as Hrun.
  { intros i r Hr. destruct (lookup_lt_is_Some_2 rules i) as [r0 Hr0]; [rewrite <-Hlen; by eapply lookup_lt_Some|].
    destruct (Hsame i r0 Hr0) as (r' & Hr' & (st & env & sk & last & ->) & Hm). assert (r = set_state r0 st env sk last) as -> by congruence.
    exists r0. split_and!; [done..|]. pose proof (Forall_lookup_1 _ _ _ _ (eo_rules _ He') Hr) as [_ [Hb _ _] _ _ _ _ _].
    pose proof (Forall_lookup_1 _ _ _ _ Hfr Hr0) as Hf0. unfold MaxInstances in Hm. cbn in Hm, Hb |- *. rewrite Hf0 in Hm. cbn in Hm. lia. }
  split; [apply (ix_all _ _ (eo_index _ He'))| | |done].
  - eapply (run_loop_forall Pow run rule_tracked); [intros; by eapply Observe_tracked|intros; by eapply Tick_tracked|exact Hin| |exact Hrn].
    cbn. rewrite Hrules. eapply Forall_impl; [exact Hfr|]. apply fresh_tracked.
  - apply list_eq. intros i. rewrite !list_lookup_fmap.
    destruct (en_rules e !! i) as [r|] eqn:E; [destruct (Hrun i r E) as (r0 & -> & Hn & _); cbn; by rewrite Hn|].
    by rewrite (proj2 (lookup_ge_None rules i)) by (apply lookup_ge_None in E; lia).
Qed.

(** A restart restores the detector's history, and only that of unchanged
    rules.  Run the engine of freshly compiled rules on any interleaving of
    samples, ticks and event consumption, export it, and import the state into the
    engine of the next start: a rule whose name and fingerprint are those of an
    exported rule gets exactly its instances back (identity, all ring slots, last
    sample, trigger and emission state; the diversity windows start anew), every
    other rule starts empty, and no rule's configuration changes.  The
    fingerprint is taken to determine the history sizing it hashes. *)
Theorem restart_restores_history {Program} Pow run os os' (rules rules2 : list (Rule Program)) cap stats inputs :
  Forall rule_ok rules -> Forall (fun r => NoDup (r_protoFilter r)) rules -> Forall fresh rules -> NoDup (r_name <$> rules) ->
  0 <= cap -> Forall input_ok inputs -> Forall fresh rules2 -> NoDup (r_name <$> rules2) ->
  (forall r r2, r ∈ rules -> r2 ∈ rules2 -> r_fingerprint r = r_fingerprint r2 -> r_history r = r_history r2) ->
  exists rn, run_loop Pow run os (NewRunnerWithContext (NewEngine rules) cap stats) inputs = Some rn /\
    forall i r2, rules2 !! i = Some r2 ->
      exists r2', en_rules (Import (NewEngine rules2) (Export os' (rn_engine rn))) !! i = Some r2' /\ same_config r2 r2' /\
        (forall r, r ∈ en_rules (rn_engine rn) -> r_name r = r_name r2 -> r_fingerprint r = r_fingerprint r2 ->
           st_items (r_store r2') = forget_spread <$> st_items (r_store r)) /\
        ((forall r, r ∈ rules -> r_name r = r_name r2 -> r_fingerprint r <> r_fingerprint r2) -> st_items (r_store r2') = ∅).
Proof.
  intros Hok Hpf Hfr Hnm Hcap Hin Hfr2 Hnm2 Hfp.
  destruct (run_loop_running Pow run os rules cap stats inputs) as (rn & Hrn & [Hall Htr Hnames Hrun]); [done..|].
  exists rn. split; [done|]. set (e := rn_engine rn) in *.
  assert (NoDup (rs_Name <$> Export os' e)) as Hnd by (rewrite Export_names, Hnames; done).
  destruct (NewEngine_index rules2) as [Hrules2 Hix2]. intros i r2 Hr2. unfold Import. cbn [set_rules en_rules]. rewrite Hrules2.
  pose proof (rules_by_name_index (NewEngine rules2)) as Hbn. rewrite Hrules2 in Hbn. specialize (Hbn (ix_all _ _ Hix2) Hnm2).
  rewrite import_rules_lookup by done. rewrite Hr2. cbn [fmap option_fmap option_map].
  eexists. split; [reflexivity|]. pose proof (Forall_lookup_1 _ _ _ _ Hfr2 Hr2) as Hf2.
  destruct (state_named (r_name r2) (Export os' e)) as [st|] eqn:Est.
  - pose proof (state_named_elem _ _ _ Est) as [Hel Hn]. apply Export_elem in Hel as (j & r & Hr & ->); [|done]. cbn [rule_export rs_Name] in Hn.
    destruct (Hrun j r Hr) as (r0 & Hr0 & Hn0 & Hf0 & Hh0 & Hb). assert (r0 ∈ rules) by (by eapply list_elem_of_lookup_2).
    assert (r2 ∈ rules2) by (by eapply list_elem_of_lookup_2). split; [|split].
    + unfold import_into. destruct (_ || _); [apply same_config_refl|]. by eexists _, _, _, _.
    + intros r' Hr' Hn' Hfp'. assert (r' = r) as ->.
      { apply list_elem_of_lookup_1 in Hr' as [j' Hj']. destruct (Hrun j' r' Hj') as (r1 & Hr1 & Hn1 & _).
        assert (j' = j) as ->; [|congruence]. eapply (NoDup_lookup _ _ _ (r_name r2) Hnm); rewrite list_lookup_fmap, ?Hr1, ?Hr0; cbn; congruence. }
      rewrite import_into_export; [done|done|by eapply Forall_lookup_1|done|done|]. rewrite Hh0. apply Hfp; [done|done|congruence].
    + intros Hdiff. specialize (Hdiff r0 ltac:(done) ltac:(congruence)). unfold import_into. cbn [rule_export rs_Fingerprint].
      destruct (String.eqb_spec (r_fingerprint r2) (r_fingerprint r)); [congruence|]. cbn [negb orb]. by rewrite Hf2.
  - split; [apply same_config_refl|]. split; [|intros _; by rewrite Hf2]. intros r Hr Hn _. exfalso.
    apply list_elem_of_lookup_1 in Hr as [j Hj]. rewrite (state_named_found _ _ (rule_export (os' j) r)) in Est; [done|done| |done].
    apply Export_elem; eauto.
Qed.

Lemma restart_restores_history_witness :
  exists rn, run_loop pow_one (fun _ _ => ExprBool true) (fun _ => range_id) (NewRunnerWithContext (NewEngine [rule_example]) 8 None)
      [RSample syn_example; RTick (1001 * Second); RTake] = Some rn /\
    forall i r2, [rule_example] !! i = Some r2 ->
      exists r2', en_rules (Import (NewEngine [rule_example]) (Export (fun _ => range_id) (rn_engine rn))) !! i = Some r2' /\ same_config r2 r2' /\
        (forall r, r ∈ en_rules (rn_engine rn) -> r_name r = r_name r2 -> r_fingerprint r = r_fingerprint r2 ->
           st_items (r_store r2') = forget_spread <$> st_items (r_store r)) /\
        ((forall r, r ∈ [rule_example] -> r_name r = r_name r2 -> r_fingerprint r <> r_fingerprint r2) -> st_items (r_store r2') = ∅).
Proof.
  apply (restart_restores_history pow_one (fun _ _ => ExprBool true) (fun _ => range_id) (fun _ => range_id) [rule_example] [rule_example] 8 None).
  - apply Forall_singleton, rule_example_ok.
  - apply Forall_singleton, NoDup_singleton.
  - apply Forall_singleton. reflexivity.
  - apply NoDup_singleton.
  - lia.
  - apply Forall_cons_2; [exact syn_example_wf|]. repeat constructor.
  - apply Forall_singleton. reflexivity.
  - apply NoDup_singleton.
  - intros r r2 ->%list_elem_of_singleton ->%list_elem_of_singleton _. reflexivity.
Defined.

(** ** The status view *)
Lemma spread_view_total fs es k m :
  estimators_ok fs (drop k es) -> is_Some (spread_view fs es (Z.of_nat k) m).
Proof.
  revert k m. induction fs as [|f fs IH]; intros k m He; cbn [spread_view]; [by eexists|].
  destruct (drop k es) as [|e es'] eqn:Ed; [by inversion He|]. apply Forall2_cons in He as [[Hi Hb] He].
  assert (es !! k = Some e) as Hk by (rewrite <-(Nat.add_0_r k), <-lookup_drop, Ed; done).
  rewrite index_lookup by lia. rewrite Nat2Z.id, Hk. cbn [mbind option_bind].
  unfold ratioPct. rewrite (proj2 (Z.eqb_neq _ _)) by (destruct (ei_buckets _ Hi); lia). cbn [mbind option_bind].
  replace (Z.of_nat k + 1) with (Z.of_nat (S k)) by lia. apply IH. replace (S k) with (k + 1)%nat by lia. rewrite <-drop_drop, Ed. done.
Qed.

Lemma rate_total r now n m : ring_wf r -> is_Some (rate r now n m).
Proof.
  intros [Hl Hres]. unfold rate. destruct (n <=? 0); [by eexists|]. unfold epoch. rewrite (proj2 (Z.eqb_neq _ _)) by lia.
  cbn [mbind option_bind]. assert (forall k e p b, is_Some (rate_loop r e k p b)) as H.
  { induction k as [|k IH]; intros e p b; cbn [rate_loop]; [by eexists|]. destruct (slot_at_mod r e Hl) as (s & -> & _).
    cbn [mbind option_bind]. destruct (negb _); apply IH. }
  match goal with |- context [rate_loop r ?e ?k ?p ?b] => destruct (H k e p b) as [[p' b'] ->] end. cbn. by eexists.
Qed.

Section View.
Context {Program : Type}.
Implicit Types r : Rule Program.

Lemma instanceSnapshot_total r i now stats :
  hk_ok (r_sketch r) -> inst_ok (r_spreadFields r) i ->
  exists v, instanceSnapshot r i now stats = Some v /\ sn_Key v = descriptorString r (i_key i) /\
    sn_Firing v = bool_decide (is_Some (i_trueSince i)).
Proof.
  intros Hsk Hi. unfold instanceSnapshot. cbv zeta.
  destruct (fill_env_ok _ (r_terms r) i now stats ∅ Hi) as (env & Henv & _).
  assert (is_Some (if nonempty (r_terms r) then Some <$> fill_env (r_terms r) i now stats ∅ else Some None)) as [ts ->]
    by (rewrite Henv; destruct (nonempty _); by eexists). cbn [mbind option_bind].
  assert (is_Some (match i_spread i with
    | Some es => if nonempty (r_spreadFields r) then Some <$> spread_view (r_spreadFields r) es 0 ∅ else Some None | None => Some None end)) as [sp ->].
  { destruct (i_spread i) as [es|] eqn:E; [|by eexists]. destruct (nonempty _); [|by eexists].
    destruct (spread_view_total (r_spreadFields r) es 0 ∅) as [m Hm]; [by apply (io_spread _ _ Hi)|]. change (Z.of_nat 0) with 0 in Hm. rewrite Hm. by eexists. }
  cbn [mbind option_bind]. destruct (rate_total (i_fine i) now 1 metricPPS (io_fine _ _ Hi)) as [p ->].
  destruct (rate_total (i_fine i) now 1 metricBPS (io_fine _ _ Hi)) as [b ->].
  destruct (estimate_ok (r_sketch r) (i_keyHash i) Hsk) as [sc ->]. cbn [mbind option_bind].
  eexists. split; [reflexivity|]. split; [done|]. cbn. by destruct (i_trueSince i).
Qed.

(** The view of a rule: one entry per tracked instance, with its identity and
    whether its trigger holds. *)
Definition views_rule (v : RuleSnapshot) r : Prop :=
  sr_Name v = r_name r /\ sr_InstanceCount v = InstanceCount r /\ sr_MaxInstances v = MaxInstances r /\
  map (fun x => (sn_Key x, sn_Firing x)) (sr_Instances v) ≡ₚ
    map (fun di => (descriptorString r (i_key di.2), bool_decide (is_Some (i_trueSince di.2)))) (map_to_list (st_items (r_store r))).

Lemma rule_snapshot_total o r now stats : rule_ok r -> exists v, rule_snapshot o r now stats = Some v /\ views_rule v r.
Proof.
  intros Hr. unfold rule_snapshot. pose proof (range_perm o (map_to_list (st_items (r_store r)))) as Hp.
  assert (forall l, (forall d i, (d, i) ∈ l -> inst_ok (r_spreadFields r) i) ->
    exists vs, mapM (fun di => instanceSnapshot r di.2 now stats) l = Some vs /\
      map (fun x => (sn_Key x, sn_Firing x)) vs = map (fun di => (descriptorString r (i_key di.2), bool_decide (is_Some (i_trueSince di.2)))) (l : list (descriptor * instance))) as H.
  { induction l as [|[d i] l IH]; intros Hl; [by exists []|].
    destruct (instanceSnapshot_total r i now stats (ro_sketch _ Hr)) as (v & Hv & Hk & Hf); [apply (Hl d); by left|].
    destruct IH as (vs & Hvs & Hm); [intros; eapply Hl; by right|]. exists (v :: vs). cbn. rewrite Hv. cbn [mbind option_bind].
    rewrite Hvs. split; [done|]. by rewrite Hk, Hf, Hm. }
  destruct (H (range_list o (map_to_list (st_items (r_store r))))) as (vs & -> & Hm).
  { intros d i. rewrite Hp, elem_of_map_to_list. apply (ro_insts _ Hr). }
  cbn [mbind option_bind]. eexists. split; [reflexivity|]. split_and!; try done. cbn [sr_Instances]. rewrite Hm. by rewrite Hp.
Qed.

Lemma engine_Snapshot_total os (e : @Engine Program) now stats :
  engine_ok e -> exists vs, engine_Snapshot os e now stats = Some vs /\ Forall2 views_rule vs (en_rules e).
Proof.
  intros [Hok Hix _]. unfold engine_Snapshot. rewrite (ix_all _ _ Hix).
  assert (forall k, (k <= length (en_rules e))%nat ->
    exists vs, mapM (fun i => r ← en_rules e !! i; rule_snapshot (os i) r now stats) (seq 0 k) = Some vs /\
      Forall2 views_rule vs (take k (en_rules e))) as H.
  { induction k as [|k IH]; intros Hk; [exists []; split; [done|constructor]|]. destruct IH as (vs & Hvs & HF); [lia|].
    destruct (lookup_lt_is_Some_2 (en_rules e) k) as [r Hr]; [lia|].
    destruct (rule_snapshot_total (os k) r now stats) as (v & Hv & Hview); [by eapply Forall_lookup_1|].
    exists (vs ++ [v]). rewrite seq_S. cbn [Nat.add]. rewrite (take_S_r _ _ r) by done. split; [|apply Forall2_app; [done|by constructor]].
    apply mapM_Some_2. apply mapM_Some_1 in Hvs. apply Forall2_app; [done|]. constructor; [|constructor]. cbn. by rewrite Hr. }
  destruct (H (length (en_rules e)) ltac:(lia)) as (vs & Hvs & HF). exists vs. split; [done|]. by rewrite firstn_all in HF.
Qed.
End View.

(** The status page of a running detector: after any run the view is built
    without a panic and shows every rule with exactly its tracked instances. *)
Theorem status_view_faithful {Program} Pow run os os' (rules : list (Rule Program)) cap stats inputs now :
  Forall rule_ok rules -> Forall (fun r => NoDup (r_protoFilter r)) rules -> 0 <= cap -> Forall input_ok inputs ->
  exists rn vs, run_loop Pow run os (NewRunnerWithContext (NewEngine rules) cap stats) inputs = Some rn /\
    Runner_Snapshot os' false rn now = Some vs /\ Forall2 views_rule vs (en_rules (rn_engine rn)).
Proof.
  intros Hok Hpf Hcap Hin.
  destruct (run_loop_ok Pow run os (NewRunnerWithContext (NewEngine rules) cap stats) inputs) as (rn & Hrn & [He _] & _);
    [split; [by apply NewEngine_ok|unfold len; cbn; lia]|done|].
  destruct (engine_Snapshot_total os' (rn_engine rn) now (rn_stats rn) He) as (vs & Hvs & Hall). by exists rn, vs.
Qed.
