(* ===== verification/Fingerprint.v ===== *)
(** * The fingerprint of a rule (internal/detector/fingerprint.go)

    A hash of the JSON text of the rule's whole configuration.  [encoding/json] and
    [crypto/sha256] are parameters. *)
From S2P Require Import Prelude GoText DetCompile.
#[local] Open Scope Z_scope.

(** [hex.EncodeToString] *)
Fixpoint hex_EncodeToString (b : list Z) : string :=
  match b with [] => "" | x :: b' => hex02 x +:+ hex_EncodeToString b' end.

Section Fingerprint.
Context (json_Marshal : RuleConfig -> result gotext (list Z)) (Sum256 : list Z -> list Z).

Definition ruleFingerprint (cfg : RuleConfig) : string :=
  match json_Marshal cfg with
  | Err _ => "unmarshalable:" +:+ cfg_Name cfg
  | Ok b => hex_EncodeToString (Sum256 b)
  end.
End Fingerprint.
