(* ===== verification/FingerprintFacts.v ===== *)
(** * Fingerprints tell configurations apart, and what that means for a restart *)
From S2P Require Import Prelude GoText GoParse Flowspec Float64 DetTypes Store Template DetRule DetEmit DetEmitFacts DetEngine DetRuleFacts DetEngineFacts DetCompile DetCompileFacts DetPersist DetPersistFacts Fingerprint.
From Stdlib Require Import Ascii.
#[local] Open Scope Z_scope.

Lemma hex_EncodeToString_inj a b :
  Forall (in_width 8) a -> Forall (in_width 8) b -> hex_EncodeToString a = hex_EncodeToString b -> a = b.
Proof.
  intros Ha. revert b. induction Ha as [|x a Hx Ha IH]; intros b Hb E; destruct Hb as [|y b Hy Hb]; [done..|].
  apply hex02_inj in E as [-> E]; [|done..]. f_equal. by apply IH.
Qed.

(** The token of a rule that cannot be encoded is not a hash: [u] is not a hexadecimal digit. *)
Lemma token_not_hex name b : Forall (in_width 8) b -> "unmarshalable:" +:+ name <> hex_EncodeToString b.
Proof.
  intros Hb E. destruct Hb as [|x b Hx Hb]; [done|]. cbn in E. injection E as E _.
  unfold in_width in Hx. pose proof (proj2 (hexdigit_spec (x / 16) ltac:(split; [apply Z.div_pos; lia|apply Z.div_lt_upper_bound; lia]))) as Hd.
  rewrite <- E in Hd. done.
Qed.

Section Restart.
Context (json_Marshal : RuleConfig -> result gotext (list Z)) (Sum256 : list Z -> list Z).
Notation fingerprint := (ruleFingerprint json_Marshal Sum256).

(** What the two libraries are relied on for, among the configurations [cfgs]. *)
Record tells_apart (cfgs : list RuleConfig) : Prop := {
  ta_sum : forall b, Forall (in_width 8) (Sum256 b);
  ta_json : forall c1 c2 b, c1 ∈ cfgs -> c2 ∈ cfgs -> json_Marshal c1 = Ok b -> json_Marshal c2 = Ok b -> c1 = c2;
  ta_hash : forall c1 c2 b1 b2, c1 ∈ cfgs -> c2 ∈ cfgs -> json_Marshal c1 = Ok b1 -> json_Marshal c2 = Ok b2 -> Sum256 b1 = Sum256 b2 -> b1 = b2
}.

(** Equal fingerprints: the same configuration, or two that cannot be encoded and
    have the same name. *)
Lemma fingerprint_identifies cfgs c1 c2 :
  tells_apart cfgs -> c1 ∈ cfgs -> c2 ∈ cfgs -> fingerprint c1 = fingerprint c2 ->
  c1 = c2 \/ is_ok (json_Marshal c1) = false /\ is_ok (json_Marshal c2) = false /\ cfg_Name c1 = cfg_Name c2.
Proof.
  intros [Hs Hj Hh] H1 H2. unfold ruleFingerprint.
  destruct (json_Marshal c1) as [b1|] eqn:E1, (json_Marshal c2) as [b2|] eqn:E2; intros E.
  - left. apply hex_EncodeToString_inj in E; [|done..]. assert (b1 = b2) as -> by eauto. eauto.
  - symmetry in E. by apply token_not_hex in E.
  - by apply token_not_hex in E.
  - right. split_and!; [done..|]. by simplify_eq/=.
Qed.

Lemma compileRule_facts {Program} ec fp o cfg (r : Rule Program) :
  compileRule ec fp o cfg = Ok r ->
  r_name r = cfg_Name cfg /\ r_fingerprint r = fp cfg /\ fresh r /\ compileHistory (cfg_History cfg) = Ok (r_history r).
Proof.
  unfold compileRule, fresh. intros H. repeat next_stmt H. injection H as <-. cbn. split_and!; try done; by apply liftc_Ok.
Qed.

Lemma compiled_rules_facts {Program} ec fp o cfgs (rules : list (Rule Program)) :
  Forall (fun cfg => HistoryConfig_wf (cfg_History cfg)) cfgs -> CompileRules ec fp o cfgs = Ok rules ->
  Forall rule_ok rules /\ Forall fresh rules /\ r_name <$> rules = cfg_Name <$> cfgs /\
  Forall2 (fun cfg r => r_name r = cfg_Name cfg /\ r_fingerprint r = fp cfg /\ compileHistory (cfg_History cfg) = Ok (r_history r)) cfgs rules.
Proof.
  unfold CompileRules. intros Hw H. apply compile_rules_from_each in H. induction H as [|cfg r cfgs rs Hr _ IH]; [by repeat constructor|].
  apply Forall_cons in Hw as [Hw1 Hw2]. destruct (IH Hw2) as (IH1 & IH2 & IH3 & IH4). destruct (compileRule_facts _ _ _ _ _ Hr) as (Hn & Hf & Hfr & Hh).
  split_and!; [constructor; [|done]|by constructor|cbn; by rewrite Hn, IH3|by constructor].
  destruct (compileRule_compiled _ _ _ _ _ Hw1 Hr) as [Hc _]. apply Hc.
Qed.

(** C27: a restart restores the history of exactly the unchanged rules.  Compile the
    rules of a configuration, run the engine on any interleaving of samples, ticks
    and event consumption, export it, compile the rules of a (possibly edited)
    configuration and import the state: a rule whose whole configuration is one of
    the old ones gets exactly the instances of that rule back (identity, all ring
    slots, last sample, trigger and emission state; the diversity windows start
    anew), and a rule of which anything was edited starts empty.  Rule
    names are distinct and no filter lists a protocol twice; the JSON
    encoding succeeds and tells the configurations of the two starts apart, and
    SHA-256 has no collision among their encodings. *)
Theorem restart_restores_unchanged_rules {Program} ec Pow run os os' o o2 cfgs cfgs2 (rules rules2 : list (Rule Program)) cap stats inputs :
  Forall (fun cfg => HistoryConfig_wf (cfg_History cfg)) (cfgs ++ cfgs2) -> NoDup (cfg_Name <$> cfgs) -> NoDup (cfg_Name <$> cfgs2) ->
  tells_apart (cfgs ++ cfgs2) -> Forall (fun cfg => is_ok (json_Marshal cfg) = true) (cfgs ++ cfgs2) ->
  CompileRules ec fingerprint o cfgs = Ok rules -> CompileRules ec fingerprint o2 cfgs2 = Ok rules2 ->
  Forall (fun r => NoDup (r_protoFilter r)) rules -> 0 <= cap -> Forall input_ok inputs ->
  exists rn, run_loop Pow run os (NewRunnerWithContext (NewEngine rules) cap stats) inputs = Some rn /\
    forall i cfg2, cfgs2 !! i = Some cfg2 ->
      exists r2 r2', rules2 !! i = Some r2 /\ en_rules (Import (NewEngine rules2) (Export os' (rn_engine rn))) !! i = Some r2' /\ same_config r2 r2' /\
        (cfg2 ∈ cfgs -> exists r, r ∈ en_rules (rn_engine rn) /\ r_name r = cfg_Name cfg2 /\
           st_items (r_store r2') = forget_spread <$> st_items (r_store r)) /\
        (cfg2 ∉ cfgs -> st_items (r_store r2') = ∅).
Proof.
  intros [Hw1 Hw2]%Forall_app Hn1 Hn2 Hta Hj Hc1 Hc2 Hpf Hcap Hin. rewrite Forall_forall in Hj.
  destruct (compiled_rules_facts _ _ _ _ _ Hw1 Hc1) as (Hok & Hfr & Hnm & Hf1).
  destruct (compiled_rules_facts _ _ _ _ _ Hw2 Hc2) as (_ & Hfr2 & Hnm2 & Hf2).
  assert (forall c1 c2, c1 ∈ cfgs -> c2 ∈ cfgs2 -> fingerprint c1 = fingerprint c2 -> c1 = c2) as Hid.
  { intros c1 c2 H1 H2 E. assert (c1 ∈ cfgs ++ cfgs2) as H1' by set_solver. assert (c2 ∈ cfgs ++ cfgs2) as H2' by set_solver.
    destruct (fingerprint_identifies _ _ _ Hta H1' H2' E) as [?|(Hbad & _)]; [done|]. by rewrite Hj in Hbad. }
  assert (forall r, r ∈ rules -> exists c, c ∈ cfgs /\ r_name r = cfg_Name c /\ r_fingerprint r = fingerprint c /\ compileHistory (cfg_History c) = Ok (r_history r)) as Hof.
  { intros r Hr. destruct (proj1 (list_elem_of_lookup _ _) Hr) as [i Hi]. destruct (Forall2_lookup_r _ _ _ _ _ Hf1 Hi) as (c & Hc & ?).
    exists c. split; [by eapply list_elem_of_lookup_2|done]. }
  assert (forall r r2, r ∈ rules -> r2 ∈ rules2 -> r_fingerprint r = r_fingerprint r2 -> r_history r = r_history r2) as Hhist.
  { intros r r2 (c & Hc & _ & Hfc & Hhc)%Hof Hr2 E. destruct (proj1 (list_elem_of_lookup _ _) Hr2) as [i Hi].
    destruct (Forall2_lookup_r _ _ _ _ _ Hf2 Hi) as (c2 & Hc2i & _ & Hf & Hh). apply list_elem_of_lookup_2 in Hc2i.
    assert (c = c2) as -> by (apply Hid; congruence). congruence. }
  destruct (restart_restores_history Pow run os os' rules rules2 cap stats inputs) as (rn & Hrn & Hres); try done; [by rewrite Hnm|by rewrite Hnm2|].
  destruct (run_loop_running Pow run os rules cap stats inputs) as (rn' & Hrn' & Hrun); [done..|]. assert (rn' = rn) as -> by congruence.
  exists rn. split; [done|]. intros i cfg2 Hi. destruct (Forall2_lookup_l _ _ _ _ _ Hf2 Hi) as (r2 & Hr2 & Hnm2' & Hfp2 & _).
  destruct (Hres i r2 Hr2) as (r2' & Hr2' & Hsame & Hback & Hempty). exists r2, r2'. split_and!; [done..| |].
  - intros Hel. apply list_elem_of_lookup in Hel as [j Hj']. destruct (Forall2_lookup_l _ _ _ _ _ Hf1 Hj') as (r0 & Hr0 & Hn0 & Hf0 & _).
    assert (is_Some (en_rules (rn_engine rn) !! j)) as [r Hr].
    { apply lookup_lt_is_Some. pose proof (f_equal length (rg_names _ _ Hrun)) as Hl. rewrite !length_fmap in Hl. rewrite Hl. by apply lookup_lt_Some in Hr0. }
    destruct (rg_static _ _ Hrun j r Hr) as (r0' & Hr0' & Hnr & Hfr' & _). assert (r0' = r0) as -> by congruence.
    exists r. split; [by eapply list_elem_of_lookup_2|]. split; [congruence|]. apply Hback; [by eapply list_elem_of_lookup_2|congruence..].
  - intros Hnel. apply Hempty. intros r (c & Hc & _ & Hfc & _)%Hof _ E. apply Hnel. replace cfg2 with c; [done|].
    apply Hid; [done|by eapply list_elem_of_lookup_2|congruence].
Qed.
End Restart.

(** ** Example: the same rule again, and the same rule with another threshold *)
Definition cfg_edited : RuleConfig :=
  {| cfg_Name := cfg_Name cfg_example; cfg_Match := cfg_Match cfg_example; cfg_Aggregate := cfg_Aggregate cfg_example;
     cfg_History := cfg_History cfg_example; cfg_Trigger := {| tg_Terms := tg_Terms (cfg_Trigger cfg_example); tg_Expr := "pps > 2000"; tg_Sustained := 0 |};
     cfg_FlowSpec := cfg_FlowSpec cfg_example; cfg_Description := cfg_Description cfg_example; cfg_Rank := cfg_Rank cfg_example;
     cfg_RatioDetection := cfg_RatioDetection cfg_example |}.

(** An encoder that tells the two apart, and the sum of the bytes as the hash. *)
Definition json_example (cfg : RuleConfig) : result gotext (list Z) := Ok [if String.eqb (tg_Expr (cfg_Trigger cfg)) "pps > 2000" then 2 else 1].
Definition sum_example (b : list Z) : list Z := [foldr Z.add 0 b mod 256].

Definition compile_example (cfg : RuleConfig) : list (Rule unit) :=
  match CompileRules ec_example (ruleFingerprint json_example sum_example) range_id [cfg] with Ok rs => rs | Err _ => [] end.

Lemma example_tells_apart : tells_apart json_example sum_example ([cfg_example] ++ [cfg_edited]).
Proof.
  split.
  - intros b. apply Forall_singleton. unfold in_width. apply Z.mod_pos_bound. lia.
  - intros c1 c2 b H1 H2. apply list_elem_of_In in H1, H2.
    destruct H1 as [<-|[<-|[]]], H2 as [<-|[<-|[]]]; vm_compute; congruence.
  - intros c1 c2 b1 b2 H1 H2. apply list_elem_of_In in H1, H2. unfold json_example, sum_example.
    intros [= <-] [= <-]. by do 2 destruct (String.eqb _ _).
Qed.

Lemma restart_restores_unchanged_rules_witness :
  exists rn, run_loop pow_one (fun _ _ => ExprBool true) (fun _ => range_id) (NewRunnerWithContext (NewEngine (compile_example cfg_example)) 8 None)
      [RSample syn_example; RTick (1001 * Second); RTake] = Some rn /\
    forall i cfg2, [cfg_edited] !! i = Some cfg2 ->
      exists r2', en_rules (Import (NewEngine (compile_example cfg_edited)) (Export (fun _ => range_id) (rn_engine rn))) !! i = Some r2' /\
        (cfg2 ∉ [cfg_example] -> st_items (r_store r2') = ∅).
Proof.
  destruct (restart_restores_unchanged_rules json_example sum_example ec_example pow_one (fun _ _ => ExprBool true) (fun _ => range_id) (fun _ => range_id)
    range_id range_id [cfg_example] [cfg_edited] (compile_example cfg_example) (compile_example cfg_edited) 8 None
    [RSample syn_example; RTick (1001 * Second); RTake]) as (rn & Hrn & H).
  - apply Forall_cons_2; [exact cfg_example_wf|]. apply Forall_singleton. exact cfg_example_wf.
  - apply NoDup_singleton.
  - apply NoDup_singleton.
  - exact example_tells_apart.
  - apply Forall_cons_2; [reflexivity|]. apply Forall_singleton. reflexivity.
  - vm_compute. reflexivity.
  - vm_compute. reflexivity.
  - apply Forall_singleton. vm_compute. apply NoDup_singleton.
  - lia.
  - apply Forall_cons_2; [exact syn_example_wf|]. repeat constructor.
  - exists rn. split; [exact Hrn|]. intros i cfg2 Hi. destruct (H i cfg2 Hi) as (r2 & r2' & _ & Hr2' & _ & _ & He). exists r2'. by split.
Defined.
