(* ===== verification/Logging.v ===== *)
(** * Logging (internal/logging: scope.go, fanout.go, build.go, telegram.go)

    Routing of records to the sinks by level and scope, and the Telegram sink: a
    bounded queue, batching, splitting into messages of bounded length, one retry,
    a bounded wait on closing.  The formatting handlers are [log/slog]'s: a parameter.  A text is the list of
    its runes: the handlers write valid UTF-8.  HTTP and JSON are libraries: what
    they return is an input. *)
From S2P Require Import Prelude GoText Packet Float64 DetTypes.
From Stdlib Require Import Ascii.
#[local] Open Scope Z_scope.

(** ** scope.go *)
Definition KeyScope : string := "scope".
Definition ScopeCore : string := "core".
Definition ScopeBGP : string := "bgp".
Definition ScopeACL : string := "acl".
Definition ScopeVPP : string := "vpp".
Definition ScopeDetector : string := "detector".

Definition AllScopes : list string := [ScopeCore; ScopeBGP; ScopeACL; ScopeVPP; ScopeDetector].

Definition Valid (s : string) : bool := existsb (String.eqb s) AllScopes.

(** [slog.Level] *)
Definition LevelDebug : Z := -4.
Definition LevelInfo : Z := 0.
Definition LevelWarn : Z := 4.
Definition LevelError : Z := 8.

(** An attribute: its key and [Value.String()]. *)
Record Attr := { a_Key : string; a_String : string }.
Record LogRecord := { lr_Level : Z; lr_Attrs : list Attr }.

(** ** fanout.go *)
Section Fanout.
Context {H : Type} (withAttrs : H -> list Attr -> H) (withGroup : H -> string -> H).

(** [scopes] is a map whose values are all [true]. *)
Record sink := { k_level : Z; k_all : bool; k_scopes : gset string; k_h : H }.

Definition admits (s : sink) (level : Z) (scope : string) : bool :=
  if level <? k_level s then false else k_all s || bool_decide (scope ∈ k_scopes s).

Record fanout := { fo_sinks : list sink; fo_scope : string }.

Definition newFanout (sinks : list sink) : fanout := {| fo_sinks := sinks; fo_scope := "" |}.

Definition Enabled (f : fanout) (level : Z) : bool := existsb (fun s => k_level s <=? level) (fo_sinks f).

(** The last scope attribute wins. *)
Definition scan_scope (scope : string) (attrs : list Attr) : string :=
  foldl (fun sc a => if String.eqb (a_Key a) KeyScope then a_String a else sc) scope attrs.

(** [Handle]: the handlers the record is passed to, in order; their errors are ignored. *)
Definition Handle (f : fanout) (r : LogRecord) : list H :=
  let scope := if String.eqb (fo_scope f) "" then ScopeCore else fo_scope f in
  let scope := scan_scope scope (lr_Attrs r) in
  omap (fun s => if admits s (lr_Level r) scope then Some (k_h s) else None) (fo_sinks f).

Definition set_handler (s : sink) (h : H) : sink := {| k_level := k_level s; k_all := k_all s; k_scopes := k_scopes s; k_h := h |}.

Definition WithAttrs (f : fanout) (attrs : list Attr) : fanout :=
  {| fo_sinks := map (fun s => set_handler s (withAttrs (k_h s) attrs)) (fo_sinks f); fo_scope := scan_scope (fo_scope f) attrs |}.

Definition WithGroup (f : fanout) (name : string) : fanout :=
  {| fo_sinks := map (fun s => set_handler s (withGroup (k_h s) name)) (fo_sinks f); fo_scope := fo_scope f |}.

(** ** build.go *)
Record SinkSpec := { sp_Level : Z; sp_All : bool; sp_Scopes : list string; sp_Format : string }.
Record TelegramSpec := { tgs_Sink : SinkSpec; tgs_BotToken : string; tgs_ChatID : string }.
Record LogOptions := { lo_Stderr : SinkSpec; lo_Telegram : option TelegramSpec }.

Inductive logFormat := FormatText | FormatJSON.

(** [formatHandler]: which of the two standard handlers is built. *)
Definition formatHandler (format : string) : logFormat := if String.eqb format "json" then FormatJSON else FormatText.

(** The handlers of the standard streams, by format and level. *)
Context (stderrHandler telegramHandler : logFormat -> Z -> H).

Definition toSet (scopes : list string) : gset string := list_to_set scopes.

Definition spec_sink (s : SinkSpec) (h : H) : sink :=
  {| k_level := sp_Level s; k_all := sp_All s; k_scopes := toSet (sp_Scopes s); k_h := h |}.

(** [New]: the logger's handler; a Telegram sink follows the stderr sink. *)
Definition log_New (o : LogOptions) : fanout :=
  newFanout (spec_sink (lo_Stderr o) (stderrHandler (formatHandler (sp_Format (lo_Stderr o))) (sp_Level (lo_Stderr o))) ::
    match lo_Telegram o with
    | None => []
    | Some t => [spec_sink (tgs_Sink t) (telegramHandler (formatHandler (sp_Format (tgs_Sink t))) (sp_Level (tgs_Sink t)))]
    end).
End Fanout.
Arguments sink : clear implicits.
Arguments fanout : clear implicits.

(** [multiCloser.Close]: every closer is closed, the first error is returned. *)
Definition multiCloser_Close {E} (closed : list (result E unit)) : result E unit :=
  foldl (fun err e => match err, e with Ok _, Err x => Err x | _, _ => err end) (Ok tt) closed.

(** ** telegram.go: messages *)
Definition telegramQueueSize : Z := 1024.
Definition telegramBatchBytes : Z := 3500.
Definition telegramMaxRunes : Z := 4000.
Definition telegramHTTPTimeout : Z := 10 * Second.
Definition telegramCloseWait : Z := telegramHTTPTimeout + 2 * Second.
Definition telegramDefaultBackoff : Z := 1 * Second.
Definition telegramMaxBackoff : Z := 5 * Second.

(** A rune and its length in UTF-8. *)
Definition rune : Type := Z.
Definition utf8_width (r : rune) : Z :=
  if r <? 128 then 1 else if r <? 2048 then 2 else if r <? 65536 then 3 else 4.
Definition byte_len (t : list rune) : Z := foldr (fun r n => utf8_width r + n) 0 t.

Definition runeLen (t : list rune) : Z := len t.

Definition newline : rune := 10.

(** [strings.SplitAfter(text, "\n")], without the empty last piece. *)
Fixpoint split_after (t cur : list rune) : list (list rune) :=
  match t with
  | [] => match cur with [] => [] | _ => [cur] end
  | r :: t' => if r =? newline then (cur ++ [r]) :: split_after t' [] else split_after t' (cur ++ [r])
  end.

(** [chunkRunes]: the loop runs at most once per rune. *)
Fixpoint chunk_loop (fuel : nat) (t : list rune) (max : Z) : list (list rune) :=
  match fuel, t with
  | S fuel', _ :: _ =>
      let n := if runeLen t <? max then runeLen t else max in
      take (Z.to_nat n) t :: chunk_loop fuel' (drop (Z.to_nat n) t) max
  | _, _ => []
  end.

Definition chunkRunes (t : list rune) (max : Z) : list (list rune) := chunk_loop (length t) t max.

(** The state of [splitMessage]'s loop: finished chunks, the current one, its runes. *)
Record split_state := { sl_out : list (list rune); sl_cur : list rune; sl_curRunes : Z }.

Definition split_flush (s : split_state) : split_state :=
  match sl_cur s with
  | [] => s
  | cur => {| sl_out := sl_out s ++ [cur]; sl_cur := []; sl_curRunes := 0 |}
  end.

Definition split_line (max : Z) (s : split_state) (line : list rune) : split_state :=
  let lr := runeLen line in
  if max <? lr then
    let s := split_flush s in
    {| sl_out := sl_out s ++ chunkRunes line max; sl_cur := sl_cur s; sl_curRunes := sl_curRunes s |}
  else
    let s := if max <? sl_curRunes s + lr then split_flush s else s in
    {| sl_out := sl_out s; sl_cur := sl_cur s ++ line; sl_curRunes := sl_curRunes s + lr |}.

Definition splitMessage (text : list rune) (maxRunes : Z) : list (list rune) :=
  if runeLen text <=? maxRunes then [text]
  else sl_out (split_flush (foldl (split_line maxRunes) {| sl_out := []; sl_cur := []; sl_curRunes := 0 |} (split_after text []))).

(** ** telegram.go: posting *)

(** [parseRetryAfter]: [retry_after] as the JSON decoder returned it. *)
Definition parseRetryAfter (decoded : option Z) : Z :=
  match decoded with
  | None => 0
  | Some n => if n <=? 0 then 0 else i64 (n * Second)
  end.

(** What became of a request: the time it took, and its status and decoded body
    unless it failed. *)
Record reply := { rp_took : Z; rp_answer : option (Z * option Z) }.

(** [http.Client.Timeout]: a request that takes longer fails. *)
Definition bounded_reply (r : reply) : reply :=
  if telegramHTTPTimeout <? rp_took r then {| rp_took := telegramHTTPTimeout; rp_answer := None |} else r.

(** [postOnce]'s result for an answer: the backoff, or 0. *)
Definition postOnce (resp : option (Z * option Z)) : Z :=
  match resp with
  | None => 0
  | Some (status, body) =>
      if status =? 200 then 0
      else if status =? 429 then (if 0 <? parseRetryAfter body then parseRetryAfter body else telegramDefaultBackoff)
      else 0
  end.

(** Telegram has taken the message. *)
Definition accepted (resp : option (Z * option Z)) : bool := match resp with Some (status, _) => status =? 200 | None => false end.

(** A message that was handed to [post]: whether Telegram took it, and when [post] returned. *)
Record posted := { po_text : list rune; po_taken : bool; po_at : Z }.

(** ** telegram.go: the sink *)

(** The queue, the lost lines, the worker's batch; the messages posted so far, the
    requests made for them, the worker's clock; and, once the worker has seen
    [quit], when [Close] closed it. *)
Record telegramSink := {
  tg_ch : list (list rune); tg_dropped : Z; tg_buf : list rune;
  tg_posted : list posted; tg_requests : nat; tg_clock : Z; tg_closing : option Z
}.

Definition newTelegramSink : telegramSink :=
  {| tg_ch := []; tg_dropped := 0; tg_buf := []; tg_posted := []; tg_requests := 0; tg_clock := 0; tg_closing := None |}.

Definition set_queue (ch : list (list rune)) (dropped : Z) (ts : telegramSink) : telegramSink :=
  {| tg_ch := ch; tg_dropped := dropped; tg_buf := tg_buf ts; tg_posted := tg_posted ts; tg_requests := tg_requests ts;
     tg_clock := tg_clock ts; tg_closing := tg_closing ts |}.
Definition set_buf (buf : list rune) (ts : telegramSink) : telegramSink :=
  {| tg_ch := tg_ch ts; tg_dropped := tg_dropped ts; tg_buf := buf; tg_posted := tg_posted ts; tg_requests := tg_requests ts;
     tg_clock := tg_clock ts; tg_closing := tg_closing ts |}.
Definition set_closing (now : Z) (ts : telegramSink) : telegramSink :=
  {| tg_ch := tg_ch ts; tg_dropped := tg_dropped ts; tg_buf := tg_buf ts; tg_posted := tg_posted ts; tg_requests := tg_requests ts;
     tg_clock := Z.max (tg_clock ts) now; tg_closing := Some now |}.

(** [chanWriter.Write]: queue the line, or count it when the queue is full. *)
Definition chan_Write (ts : telegramSink) (line : list rune) : telegramSink :=
  if len (tg_ch ts) <? telegramQueueSize then set_queue (tg_ch ts ++ [line]) (tg_dropped ts) ts
  else set_queue (tg_ch ts) (i64 (tg_dropped ts + 1)) ts.

Fixpoint runes_of (s : string) : list rune :=
  match s with EmptyString => [] | String c s' => Z.of_N (N_of_ascii c) :: runes_of s' end.

Definition drop_note (n : Z) : list rune := runes_of ("[" +:+ itoa n +:+ " log lines dropped]") ++ [newline].

Section Worker.
(** What becomes of the n-th request, with the text it carries: the network and the Bot API. *)
Context (telegram : nat -> list rune -> reply).

(** [post]: one request, and a second one after the backoff when Telegram asked for it. *)
Definition post (ts : telegramSink) (text : list rune) : telegramSink :=
  let first := bounded_reply (telegram (tg_requests ts) text) in
  let backoff := postOnce (rp_answer first) in
  let at1 := tg_clock ts + rp_took first in
  let '(requests, taken, at2) :=
    if 0 <? backoff then
      let second := bounded_reply (telegram (S (tg_requests ts)) text) in
      (S (S (tg_requests ts)), accepted (rp_answer second),
       at1 + (if telegramMaxBackoff <? backoff then telegramMaxBackoff else backoff) + rp_took second)
    else (S (tg_requests ts), accepted (rp_answer first), at1) in
  {| tg_ch := tg_ch ts; tg_dropped := tg_dropped ts; tg_buf := tg_buf ts;
     tg_posted := tg_posted ts ++ [{| po_text := text; po_taken := taken; po_at := at2 |}];
     tg_requests := requests; tg_clock := at2; tg_closing := tg_closing ts |}.

(** [flush] *)
Definition tg_flush (ts : telegramSink) : telegramSink :=
  let sb := (if 0 <? tg_dropped ts then drop_note (tg_dropped ts) else []) ++ tg_buf ts in
  let ts := set_buf [] (set_queue (tg_ch ts) 0 ts) in
  match sb with [] => ts | _ => foldl post ts (splitMessage sb telegramMaxRunes) end.

(** [accumulate] *)
Definition accumulate (ts : telegramSink) (b : list rune) : telegramSink :=
  let ts := if (0 <? byte_len (tg_buf ts)) && (telegramBatchBytes <? byte_len (tg_buf ts) + byte_len b) then tg_flush ts else ts in
  let ts := set_buf (tg_buf ts ++ b) ts in
  if telegramBatchBytes <=? byte_len (tg_buf ts) then tg_flush ts else ts.

(** [case b := <-ts.ch]: take the oldest line. *)
Definition tg_take (ts : telegramSink) : option (list rune * telegramSink) :=
  match tg_ch ts with
  | [] => None
  | b :: ch => Some (b, set_queue ch (tg_dropped ts) ts)
  end.

(** The worker's last turns after [quit]: it takes the queue to its end, flushes
    and returns. *)
Fixpoint tg_drain (fuel : nat) (ts : telegramSink) : telegramSink :=
  match fuel with
  | O => tg_flush ts
  | S fuel' => match tg_take ts with Some (b, ts) => tg_drain fuel' (accumulate ts b) | None => tg_flush ts end
  end.

(** What happens to the sink: a record is written, the worker takes a line, its
    ticker fires, it sees that [Close] closed [quit] at some time.  Records may be
    written, and lines taken, while the worker drains; the ticker is not looked at
    then. *)
Inductive tg_event := TgWrite (line : list rune) | TgTake | TgTick | TgQuit (now : Z).

Definition tg_step (ts : telegramSink) (e : tg_event) : telegramSink :=
  match e with
  | TgWrite line => chan_Write ts line
  | TgTake => match tg_take ts with Some (b, ts) => accumulate ts b | None => ts end
  | TgTick => match tg_closing ts with None => tg_flush ts | Some _ => ts end
  | TgQuit now => match tg_closing ts with None => set_closing now ts | Some _ => ts end
  end.

(** [run]: after the events, a worker that has seen [quit] finds the queue empty
    at some time and returns; the others go on. *)
Definition tg_run (ts : telegramSink) (es : list tg_event) : telegramSink :=
  let ts := foldl tg_step ts es in
  match tg_closing ts with
  | None => ts
  | Some _ => tg_drain (length (tg_ch ts)) ts
  end.
End Worker.

(** ** telegram.go: Close

    The [sync.Once] and the channel [quit]; closing a closed channel panics
    ([None]). *)
Record tg_quit := { tq_once : bool; tq_closed : bool }.

Definition tg_quit_new : tg_quit := {| tq_once := false; tq_closed := false |}.

Definition close_quit (q : tg_quit) : option tg_quit := if tq_closed q then None else Some {| tq_once := tq_once q; tq_closed := true |}.

Definition tg_Close (q : tg_quit) : option tg_quit :=
  if tq_once q then Some q else close_quit {| tq_once := true; tq_closed := tq_closed q |}.

(** The wait: [Close], called at [now], returns when the worker ([ts], once it
    has returned) is done, or gives up after [telegramCloseWait].  The process ends
    then: what was posted is what [post] had returned from. *)
Definition Close_waited (now : Z) (ts : telegramSink) : bool := tg_clock ts <=? now + telegramCloseWait.

Definition Close_posted (now : Z) (ts : telegramSink) : list posted :=
  if Close_waited now ts then tg_posted ts else List.filter (fun m => po_at m <=? now + telegramCloseWait) (tg_posted ts).
