(* ===== verification/LoggingFacts.v ===== *)
(** * Correctness of the logging sinks

    A record reaches exactly the sinks whose level and scope accept it; the
    Telegram sink hands every queued line to the poster, reports the lines it could
    not queue and keeps its messages bounded; closing it is bounded in time. *)
From S2P Require Import Prelude GoText Packet Float64 DetTypes Logging.
#[local] Open Scope Z_scope.

(** ** Routing *)
Definition spec_accepts (s : SinkSpec) (level : Z) (scope : string) : Prop :=
  sp_Level s <= level /\ (sp_All s = true \/ scope ∈ sp_Scopes s).

#[global] Instance spec_accepts_dec s l sc : Decision (spec_accepts s l sc).
Proof. unfold spec_accepts. apply _. Defined.

Lemma admits_spec {H} s (h : H) level scope : admits (spec_sink s h) level scope = bool_decide (spec_accepts s level scope).
Proof.
  unfold admits, spec_sink, toSet. cbn [k_level k_all k_scopes]. destruct (Z.ltb_spec level (sp_Level s)).
  - rewrite bool_decide_false; [done|]. intros [? _]. lia.
  - apply eq_true_iff_eq. rewrite orb_true_iff, !bool_decide_eq_true, elem_of_list_to_set. unfold spec_accepts. intuition lia.
Qed.

Section Routing.
Context {H : Type} (withAttrs : H -> list Attr -> H) (withGroup : H -> string -> H).
Context (stderrHandler telegramHandler : logFormat -> Z -> H).

(** How a logger is derived: [With] and [WithGroup], in order. *)
Inductive logop := OpAttrs (attrs : list Attr) | OpGroup (name : string).

Definition derive_fanout (f : fanout H) (ops : list logop) : fanout H :=
  foldl (fun f op => match op with OpAttrs a => WithAttrs withAttrs f a | OpGroup n => WithGroup withGroup f n end) f ops.

Definition derive_handler (h : H) (ops : list logop) : H :=
  foldl (fun h op => match op with OpAttrs a => withAttrs h a | OpGroup n => withGroup h n end) h ops.

Definition ops_attrs (ops : list logop) : list Attr := concat (map (fun op => match op with OpAttrs a => a | OpGroup _ => [] end) ops).

(** The scope of a record: its own last scope attribute, else the logger's, else core. *)
Definition record_scope (ops : list logop) (r : LogRecord) : string :=
  let logger := scan_scope "" (ops_attrs ops) in
  scan_scope (if String.eqb logger "" then ScopeCore else logger) (lr_Attrs r).

Lemma scan_scope_app sc a b : scan_scope sc (a ++ b) = scan_scope (scan_scope sc a) b.
Proof. apply foldl_app. Qed.

Lemma derive_fanout_spec f ops :
  derive_fanout f ops = {| fo_sinks := map (fun s => set_handler s (derive_handler (k_h s) ops)) (fo_sinks f);
                           fo_scope := scan_scope (fo_scope f) (ops_attrs ops) |}.
Proof.
  revert f. induction ops as [|op ops IH]; intros f; cbn [derive_fanout foldl].
  - destruct f as [sinks sc]. unfold derive_handler. cbn. f_equal. symmetry. erewrite map_ext; [apply map_id|]. by intros [].
  - fold (derive_fanout (match op with OpAttrs a => WithAttrs withAttrs f a | OpGroup n => WithGroup withGroup f n end) ops). rewrite IH.
    destruct op as [a|n]; cbn [WithAttrs WithGroup fo_sinks fo_scope]; rewrite map_map; f_equal.
    unfold ops_attrs. cbn [map concat]. by rewrite scan_scope_app.
Qed.

(** The sinks of the options, with the handlers they are built with. *)
Definition option_sinks (o : LogOptions) : list (SinkSpec * H) :=
  (lo_Stderr o, stderrHandler (formatHandler (sp_Format (lo_Stderr o))) (sp_Level (lo_Stderr o))) ::
  match lo_Telegram o with
  | None => []
  | Some t => [(tgs_Sink t, telegramHandler (formatHandler (sp_Format (tgs_Sink t))) (sp_Level (tgs_Sink t)))]
  end.

Lemma log_New_sinks o : fo_sinks (log_New stderrHandler telegramHandler o) = map (fun sh => spec_sink sh.1 sh.2) (option_sinks o).
Proof. unfold log_New, option_sinks. cbn. by destruct (lo_Telegram o). Qed.
End Routing.

(** Log routing is exact: through any chain of derived loggers, a record is
    passed, in order and once each, to exactly the sinks whose level it reaches
    and whose scope filter accepts its scope, with the handler derived by the
    same chain. *)
Theorem records_reach_exactly_their_sinks {H} withAttrs withGroup (eh th : logFormat -> Z -> H) o ops r :
  Handle (derive_fanout withAttrs withGroup (log_New eh th o) ops) r =
    (fun sh => derive_handler withAttrs withGroup sh.2 ops) <$>
      filter (fun sh => spec_accepts sh.1 (lr_Level r) (record_scope ops r)) (option_sinks eh th o).
Proof.
  rewrite derive_fanout_spec, log_New_sinks. unfold Handle. cbn [fo_scope fo_sinks]. change (fo_scope (log_New eh th o)) with "". fold (record_scope ops r).
  generalize (option_sinks eh th o) as l, (record_scope ops r) as sc. intros l sc. induction l as [|[s h] l IH]; [done|].
  rewrite filter_cons. cbn [map omap list_omap fst snd]. rewrite IH.
  match goal with |- context [admits ?x ?y ?z] => replace (admits x y z) with (bool_decide (spec_accepts s (lr_Level r) sc))
    by (symmetry; exact (admits_spec s h (lr_Level r) sc)) end.
  by case_decide; [rewrite bool_decide_true|rewrite bool_decide_false].
Qed.

(** ** Splitting a text into messages *)
Lemma split_after_concat t cur : concat (split_after t cur) = cur ++ t.
Proof.
  revert cur. induction t as [|r t IH]; intros cur; cbn [split_after].
  - destruct cur; [done|]. cbn. by rewrite !app_nil_r.
  - destruct (r =? newline); [cbn [concat]|]; rewrite IH, <-?app_assoc; done.
Qed.

Lemma split_after_nonempty t cur : Forall (fun l => l <> []) (split_after t cur).
Proof.
  revert cur. induction t as [|r t IH]; intros cur; cbn [split_after].
  - destruct cur; repeat constructor; done.
  - destruct (r =? newline); [constructor; [by intros [_ ?]%app_eq_nil|]|]; apply IH.
Qed.

Definition message_ok (max : Z) (m : list rune) : Prop := m <> [] /\ runeLen m <= max.

Lemma chunk_loop_ok fuel t max :
  1 <= max -> (length t <= fuel)%nat -> concat (chunk_loop fuel t max) = t /\ Forall (message_ok max) (chunk_loop fuel t max).
Proof.
  intros Hmax. revert t. induction fuel as [|fuel IH]; intros [|r t] Hf; cbn [chunk_loop]; [repeat constructor|cbn in Hf; lia|repeat constructor|].
  set (n := if runeLen (r :: t) <? max then runeLen (r :: t) else max). assert (1 <= n <= max /\ n <= runeLen (r :: t)) as [[Hn1 Hn2] Hn3].
  { subst n. unfold runeLen, len. cbn [length]. destruct (Z.ltb_spec (Z.of_nat (S (length t))) max); lia. }
  destruct (IH (drop (Z.to_nat n) (r :: t))) as [Hc HF]; [rewrite length_drop; cbn [length] in *; lia|].
  cbn [concat]. rewrite Hc, take_drop. split; [done|]. constructor; [|done]. split.
  - intros E. apply (f_equal length) in E. rewrite length_take in E. unfold runeLen, len in Hn3. cbn [length] in *. lia.
  - unfold runeLen, len. rewrite length_take. lia.
Qed.

(** The loop's state after some lines. *)
Record split_ok (max : Z) (t : list rune) (s : split_state) : Prop := {
  so_text : concat (sl_out s) ++ sl_cur s = t;
  so_out : Forall (message_ok max) (sl_out s);
  so_len : sl_curRunes s = runeLen (sl_cur s);
  so_cur : runeLen (sl_cur s) <= max
}.

Lemma split_flush_ok max t s : 0 <= max -> split_ok max t s -> split_ok max t (split_flush s) /\ sl_cur (split_flush s) = [].
Proof.
  intros Hm [Ht Ho Hl Hc]. unfold split_flush. destruct (sl_cur s) as [|r cur] eqn:E.
  - split; [split; rewrite ?E; done|done].
  - split; [|done]. split; cbn [sl_out sl_cur sl_curRunes]; [|apply Forall_app_2; [done|]; by repeat constructor|done|unfold runeLen, len; cbn; lia].
    rewrite concat_app. cbn [concat]. by rewrite !app_nil_r.
Qed.

Lemma split_line_ok max t s line :
  1 <= max -> line <> [] -> split_ok max t s -> split_ok max (t ++ line) (split_line max s line).
Proof.
  intros Hm Hne Hs. unfold split_line. cbv zeta. destruct (Z.ltb_spec max (runeLen line)) as [Hlt|Hle].
  - destruct (split_flush_ok max t s ltac:(lia) Hs) as [[Ht Ho Hl Hc] Hcur]. rewrite Hcur in *.
    destruct (chunk_loop_ok (length line) line max Hm ltac:(lia)) as [Hcc HF].
    split; cbn [sl_out sl_cur sl_curRunes]; [|by apply Forall_app_2|done|done].
    rewrite concat_app, app_nil_r. unfold chunkRunes. rewrite Hcc, <-Ht, app_nil_r. done.
  - set (s' := if max <? sl_curRunes s + runeLen line then split_flush s else s). assert (split_ok max t s' /\ sl_curRunes s' + runeLen line <= max) as [[Ht Ho Hl Hc] Hr].
    { subst s'. destruct (Z.ltb_spec max (sl_curRunes s + runeLen line)); [|done].
      destruct (split_flush_ok max t s ltac:(lia) Hs) as [Hf Hcur]. split; [done|]. rewrite (so_len _ _ _ Hf), Hcur.
      unfold runeLen, len in *. cbn. lia. }
    split; cbn [sl_out sl_cur sl_curRunes]; [by rewrite app_assoc, Ht|done| |];
      unfold runeLen, len in *; rewrite length_app; lia.
Qed.

(** A text that is sent arrives whole, in messages of bounded length. *)
Lemma splitMessage_ok text max :
  1 <= max -> text <> [] -> concat (splitMessage text max) = text /\ Forall (message_ok max) (splitMessage text max).
Proof.
  intros Hm Hne. unfold splitMessage. destruct (Z.leb_spec (runeLen text) max).
  { cbn. rewrite app_nil_r. repeat constructor; done. }
  assert (forall ls t s, Forall (fun l => l <> []) ls -> split_ok max t s -> split_ok max (t ++ concat ls) (foldl (split_line max) s ls)) as Hfold.
  { induction ls as [|l ls IH]; intros t s Hls Hs; cbn [foldl concat]; [by rewrite app_nil_r|]. apply Forall_cons in Hls as [Hl Hls].
    rewrite app_assoc. apply IH; [done|]. by apply split_line_ok. }
  specialize (Hfold (split_after text []) [] {| sl_out := []; sl_cur := []; sl_curRunes := 0 |} (split_after_nonempty _ _)).
  rewrite split_after_concat in Hfold. cbn [app] in Hfold.
  assert (split_ok max [] {| sl_out := []; sl_cur := []; sl_curRunes := 0 |}) as H0
    by (split; cbn; [done|apply Forall_nil_2|done|unfold runeLen, len; cbn; lia]).
  destruct (split_flush_ok max text _ ltac:(lia) (Hfold H0)) as [[Ht Ho _ _] Hcur].
  rewrite Hcur, app_nil_r in Ht. done.
Qed.

(** ** The Telegram sink *)

(** What the sent text consists of: log lines and notes about dropped ones. *)
Inductive piece := PLine (line : list rune) | PNote (n : Z).
Definition piece_text (p : piece) : list rune := match p with PLine l => l | PNote n => drop_note n end.
Definition pieces_text (ps : list piece) : list rune := concat (map piece_text ps).
Definition piece_lines (ps : list piece) : list (list rune) := omap (fun p => match p with PLine l => Some l | _ => None end) ps.
Definition piece_dropped (ps : list piece) : Z := foldr (fun p n => match p with PNote k => k + n | _ => n end) 0 ps.

Lemma piece_dropped_app a b : piece_dropped (a ++ b) = piece_dropped a + piece_dropped b.
Proof. induction a as [|[l|n] a IH]; [done| |]; cbn [app piece_dropped foldr]; fold (piece_dropped (a ++ b)) (piece_dropped a); lia. Qed.

Section Sink.
Context (telegram : nat -> list rune -> reply).
Context (telegram_time : forall n text, 0 <= rp_took (telegram n text)).

Definition texts (ts : telegramSink) : list (list rune) := map po_text (tg_posted ts).

(** A sink that was given the lines [ls], [d] of which it could not queue; the
    pieces handed to [post] and those in the batch. *)
Record sink_ok (ls : list (list rune)) (d : Z) (sent : list piece) (batch : list (list rune)) (ts : telegramSink) : Prop := {
  sk_sent : concat (texts ts) = pieces_text sent;
  sk_batch : tg_buf ts = concat batch;
  sk_lines : piece_lines sent ++ batch ++ tg_ch ts = ls;
  sk_dropped : piece_dropped sent + tg_dropped ts = d;
  sk_nonneg : 0 <= tg_dropped ts /\ 0 <= piece_dropped sent;
  sk_messages : Forall (message_ok telegramMaxRunes) (texts ts)
}.

(** What posting some messages leaves of the rest of the sink. *)
Lemma posts_ok ms ts :
  let ts' := foldl (post telegram) ts ms in
  tg_ch ts' = tg_ch ts /\ tg_dropped ts' = tg_dropped ts /\ tg_buf ts' = tg_buf ts /\ tg_closing ts' = tg_closing ts /\ texts ts' = texts ts ++ ms.
Proof.
  revert ts. induction ms as [|m ms IH]; intros ts; cbn [foldl]; [by rewrite app_nil_r|]. specialize (IH (post telegram ts m)). cbv zeta in *.
  assert (forall ts, tg_ch (post telegram ts m) = tg_ch ts /\ tg_dropped (post telegram ts m) = tg_dropped ts /\ tg_buf (post telegram ts m) = tg_buf ts /\
    tg_closing (post telegram ts m) = tg_closing ts /\ texts (post telegram ts m) = texts ts ++ [m]) as Hp.
  { intros t. unfold post, texts. cbv zeta. destruct (0 <? _); cbn; by rewrite map_app. }
  destruct (Hp ts) as (-> & -> & -> & -> & E) in IH. rewrite E, <-app_assoc in IH. exact IH.
Qed.

Lemma pieces_text_app a b : pieces_text (a ++ b) = pieces_text a ++ pieces_text b.
Proof. unfold pieces_text. by rewrite map_app, concat_app. Qed.

Lemma pieces_of_lines batch : pieces_text (map PLine batch) = concat batch /\ piece_lines (map PLine batch) = batch /\ piece_dropped (map PLine batch) = 0.
Proof.
  induction batch as [|l b (H1 & H2 & H3)]; [done|]. unfold pieces_text, piece_lines in *. cbn [map concat omap list_omap piece_text piece_dropped foldr].
  rewrite H1. split; [done|]. split; [by rewrite H2|exact H3].
Qed.

Lemma drop_note_nonempty n : drop_note n <> [].
Proof. unfold drop_note. by intros [_ ?]%app_eq_nil. Qed.

Lemma tg_flush_ok ls d sent batch ts :
  sink_ok ls d sent batch ts ->
  exists sent', sink_ok ls d sent' [] (tg_flush telegram ts).
Proof.
  intros [Hs Hb Hl Hd Hn Hm]. set (note := if 0 <? tg_dropped ts then [PNote (tg_dropped ts)] else []).
  exists (sent ++ note ++ map PLine batch).
  destruct (pieces_of_lines batch) as (B1 & B2 & B3).
  assert (piece_lines note = [] /\ piece_dropped note = tg_dropped ts /\
    pieces_text note = (if 0 <? tg_dropped ts then drop_note (tg_dropped ts) else [])) as (N1 & N2 & N3).
  { subst note. unfold pieces_text. destruct (Z.ltb_spec 0 (tg_dropped ts)); cbn [map concat piece_text piece_dropped foldr]; [|split_and!; [done|lia|done]]. split_and!; [done|lia|apply app_nil_r]. }
  unfold tg_flush. cbv zeta. rewrite <-N3, Hb, <-B1, <-pieces_text_app.
  set (ms := match pieces_text (note ++ map PLine batch) with [] => [] | sb => splitMessage sb telegramMaxRunes end).
  set (ts0 := set_buf [] (set_queue (tg_ch ts) 0 ts)).
  assert (match pieces_text (note ++ map PLine batch) with [] => ts0 | _ => foldl (post telegram) ts0 (splitMessage (pieces_text (note ++ map PLine batch)) telegramMaxRunes) end
    = foldl (post telegram) ts0 ms) as ->. { subst ms. by destruct (pieces_text (note ++ map PLine batch)). }
  assert (concat ms = pieces_text (note ++ map PLine batch) /\ Forall (message_ok telegramMaxRunes) ms) as [M1 M2].
  { subst ms. destruct (pieces_text (note ++ map PLine batch)) as [|r t]; [split; constructor|]. by apply splitMessage_ok. }
  destruct (posts_ok ms ts0) as (P1 & P2 & P3 & P4 & P5). cbv zeta in *.
  split; rewrite ?P1, ?P2, ?P3, ?P5; cbn [ts0 set_buf set_queue tg_ch tg_dropped tg_buf].
  - rewrite concat_app, M1, (pieces_text_app sent). f_equal. exact Hs.
  - done.
  - unfold piece_lines in *. rewrite !omap_app, N1, B2. rewrite <-app_assoc. exact Hl.
  - rewrite !piece_dropped_app, N2, B3. lia.
  - rewrite !piece_dropped_app, N2, B3. lia.
  - by apply Forall_app_2.
Qed.

(** A flush neither reads nor changes the queue. *)
Lemma tg_flush_frame ts : tg_ch (tg_flush telegram ts) = tg_ch ts /\ tg_dropped (tg_flush telegram ts) = 0 /\ tg_closing (tg_flush telegram ts) = tg_closing ts.
Proof.
  unfold tg_flush. cbv zeta. destruct (_ ++ _) as [|r t]; [done|].
  by destruct (posts_ok (splitMessage (r :: t) telegramMaxRunes) (set_buf [] (set_queue (tg_ch ts) 0 ts))) as (-> & -> & _ & -> & _).
Qed.

Lemma tg_flush_queue q ts : tg_flush telegram (set_queue q (tg_dropped ts) ts) = set_queue q 0 (tg_flush telegram ts).
Proof.
  assert (forall ms ts1, foldl (post telegram) (set_queue q 0 ts1) ms = set_queue q 0 (foldl (post telegram) ts1 ms)) as Hf.
  { induction ms as [|m ms IH]; intros ts1; [done|]. cbn [foldl]. rewrite <-IH. f_equal. unfold post. cbn [set_queue tg_requests tg_clock].
    cbv zeta. by destruct (0 <? _). }
  unfold tg_flush. cbn [set_queue tg_dropped tg_buf]. cbv zeta. destruct (_ ++ _) as [|r t]; [done|].
  exact (Hf _ (set_buf [] (set_queue (tg_ch ts) 0 ts))).
Qed.

(** A line taken from the queue. *)
Lemma accumulate_ok ls d sent batch b ts :
  sink_ok ls d sent batch (set_queue (b :: tg_ch ts) (tg_dropped ts) ts) ->
  exists sent' batch', sink_ok ls d sent' batch' (accumulate telegram ts b) /\ tg_ch (accumulate telegram ts b) = tg_ch ts /\
    tg_closing (accumulate telegram ts b) = tg_closing ts.
Proof.
  intros Hok. unfold accumulate. cbv zeta.
  assert (forall sent batch ts', sink_ok ls d sent batch (set_queue (b :: tg_ch ts) (tg_dropped ts') ts') -> tg_ch ts' = tg_ch ts -> tg_closing ts' = tg_closing ts ->
    let ts2 := set_buf (tg_buf ts' ++ b) ts' in
    exists sent' batch', sink_ok ls d sent' batch' (if telegramBatchBytes <=? byte_len (tg_buf ts2) then tg_flush telegram ts2 else ts2) /\
    tg_ch (if telegramBatchBytes <=? byte_len (tg_buf ts2) then tg_flush telegram ts2 else ts2) = tg_ch ts /\
    tg_closing (if telegramBatchBytes <=? byte_len (tg_buf ts2) then tg_flush telegram ts2 else ts2) = tg_closing ts) as Happ.
  { intros sent0 batch0 ts' [Hs Hb Hl Hd Hn Hm] Hch Hcl. cbv zeta. cbn in *.
    assert (sink_ok ls d sent0 (batch0 ++ [b]) (set_buf (tg_buf ts' ++ b) ts')) as Ha.
    { split; cbn; try done; [by rewrite concat_app, Hb; cbn; rewrite app_nil_r|]. rewrite <-app_assoc. cbn [app]. by rewrite Hch. }
    destruct (_ <=? _); [|by exists sent0, (batch0 ++ [b])]. destruct (tg_flush_ok _ _ _ _ _ Ha) as (sent' & Hf).
    destruct (tg_flush_frame (set_buf (tg_buf ts' ++ b) ts')) as (Hc & _ & Hc'). exists sent', []. rewrite Hc, Hc'. by split. }
  destruct (_ && _); [|by apply (Happ sent batch)].
  destruct (tg_flush_ok _ _ _ _ _ Hok) as (sent' & Hf).
  destruct (tg_flush_frame ts) as (Hch & Hdr & Hcl'). rewrite tg_flush_queue in Hf. apply (Happ sent' []); [by rewrite Hdr|done|done].
Qed.

Lemma tg_drain_ok fuel ls d sent batch ts :
  (length (tg_ch ts) <= fuel)%nat -> sink_ok ls d sent batch ts ->
  exists sent', sink_ok ls d sent' [] (tg_drain telegram fuel ts) /\ tg_ch (tg_drain telegram fuel ts) = [] /\ tg_dropped (tg_drain telegram fuel ts) = 0 /\
    tg_closing (tg_drain telegram fuel ts) = tg_closing ts.
Proof.
  revert sent batch ts. induction fuel as [|fuel IH]; intros sent batch ts Hf Hok; cbn [tg_drain].
  - destruct (tg_flush_ok _ _ _ _ _ Hok) as (sent' & H1), (tg_flush_frame ts) as (H2 & H3 & H4). exists sent'. rewrite H2. split; [done|].
    split; [|done]. destruct (tg_ch ts); [done|cbn in Hf; lia].
  - unfold tg_take. destruct (tg_ch ts) as [|b ch] eqn:E.
    + destruct (tg_flush_ok _ _ _ _ _ Hok) as (sent' & H1), (tg_flush_frame ts) as (H2 & H3 & H4). exists sent'. by rewrite H2, E.
    + destruct (accumulate_ok ls d sent batch b (set_queue ch (tg_dropped ts) ts)) as (sent' & batch' & Hok' & Hch' & Hcl'); [cbn; rewrite <-E; by destruct ts|].
      change (tg_closing ts) with (tg_closing (set_queue ch (tg_dropped ts) ts)). rewrite <-Hcl'.
      apply (IH sent' batch'); [|done]. rewrite Hch'. cbn in *. lia.
Qed.

(** Lines that were queued, and how many were not, after some events. *)
Definition written_step (acc : list (list rune) * Z * telegramSink) (e : tg_event) : list (list rune) * Z * telegramSink :=
  let '(ls, d, ts) := acc in
  match e with
  | TgWrite line => if len (tg_ch ts) <? telegramQueueSize then (ls ++ [line], d, tg_step telegram ts e) else (ls, d + 1, tg_step telegram ts e)
  | _ => (ls, d, tg_step telegram ts e)
  end.

Lemma written_sink es acc : (foldl written_step acc es).2 = foldl (tg_step telegram) acc.2 es.
Proof.
  revert acc. induction es as [|e es IH]; intros [[ls d] ts]; [done|]. cbn [foldl]. rewrite IH. f_equal.
  destruct e; cbn; [by destruct (_ <? _)|done|done|done].
Qed.

Lemma written_ok es :
  len es < 2 ^ 63 ->
  let '(ls, d, ts) := foldl written_step ([], 0, newTelegramSink) es in exists sent batch, sink_ok ls d sent batch ts /\ 0 <= d <= len es.
Proof.
  induction es as [|e es IH] using rev_ind; intros Hlen.
  - exists [], []. split; [|unfold len; cbn; lia]. split; cbn; try done.
  - unfold len in *. rewrite length_app in Hlen. cbn [length] in Hlen. rewrite foldl_app. cbn [foldl].
    destruct (foldl written_step _ es) as [[ls d] ts]. destruct IH as (sent & batch & Hok & Hd); [lia|]. rewrite length_app. cbn [length].
    unfold written_step. destruct e as [line| | |now]; cbn [tg_step].
    + unfold chan_Write. destruct Hok as [Hs Hb Hl Hdr Hn Hm]. destruct (Z.ltb_spec (len (tg_ch ts)) telegramQueueSize).
      * exists sent, batch. split; [|lia]. split; cbn; try done. by rewrite <-Hl, <-!app_assoc.
      * exists sent, batch. split; [|lia]. rewrite i64_small by lia. split; cbn; try done; lia.
    + unfold tg_take. destruct (tg_ch ts) as [|b ch] eqn:E; [exists sent, batch; split; [done|lia]|].
      destruct (accumulate_ok ls d sent batch b (set_queue ch (tg_dropped ts) ts))
        as (sent' & batch' & Hok' & _); [cbn; rewrite <-E; by destruct ts|]. exists sent', batch'. split; [done|lia].
    + destruct (tg_closing ts); [exists sent, batch; split; [done|lia]|].
      destruct (tg_flush_ok _ _ _ _ _ Hok) as (sent' & Hok'). exists sent', []. split; [done|lia].
    + exists sent, batch. split; [|lia]. destruct (tg_closing ts); [done|]. by destruct Hok.
Qed.

(** ** When messages are posted *)

(** A property of the posted messages and of the clock that one post keeps, the worker keeps. *)
Definition stable (P : telegramSink -> Prop) : Prop :=
  (forall ts m, P ts -> P (post telegram ts m)) /\ (forall ts ch d, P ts -> P (set_queue ch d ts)) /\ (forall ts b, P ts -> P (set_buf b ts)).

Lemma flush_stable P ts : stable P -> P ts -> P (tg_flush telegram ts).
Proof.
  intros (Hp & Hq & Hb) H. unfold tg_flush. cbv zeta. assert (P (set_buf [] (set_queue (tg_ch ts) 0 ts))) as H0 by auto.
  destruct (_ ++ _) as [|r t]; [done|]. revert H0. generalize (set_buf [] (set_queue (tg_ch ts) 0 ts)).
  induction (splitMessage (r :: t) telegramMaxRunes) as [|m ms IH]; cbn [foldl]; auto.
Qed.

Lemma accumulate_stable P ts b : stable P -> P ts -> P (accumulate telegram ts b).
Proof.
  intros Hs H. pose proof Hs as (_ & _ & Hb). pose proof (fun ts => flush_stable P ts Hs) as Hf. unfold accumulate. cbv zeta.
  destruct (_ && _); destruct (_ <=? _); auto.
Qed.

Lemma drain_stable P fuel ts : stable P -> P ts -> P (tg_drain telegram fuel ts).
Proof.
  intros Hs. revert ts. induction fuel as [|fuel IH]; intros ts H; cbn [tg_drain]; [by apply flush_stable|].
  unfold tg_take. destruct (tg_ch ts) as [|b ch]; [by apply flush_stable|]. apply IH, accumulate_stable; [done|]. by apply Hs.
Qed.

Lemma step_stable P ts e : stable P -> (forall ts now, tg_closing ts = None -> P ts -> P (set_closing now ts)) -> P ts -> P (tg_step telegram ts e).
Proof.
  intros Hs Hc H. destruct e as [line| | |now]; cbn [tg_step].
  - unfold chan_Write. destruct (_ <? _); by apply Hs.
  - unfold tg_take. destruct (tg_ch ts) as [|b ch]; [done|]. apply accumulate_stable; [done|]. by apply Hs.
  - destruct (tg_closing ts); [done|]. by apply flush_stable.
  - destruct (tg_closing ts) eqn:E; [done|]. by apply Hc.
Qed.

Lemma run_stable P ts es : stable P -> (forall ts now, tg_closing ts = None -> P ts -> P (set_closing now ts)) -> P ts -> P (tg_run telegram ts es).
Proof.
  intros Hs Hc H. unfold tg_run. cbv zeta. assert (P (foldl (tg_step telegram) ts es)) as Hf.
  { revert ts H. induction es as [|e es IH]; intros ts H; cbn [foldl]; [done|]. by apply IH, step_stable. }
  destruct (tg_closing _); [|done]. by apply drain_stable.
Qed.

Lemma postOnce_bounds resp : 0 < postOnce resp -> exists body, resp = Some (429, body).
Proof.
  unfold postOnce. destruct resp as [[st body]|]; [|lia]. destruct (Z.eqb_spec st 200); [lia|]. destruct (Z.eqb_spec st 429) as [->|]; [by eexists|lia].
Qed.

Lemma bounded_took n text : 0 <= rp_took (bounded_reply (telegram n text)) <= telegramHTTPTimeout.
Proof using telegram_time.
  pose proof (telegram_time n text). unfold bounded_reply. destruct (Z.ltb_spec telegramHTTPTimeout (rp_took (telegram n text))); cbn [rp_took]; [|lia].
  unfold telegramHTTPTimeout, Second in *. lia.
Qed.

Lemma post_clock ts m :
  exists taken, tg_posted (post telegram ts m) = tg_posted ts ++ [{| po_text := m; po_taken := taken; po_at := tg_clock (post telegram ts m) |}] /\
    tg_clock ts <= tg_clock (post telegram ts m).
Proof using telegram_time.
  pose proof (bounded_took (tg_requests ts) m). pose proof (bounded_took (S (tg_requests ts)) m). unfold post. cbv zeta.
  destruct (Z.ltb_spec 0 (postOnce (rp_answer (bounded_reply (telegram (tg_requests ts) m)))));
    cbn [tg_posted tg_clock]; eexists; (split; [reflexivity|]); [|lia].
  destruct (_ <? _); unfold telegramMaxBackoff, Second; lia.
Qed.

(** Messages are posted in the order of time, none later than the worker's clock. *)
Definition timed (ts : telegramSink) : Prop :=
  StronglySorted (fun a b => po_at a <= po_at b) (tg_posted ts) /\ Forall (fun m => po_at m <= tg_clock ts) (tg_posted ts).

Lemma timed_stable : stable timed.
Proof using telegram_time.
  split_and!; [|by intros ts ? ? [? ?]|by intros ts ? [? ?]]. intros ts m [Hs Hf]. destruct (post_clock ts m) as (taken & E & Hc).
  unfold timed. rewrite E. split.
  - clear E. induction Hs as [|a l Hs IH Ha]; cbn [app]; [repeat constructor|]. apply Forall_cons in Hf as [Ha' Hf].
    constructor; [by apply IH|]. apply Forall_app_2; [done|]. repeat constructor. cbn. lia.
  - apply Forall_app_2; [eapply Forall_impl; [exact Hf|]; cbn; intros; lia|]. repeat constructor. cbn. lia.
Qed.

Lemma run_timed es : timed (tg_run telegram newTelegramSink es).
Proof using telegram_time.
  apply run_stable; [apply timed_stable| |by repeat constructor]. intros ts now _ [Hs Hf]. split; [done|]. cbn.
  eapply Forall_impl; [exact Hf|]. cbn. intros. lia.
Qed.

(** The worker's clock is past the closing only because of a post. *)
Definition clocked (ts : telegramSink) : Prop :=
  (exists m, m ∈ tg_posted ts /\ po_at m = tg_clock ts) \/ tg_clock ts <= match tg_closing ts with None => 0 | Some now => Z.max 0 now end.

Lemma run_clocked es : clocked (tg_run telegram newTelegramSink es).
Proof using telegram_time.
  apply run_stable; [split_and!; [|by intros..]| |by right].
  - intros ts m _. left. destruct (post_clock ts m) as (taken & -> & _). eexists. split; [apply elem_of_app; right; by apply list_elem_of_singleton|done].
  - unfold clocked, set_closing. cbn. intros ts now E H. rewrite E in H. destruct H as [(m & Hm & Hat)|H]; [|right; lia].
    destruct (Z.le_gt_cases now (tg_clock ts)); [left; exists m; split; [done|lia]|right; lia].
Qed.

(** Telegram takes every message: at once, or on the second request when it asked for one. *)
Definition telegram_accepts : Prop := forall n text,
  let answer k := rp_answer (bounded_reply (telegram k text)) in
  accepted (answer n) = true \/ (0 < postOnce (answer n) /\ accepted (answer (S n)) = true).

Lemma run_taken es : telegram_accepts -> Forall (fun m => po_taken m = true) (tg_posted (tg_run telegram newTelegramSink es)).
Proof.
  intros Ha. apply (run_stable (fun ts => Forall (fun m => po_taken m = true) (tg_posted ts))); [split_and!; [|by intros..]|done|constructor].
  intros ts m H. unfold post. cbv zeta. specialize (Ha (tg_requests ts) m). cbv zeta in Ha.
  destruct (Z.ltb_spec 0 (postOnce (rp_answer (bounded_reply (telegram (tg_requests ts) m))))) as [Hb|Hb]; cbn [tg_posted];
    (apply Forall_app_2; [done|]; repeat constructor; cbn [po_taken]); destruct Ha as [Ha|[? Ha]]; try done; [|lia].
  apply postOnce_bounds in Hb as [body E]. by rewrite E in Ha.
Qed.

(** In an ordered list, those up to a time come first. *)
Lemma sorted_split (l : list posted) t :
  StronglySorted (fun a b => po_at a <= po_at b) l ->
  exists late, l = List.filter (fun m => po_at m <=? t) l ++ late /\ Forall (fun m => t < po_at m) late.
Proof.
  induction 1 as [|a l Hs (late & IH & Hl) Ha]; [by exists []|]. cbn [List.filter]. destruct (Z.leb_spec (po_at a) t).
  - exists late. cbn [app]. by rewrite <-IH.
  - exists (a :: l). assert (Forall (fun m => t < po_at m) l) as Hlate by (eapply Forall_impl; [exact Ha|]; cbn; intros; lia).
    assert (List.filter (fun m => po_at m <=? t) l = []) as ->; [|by split; [|constructor]].
    clear -Hlate. induction Hlate as [|b l Hb _ IH]; [done|]. cbn. by destruct (Z.leb_spec (po_at b) t); [lia|].
Qed.

(** Exactly the posts that take too long are lost to a closing that gives up. *)
Lemma Close_posted_spec es now :
  0 <= now -> tg_closing (tg_run telegram newTelegramSink es) = Some now ->
  let ts := tg_run telegram newTelegramSink es in
  exists late, tg_posted ts = Close_posted now ts ++ late /\ Forall (fun m => now + telegramCloseWait < po_at m) late /\
    (Close_waited now ts = true <-> late = []).
Proof using telegram_time.
  intros Hnow Hcl. cbv zeta. destruct (run_timed es) as [Hs Hf]. pose proof (run_clocked es) as Hc. unfold clocked in Hc. rewrite Hcl in Hc.
  unfold Close_posted, Close_waited. set (ts := tg_run telegram newTelegramSink es) in *.
  destruct (Z.leb_spec (tg_clock ts) (now + telegramCloseWait)) as [Hw|Hw]; [exists []; by rewrite app_nil_r|].
  destruct (sorted_split (tg_posted ts) (now + telegramCloseWait) Hs) as (late & E & Hl). exists late. split_and!; [done|done|]. split; [done|]. intros ->.
  destruct Hc as [(m & Hm & Hat)|Hc]; [|unfold telegramCloseWait, telegramHTTPTimeout, Second in Hw; lia].
  rewrite E, app_nil_r, list_elem_of_In, filter_In in Hm. destruct Hm as [_ Hm%Z.leb_le]. lia.
Qed.

(** [telegramCloseWait] does what its comment asks for: a worker that is idle when
    it is closed and has one request left to make, which is not rate limited, is
    waited for, however slow the request is. *)
Lemma close_waits_for_a_slow_post fuel ts now :
  tg_clock ts <= now -> (forall n text, postOnce (rp_answer (bounded_reply (telegram n text))) <= 0) ->
  (tg_requests (tg_drain telegram fuel ts) <= S (tg_requests ts))%nat ->
  Close_waited now (tg_drain telegram fuel ts) = true.
Proof using telegram_time.
  intros Hc Hno Hr. set (P t := (tg_requests ts <= tg_requests t)%nat /\
    tg_clock t <= tg_clock ts + telegramHTTPTimeout * (Z.of_nat (tg_requests t) - Z.of_nat (tg_requests ts))).
  assert (P (tg_drain telegram fuel ts)) as [Hp1 Hp2].
  { apply drain_stable; [split_and!; [|by intros..]|unfold P; lia]. unfold P. intros t m [H1 H2]. unfold post. cbv zeta.
    specialize (Hno (tg_requests t) m). pose proof (bounded_took (tg_requests t) m).
    destruct (Z.ltb_spec 0 (postOnce (rp_answer (bounded_reply (telegram (tg_requests t) m))))); [lia|]. cbn [tg_requests tg_clock].
    rewrite Nat2Z.inj_succ. unfold telegramHTTPTimeout in *. nia. }
  unfold Close_waited. apply Z.leb_le. unfold telegramCloseWait, telegramHTTPTimeout, Second in *. nia.
Qed.
End Sink.


(** An example: Telegram takes the first message, asks to wait before it takes the
    second, and the network fails afterwards. *)
Definition ex_telegram (n : nat) (text : list rune) : reply :=
  match n with
  | 0%nat | 2%nat => {| rp_took := 1 * Second; rp_answer := Some (200, None) |}
  | 1%nat => {| rp_took := 1 * Second; rp_answer := Some (429, Some 3) |}
  | _ => {| rp_took := 60 * Second; rp_answer := None |}
  end.

Definition ex_tg_events : list tg_event :=
  [TgWrite (runes_of "first line"); TgTake; TgTick; TgWrite (runes_of "second"); TgTake; TgTick; TgWrite (repeat 97 3500);
   TgQuit (6 * Second); TgTake; TgWrite (runes_of "written while it drains")].


(** Closing the sink any number of times never closes [quit] twice. *)
Lemma tg_Close_any_times n :
  Nat.iter n (fun acc => acc ≫= tg_Close) (Some tg_quit_new) = Some (if (n =? 0)%nat then tg_quit_new else {| tq_once := true; tq_closed := true |}).
Proof. induction n as [|[|n] IH]; [done..|]. change (Nat.iter (S (S n)) ?f ?x) with (f (Nat.iter (S n) f x)). by rewrite IH. Qed.

(** The first error of a list of closers is what closing them returns. *)
Lemma multiCloser_Close_first {E} (closed : list (result E unit)) :
  multiCloser_Close closed = match List.find (fun r => negb (is_ok r)) closed with Some (Err e) => Err e | _ => Ok tt end.
Proof.
  unfold multiCloser_Close. induction closed as [|[[]|e] closed IH]; [done|exact IH|]. cbn [foldl List.find is_ok negb].
  clear IH. induction closed as [|a closed IH]; [done|exact IH].
Qed.
