(* ===== verification/Config.v ===== *)
(** * Agent configuration (internal/config/config.go) and what the agent makes of it
      (cmd/flowspec-vpp-agent/main.go)

    The configuration types, defaults and validation, and the functions of the
    command that turn a validated configuration into the components' options.
    YAML decoding is a library: a parameter.  Durations are nanosecond counts. *)
From S2P Require Import Prelude GoText Netip Flowspec GoParse Packet Float64 DetTypes VppTypes Bgp BgpServer DetCompile VppStats Logging.
From Stdlib Require Import Ascii.
#[local] Open Scope Z_scope.

(** ** Types *)
Record ConfigVPP := { vc_Socket : string; vc_StatsSocket : string }.

Record ConfigPeer := { cp_Address : string; cp_PeerASN : Z; cp_Port : Z; cp_Passive : bool; cp_Receive : option bool; cp_Send : bool }.

Record ConfigBGP := { cb_Listen : string; cb_RouterID : string; cb_ASN : Z; cb_Peers : list ConfigPeer }.

Record Interfaces := { ic_Mode : string; ic_List : list string; ic_Direction : string }.

Record SFlow := { sc_Listen : string }.
Record PSample := { pc_Group : Z }.
Record Collector := { co_SFlow : option SFlow; co_PSample : option PSample }.

Record Ring := { rg_Resolution : Z; rg_Duration : Z }.
Record VPPStats := { vs_Interval : Z; vs_Fine : Ring; vs_Medium : Ring; vs_Coarse : Ring }.

Record Detector := {
  dt_DryRun : bool; dt_RulesDir : string; dt_BuiltinRules : option bool; dt_RulesEnabled : list string;
  dt_Collector : Collector; dt_VPPStats : option VPPStats; dt_SampleQueue : Z; dt_EventQueue : Z
}.

Record ScopeSet := { ss_Set : bool; ss_All : bool; ss_Scopes : list string }.
Record StderrLog := { sl_Level : string; sl_Scope : ScopeSet; sl_Format : string }.
Record TelegramLog := { tl_BotToken : string; tl_ChatID : string; tl_Level : string; tl_Scope : ScopeSet; tl_Format : string }.
Record Log := { lg_Stderr : option StderrLog; lg_Telegram : option TelegramLog }.

Record Config := {
  cf_VPP : ConfigVPP; cf_BGP : ConfigBGP; cf_ACL : Interfaces; cf_MetricsListen : string;
  cf_Detector : option Detector; cf_Persist : string; cf_Log : Log
}.

Definition Receives (p : ConfigPeer) : bool := default true (cp_Receive p).
Definition BGPEnabled (c : Config) : bool := negb (len (cb_Peers (cf_BGP c)) =? 0).
Definition DetectorEnabled (c : Config) : bool := match cf_Detector c with Some _ => true | None => false end.
Definition VPPStatsEnabled (d : Detector) : bool := match dt_VPPStats d with Some _ => true | None => false end.
Definition BuiltinRulesEnabled (d : Detector) : bool := default true (dt_BuiltinRules d).

Definition CollectorMode (d : Detector) : string :=
  match co_SFlow (dt_Collector d), co_PSample (dt_Collector d) with
  | Some _, _ => "sflow"
  | None, Some _ => "psample"
  | None, None => ""
  end.

(** ** Log options *)

(** [ScopeSet.UnmarshalYAML], given the node decoded as a string or as a list. *)
Definition ScopeSet_Unmarshal (one : option string) (many : option (list string)) : result gotext ScopeSet :=
  match one with
  | Some s =>
      let t := ToLower (TrimSpace s) in
      Ok (if String.eqb t "all" then {| ss_Set := true; ss_All := true; ss_Scopes := [] |}
          else if one_of t ["none"; ""] then {| ss_Set := true; ss_All := false; ss_Scopes := [] |}
          else {| ss_Set := true; ss_All := false; ss_Scopes := [s] |})
  | None =>
      match many with
      | Some l => Ok {| ss_Set := true; ss_All := false; ss_Scopes := l |}
      | None => Err (plain "scope: expected 'all', 'none', a scope name, or a list of names")
      end
  end.

Definition scope_resolve (s : ScopeSet) : bool * list string :=
  if negb (ss_Set s) || ss_All s then (true, []) else (false, ss_Scopes s).

Definition parseLevel (s : string) : Z :=
  let t := ToLower s in
  if String.eqb t "debug" then LevelDebug
  else if String.eqb t "warn" then LevelWarn
  else if String.eqb t "error" then LevelError
  else LevelInfo.

Definition sinkSpec (level format : string) (scope : ScopeSet) : SinkSpec :=
  let '(all, scopes) := scope_resolve scope in
  {| sp_Level := parseLevel level; sp_All := all; sp_Scopes := scopes; sp_Format := if String.eqb format "" then "text" else format |}.

(** [Log.Options] *)
Definition Log_Options (l : Log) : LogOptions :=
  {| lo_Stderr := match lg_Stderr l with
                  | None => {| sp_Level := LevelInfo; sp_All := true; sp_Scopes := []; sp_Format := "text" |}
                  | Some s => sinkSpec (sl_Level s) (sl_Format s) (sl_Scope s)
                  end;
     lo_Telegram := (fun t => {| tgs_Sink := sinkSpec (tl_Level t) (tl_Format t) (tl_Scope t);
                                 tgs_BotToken := tl_BotToken t; tgs_ChatID := tl_ChatID t |}) <$> lg_Telegram l |}.

(** ** Defaults *)
Definition config_defaults : Config :=
  {| cf_VPP := {| vc_Socket := "/run/vpp/api.sock"; vc_StatsSocket := "/run/vpp/stats.sock" |};
     cf_BGP := {| cb_Listen := "0.0.0.0:10179"; cb_RouterID := ""; cb_ASN := 0; cb_Peers := [] |};
     cf_ACL := {| ic_Mode := "all"; ic_List := []; ic_Direction := "ingress" |};
     cf_MetricsListen := ""; cf_Detector := None; cf_Persist := "";
     cf_Log := {| lg_Stderr := None; lg_Telegram := None |} |}.

Definition default_sflow (s : SFlow) : SFlow := if String.eqb (sc_Listen s) "" then {| sc_Listen := "0.0.0.0:6343" |} else s.

Definition default_stats (v : VPPStats) : VPPStats :=
  if vs_Interval v <=? 0 then {| vs_Interval := 1000000000; vs_Fine := vs_Fine v; vs_Medium := vs_Medium v; vs_Coarse := vs_Coarse v |} else v.

Definition detector_defaults (d : Detector) : Detector :=
  {| dt_DryRun := dt_DryRun d; dt_RulesDir := dt_RulesDir d; dt_BuiltinRules := dt_BuiltinRules d; dt_RulesEnabled := dt_RulesEnabled d;
     dt_Collector := {| co_SFlow := default_sflow <$> co_SFlow (dt_Collector d); co_PSample := co_PSample (dt_Collector d) |};
     dt_VPPStats := default_stats <$> dt_VPPStats d;
     dt_SampleQueue := if dt_SampleQueue d =? 0 then 65536 else dt_SampleQueue d;
     dt_EventQueue := if dt_EventQueue d =? 0 then 1024 else dt_EventQueue d |}.

Definition applyDetectorDefaults (c : Config) : Config :=
  {| cf_VPP := cf_VPP c; cf_BGP := cf_BGP c; cf_ACL := cf_ACL c; cf_MetricsListen := cf_MetricsListen c;
     cf_Detector := detector_defaults <$> cf_Detector c; cf_Persist := cf_Persist c; cf_Log := cf_Log c |}.

(** ** Addresses with a port *)

(** [net.SplitHostPort] *)
Definition SplitHostPort (hp : string) : result gotext (string * string) :=
  match cut_last ":" hp with
  | None => Err (plain "missing port in address")
  | Some (before, port) =>
      match hp with
      | String "["%char inner =>
          match cut "]" hp with
          | None => Err (plain "missing ']' in address")
          | Some (b, after) =>
              if String.eqb after "" then Err (plain "missing port in address")
              else if String.eqb before (b +:+ "]") then
                if str_has "[" inner then Err (plain "unexpected '[' in address")
                else if str_has "]" after then Err (plain "unexpected ']' in address")
                else Ok (drop_str 1 b, port)
              else if HasPrefix after ":" then Err (plain "too many colons in address")
              else Err (plain "missing port in address")
          end
      | _ =>
          if str_has ":" before then Err (plain "too many colons in address")
          else if str_has "[" hp then Err (plain "unexpected '[' in address")
          else if str_has "]" hp then Err (plain "unexpected ']' in address")
          else Ok (before, port)
      end
  end.

Definition splitHostPort (hp field : string) : result cerror (string * Z) :=
  _ ← reject (String.eqb hp "") (Text "%s must be set" [AStr field]);
  '(host, portStr) ← wrapc (Text "%s %q must be host:port: %w" [AStr field; AStr hp]) (SplitHostPort hp);
  match Atoi portStr with
  | None => Err [Text "%s %q has invalid port" [AStr field; AStr hp]]
  | Some port =>
      if (port <? 1) || (65535 <? port) then Err [Text "%s %q has invalid port" [AStr field; AStr hp]] else Ok (host, port)
  end.

Definition validateHostPort (hp field : string) : result cerror unit := _ ← splitHostPort hp field; Ok tt.

(** [netip.ParseAddr]; an IPv6 zone is checked and left out. *)
Definition parse_addr (s : string) : option Addr :=
  match addr_kind s with
  | Some ":"%char =>
      match cut "%" s with
      | Some (_, "") => None
      | Some (a, _) => parseIPv6 a
      | None => ParseAddr s
      end
  | _ => ParseAddr s
  end.

Definition validateBGPListen (hp : string) : result cerror unit :=
  '(host, _) ← splitHostPort hp "bgp.listen";
  _ ← reject (String.eqb host "") (Text "bgp.listen %q must include an IP address" [AStr hp]);
  match parse_addr host with
  | None => Err [Text "bgp.listen host %q must be an IP address: %w" [AStr host]]
  | Some _ => Ok tt
  end.

(** ** Validation *)
Definition validateLogSink (name level format : string) (scope : ScopeSet) : result cerror unit :=
  _ ← reject (negb (String.eqb level "") && negb (one_of (ToLower level) ["debug"; "info"; "warn"; "error"]))
        (Text "%s.level %q must be debug|info|warn|error" [AStr name; AStr level]);
  _ ← reject (negb (String.eqb format "") && negb (one_of (ToLower format) ["text"; "json"]))
        (Text "%s.format %q must be text|json" [AStr name; AStr format]);
  match filter (fun s => Valid s = false) (ss_Scopes scope) with
  | [] => Ok tt
  | s :: _ => Err [Text "%s.scope %q is not a known scope (%s)" [AStr name; AStr s]]
  end.

Definition validateLog (l : Log) : result cerror unit :=
  _ ← (match lg_Stderr l with
       | None => Ok tt
       | Some s => validateLogSink "log.stderr" (sl_Level s) (sl_Format s) (sl_Scope s)
       end);
  match lg_Telegram l with
  | None => Ok tt
  | Some t =>
      _ ← validateLogSink "log.telegram" (tl_Level t) (tl_Format t) (tl_Scope t);
      _ ← reject (String.eqb (tl_BotToken t) "") (plain "log.telegram.bot_token must be set");
      reject (String.eqb (tl_ChatID t) "") (plain "log.telegram.chat_id must be set")
  end.

(** The loop over the peers; [i] is the index of the first. *)
Fixpoint validate_peers (i : Z) (ps : list ConfigPeer) : result cerror unit :=
  match ps with
  | [] => Ok tt
  | p :: ps' =>
      _ ← (match parse_addr (cp_Address p) with
           | None => Err [Text "bgp.peers[%d].address %q: %w" [AInt i; AStr (cp_Address p)]]
           | Some _ => Ok tt
           end);
      _ ← reject (cp_PeerASN p =? 0) (Text "bgp.peers[%d].peer_asn must be set" [AInt i]);
      _ ← reject (negb (Receives p) && negb (cp_Send p)) (Text "bgp.peers[%d] has receive=false and send=false: nothing to do" [AInt i]);
      validate_peers (i + 1) ps'
  end.

Definition validate_bgp (b : ConfigBGP) : result cerror unit :=
  _ ← validateBGPListen (cb_Listen b);
  _ ← reject (cb_ASN b =? 0) (plain "bgp.asn must be set when bgp.peers are configured");
  _ ← reject (String.eqb (cb_RouterID b) "") (plain "bgp.router_id must be set when bgp.peers are configured");
  _ ← (match parse_addr (cb_RouterID b) with
       | None => Err [Text "bgp.router_id %q: %w" [AStr (cb_RouterID b)]]
       | Some a => reject (negb (Is4 a)) (Text "bgp.router_id %q must be an IPv4 address" [AStr (cb_RouterID b)])
       end);
  validate_peers 0 (cb_Peers b).

Definition validate_acl (a : Interfaces) : result cerror unit :=
  _ ← (if String.eqb (ic_Mode a) "all" then Ok tt
       else if String.eqb (ic_Mode a) "list" then
         reject (len (ic_List a) =? 0) (plain "acl.interfaces.mode=list requires a non-empty acl.interfaces.list")
       else Err [Text "acl.interfaces.mode %q must be 'all' or 'list'" [AStr (ic_Mode a)]]);
  reject (negb (one_of (ic_Direction a) ["ingress"; "egress"]))
    (Text "acl.interfaces.direction %q must be 'ingress' or 'egress'" [AStr (ic_Direction a)]).

Definition validate_collector (c : Collector) : result cerror unit :=
  match co_SFlow c, co_PSample c with
  | Some _, Some _ => Err [plain "detector.collector: set exactly one of sflow / psample, not both"]
  | None, None => Err [plain "detector.collector: one of sflow / psample must be configured"]
  | Some s, None =>
      _ ← reject (String.eqb (sc_Listen s) "") (plain "detector.collector.sflow.listen must be set");
      validateHostPort (sc_Listen s) "detector.collector.sflow.listen"
  | None, Some _ => Ok tt
  end.

Definition validate_detector (d : Detector) : result cerror unit :=
  _ ← reject (negb (BuiltinRulesEnabled d) && (len (dt_RulesEnabled d) =? 0))
        (plain "detector has builtin_rules: false and an empty rules_enabled — no rules to run");
  _ ← validate_collector (dt_Collector d);
  _ ← reject (dt_SampleQueue d <=? 0) (plain "detector.sample_queue must be > 0");
  _ ← reject (dt_EventQueue d <=? 0) (plain "detector.event_queue must be > 0");
  match dt_VPPStats d with
  | None => Ok tt
  | Some v => reject (vs_Interval v <=? 0) (plain "detector.vpp_stats.interval must be > 0")
  end.

Definition Validate (c : Config) : result cerror unit :=
  _ ← reject (String.eqb (vc_Socket (cf_VPP c)) "") (plain "vpp.socket must be set");
  _ ← (if BGPEnabled c then validate_bgp (cf_BGP c) else Ok tt);
  _ ← reject (negb (BGPEnabled c) && negb (DetectorEnabled c)) (plain "nothing to do: configure bgp.peers or add a detector section");
  _ ← validate_acl (cf_ACL c);
  _ ← (if String.eqb (cf_MetricsListen c) "" then Ok tt else validateHostPort (cf_MetricsListen c) "metrics.listen");
  _ ← (match cf_Detector c with None => Ok tt | Some d => validate_detector d end);
  validateLog (cf_Log c).

(** ** path/filepath: [Clean], [Dir] and [Join] on a slash-separated path *)
Fixpoint split_slash (s cur : string) : list string :=
  match s with
  | EmptyString => [cur]
  | String c s' => if Ascii.eqb c "/" then cur :: split_slash s' "" else split_slash s' (cur +:+ String c "")
  end.

(** The elements kept so far are in reverse order. *)
Fixpoint clean_elems (rooted : bool) (es acc : list string) : list string :=
  match es with
  | [] => rev acc
  | e :: es' =>
      if String.eqb e "" || String.eqb e "." then clean_elems rooted es' acc
      else if String.eqb e ".." then
        match acc with
        | top :: acc' => if String.eqb top ".." then clean_elems rooted es' (e :: acc) else clean_elems rooted es' acc'
        | [] => if rooted then clean_elems rooted es' acc else clean_elems rooted es' [e]
        end
      else clean_elems rooted es' (e :: acc)
  end.

Definition Clean (p : string) : string :=
  let rooted := GoParse.HasPrefix p "/" in
  let t := String.concat "/" (clean_elems rooted (split_slash p "") []) in
  if rooted then "/" +:+ t else if String.eqb t "" then "." else t.

Definition Dir (p : string) : string :=
  Clean (match cut_last "/" p with Some (d, _) => d +:+ "/" | None => "" end).

Definition Join (elems : list string) : string :=
  match List.filter (fun e => negb (String.eqb e "")) elems with
  | [] => ""
  | es => Clean (String.concat "/" es)
  end.

Definition set_persist (p : string) (c : Config) : Config :=
  {| cf_VPP := cf_VPP c; cf_BGP := cf_BGP c; cf_ACL := cf_ACL c; cf_MetricsListen := cf_MetricsListen c;
     cf_Detector := cf_Detector c; cf_Persist := p; cf_Log := cf_Log c |}.

Section Parse.
(** [yaml.Unmarshal] into a configuration that holds the defaults. *)
Context {Data : Type} (Unmarshal : Data -> Config -> result gotext Config).

Definition Parse (data : Data) : result cerror Config :=
  cfg ← wrapc (plain "parse config: %w") (Unmarshal data config_defaults);
  let cfg := applyDetectorDefaults cfg in
  _ ← Validate cfg;
  Ok cfg.

(** [Load]; [read] is [os.ReadFile]. *)
Definition Load (read : string -> result gotext Data) (path : string) : result cerror Config :=
  data ← wrapc (plain "read config: %w") (read path);
  cfg ← Parse data;
  Ok (if String.eqb (cf_Persist cfg) "" then set_persist (Join [Dir path; "persist.dump"]) cfg else cfg).
End Parse.

Example persist_next_to_config :
  map (fun p => Join [Dir p; "persist.dump"]) ["/etc/flowspec/config.yaml"; "config.yaml"; "./conf/../a//b.yaml"; "/x.yaml"; "../c.yaml"] =
  ["/etc/flowspec/persist.dump"; "persist.dump"; "a/persist.dump"; "/persist.dump"; "../persist.dump"].
Proof. by vm_compute. Qed.

(** ** cmd/flowspec-vpp-agent/main.go: from the configuration to the components *)
Definition i32 (z : Z) : Z := (z + 2 ^ 31) mod 2 ^ 32 - 2 ^ 31.

Definition splitListen (hp : string) : string * Z :=
  match SplitHostPort hp with
  | Err _ => (hp, 10179)
  | Ok (host, portStr) => match Atoi portStr with None => (host, 10179) | Some port => (host, port) end
  end.

Definition toBGPOptions (b : ConfigBGP) : Options :=
  let '(host, port) := splitListen (cb_Listen b) in
  {| ASN := cb_ASN b; RouterID := cb_RouterID b; ListenAddr := host; ListenPort := i32 port;
     Peers := map (fun p => {| Address := cp_Address p; PeerASN := cp_PeerASN p; Port := cp_Port p; Passive := cp_Passive p;
                               Receive := Receives p; SendTo := cp_Send p |}) (cb_Peers b) |}.

Definition direction (s : string) : Direction := if String.eqb s "egress" then Egress else Ingress.

Definition hasSendPeer (b : ConfigBGP) : bool := existsb cp_Send (cb_Peers b).

(** Which collector [run] builds. *)
Inductive sampleSource := SrcPSample (group : Z) | SrcSFlow (listen : string).

(** The switch over [CollectorMode]: [None] is the nil pointer of a missing section. *)
Definition collector_source (d : Detector) : option sampleSource :=
  if String.eqb (CollectorMode d) "psample" then SrcPSample ∘ pc_Group <$> co_PSample (dt_Collector d)
  else SrcSFlow ∘ sc_Listen <$> co_SFlow (dt_Collector d).

(** The port the health check connects to; [None]: no endpoint to probe. *)
Definition healthcheck_port (c : Config) : option Z :=
  if String.eqb (cf_MetricsListen c) "" then None else Some (splitListen (cf_MetricsListen c)).2.
