(* ===== verification/ConfigFacts.v ===== *)
(** * What a validated configuration guarantees

    Every fallback of the command's option builders is unreachable once
    [Validate] has accepted the configuration. *)
From S2P Require Import Prelude GoText Netip Flowspec GoParse GoParseFacts Packet Float64 DetTypes VppTypes Bgp BgpServer DetCompile DetCompileFacts VppStats Logging Config.
From Stdlib Require Import Ascii.
#[local] Open Scope Z_scope.

(** ** Addresses with a port *)
Lemma splitHostPort_listen hp field host port :
  splitHostPort hp field = Ok (host, port) -> splitListen hp = (host, port) /\ 1 <= port <= 65535.
Proof.
  unfold splitHostPort, splitListen. intros H. next_stmt H. next_stmt H. rewrite S0.
  destruct (Atoi _) as [p|]; [|done]. destruct (Z.ltb_spec p 1); [done|]. destruct (Z.ltb_spec 65535 p); [done|]. injection H as <- <-. done.
Qed.

Lemma validateHostPort_listen hp field :
  validateHostPort hp field = Ok tt -> exists host port, splitListen hp = (host, port) /\ 1 <= port <= 65535.
Proof. unfold validateHostPort. intros H. next_stmt H. apply splitHostPort_listen in S. eauto. Qed.

Lemma i32_small z : - 2 ^ 31 <= z < 2 ^ 31 -> i32 z = z.
Proof. intros. unfold i32. rewrite Z.mod_small; lia. Qed.

(** An address the validation accepts is one the speaker has a canonical text for. *)
Lemma parse_addr_canonical s a : parse_addr s = Some a -> is_Some (canonical_addr s).
Proof.
  unfold parse_addr, canonical_addr. destruct (addr_kind s) as [c|]; [|by intros ->].
  assert (ParseAddr s = Some a -> is_Some (addr_String <$> ParseAddr s)) as Hp by (intros ->; by eexists).
  destruct (decide (c = ":"%char)) as [->|Hne].
  - destruct (cut "%" s) as [[b z]|]; [|done]. destruct z as [|z0 z]; [done|]. intros ->. cbn. by eexists.
  - destruct c as [[] [] [] [] [] [] [] []]; try exact Hp; done.
Qed.

(** ** The sections *)
Definition peer_ok (p : PeerOptions) : Prop :=
  is_Some (canonical_addr (Address p)) /\ PeerASN p <> 0 /\ (Receive p = true \/ SendTo p = true).

Lemma validate_peers_ok i ps :
  validate_peers i ps = Ok tt ->
  Forall (fun p => is_Some (canonical_addr (cp_Address p)) /\ cp_PeerASN p <> 0 /\ (Receives p = true \/ cp_Send p = true)) ps.
Proof.
  revert i. induction ps as [|p ps IH]; intros i; cbn [validate_peers]; [constructor|]. intros H. next_stmt H. next_stmt H. next_stmt H.
  constructor; [|by eapply IH]. destruct (parse_addr (cp_Address p)) as [a|] eqn:E; [|done]. apply parse_addr_canonical in E.
  apply Z.eqb_neq in S0. split_and!; [done|done|]. destruct (Receives p), (cp_Send p); auto; done.
Qed.

(** The options the BGP speaker starts with. *)
Record bgp_ok (o : Options) : Prop := {
  bk_addr : is_Some (canonical_addr (ListenAddr o));
  bk_port : 1 <= ListenPort o <= 65535;
  bk_asn : ASN o <> 0;
  bk_router : exists v, ParseAddr (RouterID o) = Some (Addr4 v);
  bk_peers : Forall peer_ok (Peers o);
  bk_some : Peers o <> []
}.

Lemma parse_addr_v4 s a : parse_addr s = Some a -> Is4 a = true -> exists v, ParseAddr s = Some (Addr4 v).
Proof.
  assert (forall t b, parseIPv6 t = Some b -> Is4 b = false) as H6.
  { intros t b. unfold parseIPv6. destruct (HasPrefix t "::").
    - destruct (drop_str 2 t); [by intros [= <-]|]. destruct (ipv6_groups _ _ _ _) as [[[gs ell] rest]|]; cbn; [|done].
      destruct (expand_groups gs ell rest); cbn; [by intros [= <-]|done].
    - destruct (ipv6_groups _ _ _ _) as [[[gs ell] rest]|]; cbn; [|done]. destruct (expand_groups gs ell rest); cbn; [by intros [= <-]|done]. }
  intros Hp H4. assert (ParseAddr s = Some a) as Ha.
  { unfold parse_addr in Hp. destruct (addr_kind s) as [c|] eqn:Ek; [|done]. destruct (decide (c = ":"%char)) as [->|Hne].
    - destruct (cut "%" s) as [[b z]|]; [|done]. destruct z; [done|]. apply H6 in Hp. congruence.
    - destruct c as [[] [] [] [] [] [] [] []]; try exact Hp; done. }
  destruct a; [done| |done]. by eexists.
Qed.

Lemma validate_bgp_ok b : cb_Peers b <> [] -> validate_bgp b = Ok tt -> bgp_ok (toBGPOptions b).
Proof.
  intros Hne H. unfold validate_bgp in H. next_stmt H. next_stmt H. next_stmt H. next_stmt H. apply validate_peers_ok in H.
  unfold validateBGPListen in S. next_stmt S. apply splitHostPort_listen in S3 as [Hl Hport]. next_stmt S.
  destruct (parse_addr v3) as [la|] eqn:Ela; [|done]. apply parse_addr_canonical in Ela. apply Z.eqb_neq in S0.
  destruct (parse_addr (cb_RouterID b)) as [ra|] eqn:Era; [|done]. apply reject_Ok, negb_false_iff in S2.
  unfold toBGPOptions. rewrite Hl. rewrite i32_small by lia. split; cbn [ListenAddr ListenPort ASN RouterID Peers]; try done.
  - by eapply parse_addr_v4.
  - apply Forall_map. exact H.
  - by destruct (cb_Peers b).
Qed.

Record detector_ok (d : Detector) : Prop := {
  dk_rules : BuiltinRulesEnabled d = true \/ dt_RulesEnabled d <> [];
  dk_source : (exists g, collector_source d = Some (SrcPSample g) /\ co_SFlow (dt_Collector d) = None) \/
              (exists l host port, collector_source d = Some (SrcSFlow l) /\ co_PSample (dt_Collector d) = None /\
                 splitListen l = (host, port) /\ 1 <= port <= 65535);
  dk_queues : 0 < dt_SampleQueue d /\ 0 < dt_EventQueue d;
  dk_stats : forall v, dt_VPPStats d = Some v -> 0 < vs_Interval v
}.

Lemma validate_detector_ok d : validate_detector d = Ok tt -> detector_ok d.
Proof.
  unfold validate_detector. intros H. next_stmt H. next_stmt H. next_stmt H. next_stmt H. split.
  - destruct (BuiltinRulesEnabled d); [by left|]. right. cbn in S. by destruct (dt_RulesEnabled d).
  - unfold validate_collector in S0. unfold collector_source, CollectorMode.
    destruct (co_SFlow (dt_Collector d)) as [s|], (co_PSample (dt_Collector d)) as [p|]; try done.
    + right. next_stmt S0. destruct v0. apply validateHostPort_listen in S0 as (host & port & ? & ?). exists (sc_Listen s), host, port. done.
    + left. by exists (pc_Group p).
  - apply Z.leb_gt in S1, S2. done.
  - intros st E. rewrite E in H. apply reject_Ok, Z.leb_gt in H. done.
Qed.

(** A sink that validation accepted: a known level and format, known scopes. *)
Definition scopes_ok (s : SinkSpec) : Prop := Forall (fun x => Valid x = true) (sp_Scopes s).

Lemma validateLogSink_ok name level format scope : validateLogSink name level format scope = Ok tt -> scopes_ok (sinkSpec level format scope).
Proof.
  unfold validateLogSink. intros H. next_stmt H. next_stmt H.
  assert (Forall (fun s => Valid s = true) (ss_Scopes scope)) as HF.
  { apply Forall_forall. intros s Hs. destruct (Valid s) eqn:E; [done|]. exfalso.
    assert (s ∈ filter (fun s => Valid s = false) (ss_Scopes scope)) as Hin by (by apply list_elem_of_filter).
    destruct (filter _ _); [by apply not_elem_of_nil in Hin|done]. }
  unfold scopes_ok, sinkSpec, scope_resolve. destruct (_ || _); cbn; [constructor|done].
Qed.

Lemma validateLog_ok l :
  validateLog l = Ok tt -> scopes_ok (lo_Stderr (Log_Options l)) /\
    forall t, lo_Telegram (Log_Options l) = Some t -> scopes_ok (tgs_Sink t) /\ tgs_BotToken t <> "" /\ tgs_ChatID t <> "".
Proof.
  unfold validateLog, Log_Options. intros H. next_stmt H. destruct v. split.
  - cbn. destruct (lg_Stderr l); [by eapply validateLogSink_ok|constructor].
  - cbn. destruct (lg_Telegram l) as [t0|]; cbn; [|done]. intros t [= <-]. next_stmt H. destruct v. next_stmt H. apply reject_Ok in H.
    apply validateLogSink_ok in S0. apply String.eqb_neq in S1, H. done.
Qed.

(** ** Properties *)

(** C19: a configuration that parses can be started as written.  There is
    something to run; every BGP session has an address with a canonical text, an
    AS number and a direction, the speaker listens on the address and port that
    are written (never on a fallback) with an IPv4 router id; the detector has a
    rule source, exactly one sample source (the one that is built) and positive
    queue sizes; the interface mode and direction are the ones that are read; the
    filters of both log sinks (stderr and Telegram) name known scopes, and a
    Telegram sink has its credentials. *)
Theorem parsed_config_is_startable {Data} (Unmarshal : Data -> Config -> result gotext Config) data c :
  Parse Unmarshal data = Ok c ->
  (BGPEnabled c = true \/ DetectorEnabled c = true) /\
  (BGPEnabled c = true -> bgp_ok (toBGPOptions (cf_BGP c))) /\
  (forall d, cf_Detector c = Some d -> detector_ok d) /\
  (ic_Mode (cf_ACL c) = "all" \/ ic_Mode (cf_ACL c) = "list" /\ ic_List (cf_ACL c) <> []) /\
  ic_Direction (cf_ACL c) = match direction (ic_Direction (cf_ACL c)) with Egress => "egress" | Ingress => "ingress" end /\
  (forall port, healthcheck_port c = Some port -> 1 <= port <= 65535) /\
  scopes_ok (lo_Stderr (Log_Options (cf_Log c))) /\
  (forall t, lo_Telegram (Log_Options (cf_Log c)) = Some t -> scopes_ok (tgs_Sink t) /\ tgs_BotToken t <> "" /\ tgs_ChatID t <> "").
Proof.
  unfold Parse. intros H. next_stmt H. next_stmt H. injection H as <-. set (c := applyDetectorDefaults v) in *. clearbody c. clear S v. destruct v0.
  unfold Validate in S0. next_stmt S0. next_stmt S0. next_stmt S0. next_stmt S0. next_stmt S0. next_stmt S0. apply validateLog_ok in S0 as [Hlog Htg].
  unfold validate_acl in S3. next_stmt S3. apply reject_Ok in S3. split_and!; [|..|done|exact Htg].
  - destruct (BGPEnabled c), (DetectorEnabled c); auto; done.
  - intros Hb. rewrite Hb in S1. apply validate_bgp_ok; [|by destruct v0]. unfold BGPEnabled in Hb. by destruct (cb_Peers (cf_BGP c)).
  - intros d Hd. rewrite Hd in S5. apply validate_detector_ok. by destruct v4.
  - destruct (String.eqb_spec (ic_Mode (cf_ACL c)) "all"); [by left|]. destruct (String.eqb_spec (ic_Mode (cf_ACL c)) "list"); [|done]. right.
    apply reject_Ok in S0. split; [done|]. by destruct (ic_List (cf_ACL c)).
  - unfold direction. apply negb_false_iff in S3. unfold one_of in S3. cbn [existsb] in S3. rewrite !orb_true_iff in S3.
    destruct S3 as [E%String.eqb_eq|[E%String.eqb_eq|[=]]]; rewrite E; done.
  - unfold healthcheck_port. intros port. destruct (String.eqb (cf_MetricsListen c) ""); [done|]. destruct v3.
    apply validateHostPort_listen in S4 as (host & p & -> & ?). intros [= <-]. done.
Qed.

(** ** An example configuration *)
Definition ex_peer : ConfigPeer :=
  {| cp_Address := "192.0.2.1"; cp_PeerASN := 64512; cp_Port := 0; cp_Passive := true; cp_Receive := None; cp_Send := false |}.

Definition ex_config : Config :=
  {| cf_VPP := cf_VPP config_defaults;
     cf_BGP := {| cb_Listen := "[::1]:1790"; cb_RouterID := "192.0.2.9"; cb_ASN := 64500; cb_Peers := [ex_peer] |};
     cf_ACL := cf_ACL config_defaults; cf_MetricsListen := "127.0.0.1:9100";
     cf_Detector := Some {| dt_DryRun := false; dt_RulesDir := ""; dt_BuiltinRules := None; dt_RulesEnabled := [];
                            dt_Collector := {| co_SFlow := Some {| sc_Listen := "" |}; co_PSample := None |};
                            dt_VPPStats := None; dt_SampleQueue := 0; dt_EventQueue := 0 |};
     cf_Persist := ""; cf_Log := cf_Log config_defaults |}.

Definition ex_unmarshal (_ : unit) (_ : Config) : result gotext Config := Ok ex_config.

Lemma parsed_config_is_startable_witness :
  Parse ex_unmarshal tt = Ok (applyDetectorDefaults ex_config) /\
  bgp_ok (toBGPOptions (cf_BGP ex_config)) /\ ListenAddr (toBGPOptions (cf_BGP ex_config)) = "::1" /\
  ListenPort (toBGPOptions (cf_BGP ex_config)) = 1790.
Proof.
  assert (Parse ex_unmarshal tt = Ok (applyDetectorDefaults ex_config)) as H by (vm_compute; reflexivity).
  split; [exact H|]. destruct (parsed_config_is_startable ex_unmarshal tt _ H) as (_ & Hb & _).
  split; [apply Hb; vm_compute; reflexivity|]. split; vm_compute; reflexivity.
Defined.

(** ** The spelling of the log format

    Validation compares the format without regard to case, the handlers are
    chosen by an exact comparison: [format: JSON] is accepted and writes text. *)
Theorem log_format_case_ignored_at_validation_only scope :
  validateLogSink "log.stderr" "" "JSON" {| ss_Set := false; ss_All := false; ss_Scopes := scope |} =
    validateLogSink "log.stderr" "" "json" {| ss_Set := false; ss_All := false; ss_Scopes := scope |} /\
  formatHandler (sp_Format (sinkSpec "" "JSON" {| ss_Set := false; ss_All := false; ss_Scopes := scope |})) = FormatText /\
  formatHandler (sp_Format (sinkSpec "" "json" {| ss_Set := false; ss_All := false; ss_Scopes := scope |})) = FormatJSON.
Proof. done. Qed.
