(* ===== verification/Startup.v ===== *)
(** * Starting the detector (cmd/flowspec-vpp-agent: detector.go, persiststate.go, and the detector part of main.go)

    Rule files are gathered from the embedded set and an optional directory, the
    enabled ones are compiled, and the statistics terms are checked against the
    configured rings.  Reading directories and files and decoding YAML are inputs
    and parameters. *)
From S2P Require Import Prelude GoText Netip Flowspec GoParse Packet Float64 DetTypes DetRule DetCompile DetEngine DetPersist VppStats Logging Config.
From Stdlib Require Import Ascii.
#[local] Open Scope Z_scope.

(** ** Rule files *)
Record DirEntry := { de_Name : string; de_IsDir : bool }.

Definition is_rule_file (e : DirEntry) : bool := negb (de_IsDir e || negb (HasSuffix (de_Name e) ".yaml")).

Definition zero_rule_config : RuleConfig :=
  let zr := {| rc_Resolution := 0; rc_Duration := 0 |} in
  {| cfg_Name := "";
     cfg_Match := {| mc_Family := ""; mc_Proto := []; mc_Src := ""; mc_Dst := ""; mc_SrcPort := []; mc_DstPort := [];
                     mc_PacketLen := {| cu_LT := 0; cu_LTE := 0; cu_GT := 0; cu_GTE := 0 |}; mc_TCPFlags := ""; mc_ICMPType := []; mc_ICMPCode := [] |};
     cfg_Aggregate := {| ac_Proto := ""; ac_Src := ""; ac_Dst := ""; ac_SrcPort := ""; ac_DstPort := ""; ac_ICMPType := ""; ac_ICMPCode := "" |};
     cfg_History := {| hc_Fine := zr; hc_Medium := zr; hc_Coarse := zr; hc_MaxInstances := 0 |};
     cfg_Trigger := {| tg_Terms := ∅; tg_Expr := ""; tg_Sustained := 0 |};
     cfg_FlowSpec := {| fc_Action := ""; fc_TTL := 0; fc_Refresh := None; fc_Family := ""; fc_Proto := ""; fc_SrcPrefix := ""; fc_DstPrefix := "";
                        fc_SrcPort := ""; fc_DstPort := ""; fc_TCPFlags := ""; fc_ICMPType := ""; fc_ICMPCode := "" |};
     cfg_Description := ""; cfg_Rank := ""; cfg_RatioDetection := [] |}.

Section Startup.
Context {Data Program : Type}.
(** [yaml.Unmarshal] of a rules file, and the parameters of the compiler. *)
Context (yaml_rules : Data -> result gotext (list RuleConfig)).
Context (expr_Compile : string -> list string -> result gotext Program) (ruleFingerprint : RuleConfig -> string).

(** [detector.LoadConfig] and [CompileConfig] *)
Definition LoadConfig (data : Data) : result cerror (list RuleConfig) := wrapc (plain "parse detector config: %w") (yaml_rules data).

Definition CompileConfig (o : RangeOrder) (data : Data) : result cerror (list (Rule Program)) :=
  cfgs ← LoadConfig data;
  CompileRules expr_Compile ruleFingerprint o cfgs.

(** The loop of [mergeRules]. *)
Fixpoint merge_defs (dst : gmap string RuleConfig) (rcs : list RuleConfig) (source : string) : result cerror (gmap string RuleConfig) :=
  match rcs with
  | [] => Ok dst
  | rc :: rcs' =>
      _ ← reject (String.eqb (cfg_Name rc) "") (Text "%s: a rule is missing its name" [AStr source]);
      _ ← reject (bool_decide (is_Some (dst !! cfg_Name rc))) (Text "%s: duplicate rule name %q" [AStr source; AStr (cfg_Name rc)]);
      merge_defs (<[cfg_Name rc := rc]> dst) rcs' source
  end.

Definition mergeRules (dst : gmap string RuleConfig) (data : Data) (source : string) : result cerror (gmap string RuleConfig) :=
  rcs ← rewrapc (Text "%s: %w" [AStr source]) (LoadConfig data);
  merge_defs dst rcs source.

(** Reading and merging the files of [names], in order. *)
Fixpoint load_files (read : string -> result gotext Data) (msg : string -> gotext) (label : string -> string)
    (names : list string) (out : gmap string RuleConfig) : result cerror (gmap string RuleConfig) :=
  match names with
  | [] => Ok out
  | name :: names' =>
      data ← wrapc (msg name) (read name);
      out ← mergeRules out data (label name);
      load_files read msg label names' out
  end.

Definition loadEmbeddedRules (entries : result gotext (list DirEntry)) (read : string -> result gotext Data)
  : result cerror (gmap string RuleConfig) :=
  es ← wrapc (plain "read embedded rules: %w") entries;
  load_files read (fun n => Text "read embedded rule %s: %w" [AStr n]) (fun n => "builtin:" +:+ n)
    (map de_Name (List.filter is_rule_file es)) ∅.

Definition loadDirRules (dir : string) (entries : result gotext (list DirEntry)) (read : string -> result gotext Data)
  : result cerror (gmap string RuleConfig) :=
  es ← wrapc (Text "read detector.rules_dir %q: %w" [AStr dir]) entries;
  load_files read (fun n => Text "read rule file %s: %w" [AStr n]) (fun n => n)
    (merge_sort String.le (map de_Name (List.filter is_rule_file es))) ∅.

(** ** Selecting and compiling *)

(** The rules [rules_enabled] names must exist. *)
Fixpoint enable_named (defs : gmap string RuleConfig) (names : list string) (enabled : gset string) : result cerror (gset string) :=
  match names with
  | [] => Ok enabled
  | n :: names' =>
      _ ← reject (negb (bool_decide (is_Some (defs !! n))))
            (Text "detector.rules_enabled: rule %q not found in built-in set or rules_dir" [AStr n]);
      enable_named defs names' ({[n]} ∪ enabled)
  end.

(** [vppRingConfig] *)
Definition vppRingConfig (v : VPPStats) : VRingConfig :=
  {| FineResolution := rg_Resolution (vs_Fine v); FineDuration := rg_Duration (vs_Fine v);
     MediumResolution := rg_Resolution (vs_Medium v); MediumDuration := rg_Duration (vs_Medium v);
     CoarseResolution := rg_Resolution (vs_Coarse v); CoarseDuration := rg_Duration (vs_Coarse v) |}.

Definition uncovered (c : VRingConfig) (r : Rule Program) : list (Z * Z) :=
  List.filter (fun w => negb (Covers c w.1 w.2)) (StatsWindows r).

(** The check of the compiled rules against the statistics configuration. *)
Definition check_stats (d : Detector) (rules : list (Rule Program)) : result cerror (list (Rule Program)) :=
  match dt_VPPStats d with
  | None =>
      match map r_name (List.filter UsesVPPStats rules) with
      | [] => Ok rules
      | offenders =>
          Err [Text "detector.vpp_stats is not configured but these rules use vpp.* metrics: %s" (AStr <$> offenders)]
      end
  | Some v =>
      let ringCfg := vppRingConfig v in
      match flat_map (fun r => (fun w => (r_name r, w)) <$> uncovered ringCfg r) rules with
      | [] => Ok rules
      | (name, (w, off)) :: _ =>
          Err [Text "rule %q: vpp window %s offset %s is not covered by the vpp_stats rings (adjust window/offset or vpp_stats.fine/medium/coarse)"
                 [AStr name; AInt w; AInt off]]
      end
  end.

(** [compileDetectorRules]; the two loads are [loadEmbeddedRules()] and
    [loadDirRules(cfg.RulesDir)]. *)
Definition compileDetectorRules (o : RangeOrder) (d : Detector) (builtin_load user_load : result cerror (gmap string RuleConfig))
  : result cerror (list (Rule Program)) :=
  builtin ← builtin_load;
  defs ← (if String.eqb (dt_RulesDir d) "" then Ok builtin else user ← user_load; Ok (user ∪ builtin));
  let enabled := if BuiltinRulesEnabled d then dom builtin else ∅ in
  enabled ← enable_named defs (dt_RulesEnabled d) enabled;
  _ ← reject (bool_decide (enabled = ∅)) (plain "detector: no rules enabled (builtin_rules is false and rules_enabled is empty)");
  let names := merge_sort String.le (range_list o (elements enabled)) in
  let selected := map (fun n => default zero_rule_config (defs !! n)) names in
  rules ← rewrapc (plain "compile detector rules: %w") (CompileRules expr_Compile ruleFingerprint o selected);
  check_stats d rules.

(** ** What the rules read: the statistics store as the detector's [StatsView] *)
Definition stats_view (o : RangeOrder) (s : VStore) : StatsView :=
  {| InterfaceRates := store_InterfaceRates s;
     TotalRates := store_TotalRates s;
     InterfaceWindow := fun name now window offset peak => default None (store_InterfaceWindow s name now window offset peak);
     TotalWindow := fun now window offset peak => default None (store_TotalWindow o s now window offset peak) |}.

(** ** humanBytes

    The text is kept as its parts: the number and the letter of the unit. *)
Inductive human := InBytes (n : Z) | InUnits (value : float64) (letter : ascii).

(** The loop: the quotient so far, the divisor and the number of the unit. *)
Fixpoint human_loop (fuel : nat) (x div exp : Z) : option (Z * Z) :=
  match fuel with
  | O => None
  | S fuel' => if 1024 <=? x then human_loop fuel' (Z.quot x 1024) (i64 (div * 1024)) (exp + 1) else Some (div, exp)
  end.

(** Nine rounds are enough for a 64-bit count; an index past the letters panics. *)
Definition humanBytes (n : Z) : option human :=
  if n <? 1024 then Some (InBytes n)
  else
    '(div, exp) ← human_loop 9 (Z.quot n 1024) 1024 0;
    letter ← String.get (Z.to_nat exp) "KMGTPE";
    Some (InUnits (f_div (f_of_int n) (f_of_int div)) letter).

(** ** The state file (persiststate.go) *)
Record agentState := { as_Detector : list RuleState; as_VPP : list VInterfaceState }.

(** Start-up with a loaded state: history is imported before anything is observed. *)
Definition import_state (o : RangeOrder) (st : agentState) (e : @Engine Program) (stats : option VStore) : @Engine Program * option VStore :=
  (Import e (as_Detector st), (fun s => store_Import o s (as_VPP st)) <$> stats).

(** Shutdown: what is saved once the runner has stopped. *)
Definition export_state (os : nat -> RangeOrder) (o : RangeOrder) (e : @Engine Program) (stats : option VStore) : agentState :=
  {| as_Detector := Export os e; as_VPP := match stats with None => [] | Some s => store_Export o s end |}.
End Startup.
