(* ===== verification/StartupFacts.v ===== *)
(** * Correctness of the detector's start-up

    The compiled rules are exactly the enabled ones, a user rule shadowing a
    built-in of its name; a rule that passed the check reads its statistics
    windows exactly. *)
From S2P Require Import Prelude GoText Netip Flowspec GoParse Packet Float64 DetTypes Store StoreFacts DetRule DetEmit DetCompile DetCompileFacts DetEngine DetPersist VppStats VppStatsFacts Logging Config Startup.
#[local] Open Scope Z_scope.

(** ** humanBytes *)
Lemma human_loop_exact fuel k n :
  0 <= k -> 1024 ^ (k + 1) <= n < 2 ^ 63 -> (Z.to_nat (6 - k) <= fuel)%nat ->
  exists e, human_loop fuel (n / 1024 ^ (k + 1)) (1024 ^ (k + 1)) k = Some (1024 ^ (e + 1), e) /\ k <= e <= 5 /\
    1024 ^ (e + 1) <= n < 1024 ^ (e + 2).
Proof.
  assert (1024 ^ 7 = 2 ^ 70) as H7 by reflexivity.
  revert k. induction fuel as [|fuel IH]; intros k Hk Hn Hf.
  { assert (1024 ^ 7 <= 1024 ^ (k + 1)) by (apply Z.pow_le_mono_r; lia). lia. }
  assert (k <= 5). { destruct (Z.le_gt_cases k 5); [done|]. assert (1024 ^ 7 <= 1024 ^ (k + 1)) by (apply Z.pow_le_mono_r; lia). lia. }
  cbn [human_loop]. assert (1024 ^ (k + 2) = 1024 ^ (k + 1) * 1024) as Hp by (replace (k + 2) with (Z.succ (k + 1)) by lia; rewrite Z.pow_succ_r by lia; lia).
  destruct (Z.leb_spec 1024 (n / 1024 ^ (k + 1))) as [Hx|Hx].
  - assert (1024 ^ (k + 2) <= n) as Hn'.
    { rewrite Hp. transitivity (1024 ^ (k + 1) * (n / 1024 ^ (k + 1))); [nia|]. apply Z.mul_div_le. lia. }
    rewrite Z.quot_div_nonneg, Z.div_div by lia. rewrite <- Hp, i64_small by lia. replace (k + 2) with (k + 1 + 1) in * by lia.
    destruct (IH (k + 1)) as (e & -> & ? & ?); [lia..|]. exists e. split_and!; [done|lia..].
  - exists k. split_and!; [done|lia..|]. rewrite Hp. pose proof (Z.mul_succ_div_gt n (1024 ^ (k + 1)) ltac:(lia)); nia.
Qed.

(** [humanBytes] of a 64-bit count ends with a letter that exists, and the unit is
    the one that leaves a number of at least 1 and less than 1024. *)
Theorem human_bytes_exact n :
  n < 2 ^ 63 ->
  if n <? 1024 then humanBytes n = Some (InBytes n)
  else exists e letter, 0 <= e <= 5 /\ String.get (Z.to_nat e) "KMGTPE" = Some letter /\
    1024 ^ (e + 1) <= n < 1024 ^ (e + 2) /\ humanBytes n = Some (InUnits (f_div (f_of_int n) (f_of_int (1024 ^ (e + 1)))) letter).
Proof.
  intros Hn. unfold humanBytes. destruct (Z.ltb_spec n 1024) as [|Hge]; [done|]. rewrite Z.quot_div_nonneg by lia.
  destruct (human_loop_exact 9 0 n) as (e & Hl & He & Hb); [lia..|]. change (1024 ^ (0 + 1)) with 1024 in Hl. rewrite Hl.
  assert (is_Some (String.get (Z.to_nat e) "KMGTPE")) as [letter Hletter].
  { assert (e = 0 \/ e = 1 \/ e = 2 \/ e = 3 \/ e = 4 \/ e = 5) as Hc by lia. repeat (destruct Hc as [->|Hc]; [by eexists|]). subst e. by eexists. }
  exists e, letter. split_and!; [lia|lia|done|lia|lia|]. cbn [mbind option_bind]. by rewrite Hletter.
Qed.

(** ** Rule files *)

(** Definitions filed under their own, non-empty name. *)
Definition well_named (defs : gmap string RuleConfig) : Prop := map_Forall (fun n rc => cfg_Name rc = n /\ n <> "") defs.

Section Files.
Context {Data : Type} (yaml_rules : Data -> result gotext (list RuleConfig)).

Lemma merge_defs_named dst rcs source out :
  well_named dst -> merge_defs dst rcs source = Ok out -> well_named out /\ dst ⊆ out /\ Forall (fun rc => out !! cfg_Name rc = Some rc) rcs.
Proof.
  revert dst. induction rcs as [|rc rcs IH]; intros dst Hd; cbn [merge_defs]; [by intros [= <-]|]. intros H. next_stmt H. next_stmt H.
  apply String.eqb_neq in S. apply bool_decide_eq_false, eq_None_not_Some in S0.
  destruct (IH (<[cfg_Name rc := rc]> dst)) as (Hw & Hsub & Hall); [by apply map_Forall_insert_2|done|]. split_and!; [done| |].
  - etransitivity; [|exact Hsub]. by apply insert_subseteq.
  - constructor; [|done]. eapply lookup_weaken; [|exact Hsub]. by rewrite lookup_insert_eq.
Qed.

Lemma load_files_named read msg label names out out' :
  well_named out -> load_files yaml_rules read msg label names out = Ok out' -> well_named out'.
Proof.
  revert out. induction names as [|n names IH]; intros out Hw; cbn [load_files]; [by intros [= <-]|]. intros H. next_stmt H. next_stmt H.
  eapply IH; [|exact H]. unfold mergeRules in S0. next_stmt S0. by eapply merge_defs_named.
Qed.

Lemma loadEmbeddedRules_named entries read out : loadEmbeddedRules yaml_rules entries read = Ok out -> well_named out.
Proof. unfold loadEmbeddedRules. intros H. next_stmt H. eapply load_files_named; [|exact H]. apply map_Forall_empty. Qed.

Lemma loadDirRules_named dir entries read out : loadDirRules yaml_rules dir entries read = Ok out -> well_named out.
Proof. unfold loadDirRules. intros H. next_stmt H. eapply load_files_named; [|exact H]. apply map_Forall_empty. Qed.
End Files.

(** ** Selection *)
Lemma enable_named_spec defs names enabled out :
  enable_named defs names enabled = Ok out -> out = list_to_set names ∪ enabled /\ Forall (fun n => is_Some (defs !! n)) names.
Proof.
  revert enabled. induction names as [|n names IH]; intros enabled; cbn [enable_named]; [intros [= <-]; split; [set_solver|constructor]|].
  intros H. next_stmt H. apply negb_false_iff, bool_decide_eq_true in S. apply IH in H as [-> Hall]. split; [set_solver|by constructor].
Qed.

Section Select.
Context {Program : Type} (expr_Compile : string -> list string -> result gotext Program) (ruleFingerprint : RuleConfig -> string).

(** The definitions in force: the user's files over the built-in set. *)
Definition effective_defs (d : Detector) (builtin user : gmap string RuleConfig) : gmap string RuleConfig :=
  if String.eqb (dt_RulesDir d) "" then builtin else user ∪ builtin.

Definition enabled_names (d : Detector) (builtin : gmap string RuleConfig) : gset string :=
  list_to_set (dt_RulesEnabled d) ∪ (if BuiltinRulesEnabled d then dom builtin else ∅).

Lemma check_stats_ok d rules out : check_stats d rules = Ok out ->
  out = rules /\ match dt_VPPStats d with
  | None => Forall (fun r : Rule Program => UsesVPPStats r = false) rules
  | Some v => Forall (fun r => Forall (fun w => Covers (vppRingConfig v) w.1 w.2 = true) (StatsWindows r)) rules
  end.
Proof.
  unfold check_stats. destruct (dt_VPPStats d) as [v|].
  - destruct (flat_map _ rules) as [|[n [w off]] l] eqn:E; [|done]. intros [= <-]. split; [done|]. apply Forall_forall. intros r Hr.
    apply Forall_forall. intros w Hw. destruct (Covers (vppRingConfig v) w.1 w.2) eqn:Ec; [done|]. exfalso.
    assert (In (r_name r, w) (flat_map (fun r => (fun w => (r_name r, w)) <$> uncovered (vppRingConfig v) r) rules)) as Hin; [|by rewrite E in Hin].
    apply in_flat_map. exists r. split; [by apply list_elem_of_In|]. apply list_elem_of_In, list_elem_of_fmap. exists w. split; [done|].
    unfold uncovered. apply list_elem_of_In, filter_In. split; [by apply list_elem_of_In|]. by rewrite Ec.
  - destruct (map r_name (List.filter UsesVPPStats rules)) as [|n l] eqn:E; [|done]. intros [= <-]. split; [done|]. apply Forall_forall. intros r Hr.
    destruct (UsesVPPStats r) eqn:Eu; [|done]. exfalso. apply map_eq_nil in E.
    assert (In r (List.filter UsesVPPStats rules)) as Hin; [|by rewrite E in Hin]. apply filter_In. split; [by apply list_elem_of_In|done].
Qed.

Lemma compileRule_name o cfg (r : Rule Program) : compileRule expr_Compile ruleFingerprint o cfg = Ok r -> r_name r = cfg_Name cfg.
Proof. intros H. unfold compileRule in H. do 28 next_stmt H. by injection H as <-. Qed.

(** What a successful start-up went through. *)
Lemma compileDetectorRules_inv o d bl ul rules :
  compileDetectorRules expr_Compile ruleFingerprint o d bl ul = Ok rules ->
  exists builtin user, bl = Ok builtin /\ (dt_RulesDir d <> "" -> ul = Ok user) /\
    let defs := effective_defs d builtin user in
    let names := merge_sort String.le (range_list o (elements (enabled_names d builtin))) in
    enabled_names d builtin <> ∅ /\ Forall (fun n => is_Some (defs !! n)) (dt_RulesEnabled d) /\
    Forall2 (fun n r => compileRule expr_Compile ruleFingerprint o (default zero_rule_config (defs !! n)) = Ok r) names rules /\
    match dt_VPPStats d with
    | None => Forall (fun r => UsesVPPStats r = false) rules
    | Some v => Forall (fun r => Forall (fun w => Covers (vppRingConfig v) w.1 w.2 = true) (StatsWindows r)) rules
    end.
Proof.
  unfold compileDetectorRules. intros H. next_stmt H. next_stmt H. next_stmt H. next_stmt H. next_stmt H.
  apply bool_decide_eq_false in S2. apply enable_named_spec in S1 as [-> Hnames].
  apply rewrapc_Ok in S3. unfold CompileRules in S3. apply compile_rules_from_each in S3. apply check_stats_ok in H as [-> Hstats].
  assert (exists user, v0 = effective_defs d v user /\ (dt_RulesDir d <> "" -> ul = Ok user)) as (user & Hdefs & Hul).
  { unfold effective_defs. destruct (String.eqb_spec (dt_RulesDir d) ""); [injection S0 as <-; by exists ∅|]. apply result_bind_Ok in S0 as (u & Hu & S0).
    injection S0 as <-. by exists u. }
  exists v, user. split; [done|]. split; [done|]. cbv zeta. rewrite <-Hdefs. unfold enabled_names. split_and!; [done|done| |done].
  by apply Forall2_fmap_l in S3.
Qed.

Lemma effective_named d builtin user : well_named builtin -> well_named user -> well_named (effective_defs d builtin user).
Proof.
  intros Hb Hu. unfold effective_defs. destruct (String.eqb _ _); [done|]. intros n rc [H|[_ H]]%lookup_union_Some_raw; [by apply Hu|by apply Hb].
Qed.

(** The names of the compiled rules: the enabled names, sorted. *)
Lemma compiled_names o d bl ul rules builtin user :
  bl = Ok builtin -> (dt_RulesDir d <> "" -> ul = Ok user) -> well_named builtin -> well_named user ->
  compileDetectorRules expr_Compile ruleFingerprint o d bl ul = Ok rules ->
  r_name <$> rules = merge_sort String.le (range_list o (elements (enabled_names d builtin))) /\
  Forall2 (fun n r => exists cfg, effective_defs d builtin user !! n = Some cfg /\ compileRule expr_Compile ruleFingerprint o cfg = Ok r)
    (merge_sort String.le (range_list o (elements (enabled_names d builtin)))) rules.
Proof.
  intros Hbl Hul Hb Hu (b' & u' & Hbl' & Hul' & _ & Hnames & HF & _)%compileDetectorRules_inv. assert (b' = builtin) as -> by congruence.
  assert (effective_defs d builtin u' = effective_defs d builtin user) as Heff.
  { unfold effective_defs. destruct (String.eqb_spec (dt_RulesDir d) ""); [done|]. specialize (Hul ltac:(done)). specialize (Hul' ltac:(done)). congruence. }
  rewrite Heff in *. pose proof (effective_named d builtin user Hb Hu) as Hw. set (defs := effective_defs d builtin user) in *.
  assert (Forall (fun n => is_Some (defs !! n)) (merge_sort String.le (range_list o (elements (enabled_names d builtin))))) as Hdef.
  { apply Forall_forall. intros n. rewrite merge_sort_Permutation, (range_perm o), elem_of_elements. unfold enabled_names.
    rewrite elem_of_union, elem_of_list_to_set. intros [Hn|Hn]; [by eapply Forall_forall in Hnames|].
    destruct (BuiltinRulesEnabled d); [|set_solver]. apply elem_of_dom in Hn as [rc Hrc]. unfold defs, effective_defs.
    destruct (String.eqb _ _); [by eexists|]. rewrite lookup_union, Hrc. destruct (user !! n); by eexists. }
  induction HF as [|n r ns rs Hr _ IH]; [done|]. apply Forall_cons in Hdef as [[cfg Hcfg] Hdef]. destruct (IH Hdef) as [Hn HF'].
  rewrite Hcfg in Hr. cbn [default] in Hr. split.
  - rewrite fmap_cons, Hn. f_equal. rewrite (compileRule_name _ _ _ Hr). by apply (Hw n cfg).
  - constructor; [|done]. eauto.
Qed.
End Select.

(** ** Properties *)


(** A statistics term of a compiled rule has a non-negative offset. *)
Lemma compiled_stats_offset {Program} ec fp o cfg (r : Rule Program) t :
  compileRule ec fp o cfg = Ok r -> t ∈ r_terms r -> isStats (t_metric t) = true -> 0 <= t_offset t.
Proof.
  intros H Ht Hst. unfold compileRule in H. do 28 next_stmt H. injection H as <-. cbn in Ht. unfold compileTerms in S19.
  destruct (bool_decide _); [done|]. apply result_map_Ok in S19. apply list_elem_of_lookup_1 in Ht as [i Hi].
  destruct (Forall2_lookup_r _ _ _ _ _ S19 Hi) as ([n tc] & _ & Hc). cbn [fst snd] in Hc. clear -Hc Hst. unfold compile_term in Hc.
  do 3 next_stmt Hc. destruct (isStats v0) eqn:Em.
  - next_stmt Hc. destruct (0 <? tc_Window tc); [|injection Hc as <-; cbn; lia]. next_stmt Hc. next_stmt Hc. injection Hc as <-. cbn.
    apply Z.ltb_ge in S3. done.
  - next_stmt Hc. next_stmt Hc. next_stmt Hc. injection Hc as <-. cbn in Hst. congruence.
Qed.

(** C30: a rule that passed start-up never reads its interface statistics as
    silent zeros.  If the start-up check accepted the rules, a windowed interface
    term means that polling is configured, and for any sequence of polls after
    which the ingress interface is known (by name or ifindex) and that are neither
    late nor from the future, the term reads the reference value of exactly its
    window: the mean, or the peak, of the per-epoch means of that interface's
    polls.  The epochs are those of the coarsest ring that covers the window, whose
    resolution divides the window and the offset and is not longer than the
    window, so the window is a positive number of whole epochs. *)
Theorem accepted_stats_terms_are_exact {Program} ec fp o d bl ul (rules : list (Rule Program)) r t :
  compileDetectorRules ec fp o d bl ul = Ok rules -> r ∈ rules -> t ∈ r_terms r ->
  isStats (t_metric t) = true -> isTotal (t_metric t) = false -> 0 < t_window t ->
  exists v, dt_VPPStats d = Some v /\
    forall xs key now, VRingConfig_wf (vppRingConfig v) -> key <> "" -> t_window t + t_offset t <= now ->
      polls_of key xs <> [] -> clocked (vppRingConfig v) now (polls_of key xs) ->
      exists s res, store_feed o (newStore (vppRingConfig v)) xs = Some s /\ res ∈ (ring_params (withDefaults (vppRingConfig v))).*1 /\
        Forall (fun rd => ringCovers rd.1 (Z.quot rd.2 rd.1) (t_window t) (t_offset t) = true -> rd.1 <= res) (ring_params (withDefaults (vppRingConfig v))) /\
        (0 < res <= t_window t /\ Z.rem (t_window t) res = 0 /\ Z.rem (t_offset t) res = 0) /\
        statsValue t key now (Some (stats_view o s)) =
          selectRate (t_metric t) (window_reference res (ep res (now - t_offset t)) (Z.quot (t_window t) res)
                                     (bool_decide (t_agg t = aggMax)) (polls_of key xs)).
Proof.
  intros H Hr Ht Hst Htot Hw. apply compileDetectorRules_inv in H as (b & u & _ & _ & _ & _ & HF & Hchk).
  assert (0 <= t_offset t) as Hoff.
  { apply list_elem_of_lookup_1 in Hr as [i Hi]. destruct (Forall2_lookup_r _ _ _ _ _ HF Hi) as (n & _ & Hc).
    by eapply compiled_stats_offset. }
  destruct (dt_VPPStats d) as [v|].
  - exists v. split; [done|]. intros xs key now Hwf Hkey Hnow Hne Hclk. rewrite Forall_forall in Hchk. specialize (Hchk r Hr).
    rewrite Forall_forall in Hchk. assert (Covers (vppRingConfig v) (t_window t) (t_offset t) = true) as Hcov.
    { apply (Hchk (t_window t, t_offset t)). unfold StatsWindows. apply list_elem_of_In, in_map_iff. exists t. split; [done|].
      apply list_elem_of_In, list_elem_of_filter. split; [|done]. rewrite Hst. cbn [andb]. by apply Z.ltb_lt. }
    destruct (covered_window_read o (vppRingConfig v) xs key now (t_window t) (t_offset t) (bool_decide (t_agg t = aggMax)))
      as (s & res & Hs & Hres & Hmax & Hdiv & Hread); [done..|]. exists s, res. do 4 (split; [done|]).
    unfold statsValue, stats_view. cbn [InterfaceWindow]. destruct (Z.leb_spec (t_window t) 0); [lia|]. rewrite Htot.
    destruct (String.eqb_spec key ""); [done|]. by rewrite Hread.
  - exfalso. rewrite Forall_forall in Hchk. specialize (Hchk r Hr). unfold UsesVPPStats in Hchk. apply not_true_iff_false in Hchk. apply Hchk.
    apply existsb_exists. exists t. split; [by apply list_elem_of_In|done].
Qed.

(** ** Examples *)
Definition stats_rule_config : RuleConfig :=
  {| cfg_Name := "rx-storm"; cfg_Match := cfg_Match cfg_example; cfg_Aggregate := cfg_Aggregate cfg_example; cfg_History := cfg_History cfg_example;
     cfg_Trigger := {| tg_Terms := {["rx" := {| tc_Metric := "vpp.packet_iface.rx_pps"; tc_Window := 2; tc_Offset := 2; tc_Agg := "avg" |}]};
       tg_Expr := "rx > 1000"; tg_Sustained := 0 |};
     cfg_FlowSpec := cfg_FlowSpec cfg_example; cfg_Description := ""; cfg_Rank := ""; cfg_RatioDetection := [] |}.

Definition ex_detector : Detector :=
  {| dt_DryRun := false; dt_RulesDir := ""; dt_BuiltinRules := None; dt_RulesEnabled := [];
     dt_Collector := {| co_SFlow := None; co_PSample := Some {| pc_Group := 1 |} |};
     dt_VPPStats := Some {| vs_Interval := 1; vs_Fine := {| rg_Resolution := 1; rg_Duration := 4 |};
                            vs_Medium := {| rg_Resolution := 2; rg_Duration := 8 |}; vs_Coarse := {| rg_Resolution := 4; rg_Duration := 16 |} |};
     dt_SampleQueue := 1; dt_EventQueue := 1 |}.

(** One embedded file with the two rules, out of order, and a file that is not one. *)
Definition ex_entries : result gotext (list DirEntry) :=
  Ok [{| de_Name := "README.md"; de_IsDir := false |}; {| de_Name := "flood.yaml"; de_IsDir := false |}].
Definition ex_yaml (_ : unit) : result gotext (list RuleConfig) := Ok [cfg_example; stats_rule_config].
Definition ex_read (_ : string) : result gotext unit := Ok tt.
Definition ex_builtin : gmap string RuleConfig :=
  match loadEmbeddedRules ex_yaml ex_entries ex_read with Ok b => b | Err _ => ∅ end.
Definition ex_rules : list (Rule unit) :=
  match compileDetectorRules ec_example fp_example range_id ex_detector (loadEmbeddedRules ex_yaml ex_entries ex_read) (loadDirRules ex_yaml (dt_RulesDir ex_detector) ex_entries ex_read) with Ok l => l | Err _ => [] end.

Lemma ex_builtin_ok : loadEmbeddedRules ex_yaml ex_entries ex_read = Ok ex_builtin.
Proof. vm_compute. reflexivity. Qed.

Lemma ex_rules_ok :
  compileDetectorRules ec_example fp_example range_id ex_detector (loadEmbeddedRules ex_yaml ex_entries ex_read) (loadDirRules ex_yaml (dt_RulesDir ex_detector) ex_entries ex_read) = Ok ex_rules.
Proof. vm_compute. reflexivity. Qed.

Definition ex_term : term :=
  {| t_name := "rx"; t_metric := metricIfaceRXPPS; t_agg := aggAvg; t_window := 2; t_offset := 2; t_ring := ringFine; t_ringRes := 0; t_slots := 0 |}.

Definition ex_stats_rule : Rule unit := default compiled_example (ex_rules !! 0%nat).

Lemma ex_stats_rule_in : ex_stats_rule ∈ ex_rules /\ ex_term ∈ r_terms ex_stats_rule.
Proof.
  split.
  - apply (list_elem_of_lookup_2 _ 0). vm_compute. reflexivity.
  - assert (r_terms ex_stats_rule = [ex_term]) as -> by (vm_compute; reflexivity). by apply list_elem_of_singleton.
Qed.


Lemma accepted_stats_terms_are_exact_witness :
  exists s res, store_feed range_id (newStore ex_stats_config) ex_samples = Some s /\
    res ∈ (ring_params (withDefaults ex_stats_config)).*1 /\ (0 < res <= 2 /\ Z.rem 2 res = 0) /\
    statsValue ex_term "ifindex:1" 13 (Some (stats_view range_id s)) =
      selectRate metricIfaceRXPPS (window_reference res (ep res (13 - 2)) (Z.quot 2 res) false (polls_of "ifindex:1" ex_samples)).
Proof.
  destruct (accepted_stats_terms_are_exact ec_example fp_example range_id ex_detector _ _ ex_rules ex_stats_rule ex_term ex_rules_ok
    (proj1 ex_stats_rule_in) (proj2 ex_stats_rule_in)) as (v & Hv & Hread); [reflexivity|reflexivity|reflexivity|].
  injection Hv as <-. destruct (Hread ex_samples "ifindex:1" 13) as (s & res & H1 & H2 & _ & (H3 & H4 & _) & H5).
  - repeat constructor.
  - discriminate.
  - vm_compute. discriminate.
  - vm_compute. discriminate.
  - split; [lia|]. split; vm_compute; repeat constructor; discriminate.
  - exists s, res. split; [exact H1|]. split; [exact H2|]. split; [split; [exact H3|exact H4]|exact H5].
Defined.
