(* ===== verification/StateFile.v ===== *)
(** * The state file (cmd/flowspec-vpp-agent/persiststate.go, and its use in main.go)

    Saving goes through a temporary file in the directory of the state file and a
    rename.  The model is that directory: a map from names to contents, and the
    list of the elementary changes a save makes to it, byte by byte, so that a
    crash of the process is a prefix of the list.  How the system calls turn out is
    an input.  The encoder (encoding/gob) is a parameter. *)
From S2P Require Import Prelude GoText GoParse DetEngine DetPersist VppStats Startup.
#[local] Open Scope Z_scope.

(** ** The directory *)
Notation directory := (gmap string (list Z)) (only parsing).

Inductive effect :=
  | Created (name : string)
  | Appended (name : string) (byte : Z)
  | Renamed (old new : string)
  | Removed (name : string).

Definition apply_effect (d : directory) (e : effect) : directory :=
  match e with
  | Created n => <[n := []]> d
  | Appended n b => match d !! n with Some c => <[n := c ++ [b]]> d | None => d end
  | Renamed a b => match d !! a with Some c => <[b := c]> (delete a d) | None => d end
  | Removed n => delete n d
  end.

Definition replay (d : directory) (es : list effect) : directory := foldl apply_effect d es.

(** ** How the system calls of one save turn out *)
Record Outcomes := {
  oc_mkdir : bool;              (** [os.MkdirAll] succeeds *)
  oc_open : bool;               (** the directory accepts new files *)
  oc_random : list string;      (** what [os.CreateTemp] puts for the star, try by try *)
  oc_full : option nat;         (** the write of this byte fails, if any *)
  oc_close : bool;
  oc_rename : bool;
  oc_remove : bool
}.

Definition temp_name (r : string) : string := ".state-" +:+ r.

(** [os.CreateTemp]: a name that does not exist, within ten thousand tries. *)
Definition CreateTemp (oc : Outcomes) (d : directory) : option string :=
  if oc_open oc then temp_name <$> List.find (fun r => bool_decide (d !! temp_name r = None)) (take 10000 (oc_random oc)) else None.

Section StateFile.
(** What the encoder writes for a state, message by message, and the decoder. *)
Context (gob_Encode : agentState -> list (list Z)) (gob_Decode : list Z -> result gotext agentState).

Inductive loadError := NotExist | OpenError | DecodeError (path : string) (e : gotext).

(** [loadState]; [base] is the name of the file in its directory, [opens] says
    whether the system lets the process read an existing file. *)
Definition loadState (opens : bool) (path base : string) (d : directory) : result loadError agentState :=
  match d !! base with
  | None => Err NotExist
  | Some data => if negb opens then Err OpenError else match gob_Decode data with Ok st => Ok st | Err e => Err (DecodeError path e) end
  end.

(** The encoder's writes: what reached the file, and whether all of it did. *)
Definition encode_to (oc : Outcomes) (tmp : string) (st : agentState) : list effect * bool :=
  let bytes := concat (gob_Encode st) in
  match oc_full oc with
  | Some k => if (k <? length bytes)%nat then (Appended tmp <$> take k bytes, false) else (Appended tmp <$> bytes, true)
  | None => (Appended tmp <$> bytes, true)
  end.

(** [saveState]: the changes it makes and what it returns.  [filepath.Dir] never
    returns the empty string, so the directory is always made. *)
Definition saveState (oc : Outcomes) (base : string) (st : agentState) (d : directory) : list effect * result gotext unit :=
  if negb (oc_mkdir oc) then ([], Err (plain "create state dir: %w"))
  else
    match CreateTemp oc d with
    | None => ([], Err (plain "create temp state: %w"))
    | Some tmp =>
        let '(writes, whole) := encode_to oc tmp st in
        let '(rest, r) :=
          if negb whole then ([], Err (plain "encode state: %w"))
          else if negb (oc_close oc) then ([], Err (plain "close temp state: %w"))
          else if negb (oc_rename oc) then ([], Err (plain "rename state: %w"))
          else ([Renamed tmp base], Ok tt) in
        (Created tmp :: writes ++ rest ++ (if oc_remove oc then [Removed tmp] else []), r)
    end.

(** ** Start-up and shutdown (main.go) *)
Section Main.
Context {Program : Type}.

(** Loading before the engine observes anything: any failure means a fresh start. *)
Definition load_on_start (opens : bool) (o : RangeOrder) (persist base : string) (d : directory) (e : @Engine Program) (stats : option VStore)
  : @Engine Program * option VStore :=
  if String.eqb persist "" then (e, stats)
  else match loadState opens persist base d with
       | Ok st => import_state o st e stats
       | Err _ => (e, stats)
       end.

(** [onShutdown]: saving what the stopped runner left. *)
Definition save_on_shutdown (os : nat -> RangeOrder) (o : RangeOrder) (oc : Outcomes) (persist base : string)
    (d : directory) (e : @Engine Program) (stats : option VStore) : list effect :=
  if String.eqb persist "" then [] else (saveState oc base (export_state os o e stats) d).1.
End Main.
End StateFile.
