(* ===== verification/StateFileFacts.v ===== *)
(** * Saving the state is atomic

    At every point of a save the state file is the old one or the complete new
    one, whatever system calls fail and wherever the process is killed. *)
From S2P Require Import Prelude GoText GoParse DetEngine DetPersist VppStats Startup StateFile.
#[local] Open Scope Z_scope.

(** ** Changes to the temporary file *)
Definition touches (tmp : string) (e : effect) : Prop :=
  match e with
  | Created n | Appended n _ | Removed n => n = tmp
  | Renamed _ _ => False
  end.

Lemma replay_app d es es' : replay d (es ++ es') = replay (replay d es) es'.
Proof. apply foldl_app. Qed.

Lemma replay_touches tmp es d n : Forall (touches tmp) es -> n <> tmp -> replay d es !! n = d !! n.
Proof.
  intros Hes Hn. revert d. induction Hes as [|e es He Hes IH]; intros d; [done|].
  change (replay d (e :: es)) with (replay (apply_effect d e) es). rewrite IH.
  destruct e as [m|m b|a b|m]; cbn [apply_effect touches] in *; subst; [by rewrite lookup_insert_ne| |done|by rewrite lookup_delete_ne].
  destruct (d !! tmp); [by rewrite lookup_insert_ne|done].
Qed.

Lemma appends_touch tmp bs : Forall (touches tmp) (Appended tmp <$> bs).
Proof. apply Forall_fmap, Forall_true. done. Qed.

Lemma replay_appends tmp bs d c : d !! tmp = Some c -> replay d (Appended tmp <$> bs) !! tmp = Some (c ++ bs).
Proof.
  revert d c. induction bs as [|b bs IH]; intros d c Hd; [by rewrite app_nil_r|].
  rewrite fmap_cons. change (replay d (Appended tmp b :: ?l)) with (replay (apply_effect d (Appended tmp b)) l).
  rewrite (IH _ (c ++ [b])); [by rewrite <-app_assoc|]. cbn [apply_effect]. by rewrite Hd, lookup_insert_eq.
Qed.

Lemma temp_name_other base r : HasPrefix base ".state-" = false -> base <> temp_name r.
Proof. intros Hb ->. unfold temp_name in Hb. cbn in Hb. by destruct r. Qed.

Lemma CreateTemp_fresh oc d tmp : CreateTemp oc d = Some tmp -> d !! tmp = None /\ exists r, tmp = temp_name r.
Proof.
  unfold CreateTemp. destruct (oc_open oc); [|done]. rewrite fmap_Some. intros (r & Hr & ->).
  apply find_some in Hr as [_ Hr]. split; [by apply bool_decide_eq_true in Hr|eauto].
Qed.

Section Save.
Context (gob_Encode : agentState -> list (list Z)) (gob_Decode : list Z -> result gotext agentState).

(** A save either only works on its temporary file and fails, or renames the
    complete temporary file at one point. *)
Lemma saveState_shape oc base st d es r :
  saveState gob_Encode oc base st d = (es, r) ->
  (es = [] /\ r <> Ok tt) \/
  exists tmp, CreateTemp oc d = Some tmp /\ (oc_remove oc = true -> exists es', es = es' ++ [Removed tmp]) /\
    (Forall (touches tmp) es /\ r <> Ok tt \/
     exists pre post, es = pre ++ Renamed tmp base :: post /\ Forall (touches tmp) pre /\ Forall (touches tmp) post /\
       replay d pre !! tmp = Some (concat (gob_Encode st)) /\ r = Ok tt).
Proof.
  unfold saveState. destruct (oc_mkdir oc); simpl; [|intros [= <- <-]; by left].
  destruct (CreateTemp oc d) as [tmp|] eqn:Et; [|intros [= <- <-]; by left]. intros E. right. exists tmp. split; [done|].
  set (rem := if oc_remove oc then [Removed tmp] else []) in *.
  assert (Forall (touches tmp) rem) as Hrem by (unfold rem; destruct (oc_remove oc); by repeat constructor).
  assert (forall l, oc_remove oc = true -> exists es', l ++ rem = es' ++ [Removed tmp]) as Hlast.
  { intros l Hr. unfold rem. rewrite Hr. by exists l. }
  destruct (encode_to gob_Encode oc tmp st) as [ws whole] eqn:Ee.
  assert (Forall (touches tmp) ws /\ (whole = true -> ws = Appended tmp <$> concat (gob_Encode st))) as [Hws Hwhole].
  { unfold encode_to in Ee. repeat case_match; injection Ee as <- <-; split; (done || apply appends_touch). }
  revert E. destruct whole; cbn [negb]; [destruct (oc_close oc); cbn [negb]; [destruct (oc_rename oc); cbn [negb]|]|].
  1: { intros [= <- <-]. split; [|right].
       1: { intros Hr. destruct (Hlast (Created tmp :: ws ++ [Renamed tmp base]) Hr) as [es' E]. exists es'. rewrite <-E. simpl. by rewrite <-app_assoc. }
       exists (Created tmp :: ws), rem. split; [done|]. split; [by constructor|]. split; [done|]. split; [|done].
       change (replay d (Created tmp :: ws)) with (replay (<[tmp := []]> d) ws). rewrite Hwhole by done.
       apply (replay_appends tmp _ _ []). by rewrite lookup_insert_eq. }
  all: intros [= <- <-]; split; [apply (Hlast (Created tmp :: ws))|left; split; [|done]];
       constructor; [done|]; by apply Forall_app.
Qed.

Context (base : string) (Hbase : HasPrefix base ".state-" = false).

(** The states a crash can leave: the old file, or the complete new one. *)
Lemma saveState_crash oc st d es r n :
  saveState gob_Encode oc base st d = (es, r) ->
  replay d (take n es) !! base = d !! base \/ replay d (take n es) !! base = Some (concat (gob_Encode st)).
Proof using Hbase.
  intros E. destruct (saveState_shape _ _ _ _ _ _ E) as [[-> _]|(tmp & (_ & t & ->)%CreateTemp_fresh & _ & Hes)];
    [left; by rewrite take_nil|].
  pose proof (temp_name_other base t Hbase) as Hne. destruct Hes as [[Hes _]|(pre & post & -> & Hpre & Hpost & Htmp & _)].
  { left. apply replay_touches with (temp_name t); [by apply Forall_take|done]. }
  rewrite take_app. destruct (n - length pre)%nat as [|m] eqn:Em; [rewrite take_0, app_nil_r|].
  - left. apply replay_touches with (temp_name t); [by apply Forall_take|done].
  - right. rewrite take_ge by lia. cbn [take]. rewrite replay_app.
    change (replay ?x (?e :: ?l)) with (replay (apply_effect x e) l).
    rewrite (replay_touches (temp_name t)); [|by apply Forall_take|done].
    cbn [apply_effect]. rewrite Htmp. by rewrite lookup_insert_eq.
Qed.

(** What a save leaves when it returns. *)
Lemma saveState_returns oc st d es r :
  saveState gob_Encode oc base st d = (es, r) ->
  replay d es !! base = (if is_ok r then Some (concat (gob_Encode st)) else d !! base) /\
  (oc_remove oc = true -> forall name, name <> base -> replay d es !! name = d !! name).
Proof using Hbase.
  intros E. destruct (saveState_shape _ _ _ _ _ _ E) as [[-> Hr]|(tmp & [Hd [t Ht]]%CreateTemp_fresh & Hlast & Hes)].
  { by destruct r as [[]|]. }
  pose proof (temp_name_other base t Hbase) as Hne. rewrite <-Ht in Hne.
  assert (forall name, name <> base -> name <> tmp -> replay d es !! name = d !! name) as Hother.
  { intros name Hb Hn. destruct Hes as [[Hes _]|(pre & post & -> & Hpre & Hpost & Htmp & _)]; [by apply (replay_touches tmp)|].
    rewrite replay_app. change (replay ?x (?e :: ?l)) with (replay (apply_effect x e) l).
    rewrite (replay_touches tmp) by done. cbn [apply_effect]. rewrite Htmp, lookup_insert_ne, lookup_delete_ne by done.
    by apply (replay_touches tmp). }
  split.
  - destruct Hes as [[Hes Hr]|(pre & post & -> & Hpre & Hpost & Htmp & ->)].
    + destruct r as [[]|]; [done|]. by apply (replay_touches tmp).
    + rewrite replay_app. change (replay ?x (?e :: ?l)) with (replay (apply_effect x e) l).
      rewrite (replay_touches tmp) by done. cbn [apply_effect is_ok]. by rewrite Htmp, lookup_insert_eq.
  - intros Hrm name Hb. destruct (decide (name = tmp)) as [->|]; [|by apply Hother].
    destruct (Hlast Hrm) as [es' ->]. rewrite replay_app. cbn. by rewrite lookup_delete_eq, Hd.
Qed.
End Save.

(** ** Properties *)

(** C28: The agent's history survives any end of the process, for a state file whose
    name does not look like a temporary one and a gob encoding that decodes to what
    was encoded.  Kill the process at
    any point of the save at shutdown, after any byte and whatever calls failed
    before: the next start restores what it would have restored without the save,
    or exactly the state being saved, never a truncated one.  A save that returns
    without error is what the next start restores; one that reports an error
    leaves the old file; and unless the clean-up itself fails, no other file of
    the directory is changed or left behind. *)
Theorem save_is_atomic {Program : Type} (gob_Encode : agentState -> list (list Z)) (gob_Decode : list Z -> result gotext agentState)
    (os : nat -> RangeOrder) (o o' : RangeOrder) (oc : Outcomes) (persist base : string) (d : gmap string (list Z))
    (e e' : @Engine Program) (stats stats' : option VStore) :
  let st := export_state os o e stats in
  let es := save_on_shutdown gob_Encode os o oc persist base d e stats in
  let start d := load_on_start gob_Decode true o' persist base d e' stats' in
  persist <> "" -> HasPrefix base ".state-" = false -> gob_Decode (concat (gob_Encode st)) = Ok st ->
  (forall n, start (replay d (take n es)) = start d \/ start (replay d (take n es)) = import_state o' st e' stats') /\
  (start (replay d es) = if is_ok (saveState gob_Encode oc base st d).2 then import_state o' st e' stats' else start d) /\
  (oc_remove oc = true -> forall name, name <> base -> replay d es !! name = d !! name).
Proof.
  intros st es start Hp Hb Hg.
  assert (String.eqb persist "" = false) as Hp' by (by apply String.eqb_neq).
  destruct (saveState gob_Encode oc base st d) as [es' r] eqn:E.
  assert (es = es') as -> by (unfold es, save_on_shutdown; rewrite Hp'; fold st; by rewrite E).
  assert (forall d1 d2, d1 !! base = d2 !! base -> start d1 = start d2) as Hsame.
  { intros d1 d2 Hd. unfold start, load_on_start, loadState. by rewrite Hd. }
  assert (forall d1, d1 !! base = Some (concat (gob_Encode st)) -> start d1 = import_state o' st e' stats') as Hnew.
  { intros d1 Hd. unfold start, load_on_start, loadState. by rewrite Hp', Hd, Hg. }
  destruct (saveState_returns _ base Hb _ _ _ _ _ E) as [Hfin Hrm]. split; [|split; [|done]].
  - intros n. destruct (saveState_crash _ base Hb _ _ _ _ _ n E); [left|right]; auto.
  - cbn [snd]. destruct r; cbn [is_ok] in *; auto.
Qed.

(** A directory with an old state file and a temporary file left by a killed run,
    whose name is tried first. *)
Definition ex_dir : gmap string (list Z) := <["persist.dump" := [9]]> {[".state-1" := [1]]}.
Definition ex_outcomes : Outcomes :=
  {| oc_mkdir := true; oc_open := true; oc_random := ["1"; "2"]; oc_full := None; oc_close := true; oc_rename := true; oc_remove := true |}.
Definition ex_state : agentState := {| as_Detector := []; as_VPP := [] |}.
Definition ex_encode (st : agentState) : list (list Z) := [[1]; [2; 3]].
Definition ex_decode (bs : list Z) : result gotext agentState :=
  if bool_decide (bs = [1; 2; 3]) then Ok ex_state else Err (plain "unexpected EOF").

Lemma save_is_atomic_witness :
  let d' := replay ex_dir (save_on_shutdown ex_encode (fun _ => range_id) range_id ex_outcomes "/var/lib/persist.dump" "persist.dump"
                             ex_dir (@NewEngine unit []) None) in
  d' !! "persist.dump" = Some [1; 2; 3] /\ forall name, name <> "persist.dump" -> d' !! name = ex_dir !! name.
Proof.
  intros d'. split; [by vm_compute|].
  apply (@save_is_atomic unit ex_encode ex_decode (fun _ => range_id) range_id range_id ex_outcomes "/var/lib/persist.dump" "persist.dump"
           ex_dir (NewEngine []) (NewEngine []) None None); [done|by vm_compute..].
Defined.
