(* ===== verification/Status.v ===== *)
(** * The status page (cmd/flowspec-vpp-agent/status.go)

    The sources are set once at start-up and read at every request; before that,
    and in a deployment without the detector, they are nil and their parts of the
    response stay empty lists.  The JSON encoder is a library: the response is the
    value it is given. *)
From S2P Require Import Prelude GoText Netip Flowspec Packet Float64 DetTypes Manager LocalRules DetRule DetEmit DetEngine DetPersist VppStats.
#[local] Open Scope Z_scope.

Section Status.
Context {Program : Type}.

(** The collector is seen through [Dropped]; the flag of the runner says whether
    its loop has ended. *)
Record statusProvider := {
  sp_stats : option VStore;
  sp_runner : option (bool * @Runner Program);
  sp_leases : option Controller;
  sp_collector : option Z;
  sp_started : Z
}.

Record dropStats := { dr_Samples : Z; dr_SamplesPerSec : float64; dr_Events : Z; dr_EventsPerSec : float64 }.

Definition dropSnapshot (p : statusProvider) (now : Z) : dropStats :=
  let samples := default 0 (sp_collector p) in
  let events := match sp_runner p with Some (_, rn) => rn_dropped rn | None => 0 end in
  let secs := Seconds (LocalRules.time_Sub now (sp_started p)) in
  if f_lt f_zero secs
  then {| dr_Samples := samples; dr_SamplesPerSec := f_div (f_of_int samples) secs;
          dr_Events := events; dr_EventsPerSec := f_div (f_of_int events) secs |}
  else {| dr_Samples := samples; dr_SamplesPerSec := f_zero; dr_Events := events; dr_EventsPerSec := f_zero |}.

Record statusResponse := {
  re_Time : Z;
  re_Traffic : list (string * Z * Rates);
  re_Rules : list RuleSnapshot;
  re_Active : list LeaseSnapshot;
  re_Drops : dropStats
}.

(** [handler]; [None] is a panic of the run loop that builds the view. *)
Definition handler (o : RangeOrder) (os : nat -> RangeOrder) (p : statusProvider) (now : Z) : option statusResponse :=
  rules ← (match sp_runner p with Some (stopped, rn) => Runner_Snapshot os stopped rn now | None => Some [] end);
  Some {| re_Time := now;
          re_Traffic := match sp_stats p with Some s => store_Snapshot o s | None => [] end;
          re_Rules := rules;
          re_Active := match sp_leases p with Some c => Snapshot c | None => [] end;
          re_Drops := dropSnapshot p now |}.
End Status.
