(* ===== verification/StatusFacts.v ===== *)
(** * What the status page shows

    The page is served in every state of the detector, and its lists are the
    tracked instances, the drop counters and, because the controller publishes
    after every change, exactly the active leases. *)
From S2P Require Import Prelude GoText Netip Flowspec VppTypes Packet Spread Float64 DetTypes Translate Manager ManagerFacts HeavyKeeper Store DetRule DetRuleFacts DetEmit DetEngine DetEngineFacts LocalRules LocalRulesFacts DetPersist DetPersistFacts VppStats Status.
#[local] Open Scope Z_scope.

(** The published view of the leases is current. *)
Definition lease_view (idl : string * lease) : LeaseSnapshot :=
  {| ls_EventID := idl.1; ls_Family := Family_String (r_Family (l_rule idl.2)); ls_FlowSpec := r_Raw (l_rule idl.2);
     ls_ExpiresAt := l_expiresAt idl.2 |}.

Definition published (c : Controller) : Prop := Permutation (Snapshot c) (map lease_view (map_to_list (c_leases c))).

Lemma publish_published o c : published (publish o c).
Proof. unfold published, Snapshot, publish. cbn [c_latest c_leases default]. apply Permutation_map, range_perm. Qed.

Lemma expire_loop_unchanged dlv now ls c out : forall c' out', expire_loop dlv now ls c out false = (c', out', false) -> c' = c.
Proof.
  assert (forall ls c out c' out', expire_loop dlv now ls c out true = (c', out', false) -> False) as Htrue.
  { clear. induction ls as [|[id l] ls IH]; intros c out c' out'; cbn [expire_loop]; [done|]. destruct (now <? _); apply IH. }
  revert c out. induction ls as [|[id l] ls IH]; intros c out c' out'; cbn [expire_loop]; [by intros [= <- _]|].
  destruct (now <? _); [apply IH|]. by intros ?%Htrue.
Qed.

Lemma run_turn_published o t c c' out : published c -> run_turn o t c = (c', out) -> published c'.
Proof.
  intros Hc. destruct t as [now ev|now|dlv]; cbn [run_turn].
  - unfold applyEvent. case_bool; [by intros [= <- _]|]. case_bool; [by intros [= <- _]|]. cbn zeta.
    destruct (c_leases c !! ev_ID ev) as [l|]; [case_bool; [case_bool|]|]; intros [<- _]%pair_equal_spec;
      done || apply publish_published.
  - unfold expire. destruct (expire_loop _ _ _ _ _ _) as [[c1 o1] []] eqn:E; intros [<- _]%pair_equal_spec; [apply publish_published|].
    by apply expire_loop_unchanged in E as ->.
  - unfold withdrawAll. destruct (withdrawAll_loop _ _ _ _) as [c1 o1]. intros [<- _]%pair_equal_spec. apply publish_published.
Qed.

Lemma Run_published turns c : published c -> published (LocalRules.Run turns c).1.
Proof.
  revert c. induction turns as [|[o t] turns IH]; intros c Hc; [done|]. rewrite Run_cons.
  destruct (run_turn o t c) as [c1 o1] eqn:E. apply run_turn_published in E; [|done]. specialize (IH c1 E).
  by destruct (LocalRules.Run turns c1).
Qed.

(** The status page is complete.  After any run of the detector and of the lease
    controller, a request is answered; it lists every rule with exactly its
    tracked instances, exactly the active leases, and the drop counters. *)
Theorem status_page_faithful {Program} Pow run os os' o (rules : list (Rule Program)) cap stats inputs turns store dropped started now :
  Forall rule_ok rules -> Forall (fun r => NoDup (r_protoFilter r)) rules -> 0 <= cap -> Forall input_ok inputs ->
  exists rn resp, run_loop Pow run os (NewRunnerWithContext (NewEngine rules) cap stats) inputs = Some rn /\
    handler o os' {| sp_stats := store; sp_runner := Some (false, rn); sp_leases := Some (LocalRules.Run turns newController).1;
                     sp_collector := Some dropped; sp_started := started |} now = Some resp /\
    Forall2 views_rule (re_Rules resp) (en_rules (rn_engine rn)) /\
    Permutation (re_Active resp) (map lease_view (map_to_list (c_leases (LocalRules.Run turns newController).1))) /\
    dr_Samples (re_Drops resp) = dropped /\ dr_Events (re_Drops resp) = rn_dropped rn.
Proof.
  intros Hok Hpf Hcap Hin.
  destruct (run_loop_ok Pow run os (NewRunnerWithContext (NewEngine rules) cap stats) inputs) as (rn & Hrn & [He _] & _);
    [split; [by apply NewEngine_ok|unfold len; cbn; lia]|done|].
  destruct (engine_Snapshot_total os' (rn_engine rn) now (rn_stats rn) He) as (vs & Hvs & Hall).
  exists rn. unfold handler. cbn [sp_runner Runner_Snapshot]. rewrite Hvs. cbn [mbind option_bind].
  eexists. split; [done|]. split; [reflexivity|]. cbn [re_Rules re_Active re_Drops sp_leases]. split; [done|].
  split; [apply Run_published; unfold published; cbn; by rewrite map_to_list_empty|]. unfold dropSnapshot. cbn [sp_collector sp_runner default]. cbv zeta. by destruct (f_lt _ _).
Qed.
