(* ===== verification/Lifecycle.v ===== *)
(** * The life of the process (cmd/flowspec-vpp-agent/main.go: main, run, startHTTP, shutdownHTTP, runHealthcheck)

    [run] acquires the pieces of the agent one after the other, with a deferred
    release for each, starts the goroutines, blocks in the manager's loop, and
    saves the history.  It is written in a small monad whose state is the trace of
    what happened and the stack of deferred calls; a computation ends with a value,
    with an error or in a panic.  How the calls into the other components turn out
    is an input ([world]), and a call may panic too; a panic in a goroutine ends the
    process at any point after the goroutine was started.  The goroutines themselves
    are the subject of [Agent] and [System]. *)
From S2P Require Import Prelude GoText GoParse DetTypes DetRule DetCompile DetEngine VppTypes VppClient BgpServer VppStats DetPersist Logging Config Startup StateFile.
#[local] Open Scope Z_scope.

(** ** How a computation ends *)
Inductive outcome (A : Type) := Finished (a : A) | Failed (e : cerror) | Panicked.
Arguments Finished {A} a.
Arguments Failed {A} e.
Arguments Panicked {A}.

Definition succeeded {A} (o : outcome A) : bool := match o with Finished _ => true | _ => false end.

(** [fmt.Errorf("...: %w", err)] around a call's error. *)
Definition rewrap {A} (msg : gotext) (o : outcome A) : outcome A := match o with Failed e => Failed (msg :: e) | _ => o end.

Section Lifecycle.
Context {Program : Type}.

(** ** What happens *)
Inductive part := PCollector | PStats | PRunner | PLeases.   (** the pointers of the [statusProvider] *)

Inductive goroutine :=
  | GEndpoint (addr : string)
  | GForwarder
  | GSource (src : sampleSource)
  | GPoller (socket : string) (interval : Z)
  | GRunner (e : @Engine Program) (stats : option VStore)
  | GLeases (dryRun advertise : bool).

Inductive action :=
  | NotifySignals | StopSignals
  | Register (metric : string)
  | ShutdownHTTP (addr : string)
  | ConnectVPP (socket : string) (cfg : ClientConfig) (ok : bool) | CloseVPP
  | StartBGP (opts : Options) (ok : bool) | StopBGP
  | ListenSource (src : sampleSource) (ok : bool)
  | Publish (p : part)
  | LoadState (path : string)
  | Go (g : goroutine)
  | RunManager
  | WaitRunner
  | SaveState (path : string) (changes : list effect).

(** ** Computations with deferred calls *)
(** [j_registry]: the metrics the run's registry holds. *)
Record jobs := { j_trace : list action; j_deferred : list (list action); j_registry : list string }.

Definition prog (A : Type) : Type := jobs -> outcome A * jobs.

Definition done {A} (a : A) : prog A := fun j => (Finished a, j).
Definition fail {A} (e : cerror) : prog A := fun j => (Failed e, j).
Definition panic {A} : prog A := fun j => (Panicked, j).
Definition andThen {A B} (p : prog A) (f : A -> prog B) : prog B := fun j =>
  match p j with
  | (Finished a, j') => f a j'
  | (Failed e, j') => (Failed e, j')
  | (Panicked, j') => (Panicked, j')
  end.
Definition act (a : action) : prog unit := fun j =>
  (Finished tt, {| j_trace := j_trace j ++ [a]; j_deferred := j_deferred j; j_registry := j_registry j |}).
Definition acts (l : list action) : prog unit := fun j =>
  (Finished tt, {| j_trace := j_trace j ++ l; j_deferred := j_deferred j; j_registry := j_registry j |}).
Definition defer (l : list action) : prog unit := fun j =>
  (Finished tt, {| j_trace := j_trace j; j_deferred := l :: j_deferred j; j_registry := j_registry j |}).
Definition lift {A} (o : outcome A) : prog A := fun j => (o, j).

(** A function call: the deferred calls run last in first out, on every way out. *)
Definition call {A} (p : prog A) : outcome A * list action :=
  let '(o, j) := p {| j_trace := []; j_deferred := []; j_registry := [] |} in (o, j_trace j ++ concat (j_deferred j)).

#[local] Notation "x <~ p ; q" := (andThen p (fun x => q)) (at level 100, p at next level, right associativity).
#[local] Notation "p ;; q" := (andThen p (fun _ => q)) (at level 100, right associativity).

(** ** How the calls turn out *)
Record world := {
  w_registers : list string -> string -> bool;    (** the registry, holding these metrics, takes one more *)
  w_connect : outcome unit;                       (** [vpp.Connect] *)
  w_speaker : outcome unit;                       (** [bgpSrv.Start] *)
  w_rules : outcome (list (Rule Program));        (** [compileDetectorRules] *)
  w_fits : Z -> bool;                             (** the runtime can allocate a channel of that many slots *)
  w_listen : sampleSource -> outcome unit;        (** [src.Listen] *)
  w_manages : bool;                               (** [mgr.Run] returns; it panics otherwise *)
  w_crash : option nat;                           (** a goroutine panics once the process has done so much *)
  w_opens : bool;                                 (** an existing state file can be read *)
  w_base : string;                                (** the last element of the state file's path *)
  w_order : RangeOrder;
  w_orders : nat -> RangeOrder;
  w_dir : gmap string (list Z);                   (** the state file's directory, at the start *)
  w_dir_end : gmap string (list Z);               (** and at the end *)
  w_saves : Outcomes;                             (** the system calls of the save *)
  w_history : @Engine Program * option VStore -> @Engine Program * option VStore  (** what the loops make of the history *)
}.

Context (gob_Encode : agentState -> list (list Z)) (gob_Decode : list Z -> result gotext agentState).

(** ** startHTTP and shutdownHTTP: the server, if any, is known by its address *)
Definition startHTTP (addr : string) : prog (option string) :=
  if String.eqb addr "" then done None
  else act (Go (GEndpoint addr));; done (Some addr).

Definition shutdownHTTP (srv : option string) : list action :=
  match srv with None => [] | Some addr => [ShutdownHTTP addr] end.

(** ** run *)
(** [make(chan T, n)] *)
Definition make_chan (w : world) (n : Z) : prog unit := if (n <? 0) || negb (w_fits w n) then panic else done tt.

(** [MustRegister]: panics when the registry refuses the metric. *)
Definition must_register (w : world) (name : string) : prog unit := fun j =>
  if w_registers w (j_registry j) name then
    (Finished tt, {| j_trace := j_trace j ++ [Register name]; j_deferred := j_deferred j; j_registry := j_registry j ++ [name] |})
  else (Panicked, j).

(** [metrics.New]: three metrics, each registered as it is made. *)
Definition metrics_New (w : world) : prog unit :=
  must_register w "flowspec_rules_ignored_total";;
  must_register w "flowspec_rules_applied_total";;
  must_register w "flowspec_acl_entries".

Definition client_config (c : Config) : ClientConfig :=
  {| InterfaceMode := ic_Mode (cf_ACL c); InterfaceList := ic_List (cf_ACL c); cfg_Direction := direction (ic_Direction (cf_ACL c));
     ACLTagV4 := ""; ACLTagV6 := "" |}.

Definition run_bgp (w : world) (c : Config) : prog bool :=
  if BGPEnabled c then
    act (StartBGP (toBGPOptions (cf_BGP c)) (succeeded (w_speaker w)));;
    lift (rewrap (plain "start BGP: %w") (w_speaker w));;
    defer [StopBGP];;
    act (Go GForwarder);;
    done true
  else done false.

(** The sample source, bound and started. *)
Definition run_source (w : world) (det : Detector) : prog unit :=
  match collector_source det with
  | None => panic
  | Some src =>
      act (ListenSource src (succeeded (w_listen w src)));;
      lift (rewrap (Text "listen %s collector: %w" [AStr (CollectorMode det)]) (w_listen w src));;
      act (Publish PCollector);;
      must_register w "detector_samples_dropped_total";;
      act (Go (GSource src))
  end.

Definition run_stats (c : Config) (det : Detector) : prog (option VStore) :=
  match dt_VPPStats det with
  | None => done None
  | Some v =>
      act (Publish PStats);;
      act (Go (GPoller (vc_StatsSocket (cf_VPP c)) (vs_Interval v)));;
      done (Some (newStore (vppRingConfig v)))
  end.

(** The detector; what is returned is [onShutdown]. *)
Definition run_detector (w : world) (c : Config) (bgpSrv : bool) (det : Detector) : prog (list action) :=
  rules <~ lift (w_rules w);
  make_chan w (dt_SampleQueue det);;
  make_chan w (dt_EventQueue det);;
  run_source w det;;
  statsStore <~ run_stats c det;
  (if String.eqb (cf_Persist c) "" then done tt else act (LoadState (cf_Persist c)));;
  let '(engine, statsStore) := load_on_start gob_Decode (w_opens w) (w_order w) (cf_Persist c) (w_base w) (w_dir w) (NewEngine rules) statsStore in
  act (Publish PRunner);;
  must_register w "detector_events_dropped_total";;
  act (Go (GRunner engine statsStore));;
  let onShutdown :=
    if String.eqb (cf_Persist c) "" then []
    else let '(e, s) := w_history w (engine, statsStore) in
         [WaitRunner;
          SaveState (cf_Persist c) (save_on_shutdown gob_Encode (w_orders w) (w_order w) (w_saves w) (cf_Persist c) (w_base w) (w_dir_end w) e s)] in
  act (Publish PLeases);;
  act (Go (GLeases (dt_DryRun det) (bgpSrv && hasSendPeer (cf_BGP c))));;
  done onShutdown.

Definition run_body (w : world) (c : Config) : prog unit :=
  act NotifySignals;;
  defer [StopSignals];;
  metrics_New w;;
  httpSrv <~ startHTTP (cf_MetricsListen c);
  defer (shutdownHTTP httpSrv);;
  act (ConnectVPP (vc_Socket (cf_VPP c)) (client_config c) (succeeded (w_connect w)));;
  lift (rewrap (plain "connect VPP: %w") (w_connect w));;
  defer [CloseVPP];;
  bgpSrv <~ run_bgp w c;
  onShutdown <~ (match cf_Detector c with None => done [] | Some det => run_detector w c bgpSrv det end);
  act RunManager;;
  (if w_manages w then done tt else panic);;
  acts onShutdown.

Definition run (w : world) (c : Config) : outcome unit * list action := call (run_body w c).

(** ** main and the health check *)
Section Main.
Context {Data : Type} (Unmarshal : Data -> Config -> result gotext Config) (ReadFile : string -> result gotext Data).
(** What pflag makes of the arguments, with the default given: the value of
    [--config], and the status the process exits with when the arguments are wrong
    or ask for help. *)
Context (pflag_config : string -> list string -> string * option Z).
(** The local HTTP request: its status code. *)
Context (http_Get : string -> result gotext Z).

Definition defaultConfigPath : string := "/etc/flowspec-vpp-agent/config.yaml".

(** internal/version: the three values are set by the build. *)
Context (Version Commit Date : string).

Definition version_String : string := Version +:+ " (" +:+ Commit +:+ ", " +:+ Date +:+ ")".

Inductive process_action :=
  | PrintVersion (v : string)
  | PrintError (what : string) (e : cerror)
  | OpenLog (o : LogOptions)
  | LogStarting
  | Did (a : action)
  | LogFatal (e : cerror)
  | CloseLog.

Definition healthz_url (port : Z) : string := "http://127.0.0.1:" +:+ itoa port +:+ "/healthz".

(** The deferred close of the response body is left out. *)
Definition runHealthcheck (args : list string) : list process_action * Z :=
  match Load Unmarshal ReadFile (pflag_config defaultConfigPath args).1 with
  | Err e => ([PrintError "healthcheck config error:" e], 1)
  | Ok cfg =>
      match healthcheck_port cfg with
      | None => ([], 0)
      | Some port =>
          match http_Get (healthz_url port) with
          | Err e => ([PrintError "healthcheck failed:" [e]], 1)
          | Ok code => if negb (code =? 200) then ([PrintError "healthcheck status:" [Text "%d" [AInt code]]], 1) else ([], 0)
          end
      end
  end.

(** What the process has done when a goroutine panics: no deferred call runs. *)
Definition is_go (a : action) : bool := match a with Go _ => true | _ => false end.

Definition crashed (w : world) (tr : list action) : option (list action) :=
  match w_crash w with
  | Some n => if (n <=? length tr)%nat && existsb is_go (take n tr) then Some (take n tr) else None
  | None => None
  end.

(** The exit status; a panic ends the process with status 2 before the log is closed. *)
Definition start_agent (w : world) (args : list string) : list process_action * Z :=
  let '(cfgPath, stopped) := pflag_config defaultConfigPath args in
  match stopped with
  | Some code => ([], code)
  | None =>
      match Load Unmarshal ReadFile cfgPath with
      | Err e => ([PrintError "config error:" e], 1)
      | Ok cfg =>
          let '(o, tr) := run w cfg in
          let began := [OpenLog (Log_Options (cf_Log cfg)); LogStarting] in
          match crashed w tr with
          | Some tr => (began ++ map Did tr, 2)
          | None =>
              match o with
              | Finished _ => (began ++ map Did tr ++ [CloseLog], 0)
              | Failed e => (began ++ map Did tr ++ [LogFatal e; CloseLog], 1)
              | Panicked => (began ++ map Did tr, 2)
              end
          end
      end
  end.

Definition main (w : world) (osArgs : list string) : list process_action * Z :=
  match osArgs with
  | _ :: cmd :: rest =>
      if String.eqb cmd "healthcheck" then runHealthcheck rest
      else if String.eqb cmd "version" then ([PrintVersion version_String], 0)
      else start_agent w (cmd :: rest)
  | _ => start_agent w []
  end.
End Main.
End Lifecycle.
