(* ===== verification/LifecycleFacts.v ===== *)
(** * Facts about the life of the process *)
From S2P Require Import Prelude GoText GoParse DetTypes DetRule DetCompile DetCompileFacts DetEngine VppTypes VppClient BgpServer VppStats DetPersist Logging Config ConfigFacts Startup StateFile Lifecycle.
#[local] Open Scope Z_scope.

(** ** What a run of the agent may do, in which order *)
Inductive resource := RSignals | REndpoint | RVPP | RSpeaker.

Definition resource_eqb (a b : resource) : bool :=
  match a, b with RSignals, RSignals | REndpoint, REndpoint | RVPP, RVPP | RSpeaker, RSpeaker => true | _, _ => false end.

Record phase := {
  ph_held : list resource;      (** what is held, the latest first *)
  ph_closing : bool;            (** something has been released *)
  ph_bound : bool;              (** the sample source is listening *)
  ph_running : bool;            (** the detector's loop has been started *)
  ph_managed : bool;            (** the manager's loop has returned *)
  ph_stopped : bool;            (** the detector's loop has been waited for *)
  ph_saved : bool
}.

Definition phase0 : phase :=
  {| ph_held := []; ph_closing := false; ph_bound := false; ph_running := false; ph_managed := false; ph_stopped := false; ph_saved := false |}.

Definition holds (r : resource) (p : phase) : bool := existsb (resource_eqb r) (ph_held p).

Definition set_held (h : list resource) (closing : bool) (p : phase) : phase :=
  {| ph_held := h; ph_closing := closing; ph_bound := ph_bound p; ph_running := ph_running p; ph_managed := ph_managed p;
     ph_stopped := ph_stopped p; ph_saved := ph_saved p |}.
Definition set_marks (bound running managed stopped saved : bool) (p : phase) : phase :=
  {| ph_held := ph_held p; ph_closing := ph_closing p; ph_bound := bound || ph_bound p; ph_running := running || ph_running p;
     ph_managed := managed || ph_managed p; ph_stopped := stopped || ph_stopped p; ph_saved := saved || ph_saved p |}.

(** Something is acquired once, while nothing has been released. *)
Definition acquire (r : resource) (allowed : bool) (p : phase) : option phase :=
  if allowed && negb (holds r p) && negb (ph_closing p) && negb (ph_managed p) then Some (set_held (r :: ph_held p) false p) else None.
(** What is released is what was acquired last. *)
Definition release (r : resource) (p : phase) : option phase :=
  match ph_held p with r' :: h => if resource_eqb r r' then Some (set_held h true p) else None | [] => None end.
Definition allow (cond : bool) (p' p : phase) : option phase := if cond && negb (ph_closing p) then Some p' else None.

(** The rules of the life cycle: sessions are opened on a connected VPP, a loop is
    started once what it reads from exists, history is loaded before the detector's
    loop starts and saved after it has stopped, both loops having ended, while VPP
    is still connected. *)
Definition watch {Program} (p : phase) (a : @action Program) : option phase :=
  match a with
  | NotifySignals => acquire RSignals true p
  | StopSignals => release RSignals p
  | Register _ => allow (holds RSignals p && negb (ph_managed p)) p p
  | ShutdownHTTP _ => release REndpoint p
  | ConnectVPP _ _ true => acquire RVPP (holds RSignals p) p
  | ConnectVPP _ _ false => allow (negb (holds RVPP p)) p p
  | CloseVPP => release RVPP p
  | StartBGP _ true => acquire RSpeaker (holds RVPP p) p
  | StartBGP _ false => allow (holds RVPP p) p p
  | StopBGP => release RSpeaker p
  | ListenSource _ ok => allow (negb (ph_bound p) && negb (ph_managed p)) (set_marks ok false false false false p) p
  | Publish PCollector => allow (ph_bound p) p p
  | Publish _ => allow (ph_bound p && negb (ph_managed p)) p p
  | LoadState _ => allow (negb (ph_running p) && negb (ph_managed p)) p p
  | Go (GEndpoint _) => acquire REndpoint (holds RSignals p) p
  | Go GForwarder => allow (holds RSpeaker p) p p
  | Go (GSource _) => allow (ph_bound p && negb (ph_running p)) p p
  | Go (GPoller _ _) => allow (ph_bound p && negb (ph_running p)) p p
  | Go (GRunner _ _) => allow (ph_bound p && negb (ph_running p)) (set_marks false true false false false p) p
  | Go (GLeases _ _) => allow (ph_running p && negb (ph_managed p)) p p
  | RunManager => allow (holds RVPP p && negb (ph_managed p)) (set_marks false false true false false p) p
  | WaitRunner => allow (ph_running p && ph_managed p) (set_marks false false false true false p) p
  | SaveState _ _ => allow (ph_stopped p && holds RVPP p && negb (ph_saved p)) (set_marks false false false false true p) p
  end.

Definition watch_all {Program} (p : phase) (tr : list (@action Program)) : option phase :=
  foldl (fun acc a => p ← acc; watch p a) (Some p) tr.

(** ** Every way through [run] *)
Section Run.
Context {Program : Type} (gob_Encode : agentState -> list (list Z)) (gob_Decode : list Z -> result gotext agentState).
Context (w : @world Program) (c : Config).
Notation run := (run gob_Encode gob_Decode).

(** How [run] ends: the first call that fails or panics, in the order of the
    calls, and how [run] reports it. *)
Definition source_stop (det : Detector) : outcome unit :=
  match collector_source det with
  | None => Panicked
  | Some src =>
      match w_listen w src with
      | Failed e => Failed (Text "listen %s collector: %w" [AStr (CollectorMode det)] :: e)
      | o => o
      end
  end.

Definition detector_stop (det : Detector) : outcome unit :=
  match w_rules w with
  | Failed e => Failed e
  | Panicked => Panicked
  | Finished _ => if w_fits w (dt_SampleQueue det) && w_fits w (dt_EventQueue det) then source_stop det else Panicked
  end.

Definition first_stop : outcome unit :=
  match w_connect w with
  | Failed e => Failed (plain "connect VPP: %w" :: e)
  | Panicked => Panicked
  | Finished _ =>
      match (if BGPEnabled c then w_speaker w else Finished tt) with
      | Failed e => Failed (plain "start BGP: %w" :: e)
      | Panicked => Panicked
      | Finished _ =>
          match (match cf_Detector c with None => Finished tt | Some det => detector_stop det end) with
          | Finished _ => if w_manages w then Finished tt else Panicked
          | o => o
          end
      end
  end.

(** The configuration has passed validation: queue sizes are positive and there
    is a source to build. *)
Definition can_start : Prop :=
  forall det, cf_Detector c = Some det -> 0 <= dt_SampleQueue det /\ 0 <= dt_EventQueue det /\ is_Some (collector_source det).

(** The metrics of the process; what Prometheus documents of a registry: a
    well-formed metric is refused only when one of its name is registered. *)
Definition metric_names : list string :=
  ["flowspec_rules_ignored_total"; "flowspec_rules_applied_total"; "flowspec_acl_entries";
   "detector_samples_dropped_total"; "detector_events_dropped_total"].

Definition registry_refuses_duplicates : Prop := forall reg name, name ∈ metric_names -> name ∉ reg -> w_registers w reg name = true.

(** The history the detector's loop starts with. *)
Definition initial_history (rules : list (Rule Program)) (det : Detector) : @Engine Program * option VStore :=
  load_on_start gob_Decode (w_opens w) (w_order w) (cf_Persist c) (w_base w) (w_dir w) (NewEngine rules)
    ((fun v => newStore (vppRingConfig v)) <$> dt_VPPStats det).

Definition final_save (h : @Engine Program * option VStore) : list effect :=
  let '(e, s) := w_history w h in
  save_on_shutdown gob_Encode (w_orders w) (w_order w) (w_saves w) (cf_Persist c) (w_base w) (w_dir_end w) e s.

Definition is_save (a : @action Program) : bool := match a with SaveState _ _ => true | _ => false end.
Definition is_runner (a : @action Program) : bool := match a with Go (GRunner _ _) => true | _ => false end.
Definition is_manager (a : @action Program) : bool := match a with RunManager => true | _ => false end.

(** What the trace shows of the history, for each outcome. *)
Definition history_of (o : outcome unit) (tr : list (@action Program)) : Prop :=
  match o with
  | Finished _ =>
      List.filter is_manager tr = [RunManager] /\
      match cf_Detector c with
      | None => List.filter is_runner tr = [] /\ List.filter is_save tr = []
      | Some det =>
          exists rules, w_rules w = Finished rules /\
          List.filter is_runner tr = [Go (GRunner (initial_history rules det).1 (initial_history rules det).2)] /\
          List.filter is_save tr =
            (if String.eqb (cf_Persist c) "" then [] else [SaveState (cf_Persist c) (final_save (initial_history rules det))])
      end
  | Failed _ => List.filter is_manager tr = [] /\ List.filter is_save tr = [] /\ List.filter is_runner tr = []
  | Panicked => List.filter is_save tr = []
  end.

Definition run_ok (r : outcome unit * list (@action Program)) : Prop :=
  (exists p, watch_all phase0 r.2 = Some p /\ ph_held p = []) /\
  history_of r.1 r.2 /\ r.1 = first_stop.

(** ** The detector's part *)
Definition opening (src : sampleSource) (det : Detector) : list (@action Program) :=
  [ListenSource src true; Publish PCollector; Register "detector_samples_dropped_total"; Go (GSource src)] ++
  match dt_VPPStats det with None => [] | Some v => [Publish PStats; Go (GPoller (vc_StatsSocket (cf_VPP c)) (vs_Interval v))] end ++
  (if String.eqb (cf_Persist c) "" then [] else [LoadState (cf_Persist c)]).

Definition closing (h : @Engine Program * option VStore) : list (@action Program) :=
  if String.eqb (cf_Persist c) "" then [] else [WaitRunner; SaveState (cf_Persist c) (final_save h)].

Definition detector_ways (advertise : bool) (det : Detector) (r : outcome (list (@action Program))) (l : list (@action Program)) : Prop :=
  match detector_stop det with
  | Finished _ =>
      exists rules src, w_rules w = Finished rules /\
        r = Finished (closing (initial_history rules det)) /\
        l = opening src det ++ [Publish PRunner; Register "detector_events_dropped_total";
                                Go (GRunner (initial_history rules det).1 (initial_history rules det).2);
                                Publish PLeases; Go (GLeases (dt_DryRun det) advertise)]
  | Failed e => r = Failed e /\ (l = [] \/ exists src, l = [ListenSource src false])
  | Panicked => r = Panicked /\ (l = [] \/ exists src, l = [ListenSource src false])
  end.

Context (Hok : can_start) (Hreg : registry_refuses_duplicates).

Lemma make_chan_ways n j : 0 <= n -> make_chan w n j = (if w_fits w n then Finished tt else Panicked, j).
Proof. intros Hn. unfold make_chan. destruct (Z.ltb_spec n 0); [lia|]. by destruct (w_fits w n). Qed.

Lemma must_register_ways name j :
  name ∈ metric_names -> name ∉ j_registry j ->
  must_register w name j =
    (Finished tt, {| j_trace := j_trace j ++ [Register name]; j_deferred := j_deferred j; j_registry := j_registry j ++ [name] |}).
Proof using Hreg. intros Hn Hj. unfold must_register. by rewrite Hreg. Qed.

(** The registry once [metrics.New] has returned. *)
Definition base_metrics : list string := take 3 metric_names.

Lemma metrics_New_ways j :
  j_registry j = [] ->
  metrics_New w j = (Finished tt, {| j_trace := j_trace j ++ map Register base_metrics; j_deferred := j_deferred j; j_registry := base_metrics |}).
Proof using Hreg.
  intros Hj. unfold metrics_New, andThen.
  rewrite !must_register_ways; cbn [j_trace j_deferred j_registry]; rewrite ?Hj; try (by apply (bool_decide_unpack _); vm_compute).
  by rewrite <-!app_assoc.
Qed.

Lemma run_detector_ways bgp det j :
  cf_Detector c = Some det -> j_registry j = base_metrics ->
  exists r l reg, run_detector gob_Encode gob_Decode w c bgp det j = (r, {| j_trace := j_trace j ++ l; j_deferred := j_deferred j; j_registry := reg |}) /\
    detector_ways (bgp && hasSendPeer (cf_BGP c)) det r l.
Proof using Hok Hreg.
  intros Hd Hj. destruct (Hok det Hd) as (Hs & He & [src Hc]). unfold detector_ways, detector_stop, source_stop. rewrite Hc.
  assert (forall r : outcome (list (@action Program)), (r, j) = (r, {| j_trace := j_trace j ++ []; j_deferred := j_deferred j; j_registry := j_registry j |})) as Hnil
    by (intros; destruct j; by rewrite app_nil_r).
  unfold run_detector, andThen, lift. destruct (w_rules w) as [rules|e|] eqn:Hr; [|eexists _, [], _; split; [apply Hnil|eauto]..].
  rewrite (make_chan_ways _ j Hs). destruct (w_fits w (dt_SampleQueue det)); cbn [andb]; [|eexists _, [], _; split; [apply Hnil|eauto]].
  rewrite (make_chan_ways _ j He). destruct (w_fits w (dt_EventQueue det)); cbn [andb]; [|eexists _, [], _; split; [apply Hnil|eauto]].
  unfold run_source. rewrite Hc. unfold act, andThen, lift. destruct (w_listen w src) as [[]|e|] eqn:Hl; cbn [rewrap succeeded];
    [|eexists _, [_], _; split; [reflexivity|eauto]..].
  rewrite must_register_ways; cbn [j_registry j_trace j_deferred]; rewrite ?Hj; try (by apply (bool_decide_unpack _); vm_compute).
  eexists _, _, _. split.
  2:{ exists rules, src. split_and!; [done| |]; reflexivity. }
  unfold initial_history, closing, final_save, opening, run_stats, andThen, act. cbn [done fmap option_fmap option_map].
  destruct (dt_VPPStats det) as [v|], (String.eqb (cf_Persist c) "");
    cbn [fmap option_fmap option_map done j_trace j_deferred j_registry app];
    destruct (load_on_start _ _ _ _ _ _ _ _) as [e s]; cbn [fst snd];
    rewrite must_register_ways; cbn [j_registry]; try (by apply (bool_decide_unpack _); vm_compute);
    try destruct (w_history w (e, s)); unfold done; cbn [j_trace j_deferred j_registry]; rewrite <- !app_assoc; done.
Qed.

(** ** All of [run] *)
Ltac way_out := split; [eexists; split; reflexivity|split; [first [done|by split_and!|split; [reflexivity|eexists; by split_and!]]|]].

Lemma run_all_ways : run_ok (run w c).
Proof using Hok Hreg.
  unfold run_ok, first_stop. unfold Lifecycle.run, call, run_body, run_bgp, startHTTP.
  unfold andThen, defer, act, acts, lift. cbn [j_trace j_deferred j_registry app]. rewrite metrics_New_ways by done. cbn [j_trace j_deferred j_registry app map base_metrics take metric_names].
  destruct (String.eqb (cf_MetricsListen c) "") eqn:Hm, (w_connect w) as [[]|e|] eqn:Hv;
    cbn [rewrap succeeded done j_trace j_deferred j_registry app]; [|by way_out|by way_out| |by way_out|by way_out].
  all: destruct (BGPEnabled c) eqn:Hb; [destruct (w_speaker w) as [[]|e|] eqn:Hs|];
    cbn [rewrap succeeded done j_trace j_deferred j_registry app]; [|by way_out|by way_out|].
  all: unfold history_of; destruct (cf_Detector c) as [det|] eqn:Hd; [|destruct (w_manages w); by way_out].
  all: match goal with |- context [run_detector _ _ _ _ ?b _ ?j] => destruct (run_detector_ways b det j Hd eq_refl) as (r & l & reg & -> & Hw) end.
  all: unfold detector_ways in Hw; destruct (detector_stop det) as [[]|e|];
    [destruct Hw as (rules & src & Hr & -> & ->)|destruct Hw as [-> [->|[src ->]]]; by way_out|destruct Hw as [-> [->|[src ->]]]; by way_out].
  all: cbn [j_trace j_deferred j_registry fst snd]; unfold opening, closing;
    destruct (dt_VPPStats det) as [v|], (String.eqb (cf_Persist c) ""), (w_manages w); way_out; done.
Qed.
End Run.

(** ** A configuration that loads *)
Section Loaded.
Context {Data : Type} (Unmarshal : Data -> Config -> result gotext Config) (ReadFile : string -> result gotext Data).

Lemma Load_detector_ok path c det : Load Unmarshal ReadFile path = Ok c -> cf_Detector c = Some det -> detector_ok det.
Proof.
  unfold Load, Parse. intros H Hd. next_stmt H. next_stmt H. injection H as <-. next_stmt S0. next_stmt S0. injection S0 as <-.
  destruct v2. unfold Validate in S2. next_stmt S2. next_stmt S2. next_stmt S2. next_stmt S2. next_stmt S2. next_stmt S2.
  replace (cf_Detector (applyDetectorDefaults v1)) with (Some det) in S7; [apply validate_detector_ok; by destruct v6|].
  rewrite <- Hd. destruct (String.eqb (cf_Persist (applyDetectorDefaults v1)) ""); reflexivity.
Qed.

Lemma Load_can_start path c : Load Unmarshal ReadFile path = Ok c -> can_start c.
Proof.
  intros Hl det Hd. destruct (Load_detector_ok _ _ _ Hl Hd) as [_ Hsrc [? ?] _].
  split_and!; [lia|lia|]. destruct Hsrc as [(g & -> & _)|(l & h & p & -> & _)]; by eexists.
Qed.
End Loaded.

Section Process.
Context {Program Data : Type} (gob_Encode : agentState -> list (list Z)) (gob_Decode : list Z -> result gotext agentState).
Context (Unmarshal : Data -> Config -> result gotext Config) (ReadFile : string -> result gotext Data).
Context (pflag_config : string -> list string -> string * option Z) (http_Get : string -> result gotext Z) (Version Commit Date : string).
Notation main := (main (Program:=Program) gob_Encode gob_Decode Unmarshal ReadFile pflag_config http_Get Version Commit Date).
Notation runHealthcheck := (runHealthcheck (Program:=Program) Unmarshal ReadFile pflag_config http_Get).

(** The health check succeeds exactly when the configuration loads and either
    there is no endpoint or the agent answers on the port of the configured one. *)
Lemma healthcheck_status args :
  (runHealthcheck args).2 = 0 <->
  exists c, Load Unmarshal ReadFile (pflag_config defaultConfigPath args).1 = Ok c /\
    (cf_MetricsListen c = "" \/ http_Get (healthz_url (splitListen (cf_MetricsListen c)).2) = Ok 200).
Proof.
  unfold Lifecycle.runHealthcheck, healthcheck_port. destruct (Load _ _ _) as [c|e]; [|split; [done|by intros (c & ? & _)]].
  destruct (String.eqb_spec (cf_MetricsListen c) "") as [E|E]; [split; [intros _; eauto|done]|].
  destruct (http_Get _) as [code|e] eqn:Hg; [|split; [done|intros (c' & [= <-] & [?|?]); congruence]].
  destruct (Z.eqb_spec code 200) as [->|Hc]; cbn [negb snd]; [split; [intros _; eauto|done]|].
  split; [done|]. intros (c' & [= <-] & [?|Hg']); congruence.
Qed.

Lemma watch_all_prefix (p : phase) (tr : list (@action Program)) n : is_Some (watch_all p tr) -> is_Some (watch_all p (take n tr)).
Proof.
  rewrite <- (take_drop n tr) at 1. unfold watch_all. rewrite foldl_app. generalize (foldl (fun acc a => p ← acc; watch p a) (Some p) (take n tr)).
  intros [q|]; [by eexists|]. induction (drop n tr) as [|a l IH]; [done|exact IH].
Qed.

(** How the process ends when [run] has ended: the log is closed unless it panicked. *)
Definition process_end (o : outcome unit) : list (@process_action Program) * Z :=
  match o with
  | Finished _ => ([CloseLog], 0)
  | Failed e => ([LogFatal e; CloseLog], 1)
  | Panicked => ([], 2)
  end.

(** C14: the life of the process, whatever goes wrong on the way.  Started with a
    configuration that loads, [main] opens the log, runs the agent, and ends as
    [first_stop] says: with status 0 and the log closed last when start-up succeeds
    and the manager's loop returns; with status 1, the log closed last after the
    record of the error, when a call of the start-up fails, the record naming the
    first that did; with status 2 and an unclosed log when a called component
    panics, a queue cannot be allocated - and never on a missing section, a
    negative size or the registration of a metric.  What [run] acquires (signals,
    endpoint, VPP, BGP) it releases in reverse order on each of these ways; only a
    panic in a goroutine, which ends the process where it stands, skips that.  On
    every prefix of the run, BGP is opened only on a connected VPP, a loop starts
    only once what it reads from exists, the state file is changed only after both
    loops have ended and before VPP is released.  The manager's loop starts only
    when start-up succeeded; the detector's loop starts from the history in the
    state file, and the history the loops left is saved exactly when the run ends
    normally with a state file configured. *)
Theorem process_lifecycle (w : @world Program) prog args path c :
  match args with cmd :: _ => cmd <> "healthcheck" /\ cmd <> "version" | [] => True end ->
  pflag_config defaultConfigPath args = (path, None) ->
  Load Unmarshal ReadFile path = Ok c ->
  registry_refuses_duplicates w ->
  exists tr p,
    main w (prog :: args) =
      match crashed w tr with
      | Some cut => ([OpenLog (Log_Options (cf_Log c)); LogStarting] ++ map Did cut, 2)
      | None => ([OpenLog (Log_Options (cf_Log c)); LogStarting] ++ map Did tr ++ (process_end (first_stop w c)).1, (process_end (first_stop w c)).2)
      end /\
    watch_all phase0 tr = Some p /\ ph_held p = [] /\ (forall n, is_Some (watch_all phase0 (take n tr))) /\
    history_of gob_Encode gob_Decode w c (first_stop w c) tr.
Proof.
  intros Ha Hp Hl Hreg. destruct (run_all_ways gob_Encode gob_Decode w c (Load_can_start _ _ path c Hl) Hreg) as ((p & Hw & Hh) & Ho & Hr).
  destruct (run _ _ w c) as [o tr] eqn:E. cbn [fst snd] in *. subst o. exists tr, p.
  assert (main w (prog :: args) = start_agent gob_Encode gob_Decode Unmarshal ReadFile pflag_config w args) as ->.
  { unfold Lifecycle.main. destruct args as [|cmd args]; [done|]. destruct Ha as [H1%String.eqb_neq H2%String.eqb_neq]. by rewrite H1, H2. }
  split_and!; [|done|done|intros n; by apply watch_all_prefix; eexists|done]. unfold start_agent. rewrite Hp, Hl, E.
  destruct (crashed w tr); [done|]. destruct (first_stop w c); cbn [process_end fst snd]; by rewrite ?app_nil_r.
Qed.

(** A configuration that loads may still end in a panic: its queue sizes have no
    upper bound, and a channel the runtime cannot allocate is not an error. *)
Theorem huge_queue_panics (w : @world Program) prog args path c det :
  match args with cmd :: _ => cmd <> "healthcheck" /\ cmd <> "version" | [] => True end ->
  pflag_config defaultConfigPath args = (path, None) ->
  Load Unmarshal ReadFile path = Ok c -> cf_Detector c = Some det ->
  registry_refuses_duplicates w ->
  w_connect w = Finished tt -> w_speaker w = Finished tt -> succeeded (w_rules w) = true ->
  w_fits w (dt_SampleQueue det) = false -> w_crash w = None ->
  (main w (prog :: args)).2 = 2 /\ CloseLog ∉ (main w (prog :: args)).1.
Proof.
  intros Ha Hp Hl Hd Hreg Hv Hs Hr Hf Hc.
  destruct (run_all_ways gob_Encode gob_Decode w c (Load_can_start _ _ path c Hl) Hreg) as (_ & _ & Ho).
  destruct (run _ _ w c) as [o tr] eqn:E. cbn [fst snd] in Ho.
  assert (first_stop w c = Panicked) as Hstop.
  { unfold first_stop. rewrite Hv. replace (if BGPEnabled c then w_speaker w else Finished tt) with (Finished tt) by (rewrite Hs; by destruct (BGPEnabled c)).
    rewrite Hd. unfold detector_stop. destruct (w_rules w); [|done..]. by rewrite Hf. }
  assert (main w (prog :: args) = ([OpenLog (Log_Options (cf_Log c)); LogStarting] ++ map Did tr, 2)) as ->.
  { unfold Lifecycle.main. destruct args as [|cmd args]; [|destruct Ha as [H1%String.eqb_neq H2%String.eqb_neq]; rewrite H1, H2];
      unfold start_agent; rewrite Hp, Hl, E, Ho, Hstop; unfold crashed; by rewrite Hc. }
  split; [done|]. cbn [fst app]. intros Hin. rewrite !elem_of_cons, list_elem_of_fmap in Hin. naive_solver.
Qed.
End Process.

(** ** Example: the first start, with a sample source that cannot be bound, and a restart that works *)
Definition ex_world (listens : outcome unit) : @world unit :=
  {| w_registers := fun reg name => negb (existsb (String.eqb name) reg);
     w_connect := Finished tt; w_speaker := Finished tt; w_rules := Finished []; w_fits := fun n => n <? 2 ^ 20; w_listen := fun _ => listens;
     w_manages := true; w_crash := None;
     w_opens := true; w_base := "persist.dump"; w_order := range_id; w_orders := fun _ => range_id; w_dir := ∅; w_dir_end := ∅;
     w_saves := {| oc_mkdir := true; oc_open := true; oc_random := ["1"]; oc_full := None; oc_close := true; oc_rename := true; oc_remove := false |};
     w_history := fun h => h |}.

Lemma ex_registry listens : registry_refuses_duplicates (ex_world listens).
Proof.
  intros reg name _ Hn. cbn. destruct (existsb (String.eqb name) reg) eqn:E; [|done]. apply existsb_exists in E as (x & Hx & ->%String.eqb_eq).
  by apply list_elem_of_In in Hx.
Qed.

Definition ex_main (listens : outcome unit) : list (@process_action unit) * Z :=
  main (fun _ => [[7]]) (fun _ => Err (plain "no state")) ex_unmarshal (fun _ => Ok tt) (fun path _ => (path, None)) (fun _ => Ok 200)
    "dev" "none" "unknown" (ex_world listens) ["flowspec-vpp-agent"; "-c"].

Lemma process_lifecycle_witness :
  (ex_main (Finished tt)).2 = 0 /\ (ex_main (Failed [plain "address in use"])).2 = 1 /\
  List.filter is_save (omap (fun a => match a with Did a => Some a | _ => None end) (ex_main (Finished tt)).1) =
    [SaveState "/etc/flowspec-vpp-agent/persist.dump" [Created ".state-1"; Appended ".state-1" 7; Renamed ".state-1" "persist.dump"]] /\
  exists tr, (ex_main (Failed [plain "address in use"])).1 =
    OpenLog (Log_Options (cf_Log ex_config)) :: LogStarting :: map Did tr ++
      [LogFatal [Text "listen %s collector: %w" [AStr "sflow"]; plain "address in use"]; CloseLog] /\
    List.filter is_save tr = [] /\ List.filter is_manager tr = [].
Proof.
  split; [vm_compute; reflexivity|]. split; [vm_compute; reflexivity|]. split; [vm_compute; reflexivity|].
  destruct (process_lifecycle (fun _ => [[7]]) (fun _ => Err (plain "no state")) ex_unmarshal (fun _ => Ok tt) (fun path _ => (path, None))
    (fun _ => Ok 200) "dev" "none" "unknown" (ex_world (Failed [plain "address in use"])) "flowspec-vpp-agent" ["-c"] defaultConfigPath
    (set_persist "/etc/flowspec-vpp-agent/persist.dump" (applyDetectorDefaults ex_config)))
    as (tr & p & Hm & _ & _ & _ & Hh); [split; discriminate|reflexivity|vm_compute; reflexivity|apply ex_registry|].
  exists tr. split; [unfold ex_main; rewrite Hm; reflexivity|]. destruct Hh as (? & ? & _). by split.
Defined.
