(* ===== verification/Sources.v ===== *)
(** * Opening the inputs of the detector (internal/psample/collector.go, internal/sflow/collector.go, internal/vppstats/poller.go)

    Binding the sample sources and the reconnecting loop of the statistics poller.
    What the netlink, socket and statistics libraries answer is an input; the
    connections a call opens and closes are recorded. *)
From S2P Require Import Prelude GoText GoParse Float64 DetTypes Packet Sflow VppStats DetCompile.
#[local] Open Scope Z_scope.

(** ** psample: New, Listen and the start of Run *)
Definition familyName : string := "psample".
Definition groupName : string := "packets".

Record netlink := {
  nl_Dial : result gotext unit;
  nl_GetFamily : string -> result gotext (list (string * Z));  (** the multicast groups: names and ids *)
  nl_JoinGroup : Z -> result gotext unit
}.

Inductive conn_event := Opened | Joined (id : Z) | Closed.

Record pcollector := { pc_group : Z; pc_conn : bool; pc_groupID : Z }.

Definition psample_New (group : Z) : pcollector := {| pc_group := group; pc_conn := false; pc_groupID := 0 |}.

Definition set_groupID (id : Z) (c : pcollector) : pcollector := {| pc_group := pc_group c; pc_conn := pc_conn c; pc_groupID := id |}.

Definition find_group (groups : list (string * Z)) (c : pcollector) : pcollector :=
  match List.find (fun g => String.eqb g.1 groupName) groups with Some g => set_groupID g.2 c | None => c end.

Definition psample_Listen (nl : netlink) (c : pcollector) : result cerror unit * pcollector * list conn_event :=
  match nl_Dial nl with
  | Err e => (Err [plain "dial generic netlink: %w"; e], c, [])
  | Ok _ =>
      match nl_GetFamily nl familyName with
      | Err e =>
          (Err [plain "resolve psample genetlink family (is the kernel psample module loaded?): %w"; e], c, [Opened; Closed])
      | Ok groups =>
          let c := find_group groups c in
          if pc_groupID c =? 0 then (Err [Text "psample multicast group %q not found" [AStr groupName]], c, [Opened; Closed])
          else
            match nl_JoinGroup nl (pc_groupID c) with
            | Err e => (Err [plain "join psample group: %w"; e], c, [Opened; Closed])
            | Ok _ => (Ok tt, {| pc_group := pc_group c; pc_conn := true; pc_groupID := pc_groupID c |}, [Opened; Joined (pc_groupID c)])
            end
      end
  end.

(** [Run]: a collector that is not bound yet binds itself; the connection is closed
    when the loop ends. *)
Definition psample_serve (nl : netlink) (c : pcollector) (inputs : list (collector_input (list (option (list attr) * Z)))) (q : collector)
  : result cerror unit * collector * list conn_event :=
  let '(r, c, tr) := if pc_conn c then (Ok tt, c, []) else psample_Listen nl c in
  match r with
  | Err e => (Err e, q, tr)
  | Ok _ =>
      let q := psample_Run (pc_group c) inputs q in
      (Ok tt, q, tr ++ (if cl_running q then [] else [Closed]))
  end.

(** ** sflow: Listen and the start of Run *)
Record scollector := { sc_addr : string; sc_pc : bool }.

Definition sflow_New (listen : string) : scollector := {| sc_addr := listen; sc_pc := false |}.

Definition sflow_Listen (ListenPacket : string -> result gotext unit) (c : scollector) : result gotext unit * scollector * list conn_event :=
  match ListenPacket (sc_addr c) with
  | Err e => (Err e, c, [])
  | Ok _ => (Ok tt, {| sc_addr := sc_addr c; sc_pc := true |}, [Opened])
  end.

Definition sflow_serve (ListenPacket : string -> result gotext unit) (c : scollector) (inputs : list (collector_input (list Z * Z))) (q : collector)
  : result gotext unit * collector * list conn_event :=
  let '(r, _, tr) := if sc_pc c then (Ok tt, c, []) else sflow_Listen ListenPacket c in
  match r with
  | Err e => (Err e, q, tr)
  | Ok _ =>
      let q := sflow_Run inputs q in
      (Ok tt, q, tr ++ (if cl_running q then [] else [Closed]))
  end.

(** ** The statistics poller *)
Definition poller_interval (interval : Z) : Z := if interval <=? 0 then Second else interval.

(** One call of [runConnected]: whether the context is cancelled before it, whether
    the socket answers, what the reads at the ticks return, and whether the context
    is cancelled during the pause after a failure.  When the reads are used up the
    context is cancelled. *)
Record round := {
  rd_cancelled : bool;
  rd_connect : result gotext unit;
  rd_reads : list (Z * result gotext (list IfaceStats));
  rd_interrupted : bool
}.

(** The loop over the ticker, with the counters of the previous tick; the flag says
    whether a read failed. *)
Fixpoint poll_ticks (o : RangeOrder) (reads : list (Z * result gotext (list IfaceStats))) (prev : option (gmap string counters)) (s : VStore)
  : option (VStore * bool) :=
  match reads with
  | [] => Some (s, false)
  | (_, Err _) :: _ => Some (s, true)
  | (now, Ok stats) :: reads' =>
      let cur := snapshot now stats in
      s ← (match prev with None => Some s | Some prev => poller_addRates o now prev cur s end);
      poll_ticks o reads' (Some cur) s
  end.

(** [sleepContext]: true when the context was cancelled first. *)
Definition sleepContext (r : round) : bool := rd_interrupted r.

Definition runConnected (o : RangeOrder) (r : round) (s : VStore) : option (VStore * bool * list conn_event) :=
  match rd_connect r with
  | Err _ => Some (s, sleepContext r, [])
  | Ok _ =>
      match poll_ticks o (rd_reads r) None s with
      | None => None
      | Some (s, failed) => Some (s, (if failed then sleepContext r else true), [Opened; Closed])
      end
  end.

(** [Poller.Run], for as many rounds as are given. *)
Fixpoint poller_Run (o : RangeOrder) (rounds : list round) (s : VStore) : option (VStore * bool * list conn_event) :=
  match rounds with
  | [] => Some (s, false, [])
  | r :: rounds' =>
      if rd_cancelled r then Some (s, true, [])
      else
        match runConnected o r s with
        | None => None
        | Some (s, true, tr) => Some (s, true, tr)
        | Some (s, false, tr) =>
            match poller_Run o rounds' s with
            | None => None
            | Some (s, stop, tr') => Some (s, stop, tr ++ tr')
            end
        end
  end.
