(* ===== verification/SourcesFacts.v ===== *)
(** * Facts about opening the inputs of the detector *)
From S2P Require Import Prelude GoText GoParse Float64 DetTypes Packet Sflow VppStats DetCompile Sources.
#[local] Open Scope Z_scope.

(** ** Binding a sample source *)

(** The connections left open after a trace. *)
Definition open_after (tr : list conn_event) : Z :=
  foldl (fun n e => match e with Opened => n + 1 | Closed => n - 1 | Joined _ => n end) 0 tr.

Definition packets_group (groups : list (string * Z)) : option Z := snd <$> List.find (fun g => String.eqb g.1 groupName) groups.

Lemma find_group_New groups group : pc_groupID (find_group groups (psample_New group)) = default 0 (packets_group groups).
Proof. unfold find_group, packets_group. by destruct (List.find _ groups). Qed.

Lemma find_group_conn groups c : pc_conn (find_group groups c) = pc_conn c.
Proof. unfold find_group. by destruct (List.find _ groups). Qed.

(** A fresh PSAMPLE collector binds exactly when netlink can be dialled, the family
    exists, its first group named [packets] has a proper id and can be joined; it
    then holds one connection that has joined that group, and otherwise none. *)
Theorem psample_listen_exact nl group :
  let '(r, c, tr) := psample_Listen nl (psample_New group) in
  (r = Ok tt <->
     exists groups id, nl_Dial nl = Ok tt /\ nl_GetFamily nl "psample" = Ok groups /\ packets_group groups = Some id /\ id <> 0 /\ nl_JoinGroup nl id = Ok tt) /\
  pc_conn c = is_ok r /\ open_after tr = (if is_ok r then 1 else 0) /\ (r = Ok tt -> Joined (pc_groupID c) ∈ tr /\ pc_groupID c <> 0).
Proof.
  unfold psample_Listen, familyName. destruct (nl_Dial nl) as [[]|e]; [|split; [split; [done|by intros (? & ? & ? & _)]|done]].
  destruct (nl_GetFamily nl "psample") as [groups|e]; [|split; [split; [done|by intros (? & ? & _ & ? & _)]|done]].
  rewrite find_group_New. destruct (Z.eqb_spec (default 0 (packets_group groups)) 0) as [E|E].
  - split; [split; [done|]|by rewrite find_group_conn]. intros (gs & id & _ & Hgs & Hg & Hid & _). injection Hgs as <-. by rewrite Hg in E.
  - destruct (packets_group groups) as [gid|] eqn:Hg; [|done]. cbn [from_option id] in *.
    destruct (nl_JoinGroup nl gid) as [[]|e] eqn:Hj; (split; [split; [try done|]|]).
    + intros _. by exists groups, gid.
    + done.
    + split_and!; [done..|]. intros _. cbn [pc_groupID]. split; [set_solver|done].
    + intros (gs & id' & _ & Hgs & Hg' & _ & Hj'). injection Hgs as <-. congruence.
    + by rewrite find_group_conn.
Qed.

(** A collector that is bound, or binds itself, releases its connection when its
    loop ends, and one that cannot be bound holds none. *)
Theorem psample_serve_releases nl c inputs q :
  let '(r, q', tr) := psample_serve nl c inputs q in
  open_after tr + (if pc_conn c then 1 else 0) = (if is_ok r && cl_running q' then 1 else 0).
Proof.
  unfold psample_serve. destruct (pc_conn c) eqn:Hc; [by destruct (cl_running _)|].
  unfold psample_Listen. destruct (nl_Dial nl); [|done]. destruct (nl_GetFamily nl _) as [groups|]; [|done].
  destruct (_ =? 0); [done|]. destruct (nl_JoinGroup nl _); [|done]. by destruct (cl_running _).
Qed.

(** ** The poller's loop and the events of [VppStats.poll_run] *)
Fixpoint read_events (reads : list (Z * result gotext (list IfaceStats))) : list poll_event :=
  match reads with
  | [] => []
  | (_, Err _) :: _ => [PollFailed]
  | (now, Ok stats) :: reads' => PollTick now stats :: read_events reads'
  end.

(** The reads of a round end with a failure. *)
Definition read_fails (reads : list (Z * result gotext (list IfaceStats))) : bool := existsb (fun x => negb (is_ok x.2)) reads.

Fixpoint round_events (rounds : list round) : list poll_event :=
  match rounds with
  | [] => []
  | r :: rounds' =>
      if rd_cancelled r then []
      else match rd_connect r with
           | Err _ => if rd_interrupted r then [] else round_events rounds'
           | Ok _ => read_events (rd_reads r) ++ (if read_fails (rd_reads r) && negb (rd_interrupted r) then round_events rounds' else [])
           end
  end.

Definition on_poller (o : RangeOrder) (es : list poll_event) (acc : option poller) : option poller := foldl (fun acc e => p ← acc; poll_step o p e) acc es.

Lemma on_poller_None o es : on_poller o es None = None.
Proof. by induction es. Qed.

Lemma on_poller_app o es1 es2 acc : on_poller o (es1 ++ es2) acc = on_poller o es2 (on_poller o es1 acc).
Proof. apply foldl_app. Qed.

(** The reads of one connection: the store they leave, without counters when a read failed. *)
Lemma poll_ticks_events o reads prev s :
  match poll_ticks o reads prev s with
  | None => on_poller o (read_events reads) (Some {| pl_prev := prev; pl_store := s |}) = None
  | Some (s', failed) =>
      failed = read_fails reads /\
      exists prev', on_poller o (read_events reads) (Some {| pl_prev := prev; pl_store := s |}) = Some {| pl_prev := prev'; pl_store := s' |} /\
        (failed = true -> prev' = None)
  end.
Proof.
  revert prev s. induction reads as [|[now [stats|e]] reads IH]; intros prev s; cbn [poll_ticks read_events read_fails existsb].
  - split; [done|]. by exists prev.
  - change (on_poller o (PollTick now stats :: read_events reads) (Some {| pl_prev := prev; pl_store := s |})) with
      (on_poller o (read_events reads) (poll_step o {| pl_prev := prev; pl_store := s |} (PollTick now stats))).
    cbn [poll_step pl_prev pl_store]. destruct (match prev with None => _ | Some _ => _ end) as [s'|]; cbn [mbind option_bind]; [apply IH|apply on_poller_None].
  - split; [done|]. by exists None.
Qed.

(** The loop over connections is the stream of events the poller's theorems are
    about: counters are never compared across two connections, a failed connection
    changes nothing, and every connection that was opened is closed. *)
Theorem poller_loop_exact o rounds s :
  match poller_Run o rounds s with
  | None => poll_run o {| pl_prev := None; pl_store := s |} (round_events rounds) = None
  | Some (s', _, tr) =>
      (exists p, poll_run o {| pl_prev := None; pl_store := s |} (round_events rounds) = Some p /\ pl_store p = s') /\
      exists n, tr = concat (replicate n [Opened; Closed])
  end.
Proof.
  change (poll_run o) with (fun p es => on_poller o es (Some p)). cbv beta.
  revert s. induction rounds as [|r rounds IH]; intros s; cbn [poller_Run round_events]; [split; [by eexists|by exists 0%nat]|].
  destruct (rd_cancelled r); [split; [by eexists|by exists 0%nat]|]. unfold runConnected, sleepContext. destruct (rd_connect r) as [u|e].
  - pose proof (poll_ticks_events o (rd_reads r) None s) as Ht. rewrite (on_poller_app o (read_events (rd_reads r))).
    destruct (poll_ticks o (rd_reads r) None s) as [[s1 failed]|]; [|rewrite Ht; apply on_poller_None].
    destruct Ht as (-> & prev & -> & Hprev). destruct (read_fails (rd_reads r)); cbn [andb negb].
    + rewrite Hprev by done. destruct (rd_interrupted r); cbn [negb]; [split; [by eexists|by exists 1%nat]|]. specialize (IH s1).
      destruct (poller_Run o rounds s1) as [[[s2 stop] tr]|]; [|done]. destruct IH as [? [n ->]]. split; [done|]. by exists (S n).
    + split; [by eexists|by exists 1%nat].
  - destruct (rd_interrupted r); [split; [by eexists|by exists 0%nat]|]. specialize (IH s).
    destruct (poller_Run o rounds s) as [[[s2 stop] tr]|]; [|done]. done.
Qed.
